(** * Markdown table repair: the tournament implementations

    A shallow embedding of the classes of [fix_markdown_tables_tournament.py]
    that the specification's properties are about, and the properties
    themselves.  Python strings are sequences of Unicode code points; they are
    modelled as lists of code points, and the string methods the program
    calls ([splitlines], [split], [strip], [join], ...) are modelled after
    CPython's behaviour on them. *)

From Stdlib Require Import String Ascii.
From Stdlib Require Import List NArith ZArith Bool Arith Lia.
Import ListNotations.
Open Scope list_scope.

Set Implicit Arguments.

(* ================================================================== *)
(** * Python strings *)
(* ================================================================== *)

Module Py.

(** A character is its code point. *)
Abbreviation char := N (only parsing).
Abbreviation str := (list N) (only parsing).

(** String literals of the development: the code points of an ASCII text. *)
Definition of_string (s : string) : str :=
  map N_of_ascii (list_ascii_of_string s).

Definition LF : char := 10%N.
Definition CR : char := 13%N.
Definition SPACE : char := 32%N.
Definition PIPE : char := 124%N.
Definition DASH : char := 45%N.
Definition COLON : char := 58%N.

(** [Py_UNICODE_ISSPACE]: what [str.strip()] removes and the regular
    expression class [\s] matches. *)
Definition isspace (c : char) : bool :=
  ((9 <=? c) && (c <=? 13) || (28 <=? c) && (c <=? 32) || (c =? 133) ||
   (c =? 160) || (c =? 5760) || (8192 <=? c) && (c <=? 8202) ||
   (c =? 8232) || (c =? 8233) || (c =? 8239) || (c =? 8287) ||
   (c =? 12288))%N.

(** [Py_UNICODE_ISLINEBREAK]: the line boundaries of [str.splitlines()]. *)
Definition islinebreak (c : char) : bool :=
  ((10 <=? c) && (c <=? 13) || (28 <=? c) && (c <=? 30) || (c =? 133) ||
   (c =? 8232) || (c =? 8233))%N.

(** [c in s] for a one-character [c]. *)
Definition contains (c : char) (s : str) : bool := existsb (N.eqb c) s.

(** Truth value of a string or of a list: non-empty. *)
Definition truthy {A} (l : list A) : bool :=
  match l with [] => false | _ :: _ => true end.

Fixpoint dropwhile {A} (p : A -> bool) (l : list A) : list A :=
  match l with
  | [] => []
  | x :: l' => if p x then dropwhile p l' else l
  end.

Fixpoint takewhile {A} (p : A -> bool) (l : list A) : list A :=
  match l with
  | [] => []
  | x :: l' => if p x then x :: takewhile p l' else []
  end.

Definition lstrip (s : str) : str := dropwhile isspace s.
Definition rstrip (s : str) : str := rev (dropwhile isspace (rev s)).
Definition strip (s : str) : str := lstrip (rstrip s).

(** [s.startswith(c)] and [s.endswith(c)] for a one-character [c]. *)
Definition startswith (c : char) (s : str) : bool :=
  match s with [] => false | x :: _ => N.eqb x c end.
Definition endswith (c : char) (s : str) : bool := startswith c (rev s).

(** [a.startswith(p)] and [p in a] for strings. *)
Fixpoint prefixb (p a : str) : bool :=
  match p, a with
  | [], _ => true
  | _ :: _, [] => false
  | x :: p', y :: a' => N.eqb x y && prefixb p' a'
  end.

Fixpoint infixb (p a : str) : bool :=
  prefixb p a || match a with [] => false | _ :: a' => infixb p a' end.

(** Put [c] in front of the first piece. *)
Definition cons_first {A} (c : A) (ls : list (list A)) : list (list A) :=
  match ls with
  | [] => [[c]]
  | l :: ls' => (c :: l) :: ls'
  end.

(** [s.split(sep)] for a one-character separator: never an empty list. *)
Fixpoint split (sep : char) (s : str) : list str :=
  match s with
  | [] => [[]]
  | c :: s' => if N.eqb c sep then [] :: split sep s'
               else cons_first c (split sep s')
  end.

(** [s.splitlines()]: lines end at a line break, CR LF counts as one, and no
    empty last line is produced. *)
Fixpoint splitlines (s : str) : list str :=
  match s with
  | [] => []
  | c :: s' =>
      if islinebreak c then
        [] :: (if N.eqb c CR then
                 match s' with
                 | d :: s'' => if N.eqb d LF then splitlines s'' else splitlines s'
                 | [] => splitlines s'
                 end
               else splitlines s')
      else cons_first c (splitlines s')
  end.

(** [sep.join(ls)]. *)
Fixpoint join (sep : str) (ls : list str) : str :=
  match ls with
  | [] => []
  | [l] => l
  | l :: ls' => l ++ sep ++ join sep ls'
  end.

(** [enumerate(l)]. *)
Definition enumerate {A} (l : list A) : list (nat * A) :=
  combine (seq 0 (length l)) l.

(** [re.fullmatch(r':?-{3,}:?', s)]: an optional colon, three or more
    hyphens, an optional colon, and nothing else. *)
Definition opt_colon (s : str) : str :=
  match s with
  | c :: s' => if N.eqb c COLON then s' else s
  | [] => s
  end.

Definition fullmatch_sep (s : str) : bool :=
  let body := opt_colon s in
  let dashes := takewhile (N.eqb DASH) body in
  (3 <=? length dashes) &&
  match dropwhile (N.eqb DASH) body with
  | [] => true
  | [c] => N.eqb c COLON
  | _ => false
  end.

(** ** Exceptions

    A partial operation of the program (indexing a list, [max] of an empty
    sequence) raises; a loop that would not end is reported as [Diverge]. *)
Inductive exn : Set := IndexError | ValueError | Diverge.

Inductive result (A : Type) : Type :=
| Ok (a : A)
| Raise (e : exn).
Arguments Ok {A} a.
Arguments Raise {A} e.

Definition bind {A B} (x : result A) (k : A -> result B) : result B :=
  match x with
  | Ok a => k a
  | Raise e => Raise e
  end.

(** [l[i]] for [0 <= i]. *)
Definition getitem {A} (l : list A) (i : nat) : result A :=
  match nth_error l i with
  | Some a => Ok a
  | None => Raise IndexError
  end.

(** [max(l)] of a sequence of lengths. *)
Definition py_max (l : list nat) : result nat :=
  match l with
  | [] => Raise ValueError
  | x :: l' => Ok (fold_left Nat.max l' x)
  end.

(** [l[:k-1]] and [l[k-1:]] for [0 <= k]: at [k = 0] the index [-1] counts
    from the end of the list. *)
Definition slice_to_pred {A} (l : list A) (k : nat) : list A :=
  match k with
  | 0 => removelast l
  | S k' => firstn k' l
  end.

Definition slice_from_pred {A} (l : list A) (k : nat) : list A :=
  match k with
  | 0 => skipn (length l - 1) l
  | S k' => skipn k' l
  end.

(** A [while] loop: [fuel] bounds the number of iterations, and a loop that
    would go on beyond it is reported as [Diverge]. *)
Fixpoint while_loop {S : Type} (fuel : nat) (cond : S -> bool)
    (body : S -> result S) (s : S) : result S :=
  match fuel with
  | 0 => if cond s then Raise Diverge else Ok s
  | Datatypes.S fuel' =>
      if cond s then bind (body s) (while_loop fuel' cond body) else Ok s
  end.

(** [for x in l: acc = body(acc, x)], where the body may raise. *)
Fixpoint for_loop {A S : Type} (body : S -> A -> result S) (l : list A) (s : S)
  : result S :=
  match l with
  | [] => Ok s
  | x :: l' => bind (body s x) (for_loop body l')
  end.

(** [range(1, n, 2)]. *)
Fixpoint odd_range_from (i k : nat) : list nat :=
  match k with
  | 0 => []
  | S k' => i :: odd_range_from (i + 2) k'
  end.
Definition odd_range (n : nat) : list nat := odd_range_from 1 (n / 2).

End Py.

Declare Scope py_scope.
Delimit Scope py_scope with py.
Notation "x <- e ;; k" := (Py.bind e (fun x => k))
  (at level 61, e at next level, right associativity) : py_scope.
Open Scope py_scope.

(* ================================================================== *)
(** * class Grok3_round_5 *)
(* ================================================================== *)

Module Grok3_round_5.
Import Py.

(** The text between two cells of a rebuilt row, and its two ends. *)
Definition cell_sep : str := [SPACE; PIPE; SPACE].
Definition lead_pipe : str := [PIPE; SPACE].
Definition tail_pipe : str := [SPACE; PIPE].
Definition dashes3 : str := [DASH; DASH; DASH].

(** The loop of [merge_continuation_lines] over [merged] and [current]. *)
Definition flush_current (merged : list str) (current : option str) : list str :=
  match current with
  | Some c => merged ++ [c]
  | None => merged
  end.

Fixpoint merge_loop (lines merged : list str) (current : option str) : list str :=
  match lines with
  | [] => flush_current merged current
  | line :: rest =>
      if contains PIPE line then
        merge_loop rest (flush_current merged current) (Some (rstrip line))
      else
        match truthy (strip line), current with
        | true, Some c => merge_loop rest merged (Some (c ++ [SPACE] ++ strip line))
        | _, _ => merge_loop rest (flush_current merged current ++ [line]) None
        end
  end.

Definition merge_continuation_lines (lines : list str) : list str :=
  merge_loop lines [] None.

Definition parse_row (line : str) : list str :=
  let s := strip line in
  let s := if startswith PIPE s then tl s else s in
  let s := if endswith PIPE s then removelast s else s in
  map strip (split PIPE s).

Definition is_separator_cell (cell : str) : bool := fullmatch_sep (strip cell).

Definition is_separator_row (cells : list str) : bool :=
  forallb is_separator_cell (filter (fun c => truthy (strip c)) cells).

Definition is_valid_table (lines : list str) : bool :=
  if length lines <? 2 then false
  else
    match map parse_row (filter (contains PIPE) lines) with
    | r0 :: r1 :: rest =>
        if negb (is_separator_row r1) then false
        else forallb (fun r => length r =? length r0) (r0 :: r1 :: rest)
    | _ => false
    end.

Definition rebuild_row (cells : list str) (style : bool * bool) : str :=
  let s := join cell_sep cells in
  let s := if fst style then lead_pipe ++ s else s in
  if snd style then s ++ tail_pipe else s.

Definition normalize_row (row : list str) (target_cols : nat) : list str :=
  if length row <? target_cols then row ++ repeat [] (target_cols - length row)
  else if target_cols <? length row then
    slice_to_pred row target_cols ++ [join [SPACE] (slice_from_pred row target_cols)]
  else row.

(** The rows after the header, [i] running from 1 to the last index; the
    [while] loop of the repeated pattern adds one to [i] on each of its
    paths, so both loops visit every such row once, in order. *)
Definition data_rows (repeated : bool) (max_cols : nat)
    (rows : list (list str)) (flags : list bool) : list (list str) :=
  flat_map (fun rf : list str * bool =>
              if snd rf then []
              else if repeated then [fst rf; repeat dashes3 max_cols]
              else [fst rf])
           (combine (tl rows) (tl flags)).

Definition fix_table_block (merged_lines : list str) : result (list str) :=
  first_line <- getitem merged_lines 0 ;;
  let style := (startswith PIPE (strip first_line), endswith PIPE (strip first_line)) in
  let parsed_rows := map parse_row (filter (contains PIPE) merged_lines) in
  if negb (truthy parsed_rows) then Ok merged_lines
  else
    max_cols <- py_max (map (@length str) parsed_rows) ;;
    let parsed_rows := map (fun r => normalize_row r max_cols) parsed_rows in
    let sep_flags := map is_separator_row parsed_rows in
    (* the indices of [range(1, len(sep_flags), 2)] are below the length *)
    let odd_sep_count :=
      length (filter (fun i => nth i sep_flags false) (odd_range (length sep_flags))) in
    let total_odds := (length parsed_rows - 1) / 2 + 1 in
    (* [odd_sep_count >= total_odds / 2], the division being exact on floats *)
    let repeated_sep := (total_odds <=? 2 * odd_sep_count) && (1 <? odd_sep_count) in
    header <- getitem parsed_rows 0 ;;
    let fixed :=
      header :: repeat dashes3 max_cols ::
      data_rows repeated_sep max_cols parsed_rows sep_flags in
    Ok (map (fun r => rebuild_row r style) fixed).

Definition process_table_block (block_lines : list str) : result (list str) :=
  let merged := merge_continuation_lines block_lines in
  if (length merged <? 2) || negb (existsb (contains PIPE) merged) then Ok block_lines
  else if is_valid_table merged then Ok block_lines
  else fix_table_block merged.

(** The loop of [fix_invalid_markdown_tables] over [output], [table_block]
    and [in_table]. *)
Fixpoint scan (lines output table_block : list str) (in_table : bool)
  : result (list str) :=
  match lines with
  | [] =>
      if truthy table_block then
        fixed <- process_table_block table_block ;; Ok (output ++ fixed)
      else Ok output
  | line :: rest =>
      if contains PIPE line then scan rest output (table_block ++ [line]) true
      else if in_table then
        fixed <- process_table_block table_block ;;
        scan rest ((output ++ fixed) ++ [line]) [] false
      else scan rest (output ++ [line]) table_block false
  end.

Definition fix_lines (lines : list str) : result (list str) :=
  scan lines [] [] false.

Definition fix_invalid_markdown_tables (markdown_text : str) : result str :=
  output <- fix_lines (splitlines markdown_text) ;;
  Ok (join [LF] output).

End Grok3_round_5.

(* ================================================================== *)
(** * class O1_pro_round_5 *)
(* ================================================================== *)

Module O1_pro_round_5.
Import Py.

Definition cell_sep : str := [SPACE; PIPE; SPACE].
Definition lead_pipe : str := [PIPE; SPACE].
Definition tail_pipe : str := [SPACE; PIPE].
Definition dashes3 : str := [DASH; DASH; DASH].

Definition flush_current (merged : list str) (current : option str) : list str :=
  match current with
  | Some c => merged ++ [c]
  | None => merged
  end.

(** The loop of [_merge_continuation_lines]. *)
Fixpoint merge_loop (lines merged : list str) (current : option str) : list str :=
  match lines with
  | [] => flush_current merged current
  | ln :: rest =>
      if contains PIPE ln then
        merge_loop rest (flush_current merged current) (Some ln)
      else if truthy (strip ln) then
        match current with
        | Some c => merge_loop rest merged (Some (c ++ [SPACE] ++ strip ln))
        | None => merge_loop rest merged (Some ln)
        end
      else merge_loop rest (flush_current merged current ++ [ln]) None
  end.

Definition _merge_continuation_lines (lines : list str) : list str :=
  merge_loop lines [] None.

Definition _parse_row (line : str) : list str :=
  let s := strip line in
  let has_lead := startswith PIPE s in
  let has_tail := endswith PIPE s in
  let s := if has_lead then tl s else s in
  let s := if has_tail then removelast s else s in
  map strip (split PIPE s).

Definition _is_separator_cell (cell : str) : bool := fullmatch_sep (strip cell).

Definition _is_separator_row (cells : list str) : bool :=
  forallb _is_separator_cell (filter (fun c => truthy (strip c)) cells).

Definition _is_valid_table (lines : list str) : bool :=
  if length lines <? 2 then false
  else
    match map _parse_row (filter (contains PIPE) lines) with
    | r0 :: r1 :: rest =>
        if negb (_is_separator_row r1) then false
        else forallb (fun r => length r =? length r0) (r0 :: r1 :: rest)
    | _ => false
    end.

(** [odd_sep_count >= total_odd / 2.0] compares an integer with the half of
    an integer; the division is exact on floats, so the test is
    [total_odd <= 2 * odd_sep_count].  The indices of [range(1, len(rows), 2)]
    are below the length, so [rows[i]] is read with a default. *)
Definition _detect_repeated_separators (rows : list (list str)) : bool :=
  if length rows <? 3 then false
  else
    let odd := odd_range (length rows) in
    let total_odd := length odd in
    let odd_sep_count :=
      length (filter (fun i => _is_separator_row (nth i rows [])) odd) in
    total_odd <=? 2 * odd_sep_count.

Definition _normalize_row (row : list str) (target_cols : nat) : list str :=
  if length row <? target_cols then row ++ repeat [] (target_cols - length row)
  else if target_cols <? length row then
    slice_to_pred row target_cols ++ [join [SPACE] (slice_from_pred row target_cols)]
  else row.

Definition _rebuild_row (cells : list str) (style : bool * bool) : str :=
  let row_str := join cell_sep cells in
  let row_str := if fst style then lead_pipe ++ row_str else row_str in
  if snd style then row_str ++ tail_pipe else row_str.

(** The lines after the header's separator.  The [while] loop of the
    repeated case adds one to [i] on each of its paths, so it visits the
    rows after the first once each, in order, as the [for] loop of the other
    case does. *)
Definition data_lines (repeated : bool) (max_cols : nat) (style : bool * bool)
    (rows : list (list str)) : list str :=
  flat_map (fun r =>
              if _is_separator_row r then []
              else if repeated then
                [_rebuild_row r style; _rebuild_row (repeat dashes3 max_cols) style]
              else [_rebuild_row r style])
           (tl rows).

Definition _fix_invalid_table (lines : list str) : result (list str) :=
  let parsed_rows := map _parse_row (filter (contains PIPE) lines) in
  if negb (truthy parsed_rows) then Ok lines
  else
    first_line <- getitem lines 0 ;;
    let style := (startswith PIPE (strip first_line), endswith PIPE (strip first_line)) in
    max_cols <- py_max (map (@length str) parsed_rows) ;;
    let repeated_sep := _detect_repeated_separators parsed_rows in
    let parsed_rows := map (fun r => _normalize_row r max_cols) parsed_rows in
    header <- getitem parsed_rows 0 ;;
    Ok (_rebuild_row header style ::
        _rebuild_row (repeat dashes3 max_cols) style ::
        data_lines repeated_sep max_cols style parsed_rows).

Definition _process_table_block (block_lines : list str) : result (list str) :=
  let merged := _merge_continuation_lines block_lines in
  if _is_valid_table merged then Ok block_lines
  else _fix_invalid_table merged.

(** The loop of [fix_invalid_markdown_tables] over [out], [table_block] and
    [in_table]. *)
Fixpoint scan (lines out table_block : list str) (in_table : bool)
  : result (list str) :=
  match lines with
  | [] =>
      if truthy table_block then
        fixed <- _process_table_block table_block ;; Ok (out ++ fixed)
      else Ok out
  | line :: rest =>
      if contains PIPE line then scan rest out (table_block ++ [line]) true
      else if in_table then
        fixed <- _process_table_block table_block ;;
        scan rest ((out ++ fixed) ++ [line]) [] false
      else scan rest (out ++ [line]) table_block false
  end.

Definition fix_invalid_markdown_tables (markdown_text : str) : result str :=
  out <- scan (splitlines markdown_text) [] [] false ;;
  Ok (join [LF] out).

End O1_pro_round_5.

(* ================================================================== *)
(** * class Claude37_round_5 *)
(* ================================================================== *)

Module Claude37_round_5.
Import Py.

Definition cell_sep : str := [SPACE; PIPE; SPACE].
Definition lead_pipe : str := [PIPE; SPACE].
Definition tail_pipe : str := [SPACE; PIPE].
Definition dashes3 : str := [DASH; DASH; DASH].

Definition flush_current (merged : list str) (current : option str) : list str :=
  match current with
  | Some c => merged ++ [c]
  | None => merged
  end.

(** The loop of [merge_continuation_lines]. *)
Fixpoint merge_loop (lines merged : list str) (current : option str) : list str :=
  match lines with
  | [] => flush_current merged current
  | line :: rest =>
      if contains PIPE line then
        merge_loop rest (flush_current merged current) (Some (rstrip line))
      else if truthy (strip line) then
        match current with
        | Some c => merge_loop rest merged (Some (c ++ [SPACE] ++ strip line))
        | None => merge_loop rest merged (Some (rstrip line))
        end
      else
        let merged := flush_current merged current in
        merge_loop rest (if truthy (strip line) then merged ++ [line] else merged) None
  end.

Definition merge_continuation_lines (lines : list str) : list str :=
  merge_loop lines [] None.

Definition parse_row (line : str) : list str :=
  if negb (truthy line) || negb (contains PIPE line) then []
  else
    let s := strip line in
    let has_lead := startswith PIPE s in
    let has_tail := endswith PIPE s in
    let s := if has_lead then tl s else s in
    let s := if has_tail then removelast s else s in
    map strip (split PIPE s).

Definition is_separator_cell (cell : str) : bool := fullmatch_sep (strip cell).

Definition is_separator_row (cells : list str) : bool :=
  if negb (truthy cells) then false
  else forallb is_separator_cell (filter (fun c => truthy (strip c)) cells).

Definition is_valid_table (lines : list str) : bool :=
  if length lines <? 2 then false
  else
    match map parse_row (filter (contains PIPE) lines) with
    | r0 :: r1 :: rest =>
        if negb (is_separator_row r1) then false
        else forallb (fun r => length r =? length r0) (r0 :: r1 :: rest)
    | _ => false
    end.

Definition detect_table_style (line : str) : bool * bool :=
  let s := strip line in (startswith PIPE s, endswith PIPE s).

(** [odd_sep_count >= total_odds / 2]: the division is exact on floats. *)
Definition detect_separator_pattern (parsed_rows : list (list str)) : bool :=
  if length parsed_rows <? 3 then false
  else
    let sep_indices :=
      map fst (filter (fun ir => is_separator_row (snd ir)) (enumerate parsed_rows)) in
    if length sep_indices <=? 1 then false
    else
      let odd_sep_count := length (filter Nat.odd sep_indices) in
      let total_odds := (length parsed_rows - 1) / 2 in
      total_odds <=? 2 * odd_sep_count.

Definition normalize_row (row : list str) (target_cols : nat) : list str :=
  if length row <? target_cols then row ++ repeat [] (target_cols - length row)
  else if target_cols <? length row then
    if 1 <? target_cols then
      slice_to_pred row target_cols ++ [join [SPACE] (slice_from_pred row target_cols)]
    else [join [SPACE] row]
  else row.

Definition rebuild_row (cells : list str) (style : bool * bool) : str :=
  if negb (truthy cells) then []
  else
    let row := join cell_sep cells in
    let row := if fst style then lead_pipe ++ row else row in
    if snd style then row ++ tail_pipe else row.

(** The lines after the header's separator: [i] runs from 1 to the last
    index in both loops (the [while] loop adds one to [i] on each path). *)
Definition data_lines (repeated : bool) (max_cols : nat) (style : bool * bool)
    (rows : list (list str)) (is_sep : list bool) : list str :=
  flat_map (fun rf : list str * bool =>
              if snd rf then []
              else
                let data_row := normalize_row (fst rf) max_cols in
                if repeated then
                  [rebuild_row data_row style;
                   rebuild_row (repeat dashes3 max_cols) style]
                else [rebuild_row data_row style])
           (combine (tl rows) (tl is_sep)).

Definition fix_table_block (merged_lines : list str) : result (list str) :=
  first_line <- getitem merged_lines 0 ;;
  let style := detect_table_style first_line in
  let parsed_rows := map parse_row (filter (contains PIPE) merged_lines) in
  max_cols <- (if truthy parsed_rows then py_max (map (@length str) parsed_rows)
               else Ok 0) ;;
  let has_separators_after_rows := detect_separator_pattern parsed_rows in
  let is_sep := map is_separator_row parsed_rows in
  row0 <- getitem parsed_rows 0 ;;
  let header := normalize_row row0 max_cols in
  let separator := repeat dashes3 max_cols in
  Ok (rebuild_row header style :: rebuild_row separator style ::
      data_lines has_separators_after_rows max_cols style parsed_rows is_sep).

Definition process_table_block (block_lines : list str) : result (list str) :=
  let merged_lines := merge_continuation_lines block_lines in
  if (length merged_lines <? 2) || negb (existsb (contains PIPE) merged_lines)
  then Ok block_lines
  else if is_valid_table merged_lines then Ok block_lines
  else fix_table_block merged_lines.

(** The loop of [fix_invalid_markdown_tables] over [output], [table_block]
    and [in_table]. *)
Fixpoint scan (lines output table_block : list str) (in_table : bool)
  : result (list str) :=
  match lines with
  | [] =>
      if truthy table_block then
        fixed <- process_table_block table_block ;; Ok (output ++ fixed)
      else Ok output
  | line :: rest =>
      if contains PIPE line then scan rest output (table_block ++ [line]) true
      else if in_table && truthy (strip line) then
        scan rest output (table_block ++ [line]) in_table
      else if in_table then
        fixed <- process_table_block table_block ;;
        scan rest ((output ++ fixed) ++ [line]) [] false
      else scan rest (output ++ [line]) table_block in_table
  end.

Definition fix_lines (lines : list str) : result (list str) :=
  scan lines [] [] false.

Definition fix_invalid_markdown_tables (markdown_text : str) : result str :=
  output <- fix_lines (splitlines markdown_text) ;;
  Ok (join [LF] output).

End Claude37_round_5.

(* ================================================================== *)
(** * class Grok3_round_1 *)
(* ================================================================== *)

Module Grok3_round_1.
Import Py.

Definition dashes3 : str := [DASH; DASH; DASH].

Definition split_row (row : str) : list str := map strip (split PIPE row).

(** The grouping loop over [blocks] and [current_block]. *)
Fixpoint group_loop (lines : list str) (blocks : list (list str))
    (current_block : list str) : list (list str) :=
  match lines with
  | [] => if truthy current_block then blocks ++ [current_block] else blocks
  | line :: rest =>
      if truthy (strip line) then group_loop rest blocks (current_block ++ [line])
      else if truthy current_block then group_loop rest (blocks ++ [current_block]) []
      else group_loop rest blocks current_block
  end.

Definition group_blocks (lines : list str) : list (list str) :=
  group_loop lines [] [].

(** ['| ' + ' | '.join(cells) + ' |']. *)
Definition pipe_row (cells : list str) : str :=
  [PIPE; SPACE] ++ join [SPACE; PIPE; SPACE] cells ++ [SPACE; PIPE].

Definition pad (cells : list str) (num_columns : nat) : list str :=
  if length cells <? num_columns then cells ++ repeat [] (num_columns - length cells)
  else cells.

(** The lines one block becomes: the block itself when fewer than three of
    its lines have a pipe, the rebuilt table otherwise. *)
Definition fix_block (block : list str) : result (list str) :=
  let pipe_lines := length (filter (contains PIPE) block) in
  if pipe_lines <? 3 then Ok block
  else
    let cell_lists := map split_row block in
    num_columns <- py_max (map (@length str) cell_lists) ;;
    first <- getitem block 0 ;;
    let header_cells := pad (split_row first) num_columns in
    let separator := pipe_row (repeat dashes3 num_columns) in
    Ok (pipe_row header_cells :: separator ::
        map (fun line => pipe_row (pad (split_row line) num_columns)) (tl block)).

Definition fix_invalid_markdown_tables (markdown_text : str) : result str :=
  let lines := splitlines markdown_text in
  let blocks := group_blocks lines in
  fixed_blocks <-
    for_loop (fun acc block =>
                fixed <- fix_block block ;; Ok (acc ++ [join [LF] fixed]))
             blocks [] ;;
  Ok (join [LF; LF] fixed_blocks).

End Grok3_round_1.

(* ================================================================== *)
(** * class Claude37_round_3 *)
(* ================================================================== *)

Module Claude37_round_3.
Import Py.

Definition cell_sep : str := [SPACE; PIPE; SPACE].
Definition lead_pipe : str := [PIPE; SPACE].
Definition tail_pipe : str := [SPACE; PIPE].
Definition dashes3 : str := [DASH; DASH; DASH].

(** [merged[-1] += x], asked for only when [merged] is not empty. *)
Definition append_to_last (merged : list str) (x : str) : list str :=
  removelast merged ++ [last merged [] ++ x].

Fixpoint merge_loop (lines merged : list str) : list str :=
  match lines with
  | [] => merged
  | line :: rest =>
      if contains PIPE line then merge_loop rest (merged ++ [line])
      else if truthy merged && truthy (strip line) then
        merge_loop rest (append_to_last merged ([SPACE] ++ strip line))
      else merge_loop rest (merged ++ [line])
  end.

Definition merge_continuation_lines (lines : list str) : list str :=
  merge_loop lines [].

Definition parse_table_row (line : str) : list str :=
  let parts := split PIPE line in
  let parts := if startswith PIPE (strip line) then tl parts else parts in
  let parts := if endswith PIPE (strip line) then removelast parts else parts in
  map strip parts.

Definition is_separator_row (cells : list str) : bool :=
  if negb (truthy cells) then false
  else forallb (fun cell => fullmatch_sep (strip cell))
               (filter (fun cell => truthy (strip cell)) cells).

Definition is_valid_table (lines : list str) : bool :=
  if length lines <? 2 then false
  else
    match map parse_table_row lines with
    | r0 :: r1 :: rest =>
        if negb (is_separator_row r1) then false
        else if negb (forallb (fun row => length row =? length r0) (r0 :: r1 :: rest))
        then false
        else true
    | _ => false
    end.

Definition get_table_style (line : str) : bool * bool :=
  let stripped := strip line in
  (startswith PIPE stripped, endswith PIPE stripped).

(** The inner loop of [get_separator_style]: the first cell that is not
    blank, stripped. *)
Fixpoint first_nonblank (cells : list str) (sep_style : str) : str :=
  match cells with
  | [] => sep_style
  | cell :: rest =>
      if truthy (strip cell) then strip cell else first_nonblank rest sep_style
  end.

Fixpoint get_separator_style_loop (lines : list str) (sep_style : str) : str :=
  match lines with
  | [] => sep_style
  | line :: rest =>
      let cells := parse_table_row line in
      if is_separator_row cells then first_nonblank cells sep_style
      else get_separator_style_loop rest sep_style
  end.

Definition get_separator_style (lines : list str) : str :=
  get_separator_style_loop lines dashes3.

(** The ['has_separators_after_each_row'] entry of [detect_table_pattern]. *)
Definition detect_table_pattern (lines : list str) : bool :=
  let parsed_rows := map parse_table_row lines in
  let separator_indices :=
    map fst (filter (fun ir => is_separator_row (snd ir)) (enumerate parsed_rows)) in
  if 2 <=? length separator_indices then
    truthy separator_indices && forallb Nat.odd separator_indices
  else false.

Definition normalize_row (row : list str) (target_cols : nat) : list str :=
  if length row <? target_cols then row ++ repeat [] (target_cols - length row)
  else if target_cols <? length row then
    let excess := join [SPACE] (slice_from_pred row target_cols) in
    slice_to_pred row target_cols ++ [excess]
  else row.

Definition rebuild_row (cells : list str) (has_leading_pipe has_trailing_pipe : bool)
  : str :=
  if negb (truthy cells) then []
  else
    let cell_str := join cell_sep cells in
    let cell_str := if has_leading_pipe then lead_pipe ++ cell_str else cell_str in
    if has_trailing_pipe then cell_str ++ tail_pipe else cell_str.

(** The lines after the header's separator; [i] runs from 1 to the last
    index in both branches (the [while] loop adds one to [i] on each path). *)
Definition data_lines (each_row : bool) (separator : list str) (max_cols : nat)
    (style : bool * bool) (rows : list (list str)) (is_separator : list bool)
  : list str :=
  flat_map (fun rf : list str * bool =>
              if snd rf then []
              else
                let data_row := normalize_row (fst rf) max_cols in
                if each_row then
                  [rebuild_row data_row (fst style) (snd style);
                   rebuild_row separator (fst style) (snd style)]
                else [rebuild_row data_row (fst style) (snd style)])
           (combine (tl rows) (tl is_separator)).

Definition fix_invalid_table (lines : list str) : result (list str) :=
  if negb (truthy lines) then Ok []
  else
    first <- getitem lines 0 ;;
    let style := get_table_style first in
    let sep_style := get_separator_style lines in
    let pattern := detect_table_pattern lines in
    let parsed_rows := map parse_table_row lines in
    max_cols <- (if truthy parsed_rows then py_max (map (@length str) parsed_rows)
                 else Ok 0) ;;
    let is_separator := map is_separator_row parsed_rows in
    row0 <- getitem parsed_rows 0 ;;
    let header := normalize_row row0 max_cols in
    let separator := repeat sep_style max_cols in
    Ok (rebuild_row header (fst style) (snd style) ::
        rebuild_row separator (fst style) (snd style) ::
        data_lines pattern separator max_cols style parsed_rows is_separator).

(** [flush_table_block]: the new [result_lines] and [table_block]. *)
Definition flush_table_block (result_lines table_block : list str)
  : result (list str * list str) :=
  if negb (truthy table_block) then Ok (result_lines, table_block)
  else if length (filter (contains PIPE) table_block) <? 2 then
    Ok (result_lines ++ table_block, table_block)
  else
    let merged_lines := merge_continuation_lines table_block in
    if is_valid_table merged_lines then Ok (result_lines ++ table_block, [])
    else
      fixed_table <- fix_invalid_table merged_lines ;;
      Ok (result_lines ++ fixed_table, []).

(** The main loop over [result_lines], [table_block] and [inside_table]. *)
Fixpoint scan (lines result_lines table_block : list str) (inside_table : bool)
  : result (list str) :=
  match lines with
  | [] =>
      if inside_table then
        st <- flush_table_block result_lines table_block ;; Ok (fst st)
      else Ok result_lines
  | line :: rest =>
      if contains PIPE line then
        if negb inside_table then scan rest result_lines [line] true
        else scan rest result_lines (table_block ++ [line]) inside_table
      else if inside_table && truthy (strip line) then
        scan rest result_lines (table_block ++ [line]) inside_table
      else if inside_table then
        st <- flush_table_block result_lines table_block ;;
        scan rest (fst st ++ [line]) (snd st) false
      else scan rest (result_lines ++ [line]) table_block inside_table
  end.

Definition fix_invalid_markdown_tables (markdown_text : str) : result str :=
  result_lines <- scan (splitlines markdown_text) [] [] false ;;
  Ok (join [LF] result_lines).

End Claude37_round_3.

(* ================================================================== *)
(** * class Claude37_round_1 *)
(* ================================================================== *)

Module Claude37_round_1.
Import Py.

Definition dashes3 : str := [DASH; DASH; DASH].

(** ** The regular expressions of the class *)

(** Index of the last [c] in [s]. *)
Fixpoint last_index (c : char) (s : str) : option nat :=
  match s with
  | [] => None
  | x :: s' =>
      match last_index c s' with
      | Some k => Some (S k)
      | None => if N.eqb x c then Some 0 else None
      end
  end.

(** Length of the match of [\n\s*\n] at the start of [s], if there is one:
    [\s*] is greedy, so the match ends at the last line feed of the run of
    white space that follows the first line feed. *)
Definition blank_match (s : str) : option nat :=
  match s with
  | c :: rest =>
      if N.eqb c LF then
        match last_index LF (takewhile isspace rest) with
        | Some k => Some (k + 2)
        | None => None
        end
      else None
  | [] => None
  end.

(** [re.split(r'\n\s*\n', s)]: the text is cut at the successive leftmost
    matches; [skip] counts the characters of the current match still to be
    dropped. *)
Fixpoint re_split_blank (skip : nat) (s : str) : list str :=
  match s with
  | [] => [[]]
  | c :: s' =>
      match skip with
      | S k => re_split_blank k s'
      | 0 =>
          match blank_match s with
          | Some m => [] :: re_split_blank (m - 1) s'
          | None => cons_first c (re_split_blank 0 s')
          end
      end
  end.

(** [re.search(r'[-]+', line)]: the line has a hyphen. *)
Definition search_dashes (line : str) : bool := contains DASH line.

(** [re.match(r'^[\s|:-]+$', line)]: one or more characters of the class up
    to the end of the line; a final line feed, which [$] would allow, is
    itself of the class. *)
Definition in_sep_class (c : char) : bool :=
  isspace c || N.eqb c PIPE || N.eqb c COLON || N.eqb c DASH.

Definition match_sep_line (line : str) : bool :=
  truthy line && forallb in_sep_class line.

(** ** Helpers shared by the methods *)

(** [[line for line in text.split('\n') if line.strip()]]. *)
Definition nonblank_lines (text : str) : list str :=
  filter (fun line => truthy (strip line)) (split LF text).

Definition mem (i : nat) (l : list nat) : bool := existsb (Nat.eqb i) l.

(** [len(line.split('|')) - 1]; [split] never returns an empty list. *)
Definition cell_count (line : str) : nat := length (split PIPE line) - 1.

(** [while len(cells) - 1 < max_columns: cells.append('')]; the test is
    written [len(cells) < max_columns + 1] to stay in the naturals. *)
Definition pad_cells (cells : list str) (max_columns : nat) : result (list str) :=
  while_loop (max_columns + 1)
             (fun cells => length cells <? max_columns + 1)
             (fun cells => Ok (cells ++ [[]]))
             cells.

(** [while len(cells) < max_columns: cells.append('')]. *)
Definition pad_inner (cells : list str) (max_columns : nat) : result (list str) :=
  while_loop max_columns
             (fun cells => length cells <? max_columns)
             (fun cells => Ok (cells ++ [[]]))
             cells.

(** ['|' + '|'.join(cells) + '|']. *)
Definition bar_row (cells : list str) : str :=
  [PIPE] ++ join [PIPE] cells ++ [PIPE].

(** One row of the normalising loops: pad, trim, and rewrite as a
    separator row when [is_sep]. *)
Definition normalize_line (is_sep : bool) (max_columns : nat) (line : str)
  : result str :=
  let cells := split PIPE line in
  cells <- pad_cells cells max_columns ;;
  let cells := firstn (max_columns + 1) cells in
  if is_sep then Ok (bar_row (map (fun _ => dashes3) (tl cells)))
  else Ok (bar_row (tl cells)).

(** ** is_table_valid *)

Definition is_table_valid (table_text : str) : result bool :=
  let lines := nonblank_lines table_text in
  if length lines <? 2 then Ok false
  else
    separator_line <- getitem lines 1 ;;
    if negb (forallb (fun c => existsb (N.eqb c) [PIPE; COLON; DASH; SPACE])
                     separator_line)
    then Ok false
    else
      line0 <- getitem lines 0 ;;
      let header_columns := cell_count line0 in
      let separator_columns := cell_count separator_line in
      if negb (header_columns =? separator_columns) then Ok false
      else Ok (forallb (fun line => cell_count line =? header_columns)
                       (skipn 2 lines)).

(** ** fix_complex_table *)

(** State of the row-collecting loop: [i], [rows], [current_row]. *)
Definition collect_state : Type := nat * list (list str) * list str.

(** [current_row[-1] += x]. *)
Definition append_to_last (current_row : list str) (x : str) : result (list str) :=
  match rev current_row with
  | [] => Raise IndexError
  | l :: before => Ok (rev before ++ [l ++ x])
  end.

(** The look-ahead loop over [j] and [current_row]. *)
Definition lookahead (lines : list str) (separator_indices : list nat)
    (j : nat) (current_row : list str) : result (nat * list str) :=
  while_loop (length lines)
    (fun st : nat * list str =>
       match nth_error lines (fst st) with
       | None => false
       | Some l => negb (mem (fst st) separator_indices) &&
                   negb (startswith PIPE (strip l))
       end)
    (fun st =>
       l <- getitem lines (fst st) ;;
       row <- append_to_last (snd st) ([SPACE] ++ strip l) ;;
       Ok (fst st + 1, row))
    (j, current_row).

(** One turn of the outer [while i < len(lines)] loop. *)
Definition collect_step (lines : list str) (separator_indices : list nat)
    (st : collect_state) : result collect_state :=
  let '(i, rows, current_row) := st in
  line <- getitem lines i ;;
  if mem i separator_indices then
    let rows := if truthy current_row then rows ++ [current_row] else rows in
    Ok (i + 1, rows ++ [[line]], [])
  else
    let current_row := [line] in
    jr <- lookahead lines separator_indices (i + 1) current_row ;;
    let '(j, current_row) := jr in
    let i := j in
    if (length lines <=? i) || mem i separator_indices then
      if truthy current_row then Ok (i, rows ++ [current_row], [])
      else Ok (i, rows, current_row)
    else Ok (i, rows, current_row).

Definition collect_rows (lines : list str) (separator_indices : list nat)
  : result (list (list str)) :=
  st <- while_loop (length lines)
          (fun st : collect_state => fst (fst st) <? length lines)
          (collect_step lines separator_indices)
          (0, [], []) ;;
  let '(_, rows, current_row) := st in
  Ok (if truthy current_row then rows ++ [current_row] else rows).

(** [next((i for i, row in enumerate(rows) if '---' in row[0]), -1)]:
    [None] stands for -1. *)
Fixpoint first_separator (rows : list (nat * list str)) : result (option nat) :=
  match rows with
  | [] => Ok None
  | (i, row) :: rest =>
      r0 <- getitem row 0 ;;
      if infixb dashes3 r0 then Ok (Some i) else first_separator rest
  end.

(** [[row[0] for i, row in enumerate(rows) if i != 0 and i != idx]]. *)
Fixpoint other_rows (idx : nat) (rows : list (nat * list str)) : result (list str) :=
  match rows with
  | [] => Ok []
  | (i, row) :: rest =>
      if negb (i =? 0) && negb (i =? idx) then
        r0 <- getitem row 0 ;;
        more <- other_rows idx rest ;;
        Ok (r0 :: more)
      else other_rows idx rest
  end.

(** The normalising loop over [enumerate(new_rows)]. *)
Fixpoint normalize_rows (max_columns : nat) (rows : list (nat * str))
  : result (list str) :=
  match rows with
  | [] => Ok []
  | (i, row) :: rest =>
      fixed <- normalize_line (i =? 1) max_columns row ;;
      more <- normalize_rows max_columns rest ;;
      Ok (fixed :: more)
  end.

(** [row.split('|')[1:-1]], padded. *)
Definition inner_cells (row : str) (max_columns : nat) : result (list str) :=
  pad_inner (removelast (tl (split PIPE row))) max_columns.

Fixpoint fix_data_rows (max_columns : nat) (data_rows : list str)
  : result (list str) :=
  match data_rows with
  | [] => Ok []
  | row :: rest =>
      cells <- inner_cells row max_columns ;;
      more <- fix_data_rows max_columns rest ;;
      Ok (bar_row cells :: more)
  end.

Definition separator_indices_from (start : nat) (lines : list str) : list nat :=
  map fst (filter (fun il : nat * str =>
                     (start <=? fst il) && match_sep_line (snd il) &&
                     infixb dashes3 (snd il))
                  (enumerate lines)).

Definition fix_complex_table (table_text : str) : result str :=
  let lines := nonblank_lines table_text in
  let separator_indices := separator_indices_from 0 lines in
  if 1 <? length separator_indices then
    rows <- collect_rows lines separator_indices ;;
    header_row <- (if truthy rows then
                     r0 <- getitem rows 0 ;; getitem r0 0
                   else Ok []) ;;
    first_separator_idx <- first_separator (enumerate rows) ;;
    new_rows <-
      match first_separator_idx with
      | None =>
          let cell_count := cell_count header_row in
          let separator_row := bar_row (repeat dashes3 cell_count) in
          Ok [header_row; separator_row]
      | Some idx =>
          r <- getitem rows idx ;;
          separator_row <- getitem r 0 ;;
          others <- other_rows idx (enumerate rows) ;;
          Ok ([header_row; separator_row] ++ others)
      end ;;
    max_columns <- py_max (map cell_count new_rows) ;;
    new_rows <- normalize_rows max_columns (enumerate new_rows) ;;
    Ok (join [LF] new_rows)
  else if truthy separator_indices then
    header <- getitem lines 0 ;;
    s0 <- getitem separator_indices 0 ;;
    separator <- getitem lines s0 ;;
    let data_rows :=
      map snd (filter (fun il : nat * str =>
                         negb (fst il =? 0) && negb (fst il =? s0))
                      (enumerate lines)) in
    let max_columns :=
      Nat.max (Nat.max (cell_count header) (cell_count separator))
              (fold_left Nat.max (map cell_count data_rows) 0) in
    header_cells <- inner_cells header max_columns ;;
    let header := bar_row header_cells in
    let separator := bar_row (repeat dashes3 max_columns) in
    fixed_data_rows <- fix_data_rows max_columns data_rows ;;
    Ok (join [LF] ([header; separator] ++ fixed_data_rows))
  else Ok table_text.

(** ** fix_table *)

(** The loop that collects [data_rows] in the repeated-separator case. *)
Definition collect_data_rows (separator_indices : list nat)
    (lines : list (nat * str)) : result (list str) :=
  for_loop (fun data_rows (il : nat * str) =>
              let (i, line) := il in
              skip <- (if mem i separator_indices then
                         s0 <- getitem separator_indices 0 ;; Ok (negb (i =? s0))
                       else Ok false) ;;
              if skip then Ok data_rows
              else if negb (mem i separator_indices) then Ok (data_rows ++ [line])
              else Ok data_rows)
           lines [].

(** The normalising loop of the other case. *)
Fixpoint normalize_lines (separator_indices : list nat) (max_columns : nat)
    (lines : list (nat * str)) : result (list str) :=
  match lines with
  | [] => Ok []
  | (i, line) :: rest =>
      fixed <- normalize_line (mem i separator_indices) max_columns line ;;
      more <- normalize_lines separator_indices max_columns rest ;;
      Ok (fixed :: more)
  end.

Definition fix_table (table_text : str) : result str :=
  let lines := nonblank_lines table_text in
  let separator_indices := separator_indices_from 1 lines in
  if negb (truthy separator_indices) then Ok table_text
  else
    let max_columns :=
      fold_left (fun max_columns line => Nat.max max_columns (cell_count line))
                lines 0 in
    repeated_separators <-
      (if 1 <? length separator_indices then
         s0 <- getitem separator_indices 0 ;;
         s1 <- getitem separator_indices 1 ;;
         Ok (negb (s0 + 1 =? s1))
       else Ok false) ;;
    fixed_lines <-
      (if repeated_separators then
         header_row <- getitem lines 0 ;;
         s0 <- getitem separator_indices 0 ;;
         first_separator <- getitem lines s0 ;;
         data_rows <- collect_data_rows separator_indices (enumerate lines) ;;
         d0 <- getitem data_rows 0 ;;
         Ok ([d0; first_separator] ++ tl data_rows)
       else normalize_lines separator_indices max_columns (enumerate lines)) ;;
    let fixed_table := join [LF] fixed_lines in
    valid <- is_table_valid fixed_table ;;
    if valid then Ok fixed_table else fix_complex_table table_text.

(** ** fix_invalid_markdown_tables *)

Definition looks_like_table (block : str) : bool :=
  contains PIPE block &&
  existsb search_dashes (filter (contains PIPE) (split LF block)).

Definition fix_invalid_markdown_tables (markdown_text : str) : result str :=
  let blocks := re_split_blank 0 markdown_text in
  fixed_blocks <-
    for_loop (fun fixed_blocks block =>
                if looks_like_table block then
                  fixed_block <- fix_table block ;;
                  Ok (fixed_blocks ++ [fixed_block])
                else Ok (fixed_blocks ++ [block]))
             blocks [] ;;
  Ok (join [LF; LF] fixed_blocks).

End Claude37_round_1.

(* ================================================================== *)
(** * class O3_mini_high_round_5 *)
(* ================================================================== *)

Module O3_mini_high_round_5.
Import Py.

Definition cell_sep : str := [SPACE; PIPE; SPACE].
Definition lead_pipe : str := [PIPE; SPACE].
Definition tail_pipe : str := [SPACE; PIPE].
Definition dashes3 : str := [DASH; DASH; DASH].

Definition flush_current (merged : list str) (current : option str) : list str :=
  match current with
  | Some c => merged ++ [c]
  | None => merged
  end.

(** The loop of [merge_continuation_lines] over [merged] and [current]. *)
Fixpoint merge_loop (lines merged : list str) (current : option str) : list str :=
  match lines with
  | [] => flush_current merged current
  | line :: rest =>
      if contains PIPE line then
        merge_loop rest (flush_current merged current) (Some (rstrip line))
      else if truthy (strip line) then
        match current with
        | Some c => merge_loop rest merged (Some (c ++ [SPACE] ++ strip line))
        | None => merge_loop rest merged (Some (rstrip line))
        end
      else merge_loop rest (flush_current merged current ++ [line]) None
  end.

Definition merge_continuation_lines (lines : list str) : list str :=
  merge_loop lines [] None.

Definition parse_row (line : str) : list str :=
  let s := strip line in
  let s := if startswith PIPE s then tl s else s in
  let s := if endswith PIPE s then removelast s else s in
  map strip (split PIPE s).

Definition is_separator_cell (cell : str) : bool := fullmatch_sep (strip cell).

Definition is_separator_row (cells : list str) : bool :=
  if negb (truthy cells) then false
  else forallb is_separator_cell (filter (fun c => truthy (strip c)) cells).

(** [rows[1]] and [rows[0]] are read only when there are two rows. *)
Definition is_valid_table (lines : list str) : bool :=
  if length lines <? 2 then false
  else
    match map parse_row (filter (contains PIPE) lines) with
    | r0 :: r1 :: rest =>
        if negb (is_separator_row r1) then false
        else forallb (fun r => length r =? length r0) (r0 :: r1 :: rest)
    | _ => false
    end.

Definition normalize_row (row : list str) (target : nat) : list str :=
  if length row <? target then row ++ repeat [] (target - length row)
  else if target <? length row then
    slice_to_pred row target ++ [join [SPACE] (slice_from_pred row target)]
  else row.

Definition get_table_style (line : str) : bool * bool :=
  let s := strip line in (startswith PIPE s, endswith PIPE s).

Definition rebuild_row (cells : list str) (lead trail : bool) : str :=
  let row := join cell_sep cells in
  let row := if lead then lead_pipe ++ row else row in
  if trail then row ++ tail_pipe else row.

(** [detect_table_pattern(rows) == 'separator_after_each']. *)
Definition detect_table_pattern (rows : list (list str)) : bool :=
  let sep_idx :=
    map fst (filter (fun ir => is_separator_row (snd ir)) (enumerate rows)) in
  (2 <=? length sep_idx) && forallb Nat.odd sep_idx.

(** The lines after the header's separator: the [while] loop of the first
    pattern adds one to [i] on each of its paths, so both loops visit the
    rows after the first once each, in order. *)
Definition data_lines (after_each : bool) (sep_row : str) (style : bool * bool)
    (norm : list (list str)) : list str :=
  flat_map (fun r =>
              if is_separator_row r then []
              else if after_each then [rebuild_row r (fst style) (snd style); sep_row]
              else [rebuild_row r (fst style) (snd style)])
           (tl norm).

Definition fix_table_block (lines : list str) : result (list str) :=
  let parsed := map parse_row (filter (contains PIPE) lines) in
  first <- getitem lines 0 ;;
  let style := get_table_style first in
  max_cols <- (if truthy parsed then py_max (map (@length str) parsed) else Ok 0) ;;
  let norm := map (fun r => normalize_row r max_cols) parsed in
  let pattern := detect_table_pattern norm in
  let sep_row := rebuild_row (repeat dashes3 max_cols) (fst style) (snd style) in
  header <- getitem norm 0 ;;
  Ok (rebuild_row header (fst style) (snd style) :: sep_row ::
      data_lines pattern sep_row style norm).

Definition process_table_block (lines : list str) : result (list str) :=
  let merged := merge_continuation_lines lines in
  if (length merged <? 2) || negb (existsb (contains PIPE) merged) then Ok lines
  else if is_valid_table merged then Ok lines
  else fix_table_block merged.

(** The loop of [fix_invalid_markdown_tables] over [out], [block] and
    [in_table]. *)
Fixpoint scan (lines out block : list str) (in_table : bool) : result (list str) :=
  match lines with
  | [] =>
      if truthy block then
        fixed <- process_table_block block ;; Ok (out ++ fixed)
      else Ok out
  | line :: rest =>
      if contains PIPE line then scan rest out (block ++ [line]) true
      else if in_table then
        fixed <- process_table_block block ;;
        scan rest ((out ++ fixed) ++ [line]) [] false
      else scan rest (out ++ [line]) block false
  end.

Definition fix_invalid_markdown_tables (markdown_text : str) : result str :=
  out <- scan (splitlines markdown_text) [] [] false ;;
  Ok (join [LF] out).

End O3_mini_high_round_5.

(* ================================================================== *)
(** * class O3_mini_high_round_1 *)
(* ================================================================== *)

Module O3_mini_high_round_1.
Import Py.

Definition dashes3 : str := [DASH; DASH; DASH].

(** [pat.match(cell)] for the pattern [^\s*:?-{3,}:?\s*$]: white space, which
    [\s] takes as [str.strip] does, around a word of [:?-{3,}:?]; a final
    line feed, which [$] would allow, is white space already. *)
Definition divider_cell (cell : str) : bool := fullmatch_sep (strip cell).

Definition is_divider_row (cells : list str) : bool :=
  forallb divider_cell (filter (fun c => truthy (strip c)) cells).

(** [merged[-1] += x], asked for only when [merged] is not empty. *)
Definition append_to_last (merged : list str) (x : str) : list str :=
  removelast merged ++ [last merged [] ++ x].

(** The loop of [merge_block]: a line without a pipe that is blank, or that
    comes before any row, is left out. *)
Fixpoint merge_loop (block merged : list str) : list str :=
  match block with
  | [] => merged
  | line :: rest =>
      if contains PIPE line then merge_loop rest (merged ++ [rstrip line])
      else if truthy merged && truthy (strip line) then
        merge_loop rest (append_to_last merged ([SPACE] ++ strip line))
      else merge_loop rest merged
  end.

Definition merge_block (block : list str) : list str := merge_loop block [].

(** The cells of one merged line, as the first loop of
    [process_table_block] computes them. *)
Definition row_cells (line : str) : list str :=
  let s := strip line in
  let s := if startswith PIPE s then tl s else s in
  let s := if endswith PIPE s then removelast s else s in
  map strip (split PIPE s).

(** One row of [fixed_rows]. *)
Definition fit (r : list str) (max_cols : nat) : list str :=
  if length r <? max_cols then r ++ repeat [] (max_cols - length r)
  else if max_cols <? length r then firstn max_cols r
  else r.

(** [f"| {' | '.join(r)} |"]. *)
Definition pipe_row (r : list str) : str :=
  [PIPE; SPACE] ++ join [SPACE; PIPE; SPACE] r ++ [SPACE; PIPE].

Definition process_table_block (block : list str) : result (list str) :=
  let merged := merge_block block in
  let rows := map row_cells merged in
  max_cols <- (if truthy rows then py_max (map (@length str) rows) else Ok 0) ;;
  let fixed_rows := map (fun r => fit r max_cols) rows in
  let out :=
    match fixed_rows with
    | [] => []
    | header :: _ =>
        (* [fixed_rows[1]] is read only when there are two rows *)
        let keep := (1 <? length fixed_rows) && is_divider_row (nth 1 fixed_rows []) in
        let second := if keep then nth 1 fixed_rows [] else repeat dashes3 max_cols in
        let idx := if keep then 2 else 1 in
        header :: second ::
        filter (fun r => negb (is_divider_row r)) (skipn idx fixed_rows)
    end in
  Ok (map pipe_row out).

(** The two loops of [fix_invalid_markdown_tables] over [out_lines] and
    [block].  The inner loop gathers [block], which is empty outside of it;
    the line that ends it has no pipe, so the outer loop, which looks at it
    again, appends it to [out_lines]. *)
Fixpoint scan (lines out_lines block : list str) : result (list str) :=
  match lines with
  | [] =>
      if truthy block then
        fixed_block <- process_table_block block ;; Ok (out_lines ++ fixed_block)
      else Ok out_lines
  | line :: rest =>
      if truthy block then
        if contains PIPE line || (truthy (strip line) && negb (contains PIPE line))
        then scan rest out_lines (block ++ [line])
        else
          fixed_block <- process_table_block block ;;
          scan rest ((out_lines ++ fixed_block) ++ [line]) []
      else if contains PIPE line then scan rest out_lines [line]
      else scan rest (out_lines ++ [line]) []
  end.

Definition fix_invalid_markdown_tables (text : str) : result str :=
  out_lines <- scan (splitlines text) [] [] ;;
  Ok (join [LF] out_lines).

End O3_mini_high_round_1.

Module O3_mini_high_round_1_spec.
Import Py.

(** The test of the inner loop of [fix_invalid_markdown_tables] once the
    block has a line: the line goes on the block. *)
Definition continues (line : str) : bool :=
  contains PIPE line || (truthy (strip line) && negb (contains PIPE line)).

End O3_mini_high_round_1_spec.

(* ================================================================== *)
(** * The loop over the lines that three classes share *)
(* ================================================================== *)

Module Block_loop.
Import Py.

(** The loop of [fix_invalid_markdown_tables] in Grok3_round_5,
    O1_pro_round_5 and O3_mini_high_round_5, which is the same up to the
    names: a line with a pipe goes to the block, a line without one ends the
    block and is written after what [process], the class's
    [process_table_block], makes of the block. *)
Fixpoint scan_by (process : list str -> result (list str))
    (lines out table_block : list str) (in_table : bool) : result (list str) :=
  match lines with
  | [] =>
      if truthy table_block then
        fixed <- process table_block ;; Ok (out ++ fixed)
      else Ok out
  | line :: rest =>
      if contains PIPE line then scan_by process rest out (table_block ++ [line]) true
      else if in_table then
        fixed <- process table_block ;;
        scan_by process rest ((out ++ fixed) ++ [line]) [] false
      else scan_by process rest (out ++ [line]) table_block false
  end.

End Block_loop.

(* ================================================================== *)
(** * Rows brought to a number of columns that is any integer *)
(* ================================================================== *)

Module Py_int.
Import Py.

(** Where the bound [i] of a slice falls in a list of [n] items: a negative
    bound counts from the end, and the bound is cut to [0 .. n]. *)
Definition slice_index (n : nat) (i : Z) : nat :=
  if (i <? 0)%Z then Z.to_nat (Z.of_nat n + i) else Nat.min (Z.to_nat i) n.

(** [l[:i]] and [l[i:]]. *)
Definition slice_to {A} (l : list A) (i : Z) : list A :=
  firstn (slice_index (length l) i) l.

Definition slice_from {A} (l : list A) (i : Z) : list A :=
  skipn (slice_index (length l) i) l.

End Py_int.

(** [O1_pro_round_5._normalize_row] as a function of any integer
    [target_cols]; the class calls it with the largest number of cells of a
    row, which is not negative, and [O1_pro_round_5._normalize_row] above is
    the function on these. *)
Module O1_pro_round_5_int.
Import Py Py_int.

Definition _normalize_row (row : list str) (target_cols : Z) : list str :=
  if (Z.of_nat (length row) <? target_cols)%Z then
    row ++ repeat [] (Z.to_nat (target_cols - Z.of_nat (length row)))
  else if (target_cols <? Z.of_nat (length row))%Z then
    slice_to row (target_cols - 1) ++ [join [SPACE] (slice_from row (target_cols - 1))]
  else row.

End O1_pro_round_5_int.

(** [Claude37_round_5.normalize_row] likewise. *)
Module Claude37_round_5_int.
Import Py Py_int.

Definition normalize_row (row : list str) (target_cols : Z) : list str :=
  if (Z.of_nat (length row) <? target_cols)%Z then
    row ++ repeat [] (Z.to_nat (target_cols - Z.of_nat (length row)))
  else if (target_cols <? Z.of_nat (length row))%Z then
    if (1 <? target_cols)%Z then
      slice_to row (target_cols - 1) ++ [join [SPACE] (slice_from row (target_cols - 1))]
    else [join [SPACE] row]
  else row.

End Claude37_round_5_int.

(* ================================================================== *)
(** * Vocabulary of the properties: texts *)
(* ================================================================== *)

Module Text.
Import Py.

(** A string that neither starts nor ends with white space is its own
    [strip]. *)
Definition trimmed (s : str) : Prop :=
  match s with
  | [] => True
  | x :: _ => isspace x = false /\ isspace (last s x) = false
  end.

(** The words matched by [:?-{3,}:?]. *)
Definition sep_pattern (s : str) : Prop :=
  exists a n b,
    s = a ++ repeat DASH n ++ b /\ 3 <= n /\
    (a = [] \/ a = [COLON]) /\ (b = [] \/ b = [COLON]).

(** A line, as [splitlines] yields them: no line break in it. *)
Definition no_linebreak (l : str) : bool := forallb (fun c => negb (islinebreak c)) l.

(** A text whose only line breaks are line feeds. *)
Definition lf_only (s : str) : bool :=
  forallb (fun c => negb (islinebreak c) || N.eqb c LF) s.

(** The result is a value, not an exception. *)
Definition returns {A} (r : result A) : Prop := exists a, r = Ok a.

End Text.

(* ================================================================== *)
(** * Vocabulary of the properties: O1_pro_round_5 *)
(* ================================================================== *)

Module O1_pro_round_5_spec.
Import Py O1_pro_round_5.

(** The cells of [cells] occur in [s] one after the other, in order. *)
Inductive in_order : list str -> str -> Prop :=
| in_order_nil : forall s, in_order [] s
| in_order_cons : forall c cells before rest,
    in_order cells rest -> in_order (c :: cells) (before ++ c ++ rest).

(** The indices of the separator rows among [rows]. *)
Definition separator_indices (rows : list (list str)) : list nat :=
  map fst (filter (fun ir => _is_separator_row (snd ir)) (enumerate rows)).

(** The classification in the specification's words: the set of separator
    indices has at least two members, and at least half of them are odd. *)
Definition spec_repeated (rows : list (list str)) : bool :=
  let seps := separator_indices rows in
  (2 <=? length seps) && (length seps <=? 2 * length (filter Nat.odd seps)).

(** The repair with the call of [_detect_repeated_separators] left open:
    [_fix_invalid_table], [_process_table_block], the loop and
    [fix_invalid_markdown_tables] as they are, [detect] standing for that
    one call.  With [_detect_repeated_separators] for [detect] they are the
    functions of the class. *)
Definition fix_invalid_table_with (detect : list (list str) -> bool)
    (lines : list str) : result (list str) :=
  let parsed_rows := map _parse_row (filter (contains PIPE) lines) in
  if negb (truthy parsed_rows) then Ok lines
  else
    first_line <- getitem lines 0 ;;
    let style := (startswith PIPE (strip first_line), endswith PIPE (strip first_line)) in
    max_cols <- py_max (map (@length str) parsed_rows) ;;
    let repeated_sep := detect parsed_rows in
    let parsed_rows := map (fun r => _normalize_row r max_cols) parsed_rows in
    header <- getitem parsed_rows 0 ;;
    Ok (_rebuild_row header style ::
        _rebuild_row (repeat dashes3 max_cols) style ::
        data_lines repeated_sep max_cols style parsed_rows).

Definition process_table_block_with (detect : list (list str) -> bool)
    (block_lines : list str) : result (list str) :=
  let merged := _merge_continuation_lines block_lines in
  if _is_valid_table merged then Ok block_lines
  else fix_invalid_table_with detect merged.

Fixpoint scan_with (detect : list (list str) -> bool)
    (lines out table_block : list str) (in_table : bool) : result (list str) :=
  match lines with
  | [] =>
      if truthy table_block then
        fixed <- process_table_block_with detect table_block ;; Ok (out ++ fixed)
      else Ok out
  | line :: rest =>
      if contains PIPE line then scan_with detect rest out (table_block ++ [line]) true
      else if in_table then
        fixed <- process_table_block_with detect table_block ;;
        scan_with detect rest ((out ++ fixed) ++ [line]) [] false
      else scan_with detect rest (out ++ [line]) table_block false
  end.

Definition fix_invalid_markdown_tables_with (detect : list (list str) -> bool)
    (markdown_text : str) : result str :=
  out <- scan_with detect (splitlines markdown_text) [] [] false ;;
  Ok (join [LF] out).

End O1_pro_round_5_spec.

(* ================================================================== *)
(** * Vocabulary of the properties: Grok3_round_1 *)
(* ================================================================== *)

Module Grok3_round_1_spec.
Import Py Grok3_round_1.

(** [a] is a subsequence of [b]: the lines of [a] occur in [b], unchanged and
    in the same order. *)
Fixpoint is_subseq (a b : list str) : bool :=
  match a, b with
  | [], _ => true
  | _ :: _, [] => false
  | x :: a', y :: b' =>
      if list_eq_dec N.eq_dec x y then is_subseq a' b' else is_subseq a b'
  end.

End Grok3_round_1_spec.

(* ================================================================== *)
(** * Vocabulary of the properties: Claude37_round_3 *)
(* ================================================================== *)

Module Claude37_round_3_spec.
Import Py Text Claude37_round_3.

(** The line does not parse to a separator row. *)
Definition not_separator (line : str) : Prop :=
  is_separator_row (parse_table_row line) = false.

(** Where the separator cell of a repaired table comes from: the default
    ["---"] when no line is a separator row or the first one has blank cells
    only, and otherwise the first cell of the first separator row that is not
    blank, stripped, with the alignment colons it has. *)
Inductive sep_style_origin : list str -> str -> Prop :=
| origin_default : forall lines,
    Forall not_separator lines -> sep_style_origin lines dashes3
| origin_blank : forall before line after,
    Forall not_separator before ->
    is_separator_row (parse_table_row line) = true ->
    Forall (fun c => strip c = []) (parse_table_row line) ->
    sep_style_origin (before ++ line :: after) dashes3
| origin_cell : forall before line after blanks c cells,
    Forall not_separator before ->
    is_separator_row (parse_table_row line) = true ->
    parse_table_row line = blanks ++ c :: cells ->
    Forall (fun c => strip c = []) blanks ->
    strip c <> [] -> sep_pattern (strip c) ->
    sep_style_origin (before ++ line :: after) (strip c).

End Claude37_round_3_spec.

(* ================================================================== *)
(** * Vocabulary of the properties: Claude37_round_1 *)
(* ================================================================== *)

Module Claude37_round_1_spec.
Import Py Text Claude37_round_1.

(** Every collected row holds a line: [row[0]] can be read. *)
Definition rows_nonempty (rows : list (list str)) : Prop :=
  Forall (fun r : list str => r <> []) rows.

End Claude37_round_1_spec.

(* ================================================================== *)
(** * Vocabulary of the properties: Claude37_round_5 *)
(* ================================================================== *)

Module Claude37_round_5_spec.
Import Py Text Claude37_round_5.

(** A line that stays in the open block: it has a pipe or is not blank. *)
Definition continues (line : str) : bool :=
  contains PIPE line || truthy (strip line).

(** The blocks that the loop of [fix_invalid_markdown_tables] hands to
    [process_table_block], collected by the same loop. *)
Fixpoint blocks_loop (lines table_block : list str) (in_table : bool)
  : list (list str) :=
  match lines with
  | [] => if truthy table_block then [table_block] else []
  | line :: rest =>
      if contains PIPE line then blocks_loop rest (table_block ++ [line]) true
      else if in_table && truthy (strip line) then
        blocks_loop rest (table_block ++ [line]) in_table
      else if in_table then table_block :: blocks_loop rest [] false
      else blocks_loop rest table_block in_table
  end.

(** The blocks of a document. *)
Definition table_blocks (lines : list str) : list (list str) :=
  blocks_loop lines [] false.

(** The block is rebuilt: it has two merged lines or more, one with a pipe,
    and is no valid table. *)
Definition needs_repair (block : list str) : bool :=
  let merged := merge_continuation_lines block in
  negb ((length merged <? 2) || negb (existsb (contains PIPE) merged)) &&
  negb (is_valid_table merged).

(** The parsed rows of a block's merged lines and their largest number of
    cells, as [fix_table_block] computes them. *)
Definition parsed_rows (merged : list str) : list (list str) :=
  map parse_row (filter (contains PIPE) merged).

Definition max_cols (merged : list str) : nat :=
  fold_left Nat.max (map (@length str) (parsed_rows merged)) 0.

(** The cell rows that [fix_table_block] writes besides its separator rows:
    the first row, and the later rows that are no separator rows, each
    brought to [max_cols] cells. *)
Definition rebuilt_header (merged : list str) : list str :=
  normalize_row (hd [] (parsed_rows merged)) (max_cols merged).

Definition rebuilt_data (merged : list str) : list (list str) :=
  map (fun r => normalize_row r (max_cols merged))
      (filter (fun r => negb (is_separator_row r)) (tl (parsed_rows merged))).

(** A row written in a pipe style can be read again at its ends: it has the
    leading pipe or a first cell that is not empty, and the trailing pipe or
    a last cell that is not empty. *)
Definition starts_ok (style : bool * bool) (r : list str) : bool :=
  fst style || truthy (hd [] r).

Definition ends_ok (style : bool * bool) (r : list str) : bool :=
  snd style || truthy (last r []).

(** The rebuilt table is read again as it was written.  In the style of the
    first merged line: no rebuilt row loses a first cell, the header loses no
    last cell, and if a data row loses an empty last cell the layout is found
    again (it is the layout with a separator after each row, or the header
    is no separator row, or there are five data rows or more). *)
Definition rebuilt_stable (merged : list str) : bool :=
  let style := detect_table_style (hd [] merged) in
  let header := rebuilt_header merged in
  let data := rebuilt_data merged in
  forallb (starts_ok style) (header :: data) &&
  ends_ok style header &&
  (forallb (ends_ok style) data
   || detect_separator_pattern (parsed_rows merged)
   || negb (is_separator_row header)
   || (5 <=? length data)).

(** The block is kept as it is, or rebuilt into a table that is read again
    as it was written. *)
Definition block_ok (block : list str) : bool :=
  negb (needs_repair block) || rebuilt_stable (merge_continuation_lines block).

(** The lines after a block: none, or a first line that is blank and has no
    pipe. *)
Definition block_end (rest : list str) : Prop :=
  match rest with
  | [] => True
  | b :: _ => continues b = false
  end.

(** A cell as [parse_row] yields them: stripped, and without a pipe. *)
Definition good_cell (c : str) : Prop := trimmed c /\ contains PIPE c = false.

(** A cell between two pipes of a rebuilt row. *)
Definition padded (c : str) : str := SPACE :: c ++ [SPACE].

(** The style with a leading and a trailing pipe. *)
Definition both : bool * bool := (true, true).

(** A cell of a rebuilt row: stripped, without a pipe or a line break. *)
Definition clean_cell (c : str) : Prop := good_cell c /\ no_linebreak c = true.

(** A row of [m] such cells. *)
Definition clean_row (m : nat) (r : list str) : Prop :=
  length r = m /\ Forall clean_cell r.

End Claude37_round_5_spec.

(* ================================================================== *)
(** * Facts about the string model *)
(* ================================================================== *)

Arguments N.eqb : simpl never.
Arguments N.leb : simpl never.

Module PyFacts.
Import Py Text.

Lemma pipe_not_space : isspace PIPE = false.
Proof. reflexivity. Qed.

Lemma linebreak_is_space c : islinebreak c = true -> isspace c = true.
Proof.
  unfold islinebreak, isspace. intros H.
  repeat (apply orb_true_iff in H; destruct H as [H|H]);
    try (apply andb_true_iff in H; destruct H as [H1 H2];
         apply N.leb_le in H1; apply N.leb_le in H2);
    try apply N.eqb_eq in H;
    repeat rewrite orb_true_iff; repeat rewrite andb_true_iff;
    repeat rewrite N.leb_le; repeat rewrite N.eqb_eq; lia.
Qed.

Lemma contains_app c a b : contains c (a ++ b) = contains c a || contains c b.
Proof. unfold contains. apply existsb_app. Qed.

Lemma contains_false_iff c s : contains c s = false <-> ~ In c s.
Proof.
  unfold contains. split.
  - intros H Hin. assert (existsb (N.eqb c) s = true) as E.
    { apply existsb_exists. exists c. split; [assumption | apply N.eqb_refl]. }
    congruence.
  - intros H. destruct (existsb (N.eqb c) s) eqn:E; [|reflexivity].
    apply existsb_exists in E. destruct E as [x [Hx E]].
    apply N.eqb_eq in E. subst x. contradiction.
Qed.

Lemma contains_true_iff c s : contains c s = true <-> In c s.
Proof.
  unfold contains. rewrite existsb_exists. split.
  - intros [x [Hx E]]. apply N.eqb_eq in E. now subst.
  - intros H. exists c. split; [assumption | apply N.eqb_refl].
Qed.

Lemma truthy_false {A} (l : list A) : truthy l = false <-> l = [].
Proof. destruct l; simpl; split; congruence. Qed.

Lemma truthy_true {A} (l : list A) : truthy l = true <-> l <> [].
Proof. destruct l; simpl; split; congruence. Qed.

Lemma truthy_app_r {A} (l : list A) x : truthy (l ++ [x]) = true.
Proof. destruct l; reflexivity. Qed.

(** ** dropwhile and takewhile *)

Lemma takewhile_dropwhile {A} (p : A -> bool) l :
  takewhile p l ++ dropwhile p l = l.
Proof.
  induction l as [|x l IH]; simpl; [reflexivity|].
  destruct (p x); simpl; [now rewrite IH | reflexivity].
Qed.

Lemma takewhile_all {A} (p : A -> bool) l : forallb p (takewhile p l) = true.
Proof.
  induction l as [|x l IH]; simpl; [reflexivity|].
  destruct (p x) eqn:E; simpl; [now rewrite E | reflexivity].
Qed.

Lemma dropwhile_head {A} (p : A -> bool) l x l' :
  dropwhile p l = x :: l' -> p x = false.
Proof.
  induction l as [|y l IH]; simpl; [discriminate|].
  destruct (p y) eqn:E; [assumption|]. intros H. now inversion H; subst.
Qed.

Lemma dropwhile_id {A} (p : A -> bool) x l :
  p x = false -> dropwhile p (x :: l) = x :: l.
Proof. intros H. simpl. now rewrite H. Qed.

Lemma dropwhile_all {A} (p : A -> bool) l :
  forallb p l = true -> dropwhile p l = [].
Proof.
  induction l as [|x l IH]; simpl; [reflexivity|].
  intros H. apply andb_true_iff in H. destruct H as [H1 H2]. now rewrite H1, IH.
Qed.

Lemma dropwhile_app_stop {A} (p : A -> bool) a x b :
  forallb p a = true -> p x = false -> dropwhile p (a ++ x :: b) = x :: b.
Proof.
  induction a as [|y a IH]; simpl; intros Ha Hx.
  - now rewrite Hx.
  - apply andb_true_iff in Ha. destruct Ha as [H1 H2]. rewrite H1. now apply IH.
Qed.

Lemma takewhile_app_stop {A} (p : A -> bool) a x b :
  forallb p a = true -> p x = false -> takewhile p (a ++ x :: b) = a.
Proof.
  induction a as [|y a IH]; simpl; intros Ha Hx.
  - now rewrite Hx.
  - apply andb_true_iff in Ha. destruct Ha as [H1 H2]. rewrite H1.
    f_equal. now apply IH.
Qed.

Lemma takewhile_all_id {A} (p : A -> bool) a :
  forallb p a = true -> takewhile p a = a.
Proof.
  induction a as [|y a IH]; simpl; intros Ha; [reflexivity|].
  apply andb_true_iff in Ha. destruct Ha as [H1 H2]. rewrite H1. f_equal. now apply IH.
Qed.

Lemma forallb_rev' {A} (p : A -> bool) l : forallb p (rev l) = forallb p l.
Proof.
  induction l as [|x l IH]; simpl; [reflexivity|].
  rewrite forallb_app, IH. simpl. rewrite andb_true_r. apply andb_comm.
Qed.

(** ** strip *)

Lemma rstrip_snoc_keep s x : isspace x = false -> rstrip (s ++ [x]) = s ++ [x].
Proof.
  intros H. unfold rstrip. rewrite rev_app_distr. simpl. rewrite H.
  change (x :: rev s) with ([x] ++ rev s). rewrite rev_app_distr, rev_involutive.
  reflexivity.
Qed.

Lemma rstrip_nil : rstrip [] = [].
Proof. reflexivity. Qed.

Lemma strip_nil : strip [] = [].
Proof. reflexivity. Qed.

Lemma last_snoc {A} (l : list A) x d : last (l ++ [x]) d = x.
Proof. apply last_last. Qed.

Lemma rstrip_trimmed s : trimmed s -> rstrip s = s.
Proof.
  destruct s as [|x s]; [reflexivity|]. intros [_ H].
  destruct (exists_last (l := x :: s)) as [l' [y E]]; [discriminate|].
  rewrite E in *. rewrite last_snoc in H. now apply rstrip_snoc_keep.
Qed.

Lemma strip_trimmed s : trimmed s -> strip s = s.
Proof.
  intros H. unfold strip. rewrite (rstrip_trimmed _ H).
  destruct s as [|x s]; [reflexivity|]. destruct H as [H _].
  unfold lstrip. now apply dropwhile_id.
Qed.

Lemma rstrip_suffix_spaces s : exists w, s = rstrip s ++ w /\ forallb isspace w = true.
Proof.
  unfold rstrip. exists (rev (takewhile isspace (rev s))). split.
  - rewrite <- rev_app_distr, takewhile_dropwhile, rev_involutive. reflexivity.
  - rewrite forallb_rev'. apply takewhile_all.
Qed.

Lemma rstrip_last_not_space s x l : rstrip s = l ++ [x] -> isspace x = false.
Proof.
  unfold rstrip. intros H.
  assert (dropwhile isspace (rev s) = x :: rev l) as E.
  { rewrite <- (rev_involutive (dropwhile isspace (rev s))), H, rev_app_distr.
    reflexivity. }
  eapply dropwhile_head; eauto.
Qed.

Lemma strip_is_trimmed s : trimmed (strip s).
Proof.
  unfold strip, lstrip.
  destruct (dropwhile isspace (rstrip s)) as [|x l] eqn:E; [exact I|].
  split; [eapply dropwhile_head; eauto|].
  (* the last character of the result is the last of [rstrip s] *)
  pose proof (takewhile_dropwhile isspace (rstrip s)) as Hs. rewrite E in Hs.
  destruct (exists_last (l := x :: l)) as [l' [y Ey]]; [discriminate|].
  rewrite Ey, last_snoc.
  apply (@rstrip_last_not_space s y (takewhile isspace (rstrip s) ++ l')).
  rewrite Ey, app_assoc in Hs. symmetry. exact Hs.
Qed.

Lemma strip_idem s : strip (strip s) = strip s.
Proof. apply strip_trimmed, strip_is_trimmed. Qed.

Lemma rstrip_no_pipe_iff s : contains PIPE (rstrip s) = contains PIPE s.
Proof.
  destruct (rstrip_suffix_spaces s) as [w [E Hw]].
  rewrite E at 2. rewrite contains_app.
  assert (contains PIPE w = false) as ->; [|now rewrite orb_false_r].
  apply contains_false_iff. intros Hin.
  rewrite forallb_forall in Hw. apply Hw in Hin. discriminate.
Qed.

Lemma filter_nonempty {A} (p : A -> bool) l :
  existsb p l = true -> filter p l <> [].
Proof.
  intros H. apply existsb_exists in H. destruct H as [x [Hin Hx]].
  intros E. assert (In x (filter p l)) as Hf by (apply filter_In; auto).
  rewrite E in Hf. destruct Hf.
Qed.

End PyFacts.

(* ================================================================== *)
(** * The separator pattern *)
(* ================================================================== *)

Module SepPattern.
Import Py PyFacts Text.

Lemma all_dash_repeat l :
  forallb (N.eqb DASH) l = true -> l = repeat DASH (length l).
Proof.
  induction l as [|x l IH]; simpl; [reflexivity|].
  intros H. apply andb_true_iff in H. destruct H as [H1 H2].
  apply N.eqb_eq in H1. subst x. f_equal. now apply IH.
Qed.

Lemma repeat_all_dash n : forallb (N.eqb DASH) (repeat DASH n) = true.
Proof. induction n; simpl; [reflexivity | assumption]. Qed.

Lemma opt_colon_split s :
  exists a, s = a ++ opt_colon s /\ (a = [] \/ a = [COLON]).
Proof.
  destruct s as [|c s]; simpl.
  - exists []. auto.
  - destruct (N.eqb_spec c COLON) as [->|].
    + exists [COLON]. auto.
    + exists []. auto.
Qed.

Lemma takewhile_dashes n b :
  b = [] \/ b = [COLON] -> takewhile (N.eqb DASH) (repeat DASH n ++ b) = repeat DASH n.
Proof.
  intros [->| ->].
  - rewrite app_nil_r. apply takewhile_all_id, repeat_all_dash.
  - apply takewhile_app_stop; [apply repeat_all_dash | reflexivity].
Qed.

Lemma dropwhile_dashes n b :
  b = [] \/ b = [COLON] -> dropwhile (N.eqb DASH) (repeat DASH n ++ b) = b.
Proof.
  intros [->| ->].
  - rewrite app_nil_r. apply dropwhile_all, repeat_all_dash.
  - apply dropwhile_app_stop; [apply repeat_all_dash | reflexivity].
Qed.

(** The matcher decides the pattern. *)
Lemma fullmatch_sep_spec s : fullmatch_sep s = true <-> sep_pattern s.
Proof.
  unfold fullmatch_sep, sep_pattern. split.
  - intros H. apply andb_true_iff in H. destruct H as [Hn Hrest].
    apply Nat.leb_le in Hn.
    destruct (opt_colon_split s) as [a [Es Ha]].
    pose proof (takewhile_dropwhile (N.eqb DASH) (opt_colon s)) as Hb.
    pose proof (all_dash_repeat _ (takewhile_all (N.eqb DASH) (opt_colon s))) as Hd.
    exists a, (length (takewhile (N.eqb DASH) (opt_colon s))),
           (dropwhile (N.eqb DASH) (opt_colon s)).
    repeat split; try assumption.
    + rewrite <- Hd, Hb. exact Es.
    + destruct (dropwhile (N.eqb DASH) (opt_colon s)) as [|c [|d r]];
        [now left | | discriminate].
      apply N.eqb_eq in Hrest. subst c. now right.
  - intros [a [n [b [Es [Hn [Ha Hb]]]]]].
    assert (opt_colon s = repeat DASH n ++ b) as Eb.
    { subst s. destruct Ha as [->| ->]; simpl; [|reflexivity].
      destruct n as [|n]; [lia|]. reflexivity. }
    rewrite Eb, takewhile_dashes, dropwhile_dashes by assumption.
    rewrite repeat_length. apply andb_true_iff. split.
    + now apply Nat.leb_le.
    + destruct Hb as [->| ->]; reflexivity.
Qed.

End SepPattern.

(* ================================================================== *)
(** * O1_pro_round_5: rows *)
(* ================================================================== *)

Module O1_pro_round_5_rows.
Import Py PyFacts O1_pro_round_5 Text O1_pro_round_5_spec.

Lemma join_in_order_after sep cells :
  forall before, in_order cells (before ++ join sep cells).
Proof.
  induction cells as [|c cells IH]; intros before; [constructor|].
  destruct cells as [|d cells].
  - simpl. replace (before ++ c) with (before ++ c ++ []) by now rewrite app_nil_r.
    apply in_order_cons. constructor.
  - change (join sep (c :: d :: cells)) with (c ++ sep ++ join sep (d :: cells)).
    apply in_order_cons. apply IH.
Qed.

Lemma join_in_order sep cells : in_order cells (join sep cells).
Proof. apply (join_in_order_after sep cells []). Qed.

(** C4 -- overflow merge of [_normalize_row]: for [1 <= target_cols <
    len(row)] the result has [target_cols] cells, the first
    [target_cols - 1] are the original ones, and the last one is the
    overflow cells [row[target_cols-1:]] joined by single spaces, so each of
    them occurs in it, in order. *)
Theorem normalize_row_overflow (row : list str) (target_cols : nat) :
  1 <= target_cols -> target_cols < length row ->
  let out := _normalize_row row target_cols in
  let overflow := skipn (target_cols - 1) row in
  length out = target_cols /\
  (forall i, i < target_cols - 1 -> nth_error out i = nth_error row i) /\
  nth_error out (target_cols - 1) = Some (join [SPACE] overflow) /\
  in_order overflow (join [SPACE] overflow) /\
  length overflow = length row - (target_cols - 1).
Proof.
  intros H1 H2. unfold _normalize_row.
  destruct (Nat.ltb_spec (length row) target_cols) as [Hlt|_]; [lia|].
  destruct (Nat.ltb_spec target_cols (length row)) as [_|Hge]; [|lia].
  destruct target_cols as [|k]; [lia|]. simpl slice_to_pred. simpl slice_from_pred.
  replace (S k - 1) with k by lia. cbv zeta.
  assert (length (firstn k row) = k) as Hk by (rewrite length_firstn; lia).
  repeat split.
  - rewrite length_app, Hk. simpl. lia.
  - intros i Hi. rewrite nth_error_app1 by lia. rewrite nth_error_firstn.
    destruct (Nat.ltb_spec i k); [reflexivity | lia].
  - rewrite nth_error_app2 by lia. rewrite Hk, Nat.sub_diag. reflexivity.
  - apply join_in_order.
  - rewrite length_skipn. reflexivity.
Qed.

Lemma normalize_row_overflow_witness :
  let row := map of_string ["a"; "b"; "c"; "d"]%string in
  let out := _normalize_row row 2 in
  let overflow := skipn (2 - 1) row in
  length out = 2 /\
  (forall i, i < 2 - 1 -> nth_error out i = nth_error row i) /\
  nth_error out (2 - 1) = Some (join [SPACE] overflow) /\
  in_order overflow (join [SPACE] overflow) /\
  length overflow = length row - (2 - 1).
Proof.
  apply (@normalize_row_overflow (map of_string ["a"; "b"; "c"; "d"]%string) 2);
    simpl; lia.
Defined.

End O1_pro_round_5_rows.

(* ================================================================== *)
(** * Grok3_round_5: the separator predicate *)
(* ================================================================== *)

Module Grok3_round_5_separator.
Import Py PyFacts SepPattern Grok3_round_5 Text.

(** C5, as the code has it -- [is_separator_row(cells)] is true exactly when
    every cell that is not blank matches [:?-{3,}:?] once stripped; on
    stripped cells, as [parse_row] yields them, exactly when every non-empty
    cell matches.  A row made of empty cells only satisfies this vacuously:
    the predicate is true on it, not false. *)
Theorem is_separator_row_iff (cells : list str) :
  (is_separator_row cells = true <->
   forall c, In c cells -> strip c <> [] -> sep_pattern (strip c)) /\
  (Forall trimmed cells ->
   (is_separator_row cells = true <->
    forall c, In c cells -> c <> [] -> sep_pattern c)) /\
  ((forall c, In c cells -> c = []) -> is_separator_row cells = true).
Proof.
  assert (is_separator_row cells = true <->
          forall c, In c cells -> strip c <> [] -> sep_pattern (strip c)) as Hiff.
  { unfold is_separator_row. rewrite forallb_forall. split.
    - intros H c Hin Hne. apply fullmatch_sep_spec. apply (H c).
      apply filter_In. split; [assumption | now apply truthy_true].
    - intros H c Hin. apply filter_In in Hin. destruct Hin as [Hin Hne].
      apply fullmatch_sep_spec. apply H; [assumption | now apply truthy_true]. }
  split; [exact Hiff|]. split.
  - intros Ht. rewrite Hiff. rewrite Forall_forall in Ht.
    split; intros H c Hin Hne.
    + rewrite <- (strip_trimmed _ (Ht c Hin)) in Hne |- *. now apply H.
    + rewrite (strip_trimmed _ (Ht c Hin)) in Hne |- *. now apply H.
  - intros Hall. apply Hiff. intros c Hin Hne. rewrite (Hall c Hin) in Hne.
    now elim Hne.
Qed.

(** C5, the claim as stated fails: a row of two empty cells is composed
    entirely of empty cells, and the predicate is true on it. *)
Lemma is_separator_row_empty_cells :
  Forall (fun c : str => c = []) [[]; []] /\
  is_separator_row [[]; []] = true /\
  parse_row (of_string "| | |") = [[]; []].
Proof. repeat split; repeat constructor. Qed.

End Grok3_round_5_separator.

(* ================================================================== *)
(** * O1_pro_round_5: the layout *)
(* ================================================================== *)

Module O1_pro_round_5_layout.
Import Py PyFacts O1_pro_round_5 Text O1_pro_round_5_spec.

Lemma odd_range_from_length i k : length (odd_range_from i k) = k.
Proof. revert i. induction k; intros i; simpl; [reflexivity | now rewrite IHk]. Qed.

Lemma filter_odd_seq_even m :
  forall k, Nat.even k = true ->
            filter Nat.odd (seq k (2 * m)) = odd_range_from (k + 1) m.
Proof.
  induction m as [|m IH]; intros k Hk; [reflexivity|].
  replace (2 * S m) with (S (S (2 * m))) by lia.
  cbn [seq filter].
  assert (Nat.odd k = false) as -> by (unfold Nat.odd; now rewrite Hk).
  assert (Nat.odd (S k) = true) as ->
      by (rewrite Nat.odd_succ; exact Hk).
  cbn [odd_range_from]. replace (k + 1) with (S k) by lia. f_equal.
  replace (S k + 2) with (S (S k) + 1) by lia. apply IH.
  now rewrite Nat.even_succ_succ.
Qed.

Lemma filter_odd_seq n : filter Nat.odd (seq 0 n) = odd_range n.
Proof.
  unfold odd_range.
  pose proof (Nat.div_mod_eq n 2) as E.
  pose proof (Nat.mod_upper_bound n 2 ltac:(lia)) as Hm.
  assert (n mod 2 = 0 \/ n mod 2 = 1) as [H0|H1] by lia.
  - rewrite E at 1. rewrite H0, Nat.add_0_r.
    now rewrite filter_odd_seq_even.
  - rewrite E at 1. rewrite H1, seq_app, filter_app.
    rewrite filter_odd_seq_even by reflexivity.
    cbn [seq filter]. change (0 + 2 * (n / 2)) with (2 * (n / 2)).
    assert (Nat.odd (2 * (n / 2)) = false) as ->.
    { rewrite Nat.odd_mul. reflexivity. }
    now rewrite app_nil_r.
Qed.

Lemma enumerate_filter_from {A} (P : nat -> A -> bool) (d : A) l :
  forall k,
    map fst (filter (fun ir => P (fst ir) (snd ir)) (combine (seq k (length l)) l)) =
    filter (fun i => P i (nth (i - k) l d)) (seq k (length l)).
Proof.
  induction l as [|x l IH]; intros k; [reflexivity|].
  cbn [length seq combine filter fst snd].
  rewrite Nat.sub_diag. change (nth 0 (x :: l) d) with x.
  assert (filter (fun i => P i (nth (i - k) (x :: l) d)) (seq (S k) (length l)) =
          filter (fun i => P i (nth (i - S k) l d)) (seq (S k) (length l))) as E.
  { apply filter_ext_in. intros i Hi. apply in_seq in Hi.
    replace (i - k) with (S (i - S k)) by lia. reflexivity. }
  destruct (P k x); cbn [map fst]; rewrite IH, E; reflexivity.
Qed.

Lemma filter_swap {A} (f g : A -> bool) l :
  filter f (filter g l) = filter g (filter f l).
Proof.
  induction l as [|x l IH]; [reflexivity|]. cbn [filter].
  destruct (g x) eqn:Eg, (f x) eqn:Ef; cbn [filter];
    rewrite ?Eg, ?Ef, IH; reflexivity.
Qed.

(** The separator rows counted by the loop over [range(1, len(rows), 2)]
    are the separator indices that are odd. *)
Lemma odd_separators_count rows :
  filter (fun i => _is_separator_row (nth i rows [])) (odd_range (length rows)) =
  filter Nat.odd (separator_indices rows).
Proof.
  unfold separator_indices, enumerate.
  rewrite (enumerate_filter_from (fun _ r => _is_separator_row r) [] rows 0).
  rewrite <- filter_odd_seq, filter_swap.
  f_equal. apply filter_ext. intros i. now rewrite Nat.sub_0_r.
Qed.

(** C6, as the code has it -- the layout is repeated exactly when there are
    at least three parsed rows and the separator rows at odd positions are at
    least half as many as the odd positions ([len(rows) // 2] of them);
    it is standard otherwise. *)
Theorem detect_repeated_separators_iff (rows : list (list str)) :
  _detect_repeated_separators rows = true <->
  3 <= length rows /\
  length rows / 2 <= 2 * length (filter Nat.odd (separator_indices rows)).
Proof.
  unfold _detect_repeated_separators.
  rewrite odd_separators_count. unfold odd_range at 1.
  rewrite odd_range_from_length.
  destruct (Nat.ltb_spec (length rows) 3) as [Hlt|Hge].
  - split; [discriminate | lia].
  - rewrite Nat.leb_le. split; [now split | tauto].
Qed.

(** C6, the claim as stated fails: on the rows of [a|b], [---|---],
    [1|2|3] (an invalid block) the only separator index is 1, so the
    specification's rule says standard, and the code says repeated and puts
    a separator after the data row. *)
Lemma detect_repeated_separators_not_spec :
  let lines := map of_string ["a|b"; "---|---"; "1|2|3"]%string in
  let rows := map _parse_row lines in
  _is_valid_table (_merge_continuation_lines lines) = false /\
  separator_indices rows = [1] /\
  spec_repeated rows = false /\
  _detect_repeated_separators rows = true /\
  fix_invalid_markdown_tables (join [LF] lines) =
  Ok (join [LF] (map of_string
        ["a | b | "; "--- | --- | ---"; "1 | 2 | 3"; "--- | --- | ---"]%string)).
Proof. vm_compute. repeat split; reflexivity. Qed.

(** With the detector of the class for [detect], the functions with the
    call left open are the functions of the class. *)
Lemma scan_with_detector lines :
  forall out tb it,
    scan_with _detect_repeated_separators lines out tb it = scan lines out tb it.
Proof.
  induction lines as [|l lines IH]; intros out tb it; cbn [scan_with scan].
  - reflexivity.
  - destruct (contains PIPE l); [apply IH|].
    destruct it; [|apply IH].
    change (process_table_block_with _detect_repeated_separators tb)
      with (_process_table_block tb).
    destruct (_process_table_block tb); cbn [bind]; [apply IH | reflexivity].
Qed.

Lemma fix_with_detector text :
  fix_invalid_markdown_tables_with _detect_repeated_separators text =
  fix_invalid_markdown_tables text.
Proof.
  unfold fix_invalid_markdown_tables_with, fix_invalid_markdown_tables.
  now rewrite scan_with_detector.
Qed.

(** C8, as the code has it -- scenario B: the six lines [h1|h2],
    [---|---], [d1|d2], [---|---], [e1|e2], [---|---] are a valid table for
    [_is_valid_table], so [_process_table_block] returns them as they are
    and the repair, which alone asks [_detect_repeated_separators], does not
    run: the output is the input, whatever stands for the detector, and so
    it has one separator row right after each of the data rows [d1|d2] and
    [e1|e2]. *)
Theorem scenario_B_valid_table_kept :
  let lines := map of_string
      ["h1|h2"; "---|---"; "d1|d2"; "---|---"; "e1|e2"; "---|---"]%string in
  let text := join [LF] lines in
  splitlines text = lines /\
  _is_valid_table (_merge_continuation_lines lines) = true /\
  _process_table_block lines = Ok lines /\
  fix_invalid_markdown_tables text = Ok text /\
  (forall detect, fix_invalid_markdown_tables_with detect text = Ok text) /\
  map (fun l => _is_separator_row (_parse_row l)) lines =
  [false; true; false; true; false; true].
Proof.
  cbv zeta. split; [vm_compute; reflexivity|]. split; [vm_compute; reflexivity|].
  split; [vm_compute; reflexivity|]. split; [vm_compute; reflexivity|].
  split; [|vm_compute; reflexivity].
  intros detect. vm_compute. reflexivity.
Qed.

(** C8, the claim as stated fails: on the six lines the layout is not
    detected.  With a detector that never answers repeated in the place of
    [_detect_repeated_separators] the output is the same, and it is not what
    the repair, where the detector is asked, makes of these lines: the
    repair writes [h1 | h2], the output has [h1|h2]. *)
Lemma scenario_B_layout_not_detected :
  let lines := map of_string
      ["h1|h2"; "---|---"; "d1|d2"; "---|---"; "e1|e2"; "---|---"]%string in
  let text := join [LF] lines in
  let repaired := map of_string
      ["h1 | h2"; "--- | ---"; "d1 | d2"; "--- | ---"; "e1 | e2"; "--- | ---"]%string in
  fix_invalid_markdown_tables text = Ok text /\
  fix_invalid_markdown_tables_with (fun _ => false) text = Ok text /\
  fix_invalid_markdown_tables_with _detect_repeated_separators text = Ok text /\
  _fix_invalid_table (_merge_continuation_lines lines) = Ok repaired /\
  Ok text <> Ok (join [LF] repaired) /\
  fix_invalid_table_with (fun _ => false) (_merge_continuation_lines lines) =
  Ok (map of_string ["h1 | h2"; "--- | ---"; "d1 | d2"; "e1 | e2"]%string).
Proof.
  cbv zeta. repeat split; try (vm_compute; reflexivity).
  vm_compute. discriminate.
Qed.

End O1_pro_round_5_layout.

(* ================================================================== *)
(** * Lines: splitlines and join *)
(* ================================================================== *)

Module Lines.
Import Py PyFacts Text.

Lemma join_cons sep l ls :
  ls <> [] -> join sep (l :: ls) = l ++ sep ++ join sep ls.
Proof. destruct ls; [congruence | reflexivity]. Qed.

Lemma join_cons_first sep c ls :
  join sep (cons_first c ls) = c :: join sep ls.
Proof. destruct ls as [|l [|l' ls]]; reflexivity. Qed.

Lemma splitlines_line_lf l rest :
  no_linebreak l = true -> splitlines (l ++ LF :: rest) = l :: splitlines rest.
Proof.
  induction l as [|c l IH]; intros H.
  - reflexivity.
  - cbn [no_linebreak forallb] in H. apply andb_true_iff in H. destruct H as [Hc Hl].
    apply negb_true_iff in Hc. cbn [app splitlines]. rewrite Hc, (IH Hl). reflexivity.
Qed.

Lemma splitlines_line_crlf l rest :
  no_linebreak l = true -> splitlines (l ++ CR :: LF :: rest) = l :: splitlines rest.
Proof.
  induction l as [|c l IH]; intros H.
  - reflexivity.
  - cbn [no_linebreak forallb] in H. apply andb_true_iff in H. destruct H as [Hc Hl].
    apply negb_true_iff in Hc. cbn [app splitlines]. rewrite Hc, (IH Hl). reflexivity.
Qed.

Lemma splitlines_one_line l :
  no_linebreak l = true -> l <> [] -> splitlines l = [l].
Proof.
  induction l as [|c l IH]; intros H Hne; [congruence|].
  cbn [no_linebreak forallb] in H. apply andb_true_iff in H. destruct H as [Hc Hl].
  apply negb_true_iff in Hc. cbn [splitlines]. rewrite Hc.
  destruct l as [|d l]; [reflexivity|].
  rewrite IH by (assumption || discriminate). reflexivity.
Qed.

(** Lines joined by line feeds are split back into themselves, unless the
    last one is empty. *)
Lemma splitlines_join ls :
  Forall (fun l => no_linebreak l = true) ls -> last ls [LF] <> [] ->
  splitlines (join [LF] ls) = ls.
Proof.
  induction ls as [|l ls IH]; intros Hall Hlast; [reflexivity|].
  inversion Hall as [|? ? Hl Hls]; subst.
  destruct ls as [|l' ls].
  - cbn [join]. apply splitlines_one_line; assumption.
  - rewrite join_cons by discriminate. cbn [app].
    rewrite splitlines_line_lf by assumption. f_equal. apply IH; assumption.
Qed.

Lemma splitlines_crlf_lines ls :
  Forall (fun l => no_linebreak l = true) ls ->
  splitlines (concat (map (fun l => l ++ [CR; LF]) ls)) = ls.
Proof.
  induction ls as [|l ls IH]; intros Hall; [reflexivity|].
  inversion Hall as [|? ? Hl Hls]; subst.
  cbn [map concat]. rewrite <- app_assoc. cbn [app].
  rewrite splitlines_line_crlf by assumption. f_equal. now apply IH.
Qed.

(** Induction following the cases of [splitlines]. *)
Lemma splitlines_cases (P : str -> list str -> Prop) :
  P [] [] ->
  (forall c s, islinebreak c = false -> P s (splitlines s) ->
               P (c :: s) (cons_first c (splitlines s))) ->
  (forall s, P s (splitlines s) -> P (CR :: LF :: s) ([] :: splitlines s)) ->
  (forall c s, islinebreak c = true -> P s (splitlines s) ->
               P (c :: s) ([] :: splitlines s)) ->
  forall s, P s (splitlines s).
Proof.
  intros Hnil Hchar Hcrlf Hbreak s.
  assert (forall n s, length s <= n -> P s (splitlines s)) as H.
  { induction n as [|n IH]; intros [|c t] Hlen; try exact Hnil;
      cbn [length] in Hlen; [lia|].
    cbn [splitlines]. destruct (islinebreak c) eqn:Eb.
    - destruct (N.eqb_spec c CR) as [->|Hc].
      + destruct t as [|d t].
        * apply Hbreak; [reflexivity | exact Hnil].
        * destruct (N.eqb_spec d LF) as [->|Hd].
          -- apply Hcrlf. apply IH. cbn [length] in Hlen. lia.
          -- apply (Hbreak CR (d :: t)); [reflexivity|]. apply IH. lia.
      + apply Hbreak; [assumption|]. apply IH. lia.
    - apply Hchar; [assumption|]. apply IH. lia. }
  apply (H (length s)). lia.
Qed.

Lemma in_cons_first {A} (c : A) ls l :
  In l (cons_first c ls) ->
  l = [c] \/ (exists l', l = c :: l' /\ In l' ls) \/ In l ls.
Proof.
  destruct ls as [|l0 ls]; cbn [cons_first In].
  - intros [<-|[]]. now left.
  - intros [<-|H].
    + right. left. exists l0. split; [reflexivity | now left].
    + right. right. now right.
Qed.

(** Every character of a line of [splitlines s] is a character of [s] that
    is no line break. *)
Lemma splitlines_chars s :
  forall l c, In l (splitlines s) -> In c l -> In c s /\ islinebreak c = false.
Proof.
  apply (splitlines_cases
           (fun s ls => forall l c, In l ls -> In c l ->
                                    In c s /\ islinebreak c = false)); clear s.
  - intros l c [].
  - intros c s Hc IH l x Hl Hx. apply in_cons_first in Hl.
    destruct Hl as [->|[[l' [-> Hl']]|Hl]].
    + destruct Hx as [<-|[]]. split; [now left | assumption].
    + destruct Hx as [<-|Hx]; [split; [now left | assumption]|].
      destruct (IH l' x Hl' Hx). split; [now right | assumption].
    + destruct (IH l x Hl Hx). split; [now right | assumption].
  - intros s IH l x [<-|Hl] Hx; [destruct Hx|].
    destruct (IH l x Hl Hx). split; [now right; right | assumption].
  - intros c s Hc IH l x [<-|Hl] Hx; [destruct Hx|].
    destruct (IH l x Hl Hx). split; [now right | assumption].
Qed.

Lemma splitlines_no_linebreak s :
  Forall (fun l => no_linebreak l = true) (splitlines s).
Proof.
  apply Forall_forall. intros l Hl. apply forallb_forall. intros c Hc.
  destruct (splitlines_chars s l c Hl Hc) as [_ H]. now rewrite H.
Qed.

Lemma splitlines_no_pipe s :
  contains PIPE s = false ->
  Forall (fun l => contains PIPE l = false) (splitlines s).
Proof.
  intros H. apply Forall_forall. intros l Hl. apply contains_false_iff.
  intros Hin. destruct (splitlines_chars s l PIPE Hl Hin) as [Hs _].
  apply contains_false_iff in H. contradiction.
Qed.

Lemma endswith_cons c x s : s <> [] -> endswith c (x :: s) = endswith c s.
Proof.
  intros Hne. unfold endswith. cbn [rev].
  destruct (exists_last Hne) as [s' [y ->]]. rewrite rev_app_distr. reflexivity.
Qed.

(** On a text whose line breaks are line feeds, splitting and joining loses
    a final line feed and nothing else. *)
Lemma join_splitlines_lf_only s :
  lf_only s = true ->
  join [LF] (splitlines s) ++ (if endswith LF s then [LF] else []) = s.
Proof.
  induction s as [|c s IH]; intros H; [reflexivity|].
  cbn [lf_only forallb] in H. apply andb_true_iff in H. destruct H as [Hc Hs].
  specialize (IH Hs). cbn [splitlines].
  destruct (islinebreak c) eqn:Eb.
  - cbn [negb orb] in Hc. apply N.eqb_eq in Hc. subst c.
    change (N.eqb LF CR) with false. cbv iota.
    destruct s as [|d s]; [reflexivity|].
    rewrite endswith_cons by discriminate.
    assert (splitlines (d :: s) <> []) as Hne.
    { cbn [splitlines]. destruct (islinebreak d); [discriminate|].
      destruct (splitlines s); discriminate. }
    rewrite join_cons by assumption. cbn [app]. now rewrite IH.
  - rewrite join_cons_first. cbn [app].
    destruct s as [|d s].
    + cbn. unfold endswith. cbn. destruct (N.eqb_spec c LF) as [->|]; [discriminate|].
      reflexivity.
    + rewrite endswith_cons by discriminate. now rewrite IH.
Qed.

End Lines.

(* ================================================================== *)
(** * Grok3_round_5: valid blocks are kept *)
(* ================================================================== *)

Module Grok3_round_5_blocks.
Import Py PyFacts Lines Grok3_round_5 Text.











End Grok3_round_5_blocks.

(* ================================================================== *)
(** * Claude37_round_5: text without tables *)
(* ================================================================== *)

Module Claude37_round_5_plain.
Import Py PyFacts Lines Claude37_round_5 Text.

(** Lines without a pipe go to the output one by one. *)
Lemma scan_no_pipe lines :
  Forall (fun l => contains PIPE l = false) lines ->
  forall output, scan lines output [] false = Ok (output ++ lines).
Proof.
  induction lines as [|l lines IH]; intros Hall output.
  - cbn. now rewrite app_nil_r.
  - inversion Hall as [|? ? Hl Hls]; subst. cbn [scan]. rewrite Hl. cbn [andb].
    rewrite (IH Hls). now rewrite <- app_assoc.
Qed.

Lemma fix_no_pipe x :
  contains PIPE x = false ->
  fix_invalid_markdown_tables x = Ok (join [LF] (splitlines x)).
Proof.
  intros H. unfold fix_invalid_markdown_tables, fix_lines.
  rewrite scan_no_pipe by now apply splitlines_no_pipe. reflexivity.
Qed.

Lemma lf_only_snoc x : lf_only x = true -> lf_only (x ++ [LF]) = true.
Proof. unfold lf_only. intros H. rewrite forallb_app, H. reflexivity. Qed.

Lemma endswith_snoc c x : endswith c (x ++ [c]) = true.
Proof. unfold endswith. rewrite rev_app_distr. cbn. apply N.eqb_refl. Qed.

(** C10 -- on a text without a pipe the result is the text's lines joined by
    line feeds.  So a text whose line breaks are all line feeds and that
    does not end with one is returned as it is, one line feed at its end is
    removed, and lines that end with CR LF come out joined by line feeds,
    without the last terminator. *)
Theorem no_pipe_lines_rejoined (x : str) :
  contains PIPE x = false ->
  fix_invalid_markdown_tables x = Ok (join [LF] (splitlines x)) /\
  (lf_only x = true -> endswith LF x = false ->
   fix_invalid_markdown_tables x = Ok x /\
   fix_invalid_markdown_tables (x ++ [LF]) = Ok x) /\
  (forall ls, Forall (fun l => no_linebreak l = true) ls ->
              x = concat (map (fun l => l ++ [CR; LF]) ls) ->
              fix_invalid_markdown_tables x = Ok (join [LF] ls)).
Proof.
  intros Hx. split; [now apply fix_no_pipe|]. split.
  - intros Hlf Hend. split.
    + rewrite fix_no_pipe by assumption.
      pose proof (join_splitlines_lf_only x Hlf) as E. rewrite Hend, app_nil_r in E.
      now rewrite E.
    + rewrite fix_no_pipe by (rewrite contains_app, Hx; reflexivity).
      pose proof (join_splitlines_lf_only (x ++ [LF]) (lf_only_snoc x Hlf)) as E.
      rewrite endswith_snoc in E. apply app_inv_tail in E. now rewrite E.
  - intros ls Hls ->. rewrite fix_no_pipe by assumption.
    now rewrite splitlines_crlf_lines.
Qed.

Lemma no_pipe_lines_rejoined_witness :
  let x := of_string "one" ++ [LF; LF] ++ of_string "two" in
  fix_invalid_markdown_tables x = Ok (join [LF] (splitlines x)) /\
  (lf_only x = true -> endswith LF x = false ->
   fix_invalid_markdown_tables x = Ok x /\
   fix_invalid_markdown_tables (x ++ [LF]) = Ok x) /\
  (forall ls, Forall (fun l => no_linebreak l = true) ls ->
              x = concat (map (fun l => l ++ [CR; LF]) ls) ->
              fix_invalid_markdown_tables x = Ok (join [LF] ls)).
Proof.
  apply (@no_pipe_lines_rejoined (of_string "one" ++ [LF; LF] ++ of_string "two")).
  reflexivity.
Defined.

End Claude37_round_5_plain.

(* ================================================================== *)
(** * Grok3_round_1: blocks and blank lines *)
(* ================================================================== *)

Module Grok3_round_1_blocks.
Import Py PyFacts Lines Grok3_round_1 Text Grok3_round_1_spec.

(** C9, the code at the failing input -- the docstring of
    [fix_invalid_markdown_tables] promises to leave non-table content
    unchanged, as the claim says; but of the two blank lines between [a] and
    [b] one is left: the text returned is not the text given, and the lines
    without a pipe of the input are no subsequence of the lines of the
    output.  Likewise, in a block of three table lines a line without a pipe
    is rewritten as a table row. *)
Theorem blank_lines_not_kept :
  let text := join [LF] (map of_string ["a"; ""; ""; "b"]%string) in
  let out := join [LF] (map of_string ["a"; ""; "b"]%string) in
  let text2 := join [LF] (map of_string ["a|b"; "c|d"; "e|f"; "note"]%string) in
  fix_invalid_markdown_tables text = Ok out /\
  out <> text /\
  is_subseq (filter (fun l => negb (contains PIPE l)) (splitlines text))
            (splitlines out) = false /\
  fix_invalid_markdown_tables text2 =
  Ok (join [LF] (map of_string
        ["| a | b |"; "| --- | --- |"; "| c | d |"; "| e | f |"; "| note |  |"]%string)).
Proof. vm_compute. repeat split; try reflexivity. discriminate. Qed.

End Grok3_round_1_blocks.

(* ================================================================== *)
(** * Claude37_round_3: the separator rows of a repaired table *)
(* ================================================================== *)

Module Claude37_round_3_separator.
Import Py PyFacts SepPattern Claude37_round_3 Text Claude37_round_3_spec.

Lemma first_nonblank_spec cells d :
  (Forall (fun c => strip c = []) cells /\ first_nonblank cells d = d) \/
  (exists blanks c rest,
      cells = blanks ++ c :: rest /\ Forall (fun c => strip c = []) blanks /\
      strip c <> [] /\ first_nonblank cells d = strip c).
Proof.
  induction cells as [|c cells IH]; cbn [first_nonblank].
  - left. split; [constructor | reflexivity].
  - destruct (truthy (strip c)) eqn:E.
    + right. exists [], c, cells. repeat split; [constructor|].
      now apply truthy_true.
    + apply truthy_false in E. destruct IH as [[Hall Hd]|[blanks [x [rest [Ec [Hb [Hx Hf]]]]]]].
      * left. split; [constructor; assumption | assumption].
      * right. exists (c :: blanks), x, rest. subst cells.
        repeat split; [constructor; assumption | assumption | assumption].
Qed.

Lemma separator_row_cell cells c :
  is_separator_row cells = true -> In c cells -> strip c <> [] -> sep_pattern (strip c).
Proof.
  unfold is_separator_row. destruct (negb (truthy cells)); [discriminate|].
  rewrite forallb_forall. intros H Hin Hne. apply fullmatch_sep_spec.
  apply (H c). apply filter_In. split; [assumption | now apply truthy_true].
Qed.

Lemma origin_cons line lines s :
  not_separator line -> sep_style_origin lines s ->
  sep_style_origin (line :: lines) s.
Proof.
  intros Hn H. destruct H as [ls Hall | before l after Hb Hs Hc
                             | before l after blanks c cells Hb Hs Ec Hbl Hc Hp].
  - apply origin_default. constructor; assumption.
  - apply (@origin_blank (line :: before) l after); try assumption.
    constructor; assumption.
  - apply (@origin_cell (line :: before) l after blanks c cells); try assumption.
    constructor; assumption.
Qed.

Lemma get_separator_style_origin lines :
  sep_style_origin lines (get_separator_style lines).
Proof.
  unfold get_separator_style.
  induction lines as [|line lines IH]; cbn [get_separator_style_loop].
  - apply origin_default. constructor.
  - destruct (is_separator_row (parse_table_row line)) eqn:Es.
    + destruct (first_nonblank_spec (parse_table_row line) dashes3)
        as [[Hall ->]|[blanks [c [rest [Ec [Hb [Hc ->]]]]]]].
      * apply (@origin_blank [] line lines); [constructor | assumption..].
      * apply (@origin_cell [] line lines blanks c rest);
          try assumption; [constructor|].
        apply (@separator_row_cell (parse_table_row line) c); try assumption.
        rewrite Ec. apply in_or_app. right. now left.
    + now apply origin_cons.
Qed.

Lemma fold_max_upper l :
  forall a, a <= fold_left Nat.max l a /\
            forall x, In x l -> x <= fold_left Nat.max l a.
Proof.
  induction l as [|y l IH]; intros a; cbn [fold_left].
  - split; [lia | intros x []].
  - destruct (IH (Nat.max a y)) as [H1 H2]. split; [lia|].
    intros x [<-|Hx]; [lia | now apply H2].
Qed.

(** A row that is not longer than the target is padded with empty cells. *)
Lemma normalize_row_pads row m :
  length row <= m -> normalize_row row m = row ++ repeat [] (m - length row).
Proof.
  intros H. unfold normalize_row.
  destruct (Nat.ltb_spec (length row) m) as [Hlt|Hge]; [reflexivity|].
  destruct (Nat.ltb_spec m (length row)) as [Hlt|_]; [lia|].
  replace (m - length row) with 0 by lia. cbn [repeat]. now rewrite app_nil_r.
Qed.

Lemma flat_map_flagged {A B} (p : A -> bool) (g h : A -> list B) (l : list A) :
  (forall a, In a l -> g a = h a) ->
  flat_map (fun af : A * bool => if snd af then [] else g (fst af))
           (combine l (map p l)) =
  flat_map h (filter (fun a => negb (p a)) l).
Proof.
  induction l as [|a l IH]; intros Hgh; [reflexivity|].
  cbn [map combine flat_map filter fst snd].
  rewrite IH by (intros b Hb; apply Hgh; now right).
  destruct (p a); cbn [negb flat_map]; [reflexivity|].
  now rewrite (Hgh a (or_introl eq_refl)).
Qed.

Lemma blank_cells_no_cell k :
  filter (fun c : str => truthy (strip c)) (repeat [] k) = [].
Proof. induction k as [|k IH]; [reflexivity | exact IH]. Qed.

(** Empty cells at the end of a row that has a cell do not change what
    [is_separator_row] says of it. *)
Lemma is_separator_row_padded row k :
  row <> [] -> is_separator_row (row ++ repeat [] k) = is_separator_row row.
Proof.
  intros Hne. unfold is_separator_row.
  destruct row as [|c row]; [congruence|]. cbn [app truthy negb].
  change (c :: row ++ repeat [] k) with ((c :: row) ++ repeat [] k).
  now rewrite filter_app, blank_cells_no_cell, app_nil_r.
Qed.

(** C7, as the code has it -- the repaired table is: the first row of the
    block, padded with empty cells to [max_cols] cells, whatever that row
    is; a separator row; and the later rows of the block that are no
    separator rows, in order and padded alike, each followed by a further
    separator row when the block has separators after each row.  The
    separator rows written are [max_cols] copies of one cell, the separator
    style of the block: ["---"] by default, and else the first cell that is
    not blank of the block's first separator row, alignment colons
    included. *)
Theorem separator_rows_repeat_style (lines : list str) :
  lines <> [] ->
  let style := get_table_style (hd [] lines) in
  let rows := map parse_table_row lines in
  let sep_style := get_separator_style lines in
  exists max_cols,
    let line_of := fun cells => rebuild_row cells (fst style) (snd style) in
    let pad_row := fun row : list str => row ++ repeat [] (max_cols - length row) in
    let sep_line := line_of (repeat sep_style max_cols) in
    py_max (map (@length (list N)) rows) = Ok max_cols /\
    Forall (fun row => length row <= max_cols /\
                       (row <> [] -> is_separator_row (pad_row row) =
                                     is_separator_row row)) rows /\
    fix_invalid_table lines =
    Ok (line_of (pad_row (hd [] rows)) :: sep_line ::
        flat_map (fun row => if detect_table_pattern lines
                             then [line_of (pad_row row); sep_line]
                             else [line_of (pad_row row)])
                 (filter (fun row => negb (is_separator_row row)) (tl rows))) /\
    sep_style_origin lines sep_style.
Proof.
  intros Hne. destruct lines as [|first rest]; [congruence|]. cbv zeta.
  cbn [hd map tl py_max].
  set (m := fold_left Nat.max (map (@length (list N)) (map parse_table_row rest))
                      (length (parse_table_row first))).
  destruct (fold_max_upper (map (@length (list N)) (map parse_table_row rest))
                           (length (parse_table_row first))) as [Hfirst Hrest].
  fold m in Hfirst, Hrest.
  assert (forall row, In row (map parse_table_row rest) -> length row <= m) as Hlen
      by (intros row Hrow; apply Hrest; now apply in_map).
  exists m. split; [reflexivity|]. split; [|split].
  - constructor; [split; [exact Hfirst | intros H; now apply is_separator_row_padded]|].
    apply Forall_forall. intros row Hrow.
    split; [now apply Hlen | intros H; now apply is_separator_row_padded].
  - unfold fix_invalid_table.
    cbn [truthy negb getitem nth_error bind hd map py_max]. fold m.
    rewrite (normalize_row_pads _ Hfirst). unfold data_lines. cbn [tl].
    do 3 f_equal.
    apply (@flat_map_flagged _ _ is_separator_row
             (fun row =>
                if detect_table_pattern (first :: rest)
                then [rebuild_row (normalize_row row m) (fst (get_table_style first))
                                  (snd (get_table_style first));
                      rebuild_row (repeat (get_separator_style (first :: rest)) m)
                                  (fst (get_table_style first))
                                  (snd (get_table_style first))]
                else [rebuild_row (normalize_row row m) (fst (get_table_style first))
                                  (snd (get_table_style first))])).
    intros row Hrow. rewrite (normalize_row_pads _ (Hlen row Hrow)). reflexivity.
  - apply get_separator_style_origin.
Qed.

Lemma separator_rows_repeat_style_witness :
  let lines := map of_string [":---|---:"; "x|y|z"; "---|---"; "1|2"]%string in
  let style := get_table_style (hd [] lines) in
  let rows := map parse_table_row lines in
  let sep_style := get_separator_style lines in
  exists max_cols,
    let line_of := fun cells => rebuild_row cells (fst style) (snd style) in
    let pad_row := fun row : list str => row ++ repeat [] (max_cols - length row) in
    let sep_line := line_of (repeat sep_style max_cols) in
    py_max (map (@length (list N)) rows) = Ok max_cols /\
    Forall (fun row => length row <= max_cols /\
                       (row <> [] -> is_separator_row (pad_row row) =
                                     is_separator_row row)) rows /\
    fix_invalid_table lines =
    Ok (line_of (pad_row (hd [] rows)) :: sep_line ::
        flat_map (fun row => if detect_table_pattern lines
                             then [line_of (pad_row row); sep_line]
                             else [line_of (pad_row row)])
                 (filter (fun row => negb (is_separator_row row)) (tl rows))) /\
    sep_style_origin lines sep_style.
Proof.
  apply (@separator_rows_repeat_style
           (map of_string [":---|---:"; "x|y|z"; "---|---"; "1|2"]%string)).
  discriminate.
Defined.

(** C7, the claim as stated fails: the block [a|b], [:---:|:---:],
    [1|2|3] is invalid, and the separator row of its repair is made of
    [:---:] cells, colons included.  And a first row that is itself a
    separator row is written as the header with the cells it has: the
    repair of [:---|---:], [x|y|z] starts with a row of the cells [:---] and
    [---:]. *)
Lemma separator_colons_reproduced :
  let text := join [LF] (map of_string ["a|b"; ":---:|:---:"; "1|2|3"]%string) in
  let sep_line := of_string ":---: | :---: | :---:" in
  let text2 := join [LF] (map of_string [":---|---:"; "x|y|z"]%string) in
  let first_line := of_string ":--- | ---: | " in
  is_valid_table (merge_continuation_lines (splitlines text)) = false /\
  fix_invalid_markdown_tables text =
  Ok (join [LF] [of_string "a | b | "; sep_line; of_string "1 | 2 | 3"]) /\
  is_separator_row (parse_table_row sep_line) = true /\
  parse_table_row sep_line = repeat (of_string ":---:") 3 /\
  ~ Forall (fun cell => cell = dashes3) (parse_table_row sep_line) /\
  is_valid_table (merge_continuation_lines (splitlines text2)) = false /\
  fix_invalid_markdown_tables text2 =
  Ok (join [LF] [first_line; of_string ":--- | :--- | :---"; of_string "x | y | z"]) /\
  is_separator_row (parse_table_row first_line) = true /\
  parse_table_row first_line = [of_string ":---"; of_string "---:"].
Proof.
  cbv zeta. split; [vm_compute; reflexivity|]. split; [vm_compute; reflexivity|].
  split; [vm_compute; reflexivity|]. split; [vm_compute; reflexivity|].
  split; [|repeat split; vm_compute; reflexivity].
  intros H. assert (parse_table_row (of_string ":---: | :---: | :---:") =
                    repeat (of_string ":---:") 3) as E by (vm_compute; reflexivity).
  rewrite E in H. inversion H as [|? ? Hc _]. discriminate Hc.
Qed.

End Claude37_round_3_separator.

(* ================================================================== *)
(** * Claude37_round_1: no operation fails *)
(* ================================================================== *)

Module Claude37_round_1_total.
Import Py PyFacts Claude37_round_1 Text Claude37_round_1_spec.

Lemma returns_ok {A} (a : A) : returns (Ok a).
Proof. now exists a. Qed.

Lemma returns_bind {A B} (x : result A) (k : A -> result B) (P : A -> Prop) :
  (exists a, x = Ok a /\ P a) -> (forall a, P a -> returns (k a)) ->
  returns (x <- x ;; k x).
Proof. intros [a [-> Ha]] Hk. cbn [bind]. now apply Hk. Qed.

(** ** Loops *)

(** A [while] loop whose body keeps an invariant and lowers a measure ends
    within as many turns as the measure allows. *)
Lemma while_loop_ends {S : Type} (Inv : S -> Prop) (m : S -> nat)
    (cond : S -> bool) (body : S -> result S) :
  (forall s, Inv s -> cond s = true ->
             exists s', body s = Ok s' /\ Inv s' /\ m s' < m s) ->
  forall fuel s, Inv s -> m s <= fuel ->
                 exists s', while_loop fuel cond body s = Ok s' /\ Inv s' /\ cond s' = false.
Proof.
  intros Hbody. induction fuel as [|fuel IH]; intros s Hinv Hm; cbn [while_loop].
  - destruct (cond s) eqn:Ec.
    + destruct (Hbody s Hinv Ec) as [s' [_ [_ Hlt]]]. lia.
    + exists s. auto.
  - destruct (cond s) eqn:Ec.
    + destruct (Hbody s Hinv Ec) as [s' [-> [Hinv' Hlt]]]. cbn [bind].
      apply IH; [assumption | lia].
    + exists s. auto.
Qed.

Lemma pad_loop_ends bound fuel (cells : list str) :
  bound <= fuel ->
  returns (while_loop fuel (fun cells : list str => length cells <? bound)
                      (fun cells => Ok (cells ++ [[]])) cells).
Proof.
  intros Hf.
  destruct (@while_loop_ends (list str) (fun _ => True)
              (fun cells => bound - length cells)
              (fun cells => length cells <? bound)
              (fun cells => Ok (cells ++ [[]]))) with (fuel := fuel) (s := cells)
    as [s' [E _]].
  - intros s _ Hc. apply Nat.ltb_lt in Hc. eexists. split; [reflexivity|].
    split; [exact I|]. rewrite length_app. cbn. lia.
  - exact I.
  - lia.
  - now exists s'.
Qed.

Lemma pad_cells_ok cells max_columns : returns (pad_cells cells max_columns).
Proof. apply pad_loop_ends. lia. Qed.

Lemma pad_inner_ok cells max_columns : returns (pad_inner cells max_columns).
Proof. apply pad_loop_ends. lia. Qed.

Lemma normalize_line_ok is_sep max_columns line :
  returns (normalize_line is_sep max_columns line).
Proof.
  unfold normalize_line.
  destruct (pad_cells_ok (split PIPE line) max_columns) as [cells ->]. cbn [bind].
  destruct is_sep; apply returns_ok.
Qed.

Lemma normalize_rows_ok max_columns rows : returns (normalize_rows max_columns rows).
Proof.
  induction rows as [|[i row] rows IH]; cbn [normalize_rows]; [apply returns_ok|].
  destruct (normalize_line_ok (i =? 1) max_columns row) as [f ->]. cbn [bind].
  destruct IH as [more ->]. apply returns_ok.
Qed.

Lemma normalize_lines_ok seps max_columns lines :
  returns (normalize_lines seps max_columns lines).
Proof.
  induction lines as [|[i line] lines IH]; cbn [normalize_lines]; [apply returns_ok|].
  destruct (normalize_line_ok (mem i seps) max_columns line) as [f ->]. cbn [bind].
  destruct IH as [more ->]. apply returns_ok.
Qed.

Lemma fix_data_rows_ok max_columns rows : returns (fix_data_rows max_columns rows).
Proof.
  induction rows as [|row rows IH]; cbn [fix_data_rows]; [apply returns_ok|].
  unfold inner_cells. destruct (pad_inner_ok (removelast (tl (split PIPE row))) max_columns)
    as [cells ->]. cbn [bind].
  destruct IH as [more ->]. apply returns_ok.
Qed.

(** ** Indices *)

Lemma getitem_ok {A} (l : list A) i : i < length l -> returns (getitem l i).
Proof.
  intros H. unfold getitem. destruct (nth_error l i) eqn:E; [apply returns_ok|].
  apply nth_error_None in E. lia.
Qed.

Lemma in_enumerate_from {A} (l : list A) :
  forall k i x, In (i, x) (combine (seq k (length l)) l) ->
                k <= i /\ nth_error l (i - k) = Some x.
Proof.
  induction l as [|a l IH]; intros k i x; cbn [length seq combine In]; [intros []|].
  intros [E|H].
  - inversion E; subst. rewrite Nat.sub_diag. auto.
  - destruct (IH _ _ _ H) as [Hk Hn]. split; [lia|].
    replace (i - k) with (S (i - S k)) by lia. exact Hn.
Qed.

Lemma in_enumerate {A} (l : list A) i x :
  In (i, x) (enumerate l) -> nth_error l i = Some x.
Proof.
  intros H. apply in_enumerate_from in H. destruct H as [_ H].
  now rewrite Nat.sub_0_r in H.
Qed.

Lemma enumerate_snd {A} (l : list A) : map snd (enumerate l) = l.
Proof.
  unfold enumerate. generalize 0. induction l as [|a l IH]; intros k; [reflexivity|].
  cbn. now rewrite IH.
Qed.

Lemma separator_index_bound start lines i :
  In i (separator_indices_from start lines) -> start <= i /\ i < length lines.
Proof.
  unfold separator_indices_from. intros H. apply in_map_iff in H.
  destruct H as [[j l] [<- H]]. apply filter_In in H. destruct H as [Hin Hc].
  cbn [fst snd] in *. apply in_enumerate in Hin.
  apply andb_true_iff in Hc. destruct Hc as [Hc _].
  apply andb_true_iff in Hc. destruct Hc as [Hc _]. apply Nat.leb_le in Hc.
  split; [assumption|]. apply nth_error_Some. congruence.
Qed.

Lemma getitem_in {A} (l : list A) i x : getitem l i = Ok x -> In x l.
Proof.
  unfold getitem. destruct (nth_error l i) eqn:E; [|discriminate].
  intros H. inversion H; subst. eapply nth_error_In; eauto.
Qed.

Lemma getitem_first {A} (l : list A) : l <> [] -> returns (getitem l 0).
Proof. destruct l; [congruence|]. intros _. apply returns_ok. Qed.

(** ** is_table_valid *)

Lemma is_table_valid_ok table_text : returns (is_table_valid table_text).
Proof.
  unfold is_table_valid.
  destruct (Nat.ltb_spec (length (nonblank_lines table_text)) 2) as [Hlt|Hge];
    [apply returns_ok|].
  destruct (@getitem_ok _ (nonblank_lines table_text) 1 ltac:(lia)) as [sep ->].
  cbn [bind]. destruct (negb _); [apply returns_ok|].
  destruct (@getitem_ok _ (nonblank_lines table_text) 0 ltac:(lia)) as [l0 ->].
  cbn [bind]. destruct (negb _); apply returns_ok.
Qed.

(** ** fix_complex_table *)

Lemma append_to_last_ok row x :
  row <> [] -> exists row', append_to_last row x = Ok row' /\ row' <> [].
Proof.
  intros Hne. unfold append_to_last.
  destruct (rev row) as [|l before] eqn:E.
  - apply (f_equal (@rev _)) in E. rewrite rev_involutive in E. now elim Hne.
  - eexists. split; [reflexivity|]. intros H. apply app_eq_nil in H.
    destruct H as [_ H]. discriminate.
Qed.

Lemma lookahead_ok lines seps j row :
  row <> [] ->
  exists j' row', lookahead lines seps j row = Ok (j', row') /\ j <= j' /\ row' <> [].
Proof.
  intros Hne. unfold lookahead.
  destruct (@while_loop_ends (nat * list str)
              (fun st => snd st <> [] /\ j <= fst st)
              (fun st => length lines - fst st)
              (fun st : nat * list str =>
                 match nth_error lines (fst st) with
                 | None => false
                 | Some l => negb (mem (fst st) seps) &&
                             negb (startswith PIPE (strip l))
                 end)
              (fun st =>
                 l <- getitem lines (fst st) ;;
                 row <- append_to_last (snd st) ([SPACE] ++ strip l) ;;
                 Ok (fst st + 1, row)))
    with (fuel := length lines) (s := (j, row)) as [[j' row'] [E [[Hr Hj] _]]].
  - intros [k r] [Hr Hk] Hc. cbn [fst snd] in *.
    unfold getitem. destruct (nth_error lines k) as [l|] eqn:El; [|discriminate].
    cbn [bind].
    destruct (append_to_last_ok ([SPACE] ++ strip l) Hr) as [r' [-> Hr']].
    cbn [bind]. eexists. split; [reflexivity|]. cbn [fst snd].
    assert (k < length lines) by (apply nth_error_Some; congruence).
    repeat split; [assumption | lia | lia].
  - cbn [fst snd]. split; [assumption | lia].
  - cbn [fst]. lia.
  - exists j', row'. auto.
Qed.

Lemma rows_nonempty_snoc rows r :
  rows_nonempty rows -> r <> [] -> rows_nonempty (rows ++ [r]).
Proof.
  intros H Hr. apply Forall_app. split; [assumption|]. now repeat constructor.
Qed.

Lemma rows_nonempty_flush rows (cur : list str) :
  rows_nonempty rows -> rows_nonempty (if truthy cur then rows ++ [cur] else rows).
Proof.
  intros H. destruct cur; cbn [truthy]; [assumption|].
  apply rows_nonempty_snoc; [assumption | discriminate].
Qed.

Lemma collect_step_ok lines seps i rows cur :
  rows_nonempty rows -> i < length lines ->
  exists i' rows' cur',
    collect_step lines seps (i, rows, cur) = Ok (i', rows', cur') /\
    rows_nonempty rows' /\ i < i'.
Proof.
  intros Hrows Hi. unfold collect_step.
  destruct (getitem_ok lines Hi) as [line ->]. cbn [bind].
  destruct (mem i seps).
  - eexists. eexists. eexists. split; [reflexivity|]. split; [|lia].
    apply rows_nonempty_snoc; [now apply rows_nonempty_flush | discriminate].
  - destruct (@lookahead_ok lines seps (i + 1) [line] ltac:(discriminate))
      as [j [row [-> [Hj Hrow]]]].
    cbn [bind].
    destruct ((length lines <=? j) || mem j seps).
    + destruct row as [|r row]; [congruence|]. cbn [truthy].
      eexists. eexists. eexists. split; [reflexivity|]. split; [|lia].
      apply rows_nonempty_snoc; [assumption | discriminate].
    + eexists. eexists. eexists. split; [reflexivity|]. split; [assumption | lia].
Qed.

Lemma collect_rows_ok lines seps :
  exists rows, collect_rows lines seps = Ok rows /\ rows_nonempty rows.
Proof.
  unfold collect_rows.
  destruct (@while_loop_ends collect_state
              (fun st => rows_nonempty (snd (fst st)))
              (fun st => length lines - fst (fst st))
              (fun st : collect_state => fst (fst st) <? length lines)
              (collect_step lines seps))
    with (fuel := length lines) (s := (0, @nil (list str), @nil str))
    as [[[i rows] cur] [E [Hrows _]]].
  - intros [[i rows] cur] Hrows Hc. cbn [fst snd] in *. apply Nat.ltb_lt in Hc.
    destruct (@collect_step_ok lines seps i rows cur Hrows Hc)
      as [i' [rows' [cur' [-> [Hrows' Hlt]]]]].
    eexists. split; [reflexivity|]. cbn [fst snd]. split; [assumption | lia].
  - constructor.
  - cbn [fst]. lia.
  - rewrite E. cbn [bind]. eexists. split; [reflexivity|].
    now apply rows_nonempty_flush.
Qed.

Lemma first_separator_ok (rows : list (nat * list str)) :
  rows_nonempty (map snd rows) ->
  exists r, first_separator rows = Ok r /\
            forall idx, r = Some idx -> In idx (map fst rows).
Proof.
  induction rows as [|[i row] rows IH]; intros Hne; cbn [first_separator].
  - exists None. split; [reflexivity | discriminate].
  - cbn [map snd] in Hne. inversion Hne as [|? ? Hrow Hrest]; subst.
    destruct (getitem_first Hrow) as [r0 ->]. cbn [bind].
    destruct (infixb dashes3 r0).
    + exists (Some i). split; [reflexivity|]. intros idx E. inversion E. now left.
    + destruct (IH Hrest) as [r [-> Hr]]. exists r. split; [reflexivity|].
      intros idx E. right. now apply Hr.
Qed.

Lemma other_rows_ok idx (rows : list (nat * list str)) :
  rows_nonempty (map snd rows) -> returns (other_rows idx rows).
Proof.
  induction rows as [|[i row] rows IH]; intros Hne; cbn [other_rows];
    [apply returns_ok|].
  cbn [map snd] in Hne. inversion Hne as [|? ? Hrow Hrest]; subst.
  destruct (IH Hrest) as [more Emore].
  destruct (negb (i =? 0) && negb (i =? idx)).
  - destruct (getitem_first Hrow) as [r0 ->]. cbn [bind]. rewrite Emore.
    apply returns_ok.
  - rewrite Emore. apply returns_ok.
Qed.

Lemma enumerate_fst {A} (l : list A) : map fst (enumerate l) = seq 0 (length l).
Proof.
  unfold enumerate. generalize 0. induction l as [|a l IH]; intros k; [reflexivity|].
  cbn. now rewrite IH.
Qed.

Lemma fix_complex_table_ok table_text : returns (fix_complex_table table_text).
Proof.
  unfold fix_complex_table.
  set (lines := nonblank_lines table_text).
  set (seps := separator_indices_from 0 lines).
  destruct (1 <? length seps).
  - destruct (collect_rows_ok lines seps) as [rows [-> Hrows]]. cbn [bind].
    assert (exists header_row,
               (if truthy rows then r0 <- getitem rows 0 ;; getitem r0 0 else Ok [])
               = Ok header_row) as [header_row ->].
    { destruct rows as [|r0 rows']; cbn [truthy]; [now eexists|].
      cbn [getitem nth_error bind]. inversion Hrows; subst.
      now apply getitem_first. }
    cbn [bind].
    destruct (@first_separator_ok (enumerate rows)) as [fs [-> Hfs]].
    { now rewrite enumerate_snd. }
    cbn [bind].
    assert (exists new_rows,
               match fs with
               | None =>
                   Ok [header_row; bar_row (repeat dashes3 (cell_count header_row))]
               | Some idx =>
                   r <- getitem rows idx ;;
                   separator_row <- getitem r 0 ;;
                   others <- other_rows idx (enumerate rows) ;;
                   Ok ([header_row; separator_row] ++ others)
               end = Ok new_rows /\ new_rows <> []) as [new_rows [-> Hnew]].
    { destruct fs as [idx|].
      - specialize (Hfs idx eq_refl). rewrite enumerate_fst in Hfs.
        apply in_seq in Hfs.
        destruct (@getitem_ok _ rows idx ltac:(lia)) as [r Er]. rewrite Er.
        cbn [bind]. pose proof (getitem_in _ _ Er) as Hin.
        unfold rows_nonempty in Hrows. rewrite Forall_forall in Hrows.
        destruct (getitem_first (Hrows r Hin)) as [sr ->]. cbn [bind].
        destruct (@other_rows_ok idx (enumerate rows)) as [others ->].
        { rewrite enumerate_snd. now apply Forall_forall. }
        cbn [bind]. eexists. split; [reflexivity | discriminate].
      - eexists. split; [reflexivity | discriminate]. }
    cbn [bind].
    destruct new_rows as [|n0 new_rows']; [congruence|].
    cbn [map py_max bind].
    destruct (normalize_rows_ok
                (fold_left Init.Nat.max (map cell_count new_rows') (cell_count n0))
                (enumerate (n0 :: new_rows'))) as [fixed ->].
    apply returns_ok.
  - destruct seps as [|s0 seps'] eqn:Es; cbn [truthy]; [apply returns_ok|].
    assert (s0 < length lines) as Hs0.
    { apply (@separator_index_bound 0 lines s0). fold seps. rewrite Es. now left. }
    destruct (@getitem_ok _ lines 0 ltac:(lia)) as [header ->]. cbn [bind].
    change (getitem (s0 :: seps') 0) with (Ok s0). cbn [bind].
    destruct (getitem_ok lines Hs0) as [separator ->].
    cbn [bind]. unfold inner_cells at 1.
    match goal with
    | |- context [pad_inner ?c ?m] =>
        destruct (pad_inner_ok c m) as [hc ->]
    end.
    cbn [bind].
    match goal with
    | |- context [fix_data_rows ?m ?d] =>
        destruct (fix_data_rows_ok m d) as [fd ->]
    end.
    apply returns_ok.
Qed.

(** ** fix_table *)

Lemma collect_data_rows_ok seps (lines : list (nat * str)) :
  seps <> [] ->
  forall acc,
    for_loop (fun data_rows (il : nat * str) =>
                let (i, line) := il in
                skip <- (if mem i seps then
                           s0 <- getitem seps 0 ;; Ok (negb (i =? s0))
                         else Ok false) ;;
                if skip then Ok data_rows
                else if negb (mem i seps) then Ok (data_rows ++ [line])
                else Ok data_rows)
             lines acc =
    Ok (acc ++ map snd (filter (fun il => negb (mem (fst il) seps)) lines)).
Proof.
  intros Hne. destruct seps as [|s0 seps']; [congruence|].
  induction lines as [|[i line] lines IH]; intros acc; cbn [for_loop filter map].
  - now rewrite app_nil_r.
  - cbn [fst]. destruct (mem i (s0 :: seps')) eqn:Em; cbn [getitem nth_error bind negb].
    + destruct (negb (i =? s0)); cbn [bind]; apply IH.
    + rewrite IH. cbn [map snd]. now rewrite <- app_assoc.
Qed.

Lemma mem_true_iff i l : mem i l = true <-> In i l.
Proof.
  unfold mem. rewrite existsb_exists. split.
  - intros [x [Hx E]]. apply Nat.eqb_eq in E. now subst.
  - intros H. exists i. split; [assumption | apply Nat.eqb_refl].
Qed.

Lemma fix_table_ok table_text : returns (fix_table table_text).
Proof.
  unfold fix_table.
  set (lines := nonblank_lines table_text).
  pose proof (@separator_index_bound 1 lines) as Hbound.
  set (seps := separator_indices_from 1 lines) in *.
  destruct seps as [|s0 seps'] eqn:Es; cbn [truthy negb]; [apply returns_ok|].
  assert (1 <= s0 /\ s0 < length lines) as [Hs1 Hs0] by (apply Hbound; now left).
  assert (exists rep,
             (if 1 <? length (s0 :: seps') then
                a <- getitem (s0 :: seps') 0 ;;
                b <- getitem (s0 :: seps') 1 ;; Ok (negb (a + 1 =? b))
              else Ok false) = Ok rep) as [rep ->].
  { destruct seps' as [|s1 seps'']; cbn; eexists; reflexivity. }
  cbn [bind].
  assert (exists fixed_lines,
             (if rep then
                header_row <- getitem lines 0 ;;
                a <- getitem (s0 :: seps') 0 ;;
                first_separator <- getitem lines a ;;
                data_rows <- collect_data_rows (s0 :: seps') (enumerate lines) ;;
                d0 <- getitem data_rows 0 ;;
                Ok ([d0; first_separator] ++ tl data_rows)
              else normalize_lines (s0 :: seps') _ (enumerate lines)) = Ok fixed_lines)
    as [fixed_lines ->].
  { destruct rep; [|apply normalize_lines_ok].
    destruct (@getitem_ok _ lines 0 ltac:(lia)) as [header Eh]. rewrite Eh.
    cbn [bind]. change (getitem (s0 :: seps') 0) with (Ok s0). cbn [bind].
    destruct (getitem_ok lines Hs0) as [first_separator ->]. cbn [bind].
    unfold collect_data_rows.
    rewrite collect_data_rows_ok by discriminate. cbn [bind app].
    (* the first line is no separator: the indices start at 1 *)
    destruct lines as [|l0 lines']; [cbn in Hs0; lia|].
    unfold enumerate. cbn [length seq combine filter fst].
    assert (mem 0 (s0 :: seps') = false) as ->.
    { destruct (mem 0 (s0 :: seps')) eqn:Em; [|reflexivity].
      apply mem_true_iff in Em. apply Hbound in Em. lia. }
    cbn [negb map snd getitem nth_error bind]. apply returns_ok. }
  cbn [bind].
  destruct (is_table_valid_ok (join [LF] fixed_lines)) as [valid ->]. cbn [bind].
  destruct valid; [apply returns_ok | apply fix_complex_table_ok].
Qed.

(** ** fix_invalid_markdown_tables *)

Lemma fix_blocks_ok blocks :
  forall acc,
    returns (for_loop (fun fixed_blocks block =>
                         if looks_like_table block then
                           fixed_block <- fix_table block ;;
                           Ok (fixed_blocks ++ [fixed_block])
                         else Ok (fixed_blocks ++ [block]))
                      blocks acc).
Proof.
  induction blocks as [|b blocks IH]; intros acc; cbn [for_loop]; [apply returns_ok|].
  destruct (looks_like_table b); cbn [bind]; [|apply IH].
  destruct (fix_table_ok b) as [f ->]. cbn [bind]. apply IH.
Qed.

(** C3 -- the function is total: on every input text it returns a text.
    Every list index is within bounds, [max] is never asked of an empty
    sequence, and each [while] loop ends. *)
Theorem fix_invalid_markdown_tables_total (markdown_text : str) :
  exists out, fix_invalid_markdown_tables markdown_text = Ok out.
Proof.
  unfold fix_invalid_markdown_tables.
  destruct (fix_blocks_ok (re_split_blank 0 markdown_text) []) as [fixed ->].
  cbn [bind]. eexists. reflexivity.
Qed.

End Claude37_round_1_total.

(* ================================================================== *)
(** * Claude37_round_5: repairing twice *)
(* ================================================================== *)

Module Claude37_round_5_idem.
Import Py PyFacts Lines SepPattern Claude37_round_5 Text Claude37_round_5_spec.

(** ** The blocks of a document *)

(** ** The loop, block by block *)

Lemma scan_output lines :
  forall a output tb it,
    scan lines (a ++ output) tb it =
    (r <- scan lines output tb it ;; Ok (a ++ r)).
Proof.
  induction lines as [|l lines IH]; intros a output tb it; cbn [scan].
  - destruct (truthy tb); [|reflexivity].
    destruct (process_table_block tb); cbn [bind]; [|reflexivity].
    now rewrite app_assoc.
  - destruct (contains PIPE l); [apply IH|].
    destruct (it && truthy (strip l)); [apply IH|].
    destruct it.
    + destruct (process_table_block tb); cbn [bind]; [|reflexivity].
      rewrite <- !app_assoc. apply IH.
    + rewrite <- app_assoc. apply IH.
Qed.

Lemma scan_run run :
  Forall (fun l => continues l = true) run ->
  forall rest output tb,
    scan (run ++ rest) output tb true = scan rest output (tb ++ run) true.
Proof.
  induction run as [|l run IH]; intros Hall rest output tb.
  - now rewrite app_nil_r.
  - inversion Hall as [|? ? Hl Hrun]; subst. cbn [app scan].
    unfold continues in Hl. destruct (contains PIPE l).
    + rewrite IH by assumption. now rewrite <- app_assoc.
    + cbn [orb] in Hl. rewrite Hl. cbn [andb].
      rewrite IH by assumption. now rewrite <- app_assoc.
Qed.

Lemma blocks_run run :
  Forall (fun l => continues l = true) run ->
  forall rest tb,
    blocks_loop (run ++ rest) tb true = blocks_loop rest (tb ++ run) true.
Proof.
  induction run as [|l run IH]; intros Hall rest tb.
  - now rewrite app_nil_r.
  - inversion Hall as [|? ? Hl Hrun]; subst. cbn [app blocks_loop].
    unfold continues in Hl. destruct (contains PIPE l).
    + rewrite IH by assumption. now rewrite <- app_assoc.
    + cbn [orb] in Hl. rewrite Hl. cbn [andb].
      rewrite IH by assumption. now rewrite <- app_assoc.
Qed.

Lemma dropwhile_block_end rest : block_end (dropwhile continues rest).
Proof.
  destruct (dropwhile continues rest) as [|b r] eqn:E; [exact I|].
  cbn. eapply dropwhile_head; eauto.
Qed.

Lemma takewhile_continues rest :
  Forall (fun l => continues l = true) (takewhile continues rest).
Proof.
  apply Forall_forall. intros l Hl.
  pose proof (takewhile_all continues rest) as H. rewrite forallb_forall in H. auto.
Qed.

Lemma fix_lines_plain l rest :
  contains PIPE l = false ->
  fix_lines (l :: rest) = (r <- fix_lines rest ;; Ok (l :: r)).
Proof.
  intros Hl. unfold fix_lines. cbn [scan]. rewrite Hl. cbn [andb app].
  apply (scan_output rest [l] [] [] false).
Qed.

Lemma scan_block_end rest output tb :
  tb <> [] -> block_end rest ->
  scan rest output tb true =
  (f <- process_table_block tb ;; r <- fix_lines rest ;; Ok (output ++ f ++ r)).
Proof.
  intros Htb Hend. destruct rest as [|b rest]; cbn [scan].
  - destruct tb; [congruence|]. cbn [truthy].
    destruct (process_table_block _); cbn [bind]; [|reflexivity].
    unfold fix_lines. cbn [scan truthy bind]. now rewrite app_nil_r.
  - cbn in Hend. unfold continues in Hend. apply orb_false_iff in Hend.
    destruct Hend as [Hp Hs]. rewrite Hp, Hs. cbn [andb].
    destruct (process_table_block tb) as [f|]; cbn [bind]; [|reflexivity].
    rewrite fix_lines_plain by assumption.
    rewrite (scan_output rest (output ++ f) [b] [] false).
    rewrite <- (app_nil_r [b]). rewrite (scan_output rest [b] [] [] false).
    unfold fix_lines.
    destruct (scan rest [] [] false); cbn [bind]; [|reflexivity].
    now rewrite <- !app_assoc.
Qed.

Lemma fix_lines_block l rest :
  contains PIPE l = true ->
  fix_lines (l :: rest) =
  (f <- process_table_block (l :: takewhile continues rest) ;;
   r <- fix_lines (dropwhile continues rest) ;; Ok (f ++ r)).
Proof.
  intros Hl. unfold fix_lines at 1. cbn [scan]. rewrite Hl. cbn [app].
  rewrite <- (takewhile_dropwhile continues rest) at 1.
  rewrite scan_run by apply takewhile_continues.
  rewrite scan_block_end; [reflexivity | discriminate | apply dropwhile_block_end].
Qed.

Lemma table_blocks_plain l rest :
  contains PIPE l = false -> table_blocks (l :: rest) = table_blocks rest.
Proof. intros Hl. unfold table_blocks. cbn [blocks_loop]. now rewrite Hl. Qed.

Lemma blocks_block_end rest tb :
  tb <> [] -> block_end rest ->
  blocks_loop rest tb true = tb :: table_blocks rest.
Proof.
  intros Htb Hend. destruct rest as [|b rest]; cbn [blocks_loop].
  - destruct tb; [congruence | reflexivity].
  - cbn in Hend. unfold continues in Hend. apply orb_false_iff in Hend.
    destruct Hend as [Hp Hs]. rewrite Hp, Hs. cbn [andb].
    now rewrite table_blocks_plain.
Qed.

Lemma table_blocks_block l rest :
  contains PIPE l = true ->
  table_blocks (l :: rest) =
  (l :: takewhile continues rest) :: table_blocks (dropwhile continues rest).
Proof.
  intros Hl. unfold table_blocks at 1. cbn [blocks_loop]. rewrite Hl. cbn [app].
  rewrite <- (takewhile_dropwhile continues rest) at 1.
  rewrite blocks_run by apply takewhile_continues.
  rewrite blocks_block_end; [reflexivity | discriminate | apply dropwhile_block_end].
Qed.

End Claude37_round_5_idem.

(* ================================================================== *)
(** * Claude37_round_5: rows written with both pipes *)
(* ================================================================== *)

Module Claude37_round_5_rows.
Import Py PyFacts Lines SepPattern Claude37_round_5 Text Claude37_round_5_spec.

(** ** split *)

Lemma split_nonempty sep s : split sep s <> [].
Proof.
  destruct s as [|c s]; cbn [split]; [discriminate|].
  destruct (N.eqb c sep); [discriminate|].
  destruct (split sep s); discriminate.
Qed.

Lemma split_no_sep sep a : contains sep a = false -> split sep a = [a].
Proof.
  induction a as [|c a IH]; intros H; [reflexivity|].
  unfold contains in H. cbn [existsb] in H. apply orb_false_iff in H.
  destruct H as [Hc Ha]. cbn [split]. rewrite N.eqb_sym, Hc.
  rewrite (IH Ha). reflexivity.
Qed.

Lemma split_app_sep sep a b :
  contains sep a = false -> split sep (a ++ sep :: b) = a :: split sep b.
Proof.
  induction a as [|c a IH]; intros H.
  - cbn [app split]. now rewrite N.eqb_refl.
  - unfold contains in H. cbn [existsb] in H. apply orb_false_iff in H.
    destruct H as [Hc Ha]. cbn [app split]. rewrite N.eqb_sym, Hc.
    rewrite (IH Ha). reflexivity.
Qed.

Lemma split_pieces_chars sep s :
  forall p c, In p (split sep s) -> In c p -> In c s /\ c <> sep.
Proof.
  induction s as [|x s IH]; intros p c Hp Hc; cbn [split] in Hp.
  - destruct Hp as [<-|[]]. destruct Hc.
  - destruct (N.eqb_spec x sep) as [->|Hx].
    + destruct Hp as [<-|Hp]; [destruct Hc|].
      destruct (IH p c Hp Hc). split; [now right | assumption].
    + apply in_cons_first in Hp. destruct Hp as [->|[[p' [-> Hp']]|Hp]].
      * destruct Hc as [<-|[]]. split; [now left | assumption].
      * destruct Hc as [<-|Hc]; [split; [now left | assumption]|].
        destruct (IH p' c Hp' Hc). split; [now right | assumption].
      * destruct (IH p c Hp Hc). split; [now right | assumption].
Qed.

(** ** strip *)

Lemma dropwhile_incl {A} (p : A -> bool) l x : In x (dropwhile p l) -> In x l.
Proof.
  intros H. rewrite <- (takewhile_dropwhile p l). apply in_or_app. now right.
Qed.

Lemma rstrip_incl s c : In c (rstrip s) -> In c s.
Proof.
  unfold rstrip. intros H. apply in_rev in H. apply dropwhile_incl in H.
  now apply in_rev.
Qed.

Lemma strip_incl s c : In c (strip s) -> In c s.
Proof. unfold strip, lstrip. intros H. apply dropwhile_incl in H. now apply rstrip_incl. Qed.

Lemma rstrip_app_spaces a w :
  forallb isspace w = true -> rstrip (a ++ w) = rstrip a.
Proof.
  intros H. unfold rstrip. rewrite rev_app_distr. f_equal.
  assert (forallb isspace (rev w) = true) as Hr by now rewrite forallb_rev'.
  induction (rev w) as [|x r IH]; [reflexivity|].
  cbn [forallb] in Hr. apply andb_true_iff in Hr. destruct Hr as [Hx Hr].
  cbn [app dropwhile]. rewrite Hx. now apply IH.
Qed.

Lemma strip_padded c : trimmed c -> strip (SPACE :: c ++ [SPACE]) = c.
Proof.
  intros Ht. unfold strip.
  change (SPACE :: c ++ [SPACE]) with ((SPACE :: c) ++ [SPACE]).
  rewrite rstrip_app_spaces by reflexivity.
  destruct c as [|x c].
  - reflexivity.
  - destruct Ht as [Hx Hlast].
    destruct (exists_last (l := x :: c)) as [c' [y Ey]]; [discriminate|].
    rewrite Ey in Hlast |- *. rewrite last_snoc in Hlast.
    change (SPACE :: c' ++ [y]) with ((SPACE :: c') ++ [y]).
    rewrite rstrip_snoc_keep by assumption.
    cbn [app]. rewrite <- Ey. unfold lstrip. cbn [dropwhile].
    change (isspace SPACE) with true. cbv iota. now rewrite Hx.
Qed.

Lemma strip_dashes3 : strip dashes3 = dashes3.
Proof. reflexivity. Qed.

(** ** Cells *)

Lemma good_cell_nil : good_cell [].
Proof. split; [exact I | reflexivity]. Qed.

Lemma good_cell_dashes3 : good_cell dashes3.
Proof. split; [split; reflexivity | reflexivity]. Qed.

Lemma strip_piece_good s p : In p (split PIPE s) -> good_cell (strip p).
Proof.
  intros Hp. split; [apply strip_is_trimmed|].
  apply contains_false_iff. intros Hin. apply strip_incl in Hin.
  destruct (split_pieces_chars PIPE s p PIPE Hp Hin) as [_ H]. now elim H.
Qed.

Lemma parse_row_good line : Forall good_cell (parse_row line).
Proof.
  unfold parse_row. destruct (_ || _); [constructor|].
  apply Forall_forall. intros c Hc. apply in_map_iff in Hc.
  destruct Hc as [p [<- Hp]]. eapply strip_piece_good; eauto.
Qed.

Lemma parse_row_length line :
  contains PIPE line = true -> 1 <= length (parse_row line).
Proof.
  intros H. unfold parse_row. rewrite H.
  destruct line as [|x line]; [discriminate|]. cbn [truthy negb orb].
  rewrite length_map.
  match goal with |- 1 <= length (split PIPE ?s) =>
    pose proof (split_nonempty PIPE s) as Hne; destruct (split PIPE s);
    [congruence | cbn; lia]
  end.
Qed.

(** ** A rebuilt row, parsed again *)

Lemma split_padded_join cells :
  cells <> [] -> Forall good_cell cells ->
  split PIPE (SPACE :: join cell_sep cells ++ [SPACE]) = map padded cells.
Proof.
  induction cells as [|c cells IH]; intros Hne Hall; [congruence|].
  inversion Hall as [|? ? [_ Hc] Hcells]; subst.
  assert (contains PIPE (padded c) = false) as Hp.
  { unfold padded. change (SPACE :: c ++ [SPACE]) with ([SPACE] ++ c ++ [SPACE]).
    rewrite !contains_app, Hc. reflexivity. }
  destruct cells as [|d cells].
  - cbn [join map]. now apply split_no_sep.
  - rewrite join_cons by discriminate. unfold cell_sep.
    replace (SPACE :: (c ++ [SPACE; PIPE; SPACE] ++ join [SPACE; PIPE; SPACE] (d :: cells))
                   ++ [SPACE])
      with (padded c ++ PIPE :: (SPACE :: join cell_sep (d :: cells) ++ [SPACE])).
    + rewrite split_app_sep by assumption. cbn [map]. f_equal.
      apply IH; [discriminate | assumption].
    + unfold padded, cell_sep. cbn [app]. rewrite <- !app_assoc. reflexivity.
Qed.

Lemma rebuild_row_both cells :
  cells <> [] ->
  rebuild_row cells both = PIPE :: (SPACE :: join cell_sep cells ++ [SPACE]) ++ [PIPE].
Proof.
  intros Hne. unfold rebuild_row. destruct cells; [congruence|].
  cbn [truthy negb both fst snd]. unfold lead_pipe, tail_pipe. cbn [app].
  rewrite <- app_assoc. reflexivity.
Qed.

Lemma rstrip_ends_pipe s : rstrip (s ++ [PIPE]) = s ++ [PIPE].
Proof. now apply rstrip_snoc_keep. Qed.

Lemma strip_both_pipes s : strip (PIPE :: s ++ [PIPE]) = PIPE :: s ++ [PIPE].
Proof.
  apply strip_trimmed. cbn [trimmed]. split; [reflexivity|].
  change (PIPE :: s ++ [PIPE]) with ((PIPE :: s) ++ [PIPE]). now rewrite last_snoc.
Qed.

Lemma removelast_snoc {A} (l : list A) x : removelast (l ++ [x]) = l.
Proof. apply removelast_last. Qed.

Lemma endswith_snoc_pipe s : endswith PIPE (s ++ [PIPE]) = true.
Proof. unfold endswith. rewrite rev_app_distr. reflexivity. Qed.

Lemma parse_row_rebuild cells :
  cells <> [] -> Forall good_cell cells ->
  parse_row (rebuild_row cells both) = cells.
Proof.
  intros Hne Hall. rewrite rebuild_row_both by assumption.
  unfold parse_row. cbn [truthy negb orb].
  assert (contains PIPE (PIPE :: (SPACE :: join cell_sep cells ++ [SPACE]) ++ [PIPE]) = true)
    as -> by reflexivity.
  cbn [negb]. rewrite strip_both_pipes. cbn [startswith].
  change ((PIPE =? PIPE)%N) with true. cbv iota. cbn [tl].
  change (PIPE :: (SPACE :: join cell_sep cells ++ [SPACE]) ++ [PIPE])
    with ((PIPE :: SPACE :: join cell_sep cells ++ [SPACE]) ++ [PIPE]).
  rewrite endswith_snoc_pipe, removelast_snoc.
  rewrite split_padded_join by assumption.
  rewrite map_map. rewrite <- (map_id cells) at 2.
  apply map_ext_in. intros c Hc. rewrite Forall_forall in Hall.
  apply strip_padded. now apply Hall.
Qed.

Lemma rebuild_row_has_pipe cells :
  cells <> [] -> contains PIPE (rebuild_row cells both) = true.
Proof. intros H. rewrite rebuild_row_both by assumption. reflexivity. Qed.

End Claude37_round_5_rows.

(* ================================================================== *)
(** * Claude37_round_5: a repaired block is a valid table *)
(* ================================================================== *)

Module Claude37_round_5_repaired.
Import Py PyFacts Lines SepPattern Claude37_round_5 Claude37_round_5_rows Text Claude37_round_5_spec.

(** ** Characters that are no line breaks *)

Lemma no_linebreak_incl a b :
  (forall c, In c a -> In c b) -> no_linebreak b = true -> no_linebreak a = true.
Proof.
  unfold no_linebreak. rewrite !forallb_forall. intros Hincl H c Hc. auto.
Qed.

Lemma no_linebreak_app a b :
  no_linebreak (a ++ b) = no_linebreak a && no_linebreak b.
Proof. apply forallb_app. Qed.

Lemma no_linebreak_join sep ls :
  no_linebreak sep = true -> Forall (fun l => no_linebreak l = true) ls ->
  no_linebreak (join sep ls) = true.
Proof.
  intros Hsep. induction ls as [|l ls IH]; intros Hall; [reflexivity|].
  inversion Hall as [|? ? Hl Hls]; subst.
  destruct ls as [|l' ls]; [assumption|].
  rewrite join_cons by discriminate.
  rewrite !no_linebreak_app, Hl, Hsep. now apply IH.
Qed.

Lemma no_linebreak_flush merged current :
  Forall (fun l => no_linebreak l = true) merged ->
  (forall c, current = Some c -> no_linebreak c = true) ->
  Forall (fun l => no_linebreak l = true) (flush_current merged current).
Proof.
  intros Hm Hc. destruct current as [c|]; cbn [flush_current]; [|assumption].
  apply Forall_app. split; [assumption|]. repeat constructor. now apply Hc.
Qed.

Lemma no_linebreak_merge_loop lines :
  Forall (fun l => no_linebreak l = true) lines ->
  forall merged current,
    Forall (fun l => no_linebreak l = true) merged ->
    (forall c, current = Some c -> no_linebreak c = true) ->
    Forall (fun l => no_linebreak l = true) (merge_loop lines merged current).
Proof.
  induction lines as [|l lines IH]; intros Hall merged current Hm Hc;
    cbn [merge_loop].
  - now apply no_linebreak_flush.
  - inversion Hall as [|? ? Hl Hls]; subst.
    assert (no_linebreak (rstrip l) = true) as Hr
        by (eapply no_linebreak_incl; [apply rstrip_incl | assumption]).
    assert (no_linebreak (strip l) = true) as Hs
        by (eapply no_linebreak_incl; [apply strip_incl | assumption]).
    destruct (contains PIPE l).
    + apply IH; [assumption | now apply no_linebreak_flush |].
      intros c E. now inversion E; subst.
    + destruct (truthy (strip l)).
      * destruct current as [c|]; apply IH; try assumption.
        -- intros c' E. inversion E; subst.
           rewrite no_linebreak_app, (Hc c eq_refl). cbn [andb].
           change (no_linebreak ([SPACE] ++ strip l) = true).
           rewrite no_linebreak_app, Hs. reflexivity.
        -- intros c' E. now inversion E; subst.
      * apply IH; [assumption | now apply no_linebreak_flush | discriminate].
Qed.

Lemma no_linebreak_merge lines :
  Forall (fun l => no_linebreak l = true) lines ->
  Forall (fun l => no_linebreak l = true) (merge_continuation_lines lines).
Proof.
  intros H. apply no_linebreak_merge_loop; [assumption | constructor | discriminate].
Qed.

Lemma no_linebreak_parse_row line :
  no_linebreak line = true ->
  Forall (fun c => no_linebreak c = true) (parse_row line).
Proof.
  intros H. unfold parse_row. destruct (_ || _); [constructor|].
  apply Forall_forall. intros c Hc. apply in_map_iff in Hc.
  destruct Hc as [p [<- Hp]].
  apply (@no_linebreak_incl _ line); [|assumption].
  intros x Hx. apply strip_incl in Hx.
  destruct (split_pieces_chars PIPE _ p x Hp Hx) as [Hin _].
  assert (forall s, In x (if endswith PIPE (strip line) then removelast s else s) ->
                    In x s) as Hrl.
  { intros s. destruct (endswith PIPE (strip line)); [|auto].
    destruct s as [|y s]; [auto|].
    destruct (exists_last (l := y :: s)) as [s' [z ->]]; [discriminate|].
    rewrite removelast_snoc. intros Hi. apply in_or_app. now left. }
  apply Hrl in Hin.
  apply strip_incl.
  destruct (startswith PIPE (strip line)); [|assumption].
  destruct (strip line); [destruct Hin | now right].
Qed.

(** ** Cells of the rebuilt rows *)

Lemma clean_separator m : clean_row m (repeat dashes3 m).
Proof.
  split; [apply repeat_length|]. apply Forall_forall. intros c Hc.
  apply repeat_spec in Hc. subst c. split; [apply good_cell_dashes3 | reflexivity].
Qed.

Lemma clean_normalize m r :
  length r <= m -> Forall clean_cell r -> clean_row m (normalize_row r m).
Proof.
  intros Hlen Hall. unfold normalize_row.
  destruct (Nat.ltb_spec (length r) m) as [Hlt|Hge].
  - split.
    + rewrite length_app, repeat_length. lia.
    + apply Forall_app. split; [assumption|]. apply Forall_forall. intros c Hc.
      apply repeat_spec in Hc. subst c. split; [apply good_cell_nil | reflexivity].
  - destruct (Nat.ltb_spec m (length r)) as [Hlt|_]; [lia|]. split; [lia | assumption].
Qed.

Lemma clean_parse_row line :
  no_linebreak line = true -> Forall clean_cell (parse_row line).
Proof.
  intros H. pose proof (parse_row_good line) as Hg.
  pose proof (no_linebreak_parse_row line H) as Hn.
  rewrite Forall_forall in *. intros c Hc. split; auto.
Qed.

Lemma fold_left_max_ge l :
  forall a, a <= fold_left Nat.max l a /\
            forall x, In x l -> x <= fold_left Nat.max l a.
Proof.
  induction l as [|y l IH]; intros a; cbn [fold_left].
  - split; [lia | intros x []].
  - destruct (IH (Nat.max a y)) as [H1 H2]. split; [lia|].
    intros x [<-|Hx]; [lia | now apply H2].
Qed.

(** ** The repaired block *)

Lemma merge_loop_pipes lines :
  Forall (fun l => contains PIPE l = true) lines ->
  forall merged current,
    merge_loop lines merged current = flush_current merged current ++ map rstrip lines.
Proof.
  induction lines as [|l lines IH]; intros Hall merged current; cbn [merge_loop map].
  - now rewrite app_nil_r.
  - inversion Hall as [|? ? Hl Hls]; subst. rewrite Hl, IH by assumption.
    cbn [flush_current]. now rewrite <- app_assoc.
Qed.

Lemma merge_pipes lines :
  Forall (fun l => contains PIPE l = true) lines ->
  merge_continuation_lines lines = map rstrip lines.
Proof. intros H. unfold merge_continuation_lines. now rewrite merge_loop_pipes. Qed.

Lemma filter_all {A} (p : A -> bool) l :
  Forall (fun x => p x = true) l -> filter p l = l.
Proof.
  induction l as [|x l IH]; intros H; [reflexivity|].
  inversion H as [|? ? Hx Hl]; subst. cbn [filter]. rewrite Hx. f_equal. now apply IH.
Qed.

Lemma separator_row_dashes m : 1 <= m -> is_separator_row (repeat dashes3 m) = true.
Proof.
  intros Hm. unfold is_separator_row.
  destruct m as [|m]; [lia|]. cbn [repeat truthy negb].
  apply forallb_forall. intros c Hc. apply filter_In in Hc. destruct Hc as [Hc _].
  change (dashes3 :: repeat dashes3 m) with (repeat dashes3 (S m)) in Hc.
  apply repeat_spec in Hc. subst c. reflexivity.
Qed.

End Claude37_round_5_repaired.

(* ================================================================== *)
(** * Claude37_round_5: idempotence *)
(* ================================================================== *)

Module Claude37_round_5_twice.
Import Py PyFacts Lines SepPattern Claude37_round_5 Text Claude37_round_5_spec.
Import Claude37_round_5_idem Claude37_round_5_rows Claude37_round_5_repaired.

Lemma pipe_continues l : contains PIPE l = true -> continues l = true.
Proof. intros H. unfold continues. now rewrite H. Qed.

Lemma continues_nonempty l : continues l = true -> l <> [].
Proof. intros H ->. discriminate. Qed.

Lemma block_end_fix rest out :
  block_end rest -> fix_lines rest = Ok out -> block_end out.
Proof.
  destruct rest as [|b rest]; intros Hend E.
  - unfold fix_lines in E. cbn in E. inversion E. exact I.
  - cbn in Hend. assert (contains PIPE b = false) as Hb.
    { unfold continues in Hend. now apply orb_false_iff in Hend. }
    rewrite fix_lines_plain in E by assumption.
    destruct (fix_lines rest); cbn [bind] in E; [|discriminate].
    inversion E. exact Hend.
Qed.

Lemma span_block_end run rest :
  Forall (fun x => continues x = true) run -> block_end rest ->
  takewhile continues (run ++ rest) = run /\
  dropwhile continues (run ++ rest) = rest.
Proof.
  intros Hrun Hend.
  assert (forallb continues run = true) as Hb.
  { apply forallb_forall. rewrite Forall_forall in Hrun. auto. }
  destruct rest as [|b rest].
  - rewrite app_nil_r. split; [now apply takewhile_all_id | now apply dropwhile_all].
  - cbn in Hend. split; [now apply takewhile_app_stop | now apply dropwhile_app_stop].
Qed.

Lemma last_app_r {A} (a b : list A) d : b <> [] -> last (a ++ b) d = last b d.
Proof.
  intros Hb. destruct (exists_last Hb) as [b' [x ->]].
  now rewrite app_assoc, !last_last.
Qed.

Lemma last_in {A} (l : list A) d : l <> [] -> In (last l d) l.
Proof.
  intros Hl. destruct (exists_last Hl) as [l' [x ->]].
  rewrite last_last. apply in_or_app. right. now left.
Qed.

Lemma length_dropwhile {A} (p : A -> bool) l : length (dropwhile p l) <= length l.
Proof.
  induction l as [|x l IH]; cbn [dropwhile length]; [lia|].
  destruct (p x); cbn [length]; lia.
Qed.

(** C2, the claim as stated fails.  On [a|b], [1|2|3] the first repair
    writes the header without pipes at its ends and with an empty last cell,
    [a | b | ]; read again that row ends with a pipe and has two cells, so the
    second repair changes the table once more.  On a text that ends with an
    empty line each repair removes one line terminator.  A data row written
    without a leading pipe and with an empty first cell is read again
    without that cell; and when a data row loses an empty last cell under a
    header that is itself a separator row, the second repair takes the table
    for one with a separator after each row. *)
Lemma repair_not_idempotent :
  let x := join [LF] (map of_string ["a|b"; "1|2|3"]%string) in
  let y := join [LF] (map of_string ["a | b | "; "--- | --- | ---"; "1 | 2 | 3"]%string) in
  let z := join [LF] (map of_string
                        ["a | b |  |"; "--- | --- | --- |"; "1 | 2 | 3 |"]%string) in
  let x' := of_string "a" ++ [LF; LF] in
  let x1 := join [LF] (map of_string ["a|b"; "||c"]%string) in
  let y1 := join [LF] (map of_string ["a | b"; "--- | ---"; " | c"]%string) in
  let z1 := join [LF] (map of_string ["a | b"; "--- | ---"; "c | "]%string) in
  let x2 := join [LF] (map of_string ["---|---|---"; "a|b"; "c|d|e"]%string) in
  let y2 := join [LF] (map of_string
                         ["--- | --- | ---"; "--- | --- | ---"; "a | b | ";
                          "c | d | e"]%string) in
  let z2 := join [LF] (map of_string
                         ["--- | --- | ---"; "--- | --- | ---"; "a | b | ";
                          "--- | --- | ---"; "c | d | e"; "--- | --- | ---"]%string) in
  fix_invalid_markdown_tables x = Ok y /\
  fix_invalid_markdown_tables y = Ok z /\ y <> z /\
  fix_invalid_markdown_tables x' = Ok (of_string "a" ++ [LF]) /\
  fix_invalid_markdown_tables (of_string "a" ++ [LF]) = Ok (of_string "a") /\
  fix_invalid_markdown_tables x1 = Ok y1 /\
  fix_invalid_markdown_tables y1 = Ok z1 /\ y1 <> z1 /\
  fix_invalid_markdown_tables x2 = Ok y2 /\
  fix_invalid_markdown_tables y2 = Ok z2 /\ y2 <> z2 /\
  forallb block_ok (table_blocks (splitlines x)) = false /\
  forallb block_ok (table_blocks (splitlines x1)) = false /\
  forallb block_ok (table_blocks (splitlines x2)) = false.
Proof.
  cbv zeta. repeat split; try (vm_compute; reflexivity); vm_compute; discriminate.
Qed.

End Claude37_round_5_twice.

(* ================================================================== *)
(** * The shared loop: lines without a pipe *)
(* ================================================================== *)

Module Block_loop_facts.
Import Py Text PyFacts Block_loop.

Section Plain_lines.

Variable process : list str -> result (list str).

(** What is already in [out] stays in front of the result. *)
Lemma scan_by_out lines :
  forall a out tb it,
    scan_by process lines (a ++ out) tb it =
    (r <- scan_by process lines out tb it ;; Ok (a ++ r)).
Proof.
  induction lines as [|l lines IH]; intros a out tb it; cbn [scan_by].
  - destruct (truthy tb); [|reflexivity].
    destruct (process tb); cbn [bind]; [|reflexivity]. now rewrite app_assoc.
  - destruct (contains PIPE l); [apply IH|].
    destruct it.
    + destruct (process tb); cbn [bind]; [|reflexivity].
      rewrite <- IH. now rewrite !app_assoc.
    + rewrite <- IH. now rewrite app_assoc.
Qed.

(** A line without a pipe cuts the document in two: the lines before it
    and the lines after it are repaired apart, and the line stays between
    them. *)
Lemma scan_by_split l post :
  contains PIPE l = false ->
  forall pre out tb it,
    (it = true -> tb <> []) -> (it = false -> tb = []) ->
    scan_by process (pre ++ l :: post) out tb it =
    (a <- scan_by process pre out tb it ;;
     b <- scan_by process post [] [] false ;; Ok (a ++ l :: b)).
Proof.
  intros Hl. induction pre as [|p pre IH]; intros out tb it Hin Hout.
  - cbn [app scan_by]. rewrite Hl. destruct it.
    + assert (truthy tb = true) as -> by (destruct tb; [now elim Hin | reflexivity]).
      destruct (process tb) as [f|]; cbn [bind]; [|reflexivity].
      rewrite <- (app_nil_r ((out ++ f) ++ [l])), scan_by_out.
      destruct (scan_by process post [] [] false); cbn [bind]; [|reflexivity].
      now rewrite <- app_assoc.
    + rewrite (Hout eq_refl). cbn [truthy bind].
      rewrite <- (app_nil_r (out ++ [l])), scan_by_out.
      destruct (scan_by process post [] [] false); cbn [bind]; [|reflexivity].
      now rewrite <- app_assoc.
  - cbn [app scan_by]. destruct (contains PIPE p).
    + apply IH; [intros _; now destruct tb | discriminate].
    + destruct it.
      * destruct (process tb) as [fixed|]; cbn [bind]; [|reflexivity].
        apply IH; [discriminate | reflexivity].
      * apply IH; assumption.
Qed.

(** A run of lines with a pipe is one block. *)
Lemma scan_by_run run :
  Forall (fun l => contains PIPE l = true) run ->
  forall out tb it,
    scan_by process run out tb it =
    (if truthy (tb ++ run) then fixed <- process (tb ++ run) ;; Ok (out ++ fixed)
     else Ok out).
Proof.
  induction 1 as [|l run Hl _ IH]; intros out tb it; cbn [scan_by].
  - now rewrite app_nil_r.
  - rewrite Hl, IH, <- app_assoc. reflexivity.
Qed.

(** The class's [process_table_block] makes lines with a pipe of lines with
    a pipe, and some of some. *)
Hypothesis process_pipes :
  forall blk,
    Forall (fun l => contains PIPE l = true) blk ->
    exists fixed, process blk = Ok fixed /\ truthy fixed = truthy blk /\
                  Forall (fun l => contains PIPE l = true) fixed.

Lemma scan_by_total lines :
  forall out tb it,
    Forall (fun l => contains PIPE l = true) tb ->
    exists r, scan_by process lines out tb it = Ok r.
Proof.
  induction lines as [|l lines IH]; intros out tb it Htb; cbn [scan_by].
  - destruct (truthy tb); [|eexists; reflexivity].
    destruct (process_pipes Htb) as [fixed [-> _]]. eexists. reflexivity.
  - destruct (contains PIPE l) eqn:Hl.
    + apply IH. apply Forall_app. split; [exact Htb | now constructor].
    + destruct it; [|now apply IH].
      destruct (process_pipes Htb) as [fixed [-> _]]. cbn [bind].
      apply IH. constructor.
Qed.

(** The lines of the result: every line without a pipe is where it was,
    between what the lines before it and the lines after it become, and a
    document of lines with a pipe becomes lines with a pipe. *)
Lemma scan_by_plain_lines lines :
  exists out,
    scan_by process lines [] [] false = Ok out /\
    (forall pre l post,
        lines = pre ++ l :: post -> contains PIPE l = false ->
        exists a b,
          scan_by process pre [] [] false = Ok a /\
          scan_by process post [] [] false = Ok b /\ out = a ++ l :: b) /\
    (Forall (fun l => contains PIPE l = true) lines ->
     Forall (fun l => contains PIPE l = true) out /\ (lines <> [] -> out <> [])).
Proof.
  destruct (@scan_by_total lines [] [] false (Forall_nil _)) as [out E].
  exists out. split; [exact E|]. split.
  - intros pre l post -> Hl.
    destruct (@scan_by_total pre [] [] false (Forall_nil _)) as [a Ea].
    destruct (@scan_by_total post [] [] false (Forall_nil _)) as [b Eb].
    exists a, b. split; [exact Ea|]. split; [exact Eb|].
    rewrite (@scan_by_split l post Hl pre [] [] false) in E
      by (discriminate || reflexivity).
    rewrite Ea, Eb in E. cbn [bind] in E. now inversion E.
  - intros Hall. rewrite (scan_by_run Hall) in E. cbn [app] in E.
    destruct (process_pipes Hall) as [fixed [Ef [Ht Hp]]].
    destruct lines as [|l lines].
    + cbn [truthy] in E. inversion E. split; [constructor | congruence].
    + cbn [truthy] in E, Ht. rewrite Ef in E. cbn [bind app] in E.
      injection E as <-. split; [exact Hp|]. intros _.
      destruct fixed; [discriminate | discriminate].
Qed.

End Plain_lines.

End Block_loop_facts.

(* ================================================================== *)
(** * O1_pro_round_5: rows parsed and rebuilt *)
(* ================================================================== *)

Module O1_pro_round_5_cells.
Import Py Text Claude37_round_5_spec PyFacts Lines O1_pro_round_5 Claude37_round_5_rows.

Lemma spaces_no_pipe w : forallb isspace w = true -> contains PIPE w = false.
Proof.
  intros H. apply contains_false_iff. intros Hin.
  rewrite forallb_forall in H. apply H in Hin. discriminate.
Qed.

Lemma rstrip_spaces w : forallb isspace w = true -> rstrip w = [].
Proof. intros H. apply (rstrip_app_spaces [] w H). Qed.

(** White space around a stripped text is what [strip] removes. *)
Lemma strip_spaces_around l c r :
  trimmed c -> forallb isspace l = true -> forallb isspace r = true ->
  strip (l ++ c ++ r) = c.
Proof.
  intros Ht Hl Hr. unfold strip. rewrite app_assoc, rstrip_app_spaces by assumption.
  destruct c as [|x c].
  - rewrite app_nil_r, rstrip_spaces by assumption. reflexivity.
  - destruct Ht as [Hx Hlast].
    destruct (exists_last (l := x :: c)) as [c' [y Ey]]; [discriminate|].
    rewrite Ey in Hlast. rewrite last_snoc in Hlast.
    rewrite Ey, app_assoc, rstrip_snoc_keep by assumption.
    rewrite <- app_assoc, <- Ey. unfold lstrip.
    now apply dropwhile_app_stop.
Qed.

(** The text between the outer pipes of a rebuilt row splits into its
    cells. *)
Lemma split_join_cells cells :
  cells <> [] -> Forall good_cell cells ->
  forall l r, forallb isspace l = true -> forallb isspace r = true ->
              map strip (split PIPE (l ++ join cell_sep cells ++ r)) = cells.
Proof.
  induction cells as [|c cells IH]; intros Hne Hall l r Hl Hr; [congruence|].
  inversion Hall as [|? ? [Ht Hc] Hcells]; subst.
  destruct cells as [|d cells].
  - cbn [join]. rewrite split_no_sep.
    + cbn [map]. now rewrite strip_spaces_around.
    + rewrite !contains_app, Hc, !spaces_no_pipe by assumption. reflexivity.
  - rewrite join_cons by discriminate. unfold cell_sep at 1.
    replace (l ++ (c ++ [SPACE; PIPE; SPACE] ++ join cell_sep (d :: cells)) ++ r)
      with ((l ++ c ++ [SPACE]) ++ PIPE :: ([SPACE] ++ join cell_sep (d :: cells) ++ r))
      by (rewrite <- !app_assoc; reflexivity).
    rewrite split_app_sep.
    + cbn [map]. rewrite strip_spaces_around by (assumption || reflexivity).
      f_equal. apply IH; (assumption || discriminate || reflexivity).
    + rewrite !contains_app, Hc, spaces_no_pipe by assumption. reflexivity.
Qed.

Lemma join_first_char sep (x : N) c cells :
  exists t, join sep ((x :: c) :: cells) = x :: t.
Proof. destruct cells; cbn [join app]; eexists; reflexivity. Qed.

Lemma join_last_char sep cells :
  forall c y, cells <> [] -> last cells [] = c ++ [y] ->
              exists t, join sep cells = t ++ [y].
Proof.
  induction cells as [|c0 cells IH]; intros c y Hne Hlast; [congruence|].
  destruct cells as [|c1 cells].
  - cbn in Hlast. cbn [join]. exists c. assumption.
  - change (last (c0 :: c1 :: cells) []) with (last (c1 :: cells) []) in Hlast.
    destruct (IH c y ltac:(discriminate) Hlast) as [t Et].
    rewrite join_cons by discriminate. rewrite Et.
    exists (c0 ++ sep ++ t). now rewrite <- !app_assoc.
Qed.

Lemma endswith_last c t y : endswith c (t ++ [y]) = N.eqb y c.
Proof. unfold endswith. rewrite rev_app_distr. reflexivity. Qed.

Lemma good_cell_first x c : good_cell (x :: c) -> isspace x = false /\ x <> PIPE.
Proof.
  intros [[Hx _] Hp]. split; [assumption|]. intros ->.
  unfold contains in Hp. cbn in Hp. discriminate.
Qed.

Lemma good_cell_last c y : good_cell (c ++ [y]) -> isspace y = false /\ y <> PIPE.
Proof.
  intros [Ht Hp]. split.
  - destruct (c ++ [y]) as [|x s] eqn:E; [destruct c; discriminate|].
    destruct Ht as [_ Hl]. rewrite <- E, last_snoc in Hl. exact Hl.
  - intros ->. rewrite contains_app in Hp. apply orb_false_iff in Hp.
    destruct Hp as [_ Hp]. discriminate.
Qed.

Lemma in_last {A} (l : list A) d : l <> [] -> In (last l d) l.
Proof.
  intros Hl. destruct (exists_last Hl) as [l' [x ->]].
  rewrite last_last. apply in_or_app. right. now left.
Qed.

Lemma neq_eqb_false (x y : N) : x <> y -> N.eqb x y = false.
Proof. intros H. now apply N.eqb_neq. Qed.

(** Cells that are rebuilt and parsed again. *)
Lemma parse_rebuild_cells (cells : list str) (style : bool * bool) :
  cells <> [] ->
  Forall good_cell cells ->
  (fst style = false -> hd [] cells <> []) ->
  (snd style = false -> last cells [] <> []) ->
  _parse_row (_rebuild_row cells style) = cells.
Proof.
  intros Hne Hall Hfirst Hlast. destruct style as [lead trail]. cbn [fst snd] in *.
  assert (forall l r, forallb isspace l = true -> forallb isspace r = true ->
                      map strip (split PIPE (l ++ join cell_sep cells ++ r)) = cells)
    as Hsplit by now apply split_join_cells.
  (* the first and the last character of the joined cells *)
  assert (lead = false ->
          exists x t, join cell_sep cells = x :: t /\ isspace x = false /\ x <> PIPE)
    as Hx.
  { intros E. specialize (Hfirst E). destruct cells as [|[|x c] cells];
      [congruence | now elim Hfirst |].
    destruct (join_first_char cell_sep x c cells) as [t Et].
    inversion Hall as [|? ? Hg _]; subst.
    destruct (good_cell_first Hg). exists x, t. auto. }
  assert (trail = false ->
          exists t y, join cell_sep cells = t ++ [y] /\ isspace y = false /\ y <> PIPE)
    as Hy.
  { intros E. specialize (Hlast E).
    destruct (exists_last Hlast) as [c [y Ec]].
    destruct (@join_last_char cell_sep cells c y Hne Ec) as [t Et].
    assert (good_cell (c ++ [y])) as Hg.
    { rewrite <- Ec. rewrite Forall_forall in Hall. apply Hall. now apply in_last. }
    destruct (good_cell_last _ _ Hg). exists t, y. auto. }
  unfold _rebuild_row, _parse_row. cbn [fst snd]. unfold lead_pipe, tail_pipe.
  destruct lead, trail.
  - (* | a | b | *)
    change ([PIPE; SPACE] ++ join cell_sep cells)
      with (PIPE :: SPACE :: join cell_sep cells).
    replace ((PIPE :: SPACE :: join cell_sep cells) ++ [SPACE; PIPE])
      with (PIPE :: (SPACE :: join cell_sep cells ++ [SPACE]) ++ [PIPE])
      by (cbn [app]; rewrite <- app_assoc; reflexivity).
    rewrite strip_both_pipes. cbn [startswith tl].
    change ((PIPE =? PIPE)%N) with true. cbv iota.
    change (PIPE :: (SPACE :: join cell_sep cells ++ [SPACE]) ++ [PIPE])
      with ((PIPE :: SPACE :: join cell_sep cells ++ [SPACE]) ++ [PIPE]).
    rewrite endswith_snoc_pipe. 
    change ((SPACE :: join cell_sep cells ++ [SPACE]) ++ [PIPE])
      with ((SPACE :: join cell_sep cells ++ [SPACE]) ++ [PIPE]).
    rewrite removelast_snoc.
    apply (Hsplit [SPACE] [SPACE]); reflexivity.
  - (* | a | b *)
    destruct (Hy eq_refl) as [t [y [Ej [Hsy Hpy]]]].
    assert (strip ([PIPE; SPACE] ++ join cell_sep cells) =
            [PIPE; SPACE] ++ join cell_sep cells) as Es.
    { apply strip_trimmed. rewrite Ej.
      change ([PIPE; SPACE] ++ t ++ [y]) with (PIPE :: (SPACE :: t) ++ [y]).
      cbn [trimmed]. split; [reflexivity|].
      change (PIPE :: (SPACE :: t) ++ [y]) with ((PIPE :: SPACE :: t) ++ [y]).
      now rewrite last_snoc. }
    rewrite Es. cbn [app startswith tl].
    change ((PIPE =? PIPE)%N) with true. cbv iota.
    assert (endswith PIPE (PIPE :: SPACE :: join cell_sep cells) = false) as ->.
    { rewrite Ej. change (PIPE :: SPACE :: t ++ [y]) with ((PIPE :: SPACE :: t) ++ [y]).
      rewrite endswith_last. now apply neq_eqb_false. }
    rewrite <- (app_nil_r (join cell_sep cells)).
    apply (Hsplit [SPACE] []); reflexivity.
  - (* a | b | *)
    destruct (Hx eq_refl) as [x [t [Ej [Hsx Hpx]]]].
    assert (strip (join cell_sep cells ++ [SPACE; PIPE]) =
            join cell_sep cells ++ [SPACE; PIPE]) as Es.
    { apply strip_trimmed. rewrite Ej. cbn [app trimmed]. split; [assumption|].
      change (x :: t ++ [SPACE; PIPE]) with ((x :: t) ++ [SPACE; PIPE]).
      replace ((x :: t) ++ [SPACE; PIPE]) with (((x :: t) ++ [SPACE]) ++ [PIPE])
        by (rewrite <- app_assoc; reflexivity).
      now rewrite last_snoc. }
    rewrite Es.
    assert (startswith PIPE (join cell_sep cells ++ [SPACE; PIPE]) = false) as ->.
    { rewrite Ej. cbn [app startswith]. now apply neq_eqb_false. }
    replace (join cell_sep cells ++ [SPACE; PIPE])
      with ((join cell_sep cells ++ [SPACE]) ++ [PIPE])
      by (rewrite <- app_assoc; reflexivity).
    rewrite endswith_snoc_pipe, removelast_snoc.
    apply (Hsplit [] [SPACE]); reflexivity.
  - (* a | b *)
    destruct (Hx eq_refl) as [x [t [Ej [Hsx Hpx]]]].
    destruct (Hy eq_refl) as [t' [y [Ej' [Hsy Hpy]]]].
    assert (strip (join cell_sep cells) = join cell_sep cells) as Es.
    { apply strip_trimmed. rewrite Ej. cbn [trimmed]. split; [assumption|].
      rewrite <- Ej, Ej'. now rewrite last_snoc. }
    rewrite Es.
    assert (startswith PIPE (join cell_sep cells) = false) as ->.
    { rewrite Ej. cbn [startswith]. now apply neq_eqb_false. }
    assert (endswith PIPE (join cell_sep cells) = false) as ->.
    { rewrite Ej', endswith_last. now apply neq_eqb_false. }
    rewrite <- (app_nil_r (join cell_sep cells)).
    apply (Hsplit [] []); reflexivity.
Qed.

(** X1 -- round trip of a row: cells that are stripped and have no pipe,
    rebuilt in any pipe style and parsed again, are the same cells, provided
    the first cell is not empty when the style has no leading pipe and the
    last cell is not empty when it has no trailing pipe. *)
Theorem parse_rebuild_round_trip (cells : list str) (style : bool * bool) :
  cells <> [] ->
  Forall good_cell cells ->
  (fst style = false -> hd [] cells <> []) ->
  (snd style = false -> last cells [] <> []) ->
  _parse_row (_rebuild_row cells style) = cells.
Proof. exact (@parse_rebuild_cells cells style). Qed.

Lemma parse_rebuild_round_trip_witness :
  _parse_row (_rebuild_row (map of_string ["a"; ""; "b c"]%string) (false, true)) =
  map of_string ["a"; ""; "b c"]%string.
Proof.
  apply (@parse_rebuild_round_trip (map of_string ["a"; ""; "b c"]%string) (false, true)).
  - discriminate.
  - repeat constructor.
  - discriminate.
  - discriminate.
Defined.

End O1_pro_round_5_cells.

(* ================================================================== *)
(** * O1_pro_round_5: the repaired table *)
(* ================================================================== *)

Module O1_pro_round_5_repair.
Import Py Text PyFacts Lines O1_pro_round_5 Claude37_round_5_rows.
Import Claude37_round_1_total.

Lemma parse_row_nonempty line : 1 <= length (_parse_row line).
Proof.
  unfold _parse_row. rewrite length_map.
  match goal with |- 1 <= length (split PIPE ?s) =>
    pose proof (split_nonempty PIPE s) as Hne; destruct (split PIPE s);
    [congruence | cbn; lia]
  end.
Qed.

Lemma normalize_row_fits r m : length r <= m -> length (_normalize_row r m) = m.
Proof.
  intros H. unfold _normalize_row.
  destruct (Nat.ltb_spec (length r) m) as [Hlt|Hge].
  - rewrite length_app, repeat_length. lia.
  - destruct (Nat.ltb_spec m (length r)); lia.
Qed.

Lemma normalize_row_keeps_separator r m :
  _is_separator_row (r ++ repeat [] m) = _is_separator_row r.
Proof.
  unfold _is_separator_row. rewrite filter_app.
  assert (filter (fun c => truthy (strip c)) (repeat (@nil N) m) = []) as ->.
  { induction m as [|m IH]; [reflexivity | exact IH]. }
  now rewrite app_nil_r.
Qed.

Lemma max_bounds l a :
  a <= fold_left Nat.max l a /\ forall x, In x l -> x <= fold_left Nat.max l a.
Proof.
  revert a. induction l as [|y l IH]; intros a; cbn [fold_left].
  - split; [lia | intros x []].
  - destruct (IH (Nat.max a y)) as [H1 H2]. split; [lia|].
    intros x [<-|Hx]; [lia | now apply H2].
Qed.

(** The lines after the separator are rebuilt rows: separator rows, or data
    rows that are no separator rows. *)
Lemma data_lines_shape (repeated : bool) m style (ps : list (list str)) :
  (forall p, In p ps -> length p <= m) ->
  forall head,
  exists data,
    data_lines repeated m style (head :: map (fun r => _normalize_row r m) ps) =
    map (fun r => _rebuild_row r style) data /\
    Forall (fun r => length r = m) data /\
    Forall (fun r => r = repeat dashes3 m \/
                     (_is_separator_row r = false /\
                      exists p, In p ps /\ r = _normalize_row p m)) data.
Proof.
  intros Hlen head. unfold data_lines. cbn [tl].
  induction ps as [|p ps IH].
  - exists []. repeat split; constructor.
  - destruct IH as [data [E [Hl Hd]]].
    { intros q Hq. apply Hlen. now right. }
    cbn [map flat_map]. rewrite E.
    assert (length (_normalize_row p m) = m) as Hp
        by (apply normalize_row_fits, Hlen; now left).
    assert (Forall (fun r => r = repeat dashes3 m \/
                             (_is_separator_row r = false /\
                              exists q, In q (p :: ps) /\ r = _normalize_row q m)) data)
      as Hd'.
    { eapply Forall_impl; [|exact Hd]. intros r [Hr|[Hs [q [Hq Hr]]]]; [now left|].
      right. split; [assumption|]. exists q. split; [now right | assumption]. }
    destruct (_is_separator_row (_normalize_row p m)) eqn:Es.
    + exists data. auto.
    + destruct repeated.
      * exists (_normalize_row p m :: repeat dashes3 m :: data).
        split; [reflexivity|]. split.
        -- constructor; [assumption|]. constructor; [apply repeat_length | assumption].
        -- constructor; [right; split; [assumption|]; exists p; split; [now left | reflexivity]|].
           constructor; [now left | assumption].
      * exists (_normalize_row p m :: data).
        split; [reflexivity|]. split; [constructor; assumption|].
        constructor; [|assumption].
        right. split; [assumption|]. exists p. split; [now left | reflexivity].
Qed.

(** The repair of lines of which one has a pipe, row by row. *)
Lemma fix_invalid_table_rows (lines : list str) :
  existsb (contains PIPE) lines = true ->
  let rows := map _parse_row (filter (contains PIPE) lines) in
  let first := strip (hd [] lines) in
  let style := (startswith PIPE first, endswith PIPE first) in
  exists max_cols data,
    py_max (map (@length (list N)) rows) = Ok max_cols /\ 1 <= max_cols /\
    (forall p, In p rows -> length p <= max_cols) /\
    _fix_invalid_table lines =
    Ok (map (fun r => _rebuild_row r style)
            (_normalize_row (hd [] rows) max_cols :: repeat dashes3 max_cols :: data)) /\
    Forall (fun r => length r = max_cols)
           (_normalize_row (hd [] rows) max_cols :: repeat dashes3 max_cols :: data) /\
    Forall (fun r => r = repeat dashes3 max_cols \/
                     (_is_separator_row r = false /\
                      exists p, In p (tl rows) /\ r = _normalize_row p max_cols)) data.
Proof.
  intros Hpipe. cbv zeta. unfold _fix_invalid_table.
  pose proof (filter_nonempty _ _ Hpipe) as Hne.
  destruct lines as [|l0 lines]; [discriminate|]. cbn [hd].
  destruct (filter (contains PIPE) (l0 :: lines)) as [|q qs]; [congruence|].
  cbn [map truthy negb getitem nth_error bind py_max hd tl].
  set (m := fold_left Init.Nat.max (map (@length (list N)) (map _parse_row qs))
                      (length (_parse_row q))).
  destruct (max_bounds (map (@length (list N)) (map _parse_row qs))
                       (length (_parse_row q))) as [Hm0 Hmx].
  fold m in Hm0, Hmx.
  assert (forall p, In p (map _parse_row qs) -> length p <= m) as Hlen.
  { intros p Hp. apply Hmx. now apply in_map. }
  destruct (@data_lines_shape (_detect_repeated_separators (_parse_row q :: map _parse_row qs))
              m (startswith PIPE (strip l0), endswith PIPE (strip l0))
              (map _parse_row qs) Hlen (_normalize_row (_parse_row q) m))
    as [data [E [Hl Hd]]].
  exists m, data. split; [reflexivity|]. split; [pose proof (parse_row_nonempty q); lia|].
  split; [intros p [<-|Hp]; [exact Hm0 | now apply Hlen]|].
  split; [rewrite E; reflexivity|]. split; [|assumption].
  constructor; [now apply normalize_row_fits|].
  constructor; [apply repeat_length | assumption].
Qed.

(** X2 -- column uniformity: the repair of lines of which one has a pipe
    is the header, a separator of [max_cols] cells ["---"] and the data
    rows, all rebuilt in the style of the first line; every row has
    [max_cols] cells, and a row after the separator is a separator again
    or a padded data row that is no separator row. *)
Theorem fixed_table_shape (lines : list str) :
  existsb (contains PIPE) lines = true ->
  let rows := map _parse_row (filter (contains PIPE) lines) in
  let first := strip (hd [] lines) in
  let style := (startswith PIPE first, endswith PIPE first) in
  exists max_cols data,
    py_max (map (@length (list N)) rows) = Ok max_cols /\ 1 <= max_cols /\
    _fix_invalid_table lines =
    Ok (map (fun r => _rebuild_row r style)
            (_normalize_row (hd [] rows) max_cols :: repeat dashes3 max_cols :: data)) /\
    Forall (fun r => length r = max_cols)
           (_normalize_row (hd [] rows) max_cols :: repeat dashes3 max_cols :: data) /\
    Forall (fun r => r = repeat dashes3 max_cols \/
                     (_is_separator_row r = false /\
                      exists p, In p (tl rows) /\ r = _normalize_row p max_cols)) data.
Proof.
  intros Hpipe.
  destruct (fix_invalid_table_rows lines Hpipe) as [m [data [Hmax [Hm [_ [E [Hl Hd]]]]]]].
  exists m, data. auto.
Qed.

Lemma fixed_table_shape_witness :
  let lines := map of_string ["a|b"; "---|---"; "1|2|3"]%string in
  let rows := map _parse_row (filter (contains PIPE) lines) in
  let first := strip (hd [] lines) in
  let style := (startswith PIPE first, endswith PIPE first) in
  exists max_cols data,
    py_max (map (@length (list N)) rows) = Ok max_cols /\ 1 <= max_cols /\
    _fix_invalid_table lines =
    Ok (map (fun r => _rebuild_row r style)
            (_normalize_row (hd [] rows) max_cols :: repeat dashes3 max_cols :: data)) /\
    Forall (fun r => length r = max_cols)
           (_normalize_row (hd [] rows) max_cols :: repeat dashes3 max_cols :: data) /\
    Forall (fun r => r = repeat dashes3 max_cols \/
                     (_is_separator_row r = false /\
                      exists p, In p (tl rows) /\ r = _normalize_row p max_cols)) data.
Proof.
  apply (@fixed_table_shape (map of_string ["a|b"; "---|---"; "1|2|3"]%string)).
  reflexivity.
Defined.

(** ** No exception *)

Lemma fix_invalid_table_ok lines : returns (_fix_invalid_table lines).
Proof.
  unfold _fix_invalid_table.
  destruct (filter (contains PIPE) lines) as [|q qs] eqn:Ef; [apply returns_ok|].
  assert (lines <> []) as Hne by (intros ->; discriminate).
  destruct lines as [|l0 lines]; [congruence|].
  cbn [map truthy negb getitem nth_error bind py_max]. apply returns_ok.
Qed.

Lemma process_block_returns block : returns (_process_table_block block).
Proof.
  unfold _process_table_block. destruct (_is_valid_table _); [apply returns_ok|].
  apply fix_invalid_table_ok.
Qed.

Lemma scan_returns lines :
  forall out tb it, returns (scan lines out tb it).
Proof.
  induction lines as [|l lines IH]; intros out tb it; cbn [scan].
  - destruct (truthy tb); [|apply returns_ok].
    destruct (process_block_returns tb) as [f ->]. apply returns_ok.
  - destruct (contains PIPE l); [apply IH|].
    destruct it; [|apply IH].
    destruct (process_block_returns tb) as [f ->]. cbn [bind]. apply IH.
Qed.

(** ** A line on its own *)

Lemma normalize_row_same r : _normalize_row r (length r) = r.
Proof. unfold _normalize_row. now rewrite Nat.ltb_irrefl. Qed.

(** X3 -- a text that is one line with a pipe comes back as two lines:
    the line rebuilt from its cells, and a separator row of as many
    ["---"] cells under it.  (A block of one line is never a valid table,
    and the repair has no lower bound on the number of lines.) *)
Theorem lone_pipe_line_gets_separator (line : str) :
  contains PIPE line = true -> no_linebreak line = true ->
  let style := (startswith PIPE (strip line), endswith PIPE (strip line)) in
  fix_invalid_markdown_tables line =
  Ok (join [LF] [_rebuild_row (_parse_row line) style;
                 _rebuild_row (repeat dashes3 (length (_parse_row line))) style]).
Proof.
  intros Hp Hnl. cbv zeta. unfold fix_invalid_markdown_tables.
  rewrite splitlines_one_line; [|assumption | intros ->; discriminate].
  cbn [scan]. rewrite Hp. cbn [app scan truthy].
  unfold _process_table_block, _merge_continuation_lines.
  cbn [merge_loop]. rewrite Hp. cbn [merge_loop flush_current app].
  change (_is_valid_table [line]) with false. cbv iota.
  unfold _fix_invalid_table. cbn [filter]. rewrite Hp.
  cbn [map truthy negb getitem nth_error bind py_max fold_left].
  rewrite normalize_row_same.
  change (_detect_repeated_separators [_parse_row line]) with false.
  unfold data_lines. cbn [tl flat_map app]. reflexivity.
Qed.

Lemma lone_pipe_line_gets_separator_witness :
  fix_invalid_markdown_tables (of_string "yes | no") =
  Ok (join [LF] [of_string "yes | no"; of_string "--- | ---"]).
Proof.
  exact (@lone_pipe_line_gets_separator (of_string "yes | no") eq_refl eq_refl).
Defined.

End O1_pro_round_5_repair.

(* ================================================================== *)
(** * Grok3_round_5: the lines outside the tables *)
(* ================================================================== *)

Module Grok3_round_5_prose.
Import Py Text PyFacts Lines Grok3_round_5.

(** A block holds lines with a pipe only, so merging only strips their
    right ends. *)
Lemma merge_loop_all_pipes lines :
  Forall (fun l => contains PIPE l = true) lines ->
  forall merged current,
    merge_loop lines merged current = flush_current merged current ++ map rstrip lines.
Proof.
  induction lines as [|l lines IH]; intros Hall merged current; cbn [merge_loop map].
  - now rewrite app_nil_r.
  - inversion Hall as [|? ? Hl Hls]; subst. rewrite Hl, (IH Hls).
    cbn [flush_current]. now rewrite <- app_assoc.
Qed.

Lemma lstrip_pipe s : contains PIPE (lstrip s) = contains PIPE s.
Proof.
  unfold lstrip. induction s as [|x s IH]; [reflexivity|]. cbn [dropwhile].
  destruct (isspace x) eqn:E; [|reflexivity].
  rewrite IH. unfold contains at 2. cbn [existsb].
  destruct (N.eqb_spec PIPE x) as [<-|_]; [|reflexivity].
  rewrite pipe_not_space in E. discriminate.
Qed.

Lemma strip_pipe s : contains PIPE (strip s) = contains PIPE s.
Proof. unfold strip. now rewrite lstrip_pipe, rstrip_no_pipe_iff. Qed.

Lemma cons_first_length {A} (c : A) ls :
  ls <> [] -> length (cons_first c ls) = length ls.
Proof. destruct ls; [congruence | reflexivity]. Qed.

Lemma split_not_nil sep s : split sep s <> [].
Proof.
  destruct s as [|c s]; cbn [split]; [discriminate|].
  destruct (N.eqb c sep); [discriminate|].
  destruct (split sep s); discriminate.
Qed.

Lemma split_length_two sep s :
  contains sep s = true -> 2 <= length (split sep s).
Proof.
  induction s as [|c s IH]; [discriminate|]. unfold contains. cbn [existsb split].
  rewrite (N.eqb_sym sep c). destruct (N.eqb c sep); cbn [orb]; intros H.
  - cbn [length]. pose proof (split_not_nil sep s).
    destruct (split sep s); [congruence | cbn [length]; lia].
  - rewrite cons_first_length by apply split_not_nil. now apply IH.
Qed.

(** A line with a pipe that neither starts nor ends with one has two cells
    or more. *)
Lemma parse_row_inner_pipe line :
  contains PIPE line = true ->
  startswith PIPE (strip line) = false -> endswith PIPE (strip line) = false ->
  2 <= length (parse_row line).
Proof.
  intros Hp Hs He. unfold parse_row. rewrite Hs, He, length_map.
  apply split_length_two. now rewrite strip_pipe.
Qed.

Lemma parse_row_one line : 1 <= length (parse_row line).
Proof.
  unfold parse_row. rewrite length_map.
  match goal with |- 1 <= length (split ?c ?s) =>
    pose proof (split_not_nil c s); destruct (split c s); [congruence | cbn; lia] end.
Qed.

Lemma join_two_has_sep (sep : str) c l ls :
  In c sep -> In c (join sep (l :: ls)) \/ ls = [].
Proof.
  intros Hc. destruct ls as [|l' ls]; [now right|]. left.
  rewrite join_cons by discriminate. apply in_or_app. right.
  apply in_or_app. now left.
Qed.

Lemma rebuild_row_pipe cells (style : bool * bool) :
  fst style = true \/ snd style = true \/ 2 <= length cells ->
  contains PIPE (rebuild_row cells style) = true.
Proof.
  intros H. apply contains_true_iff. unfold rebuild_row.
  destruct style as [lead trail]. cbn [fst snd] in *.
  destruct trail.
  { apply in_or_app. right. cbn. tauto. }
  destruct lead.
  { cbn. tauto. }
  destruct H as [H|[H|H]]; try discriminate.
  destruct cells as [|l ls]; [cbn in H; lia|].
  destruct (@join_two_has_sep cell_sep PIPE l ls) as [Hin| ->];
    [cbn; tauto | exact Hin | cbn in H; lia].
Qed.

Lemma normalize_row_width r m : length r <= m -> length (normalize_row r m) = m.
Proof.
  intros H. unfold normalize_row.
  destruct (Nat.ltb_spec (length r) m) as [Hlt|Hge].
  - rewrite length_app, repeat_length. lia.
  - destruct (Nat.ltb_spec m (length r)); [lia|]. lia.
Qed.

Lemma data_rows_width (repeated : bool) m (rows : list (list str)) flags :
  Forall (fun r => length r = m) rows ->
  Forall (fun r => length r = m) (data_rows repeated m rows flags).
Proof.
  intros Hrows. unfold data_rows. apply Forall_forall. intros r Hr.
  apply in_flat_map in Hr. destruct Hr as [[p f] [Hin Hr]]. cbn [fst snd] in Hr.
  apply in_combine_l in Hin.
  assert (length p = m) as Hp.
  { destruct rows as [|r0 rows]; [destruct Hin|]. cbn [tl] in Hin.
    inversion Hrows as [|? ? _ Hrest]; subst.
    now apply (proj1 (Forall_forall _ _) Hrest). }
  destruct f; [destruct Hr|]. destruct repeated.
  - destruct Hr as [<-|[<-|[]]]; [exact Hp | apply repeat_length].
  - destruct Hr as [<-|[]]. exact Hp.
Qed.

Lemma fold_max_bounds l :
  forall a, a <= fold_left Nat.max l a /\
            forall x, In x l -> x <= fold_left Nat.max l a.
Proof.
  induction l as [|y l IH]; intros a; cbn [fold_left].
  - split; [lia | intros x []].
  - destruct (IH (Nat.max a y)) as [H1 H2]. split; [lia|].
    intros x [<-|Hx]; [lia | now apply H2].
Qed.

Lemma filter_pipes_all (l : list str) :
  Forall (fun x => contains PIPE x = true) l -> filter (contains PIPE) l = l.
Proof.
  induction 1 as [|x l Hx _ IH]; cbn [filter]; [reflexivity|]. now rewrite Hx, IH.
Qed.

(** Every line of a rebuilt block has a pipe. *)
Lemma fix_table_block_pipes merged :
  merged <> [] -> Forall (fun l => contains PIPE l = true) merged ->
  exists fixed, fix_table_block merged = Ok fixed /\ fixed <> [] /\
                Forall (fun l => contains PIPE l = true) fixed.
Proof.
  intros Hne Hall. destruct merged as [|first rest]; [congruence|].
  unfold fix_table_block. cbn [getitem nth_error bind].
  rewrite (filter_pipes_all Hall). cbn [map truthy negb py_max bind].
  set (m := fold_left Nat.max (map (@length str) (map parse_row rest))
                      (length (parse_row first))).
  cbn [getitem nth_error bind].
  set (style := (startswith PIPE (strip first), endswith PIPE (strip first))).
  eexists. split; [reflexivity|]. split; [discriminate|].
  destruct (fold_max_bounds (map (@length str) (map parse_row rest))
                            (length (parse_row first))) as [Hfirst Hrest].
  fold m in Hfirst, Hrest.
  assert (Forall (fun r => length r = m)
                 (normalize_row (parse_row first) m ::
                  map (fun r => normalize_row r m) (map parse_row rest))) as Hrows.
  { constructor; [now apply normalize_row_width|].
    apply Forall_forall. intros r Hr. apply in_map_iff in Hr.
    destruct Hr as [p [<- Hp]]. apply normalize_row_width, Hrest.
    now apply in_map. }
  assert (fst style = true \/ snd style = true \/ 2 <= m) as Hstyle.
  { subst style. cbn [fst snd].
    destruct (startswith PIPE (strip first)) eqn:Es; [now left|].
    destruct (endswith PIPE (strip first)) eqn:Ee; [now right; left|].
    right; right. inversion Hall as [|? ? Hf _]; subst.
    pose proof (parse_row_inner_pipe _ Hf Es Ee). lia. }
  assert (forall r, length r = m -> contains PIPE (rebuild_row r style) = true) as Hw.
  { intros r Hr. apply rebuild_row_pipe. now rewrite Hr. }
  apply Forall_forall. intros l Hl. destruct Hl as [<-|[<-|Hl]].
  - apply Hw. now inversion Hrows.
  - apply Hw, repeat_length.
  - apply in_map_iff in Hl. destruct Hl as [r [<- Hr]]. apply Hw.
    exact (proj1 (Forall_forall _ _) (data_rows_width _ _ Hrows) r Hr).
Qed.

Lemma process_table_block_pipes blk :
  Forall (fun l => contains PIPE l = true) blk ->
  exists fixed, process_table_block blk = Ok fixed /\
                truthy fixed = truthy blk /\
                Forall (fun l => contains PIPE l = true) fixed.
Proof.
  intros Hall. unfold process_table_block, merge_continuation_lines.
  rewrite (merge_loop_all_pipes Hall). cbn [flush_current app].
  destruct (Nat.ltb_spec (length (map rstrip blk)) 2) as [Hlt|Hge];
    [exists blk; now repeat split|].
  cbn [orb].
  destruct (negb (existsb (contains PIPE) (map rstrip blk)));
    [exists blk; now repeat split|].
  destruct (is_valid_table (map rstrip blk)); [exists blk; now repeat split|].
  destruct (@fix_table_block_pipes (map rstrip blk)) as [fixed [E [Hne Hf]]].
  - intros E. rewrite E in Hge. cbn in Hge. lia.
  - apply Forall_forall. intros l Hl. apply in_map_iff in Hl.
    destruct Hl as [l' [<- Hl']]. rewrite rstrip_no_pipe_iff.
    exact (proj1 (Forall_forall _ _) Hall l' Hl').
  - exists fixed. split; [exact E|]. split; [|exact Hf].
    destruct fixed; [congruence|]. destruct blk; [cbn in Hge; lia | reflexivity].
Qed.

(** The loop is the loop that the three classes share. *)
Lemma grok3_scan_by lines :
  forall out tb it,
    scan lines out tb it = Block_loop.scan_by process_table_block lines out tb it.
Proof.
  induction lines as [|l lines IH]; intros out tb it;
    cbn [scan Block_loop.scan_by]; [reflexivity|].
  destruct (contains PIPE l); [apply IH|]. destruct it; [|apply IH].
  destruct (process_table_block tb); cbn [bind]; [apply IH | reflexivity].
Qed.

(** X4 -- [fix_invalid_markdown_tables] raises no exception, and it leaves
    the lines without a pipe alone.  The text it returns is the lines [out]
    joined by line feeds, and every line [l] without a pipe is in [out]
    where it was: [out] is what the lines before [l] become, then [l], then
    what the lines after [l] become.  (A line without a pipe ends the block
    before it, so the merging of continuation lines never takes one in.)
    Lines that all have a pipe become lines that all have a pipe, and some
    lines become some. *)
Theorem plain_lines_kept (lines : list str) :
  exists out,
    fix_lines lines = Ok out /\
    (forall markdown_text,
        splitlines markdown_text = lines ->
        fix_invalid_markdown_tables markdown_text = Ok (join [LF] out)) /\
    (forall pre l post,
        lines = pre ++ l :: post -> contains PIPE l = false ->
        exists a b, fix_lines pre = Ok a /\ fix_lines post = Ok b /\
                    out = a ++ l :: b) /\
    (Forall (fun l => contains PIPE l = true) lines ->
     Forall (fun l => contains PIPE l = true) out /\ (lines <> [] -> out <> [])).
Proof.
  destruct (@Block_loop_facts.scan_by_plain_lines process_table_block
              process_table_block_pipes lines) as [out [E [Hsplit Hpipes]]].
  exists out. unfold fix_lines. rewrite !grok3_scan_by.
  split; [exact E|]. split; [|split; [|exact Hpipes]].
  - intros text <-. unfold fix_invalid_markdown_tables, fix_lines.
    now rewrite grok3_scan_by, E.
  - intros pre l post Hl Hp. destruct (Hsplit pre l post Hl Hp) as [a [b H]].
    exists a, b. now rewrite !grok3_scan_by.
Qed.

(** A block of one line is returned as it is. *)
Lemma process_one_line l : process_table_block [l] = Ok [l].
Proof.
  unfold process_table_block, merge_continuation_lines. cbn [merge_loop].
  destruct (contains PIPE l); [reflexivity|].
  destruct (truthy (strip l)); reflexivity.
Qed.

Lemma scan_isolated lines :
  forallb (fun p => negb (contains PIPE (fst p) && contains PIPE (snd p)))
          (combine lines (tl lines)) = true ->
  forall output,
    scan lines output [] false = Ok (output ++ lines) /\
    (forall l, contains PIPE (hd [] lines) = false ->
               scan lines output [l] true = Ok (output ++ l :: lines)).
Proof.
  induction lines as [|a rest IH]; intros Hadj output.
  - cbn [scan truthy]. rewrite app_nil_r. split; [reflexivity|].
    intros l _. now rewrite process_one_line.
  - assert (forallb (fun p => negb (contains PIPE (fst p) && contains PIPE (snd p)))
                    (combine rest (tl rest)) = true /\
            (contains PIPE a = true -> contains PIPE (hd [] rest) = false)) as [Hrest Hhd].
    { destruct rest as [|b rest]; [split; reflexivity|].
      cbn [tl combine forallb fst snd hd] in Hadj |- *.
      apply andb_true_iff in Hadj. destruct Hadj as [Hab Hadj]. split; [exact Hadj|].
      intros Ha. rewrite Ha in Hab. now destruct (contains PIPE b). }
    specialize (IH Hrest). split.
    + cbn [scan]. destruct (contains PIPE a) eqn:Ha.
      * cbn [app]. now apply (proj2 (IH output)), Hhd.
      * rewrite (proj1 (IH (output ++ [a]))). now rewrite <- app_assoc.
    + cbn [hd]. intros l Ha. cbn [scan]. rewrite Ha, process_one_line. cbn [bind].
      rewrite (proj1 (IH ((output ++ [l]) ++ [a]))). now rewrite <- !app_assoc.
Qed.

(** X5 -- a text in which no two lines that follow each other both have a
    pipe is returned line by line as it is: a line with a pipe that stands
    alone is no table, whatever is written next to it. *)
Theorem lone_pipe_lines_kept (lines : list str) :
  forallb (fun p => negb (contains PIPE (fst p) && contains PIPE (snd p)))
          (combine lines (tl lines)) = true ->
  fix_lines lines = Ok lines.
Proof.
  intros H. unfold fix_lines. now rewrite (proj1 (scan_isolated lines H [])).
Qed.

Lemma lone_pipe_lines_kept_witness :
  fix_lines (map of_string ["yes | no"; "a wrapped line"; "x|y|z"; ""; "| cell"]%string) =
  Ok (map of_string ["yes | no"; "a wrapped line"; "x|y|z"; ""; "| cell"]%string).
Proof. apply lone_pipe_lines_kept. vm_compute. reflexivity. Defined.

End Grok3_round_5_prose.

(* ================================================================== *)
(** * O1_pro_round_5: texts, rows and merged lines *)
(* ================================================================== *)

Module O1_pro_round_5_text.
Import Py Text PyFacts Lines O1_pro_round_5 O1_pro_round_5_repair.

(** ** _merge_continuation_lines *)

Lemma merge_loop_no_continuation lines :
  Forall (fun l => contains PIPE l = true \/ strip l = []) lines ->
  forall merged current,
    merge_loop lines merged current = flush_current merged current ++ lines.
Proof.
  induction lines as [|l lines IH]; intros Hall merged current; cbn [merge_loop].
  - now rewrite app_nil_r.
  - inversion Hall as [|? ? Hl Hls]; subst.
    destruct (contains PIPE l) eqn:Hp.
    + rewrite IH by assumption. cbn [flush_current]. now rewrite <- app_assoc.
    + destruct Hl as [Hl|Hl]; [discriminate|]. rewrite Hl. cbn [truthy].
      rewrite IH by assumption. cbn [flush_current]. now rewrite <- !app_assoc.
Qed.

(** X6 -- lines of which each has a pipe or is blank are merged into
    themselves: only a line that is not blank and has no pipe is folded
    into the row before it. *)
Theorem merge_without_continuations (lines : list str) :
  Forall (fun l => contains PIPE l = true \/ strip l = []) lines ->
  _merge_continuation_lines lines = lines.
Proof.
  intros H. unfold _merge_continuation_lines. now rewrite merge_loop_no_continuation.
Qed.

Lemma merge_without_continuations_witness :
  _merge_continuation_lines (map of_string ["| a | b |"; "   "; "1|2"; ""]%string) =
  map of_string ["| a | b |"; "   "; "1|2"; ""]%string.
Proof.
  apply merge_without_continuations.
  repeat constructor; vm_compute; reflexivity.
Defined.

(** ** The lines without a pipe *)

Lemma all_pipes_no_continuation (l : list str) :
  Forall (fun x => contains PIPE x = true) l ->
  Forall (fun x => contains PIPE x = true \/ strip x = []) l.
Proof. intros H. eapply Forall_impl; [|exact H]. intros x Hx. now left. Qed.

Lemma o1_parse_row_inner_pipe line :
  contains PIPE line = true ->
  startswith PIPE (strip line) = false -> endswith PIPE (strip line) = false ->
  2 <= length (_parse_row line).
Proof.
  intros Hp Hs He. unfold _parse_row. rewrite Hs, He, length_map.
  apply Grok3_round_5_prose.split_length_two.
  now rewrite Grok3_round_5_prose.strip_pipe.
Qed.

Lemma o1_rebuild_row_pipe cells (style : bool * bool) :
  fst style = true \/ snd style = true \/ 2 <= length cells ->
  contains PIPE (_rebuild_row cells style) = true.
Proof. exact (@Grok3_round_5_prose.rebuild_row_pipe cells style). Qed.

(** A block of lines with a pipe becomes lines with a pipe, and as the
    block it is empty or not. *)
Lemma process_block_pipes blk :
  Forall (fun l => contains PIPE l = true) blk ->
  exists fixed, _process_table_block blk = Ok fixed /\
                truthy fixed = truthy blk /\
                Forall (fun l => contains PIPE l = true) fixed.
Proof.
  intros Hall. unfold _process_table_block, _merge_continuation_lines.
  rewrite (merge_loop_no_continuation (all_pipes_no_continuation Hall)).
  cbn [flush_current app].
  destruct (_is_valid_table blk); [exists blk; now repeat split|].
  destruct blk as [|first rest]; [exists []; repeat split; constructor|].
  assert (existsb (contains PIPE) (first :: rest) = true) as Hex.
  { inversion Hall as [|? ? Hf _]; subst. cbn [existsb]. now rewrite Hf. }
  destruct (fix_invalid_table_rows _ Hex) as [m [data [_ [Hm [Hlen [E [Hl _]]]]]]].
  cbv zeta in E, Hlen, Hl. cbn [hd] in E.
  rewrite (Grok3_round_5_prose.filter_pipes_all Hall) in E, Hlen, Hl.
  cbn [map hd] in E, Hlen, Hl.
  eexists. split; [exact E|]. split; [reflexivity|].
  set (style := (startswith PIPE (strip first), endswith PIPE (strip first))) in *.
  assert (fst style = true \/ snd style = true \/ 2 <= m) as Hstyle.
  { subst style. cbn [fst snd].
    destruct (startswith PIPE (strip first)) eqn:Es; [now left|].
    destruct (endswith PIPE (strip first)) eqn:Ee; [now right; left|].
    right; right. inversion Hall as [|? ? Hf _]; subst.
    pose proof (o1_parse_row_inner_pipe _ Hf Es Ee).
    pose proof (Hlen (_parse_row first) (or_introl eq_refl)). lia. }
  assert (forall r, length r = m -> contains PIPE (_rebuild_row r style) = true) as Hw.
  { intros r Hr. apply o1_rebuild_row_pipe. now rewrite Hr. }
  apply Forall_cons_iff in Hl. destruct Hl as [Hh Hl].
  apply Forall_cons_iff in Hl. destruct Hl as [Hs Hdata].
  constructor; [apply Hw; exact Hh|]. constructor; [apply Hw; exact Hs|].
  apply Forall_forall. intros l Hin. apply in_map_iff in Hin.
  destruct Hin as [r [<- Hr]]. apply Hw.
  exact (proj1 (Forall_forall _ _) Hdata r Hr).
Qed.

(** The loop is the loop that the three classes share. *)
Lemma o1_scan_by lines :
  forall out tb it,
    scan lines out tb it = Block_loop.scan_by _process_table_block lines out tb it.
Proof.
  induction lines as [|l lines IH]; intros out tb it;
    cbn [scan Block_loop.scan_by]; [reflexivity|].
  destruct (contains PIPE l); [apply IH|]. destruct it; [|apply IH].
  destruct (_process_table_block tb); cbn [bind]; [apply IH | reflexivity].
Qed.

(** X7 -- [fix_invalid_markdown_tables] raises no exception, and it leaves
    the lines without a pipe alone.  The text it returns is the lines [out]
    joined by line feeds, and every line [l] without a pipe is in [out]
    where it was: [out] is what the lines before [l] become, then [l], then
    what the lines after [l] become.  Lines that all have a pipe become
    lines that all have a pipe, and some lines become some. *)
Theorem fix_keeps_plain_lines (lines : list str) :
  exists out,
    scan lines [] [] false = Ok out /\
    (forall markdown_text,
        splitlines markdown_text = lines ->
        fix_invalid_markdown_tables markdown_text = Ok (join [LF] out)) /\
    (forall pre l post,
        lines = pre ++ l :: post -> contains PIPE l = false ->
        exists a b, scan pre [] [] false = Ok a /\ scan post [] [] false = Ok b /\
                    out = a ++ l :: b) /\
    (Forall (fun l => contains PIPE l = true) lines ->
     Forall (fun l => contains PIPE l = true) out /\ (lines <> [] -> out <> [])).
Proof.
  destruct (@Block_loop_facts.scan_by_plain_lines _process_table_block
              process_block_pipes lines) as [out [E [Hsplit Hpipes]]].
  exists out. rewrite !o1_scan_by.
  split; [exact E|]. split; [|split; [|exact Hpipes]].
  - intros text <-. unfold fix_invalid_markdown_tables.
    now rewrite o1_scan_by, E.
  - intros pre l post Hl Hp. destruct (Hsplit pre l post Hl Hp) as [a [b H]].
    exists a, b. now rewrite !o1_scan_by.
Qed.

(** ** _normalize_row *)

Lemma join_merge_tail sep (row : list str) :
  forall k, k < length row ->
            join sep (firstn k row ++ [join sep (skipn k row)]) = join sep row.
Proof.
  induction row as [|c row IH]; intros k Hk; [cbn in Hk; lia|].
  destruct k as [|k]; [reflexivity|].
  cbn [length] in Hk. cbn [firstn skipn app].
  assert (row <> []) as Hrow by (intros ->; cbn in Hk; lia).
  rewrite !join_cons; [|assumption | now destruct (firstn k row)].
  rewrite IH by lia. reflexivity.
Qed.

Lemma normalize_row_zero (row : list str) : _normalize_row row 0 = row.
Proof.
  unfold _normalize_row.
  destruct row as [|c row]; [reflexivity|].
  destruct (@exists_last _ (c :: row) ltac:(discriminate)) as [l' [x ->]].
  replace (length (l' ++ [x]) <? 0) with false by (symmetry; apply Nat.ltb_ge; lia).
  replace (0 <? length (l' ++ [x])) with true
    by (symmetry; apply Nat.ltb_lt; rewrite length_app; cbn; lia).
  unfold slice_to_pred, slice_from_pred.
  rewrite removelast_last, length_app. cbn [length].
  replace (length l' + 1 - 1) with (length l') by lia.
  rewrite skipn_app, skipn_all, Nat.sub_diag. reflexivity.
Qed.

(** The function on integers is [_normalize_row] where the target is not
    negative. *)
Lemma normalize_row_int_nat (row : list str) (k : nat) :
  O1_pro_round_5_int._normalize_row row (Z.of_nat k) = _normalize_row row k.
Proof.
  unfold O1_pro_round_5_int._normalize_row, _normalize_row.
  destruct (Z.ltb_spec (Z.of_nat (length row)) (Z.of_nat k)) as [Hlt|Hge];
    destruct (Nat.ltb_spec (length row) k) as [Hlt'|Hge']; try lia.
  - f_equal. f_equal. lia.
  - destruct (Z.ltb_spec (Z.of_nat k) (Z.of_nat (length row))) as [Hlt|Hge2];
      destruct (Nat.ltb_spec k (length row)) as [Hlt2|Hge2']; try lia; [|reflexivity].
    unfold Py_int.slice_to, Py_int.slice_from, Py_int.slice_index.
    destruct k as [|k]; cbn [slice_to_pred slice_from_pred].
    + replace (Z.of_nat 0 - 1 <? 0)%Z with true by reflexivity.
      replace (Z.to_nat (Z.of_nat (length row) + (Z.of_nat 0 - 1))) with (length row - 1) by lia.
      rewrite removelast_firstn_len. now replace (pred (length row)) with (length row - 1) by lia.
    + destruct (Z.ltb_spec (Z.of_nat (S k) - 1) 0) as [H|H]; [lia|].
      now replace (Nat.min (Z.to_nat (Z.of_nat (S k) - 1)) (length row)) with k by lia.
Qed.

(** Where the slices [row[:target_cols-1]] and [row[target_cols-1:]] of a
    row longer than the target are cut. *)
Lemma slice_index_pred (n : nat) (t : Z) :
  (t < Z.of_nat n)%Z -> 0 < n ->
  Py_int.slice_index n (t - 1) < n /\
  Z.of_nat (S (Py_int.slice_index n (t - 1))) =
  (if (1 <=? t)%Z then t else Z.max 1 (Z.of_nat n + t)).
Proof.
  intros Ht Hn. unfold Py_int.slice_index.
  destruct (Z.ltb_spec (t - 1) 0); destruct (Z.leb_spec 1 t); lia.
Qed.

(** What [_normalize_row] makes of a row that is not shorter than the target. *)
Lemma normalize_row_fitted (row : list str) (target_cols : Z) :
  (target_cols <= Z.of_nat (length row))%Z ->
  join [SPACE] (O1_pro_round_5_int._normalize_row row target_cols) = join [SPACE] row /\
  Z.of_nat (length (O1_pro_round_5_int._normalize_row row target_cols)) =
  (if (target_cols =? Z.of_nat (length row))%Z || (1 <=? target_cols)%Z then target_cols
   else Z.max 1 (Z.of_nat (length row) + target_cols)) /\
  (target_cols = 0%Z -> O1_pro_round_5_int._normalize_row row target_cols = row) /\
  (forall k : nat, target_cols = Z.of_nat k ->
                   O1_pro_round_5_int._normalize_row row target_cols = _normalize_row row k).
Proof.
  intros Hle.
  assert (forall k : nat, target_cols = Z.of_nat k ->
            O1_pro_round_5_int._normalize_row row target_cols = _normalize_row row k) as Hnat
    by (intros k ->; apply normalize_row_int_nat).
  assert (target_cols = 0%Z -> O1_pro_round_5_int._normalize_row row target_cols = row) as Hzero
    by (intros E; rewrite (Hnat 0 E); apply normalize_row_zero).
  split; [|split; [|split; assumption]]; clear Hnat Hzero;
    unfold O1_pro_round_5_int._normalize_row;
    (destruct (Z.ltb_spec (Z.of_nat (length row)) target_cols) as [Hlt|_]; [lia|]);
    (destruct (Z.ltb_spec target_cols (Z.of_nat (length row))) as [Hlt|Hge]).
  - unfold Py_int.slice_to, Py_int.slice_from.
    destruct row as [|c row].
    + cbn [length] in *. unfold Py_int.slice_index.
      destruct (Z.ltb_spec (target_cols - 1) 0) as [H|H]; [|lia].
      replace (Z.to_nat (Z.of_nat 0 + (target_cols - 1))) with 0 by lia.
      reflexivity.
    + destruct (@slice_index_pred (length (c :: row)) target_cols Hlt ltac:(cbn; lia))
        as [Hj _].
      now apply join_merge_tail.
  - reflexivity.
  - replace (target_cols =? Z.of_nat (length row))%Z with false by (symmetry; apply Z.eqb_neq; lia).
    cbn [orb]. unfold Py_int.slice_to, Py_int.slice_from.
    destruct row as [|c row].
    + cbn [length] in *. unfold Py_int.slice_index.
      destruct (Z.ltb_spec (target_cols - 1) 0) as [H|H]; [|lia].
      destruct (Z.leb_spec 1 target_cols) as [H1|H1]; [lia|].
      replace (Z.to_nat (Z.of_nat 0 + (target_cols - 1))) with 0 by lia.
      cbn. lia.
    + destruct (@slice_index_pred (length (c :: row)) target_cols Hlt ltac:(cbn; lia))
        as [Hj Hlen].
      rewrite length_app, length_firstn. cbn [length] in *.
      rewrite <- Hlen. lia.
  - replace (target_cols =? Z.of_nat (length row))%Z with true by (symmetry; apply Z.eqb_eq; lia).
    cbn [orb]. lia.
Qed.

(** X8 -- [_normalize_row] loses no text when it shortens a row, whatever
    integer the target is: for a target that is not above the row's length,
    the cells joined by spaces are the same before and after.  A target of
    one or more is the number of cells of the result; a target [t] of zero
    or less, where the slices count from the end of the row, leaves
    [len(row) + t] cells and at least one, and the row as it is when
    [t = 0].  On the targets that are not negative the function is the one
    of the class's embedding. *)
Theorem normalize_row_keeps_text (row : list str) (target_cols : Z) :
  (target_cols <= Z.of_nat (length row))%Z ->
  join [SPACE] (O1_pro_round_5_int._normalize_row row target_cols) = join [SPACE] row /\
  Z.of_nat (length (O1_pro_round_5_int._normalize_row row target_cols)) =
  (if (target_cols =? Z.of_nat (length row))%Z || (1 <=? target_cols)%Z then target_cols
   else Z.max 1 (Z.of_nat (length row) + target_cols)) /\
  (target_cols = 0%Z -> O1_pro_round_5_int._normalize_row row target_cols = row) /\
  (forall k : nat, target_cols = Z.of_nat k ->
                   O1_pro_round_5_int._normalize_row row target_cols = _normalize_row row k).
Proof. exact (@normalize_row_fitted row target_cols). Qed.

Lemma normalize_row_keeps_text_witness :
  let row := map of_string ["a"; "b"; "c d"; "e"]%string in
  join [SPACE] (O1_pro_round_5_int._normalize_row row (-1)) = join [SPACE] row /\
  Z.of_nat (length (O1_pro_round_5_int._normalize_row row (-1))) = 3%Z /\
  ((-1)%Z = 0%Z -> O1_pro_round_5_int._normalize_row row (-1) = row) /\
  (forall k : nat, (-1)%Z = Z.of_nat k ->
                   O1_pro_round_5_int._normalize_row row (-1) = _normalize_row row k).
Proof.
  apply (@normalize_row_keeps_text (map of_string ["a"; "b"; "c d"; "e"]%string) (-1)%Z).
  cbn. lia.
Defined.

End O1_pro_round_5_text.

(* ================================================================== *)
(** * The parsers and validators of the round 5 classes *)
(* ================================================================== *)

Module Round_5_parsers.
Import Py Text PyFacts Lines.

Lemma grok3_o1_parse_row line :
  Grok3_round_5.parse_row line = O1_pro_round_5._parse_row line.
Proof.
  unfold Grok3_round_5.parse_row, O1_pro_round_5._parse_row.
  destruct (strip line) as [|x s] eqn:E; [reflexivity|].
  cbn [startswith]. destruct (N.eqb_spec x PIPE) as [->|Hx]; [|reflexivity].
  cbn [tl]. destruct s as [|y s]; [reflexivity|].
  now rewrite (@endswith_cons PIPE PIPE (y :: s)) by discriminate.
Qed.

Lemma claude_o1_parse_row line :
  contains PIPE line = true ->
  Claude37_round_5.parse_row line = O1_pro_round_5._parse_row line.
Proof.
  intros H. unfold Claude37_round_5.parse_row, O1_pro_round_5._parse_row.
  rewrite H. destruct line; [discriminate | reflexivity].
Qed.

Lemma valid_rows_agree (rows rows' : list (list str)) sep sep' :
  rows = rows' ->
  (forall r, r <> [] -> sep r = sep' r) ->
  Forall (fun r : list str => r <> []) rows ->
  match rows with
  | r0 :: r1 :: rest =>
      if negb (sep r1) then false
      else forallb (fun r => length r =? length r0) (r0 :: r1 :: rest)
  | _ => false
  end =
  match rows' with
  | r0 :: r1 :: rest =>
      if negb (sep' r1) then false
      else forallb (fun r => length r =? length r0) (r0 :: r1 :: rest)
  | _ => false
  end.
Proof.
  intros <- Hsep Hne. destruct rows as [|r0 [|r1 rest]]; try reflexivity.
  inversion Hne as [|? ? _ Hne']; subst. inversion Hne' as [|? ? Hr1 _]; subst.
  now rewrite (Hsep r1 Hr1).
Qed.

(** X9 -- the three round 5 parsers agree: [Grok3_round_5.parse_row] and
    [O1_pro_round_5._parse_row] are the same function, and
    [Claude37_round_5.parse_row] differs from them only on a line without a
    pipe, where it yields no cell.  So the three validators give the same
    verdict on every list of lines. *)
Theorem round_5_parsers_agree :
  (forall line, Grok3_round_5.parse_row line = O1_pro_round_5._parse_row line) /\
  (forall line,
      Claude37_round_5.parse_row line =
      if contains PIPE line then O1_pro_round_5._parse_row line else []) /\
  (forall lines,
      Grok3_round_5.is_valid_table lines = O1_pro_round_5._is_valid_table lines /\
      Claude37_round_5.is_valid_table lines = O1_pro_round_5._is_valid_table lines).
Proof.
  split; [exact grok3_o1_parse_row|]. split.
  - intros line. destruct (contains PIPE line) eqn:H.
    + now apply claude_o1_parse_row.
    + unfold Claude37_round_5.parse_row. rewrite H.
      now destruct (negb (truthy line)).
  - intros lines.
    unfold Grok3_round_5.is_valid_table, O1_pro_round_5._is_valid_table,
      Claude37_round_5.is_valid_table.
    destruct (length lines <? 2); [auto|]. split.
    + rewrite (map_ext _ _ grok3_o1_parse_row). reflexivity.
    + apply valid_rows_agree.
      * apply map_ext_in. intros l Hl. apply filter_In in Hl.
        apply claude_o1_parse_row. tauto.
      * intros r Hr. unfold Claude37_round_5.is_separator_row,
          O1_pro_round_5._is_separator_row.
        destruct r; [congruence | reflexivity].
      * apply Forall_forall. intros r Hr. apply in_map_iff in Hr.
        destruct Hr as [l [<- Hl]]. apply filter_In in Hl. destruct Hl as [_ Hp].
        pose proof (Claude37_round_5_rows.parse_row_length l Hp) as Hlen.
        intros E. rewrite E in Hlen. cbn in Hlen. lia.
Qed.

Lemma claude_normalize_row_int_nat (row : list str) (k : nat) :
  Claude37_round_5_int.normalize_row row (Z.of_nat k) = Claude37_round_5.normalize_row row k.
Proof.
  unfold Claude37_round_5_int.normalize_row, Claude37_round_5.normalize_row.
  destruct (Z.ltb_spec (Z.of_nat (length row)) (Z.of_nat k)) as [Hlt|Hge];
    destruct (Nat.ltb_spec (length row) k) as [Hlt'|Hge']; try lia.
  - f_equal. f_equal. lia.
  - destruct (Z.ltb_spec (Z.of_nat k) (Z.of_nat (length row))) as [Hlt|Hge2];
      destruct (Nat.ltb_spec k (length row)) as [Hlt2|Hge2']; try lia; [|reflexivity].
    destruct (Z.ltb_spec 1 (Z.of_nat k)) as [H1|H1];
      destruct (Nat.ltb_spec 1 k) as [H1'|H1']; try lia; [|reflexivity].
    unfold Py_int.slice_to, Py_int.slice_from, Py_int.slice_index.
    destruct k as [|k]; [lia|]. cbn [slice_to_pred slice_from_pred].
    destruct (Z.ltb_spec (Z.of_nat (S k) - 1) 0) as [H|H]; [lia|].
    now replace (Nat.min (Z.to_nat (Z.of_nat (S k) - 1)) (length row)) with k by lia.
Qed.

(** X10 -- the row functions of [Claude37_round_5] are those of
    [O1_pro_round_5] but for two guards, whatever integer the target is:
    [normalize_row] with a target [t] of zero or less joins a row of
    [len(row) + t >= 2] into one cell (there [_normalize_row], whose slices
    count from the end of the row, returns [len(row) + t] cells), and
    [rebuild_row] makes the empty line of an empty row (there
    [_rebuild_row] still writes the pipes of the style).  On the targets
    that are not negative the two functions are those of the classes'
    embeddings. *)
Theorem round_5_rows_agree (row : list str) (target_cols : Z) (style : bool * bool) :
  Claude37_round_5_int.normalize_row row target_cols =
  (if (target_cols <=? 0)%Z && (2 <=? Z.of_nat (length row) + target_cols)%Z
   then [join [SPACE] row]
   else O1_pro_round_5_int._normalize_row row target_cols) /\
  ((target_cols <= 0)%Z -> (2 <= Z.of_nat (length row) + target_cols)%Z ->
   Z.of_nat (length (O1_pro_round_5_int._normalize_row row target_cols)) =
   (Z.of_nat (length row) + target_cols)%Z) /\
  (forall k : nat, target_cols = Z.of_nat k ->
     Claude37_round_5_int.normalize_row row target_cols =
     Claude37_round_5.normalize_row row k /\
     O1_pro_round_5_int._normalize_row row target_cols =
     O1_pro_round_5._normalize_row row k) /\
  Claude37_round_5.rebuild_row row style =
  (if truthy row then O1_pro_round_5._rebuild_row row style else []).
Proof.
  split; [|split; [|split; [|now destruct row]]].
  - unfold Claude37_round_5_int.normalize_row, O1_pro_round_5_int._normalize_row.
    destruct (Z.ltb_spec (Z.of_nat (length row)) target_cols) as [Hlt|Hge].
    { destruct (Z.leb_spec target_cols 0); [lia|reflexivity]. }
    destruct (Z.ltb_spec target_cols (Z.of_nat (length row))) as [Hlt|Hge2].
    + destruct (Z.ltb_spec 1 target_cols) as [H1|H1].
      { destruct (Z.leb_spec target_cols 0); [lia|reflexivity]. }
      destruct (Z.leb_spec target_cols 0) as [H0|H0]; cbn [andb].
      * destruct (Z.leb_spec 2 (Z.of_nat (length row) + target_cols)) as [H2|H2];
          [reflexivity|].
        unfold Py_int.slice_to, Py_int.slice_from, Py_int.slice_index.
        destruct (Z.ltb_spec (target_cols - 1) 0) as [H|H]; [|lia].
        now replace (Z.to_nat (Z.of_nat (length row) + (target_cols - 1))) with 0 by lia.
      * assert (target_cols = 1%Z) as -> by lia. reflexivity.
    + destruct (Z.leb_spec target_cols 0) as [H0|H0]; cbn [andb]; [|reflexivity].
      destruct (Z.leb_spec 2 (Z.of_nat (length row) + target_cols)); [lia|reflexivity].
  - intros H0 H2.
    destruct (@O1_pro_round_5_text.normalize_row_fitted row target_cols ltac:(lia))
      as [_ [Hlen _]].
    rewrite Hlen.
    replace (target_cols =? Z.of_nat (length row))%Z with false by (symmetry; apply Z.eqb_neq; lia).
    replace (1 <=? target_cols)%Z with false by (symmetry; apply Z.leb_gt; lia).
    cbn [orb]. lia.
  - intros k ->. split.
    + apply claude_normalize_row_int_nat.
    + apply O1_pro_round_5_text.normalize_row_int_nat.
Qed.

End Round_5_parsers.

(* ================================================================== *)
(** * O1_pro_round_5: a repaired table is a valid table *)
(* ================================================================== *)

Module O1_pro_round_5_valid.
Import Py Text Claude37_round_5_spec PyFacts Lines O1_pro_round_5.
Import O1_pro_round_5_repair O1_pro_round_5_text.

Lemma parse_rebuild_both cells :
  cells <> [] -> Forall good_cell cells ->
  _parse_row (_rebuild_row cells (true, true)) = cells.
Proof.
  intros Hne Hall.
  rewrite <- (Claude37_round_5_rows.parse_row_rebuild Hne Hall) at 2.
  assert (_rebuild_row cells (true, true) = Claude37_round_5.rebuild_row cells both) as ->
      by (destruct cells; [congruence | reflexivity]).
  symmetry. apply Round_5_parsers.claude_o1_parse_row.
  now apply Claude37_round_5_rows.rebuild_row_has_pipe.
Qed.

Lemma parse_row_cells_good line : Forall good_cell (_parse_row line).
Proof.
  unfold _parse_row. apply Forall_forall. intros c Hc. apply in_map_iff in Hc.
  destruct Hc as [p [<- Hp]]. eapply Claude37_round_5_rows.strip_piece_good. exact Hp.
Qed.

Lemma normalize_row_good r m :
  length r <= m -> Forall good_cell r -> Forall good_cell (_normalize_row r m).
Proof.
  intros Hlen Hr. unfold _normalize_row.
  destruct (Nat.ltb_spec (length r) m) as [Hlt|Hge].
  - apply Forall_app. split; [exact Hr|]. apply Forall_forall. intros c Hc.
    apply repeat_spec in Hc. subst c. apply Claude37_round_5_rows.good_cell_nil.
  - destruct (Nat.ltb_spec m (length r)); [lia | exact Hr].
Qed.

Lemma separator_good m : Forall good_cell (repeat dashes3 m).
Proof.
  apply Forall_forall. intros c Hc. apply repeat_spec in Hc. subst c.
  apply Claude37_round_5_rows.good_cell_dashes3.
Qed.

Lemma separator_is_separator m : _is_separator_row (repeat dashes3 m) = true.
Proof.
  unfold _is_separator_row. apply forallb_forall. intros c Hc.
  apply filter_In in Hc. destruct Hc as [Hc _]. apply repeat_spec in Hc. now subst c.
Qed.

Lemma starts_with_pipe_has_pipe line :
  startswith PIPE (strip line) = true -> contains PIPE line = true.
Proof.
  intros H. apply contains_true_iff. apply Claude37_round_5_rows.strip_incl.
  destruct (strip line) as [|x s]; [discriminate|]. cbn [startswith] in H.
  apply N.eqb_eq in H. subst x. now left.
Qed.

(** The repair in the style with both pipes gives a valid table. *)
Lemma fix_invalid_table_valid (lines : list str) :
  startswith PIPE (strip (hd [] lines)) = true ->
  endswith PIPE (strip (hd [] lines)) = true ->
  exists out,
    _fix_invalid_table lines = Ok out /\
    _is_valid_table out = true /\
    _process_table_block out = Ok out /\
    Forall (fun l => contains PIPE l = true) out /\ out <> [].
Proof.
  intros Hs He.
  assert (existsb (contains PIPE) lines = true) as Hex.
  { destruct lines as [|first rest]; [discriminate|]. cbn [hd] in Hs. cbn [existsb].
    now rewrite (starts_with_pipe_has_pipe _ Hs). }
  destruct (fix_invalid_table_rows lines Hex) as [m [data [_ [Hm [Hlen [E [Hl Hd]]]]]]].
  cbv zeta in E, Hlen, Hl, Hd. rewrite Hs, He in E.
  set (rows := map _parse_row (filter (contains PIPE) lines)) in *.
  set (fixed := _normalize_row (hd [] rows) m :: repeat dashes3 m :: data) in *.
  assert (forall p, In p rows -> Forall good_cell p) as Hgood.
  { intros p Hp. apply in_map_iff in Hp. destruct Hp as [l [<- _]].
    apply parse_row_cells_good. }
  assert (Forall (fun r => r <> [] /\ Forall good_cell r) fixed) as Hrows.
  { assert (forall r, In r fixed -> Forall good_cell r) as Hg.
    { intros r [<-|[<-|Hr]].
      - destruct rows as [|r0 rows'] eqn:Er; cbn [hd].
        + apply normalize_row_good; [cbn; lia | constructor].
        + apply normalize_row_good; [apply Hlen | apply Hgood]; now left.
      - apply separator_good.
      - destruct (proj1 (Forall_forall _ _) Hd r Hr) as [->|[_ [p [Hp ->]]]];
          [apply separator_good|].
        assert (In p rows) as Hp' by (destruct rows; [destruct Hp | now right]).
        apply normalize_row_good; [now apply Hlen | now apply Hgood]. }
    apply Forall_forall. intros r Hr. split; [|now apply Hg].
    pose proof (proj1 (Forall_forall _ _) Hl r Hr) as Hlr. cbv beta in Hlr.
    intros ->. cbn in Hlr. lia. }
  set (out := map (fun r => _rebuild_row r (true, true)) fixed) in *.
  assert (Forall (fun l => contains PIPE l = true) out) as Hpipes.
  { apply Forall_forall. intros l Hin. apply in_map_iff in Hin.
    destruct Hin as [r [<- _]]. apply o1_rebuild_row_pipe. now left. }
  assert (map _parse_row out = fixed) as Hparse.
  { unfold out. rewrite map_map. rewrite <- (map_id fixed) at 2.
    apply map_ext_in. intros r Hr.
    destruct (proj1 (Forall_forall _ _) Hrows r Hr) as [Hne Hg].
    now apply parse_rebuild_both. }
  assert (_is_valid_table out = true) as Hvalid.
  { unfold _is_valid_table.
    rewrite (Grok3_round_5_prose.filter_pipes_all Hpipes), Hparse.
    change (length out <? 2) with false. cbv iota. unfold fixed.
    rewrite separator_is_separator. cbn [negb].
    apply forallb_forall. intros r Hr. apply Nat.eqb_eq.
    rewrite (proj1 (Forall_forall _ _) Hl r Hr).
    symmetry. apply (proj1 (Forall_forall _ _) Hl). now left. }
  exists out. split; [exact E|]. split; [exact Hvalid|]. unfold out at 3 4.
  unfold _process_table_block, _merge_continuation_lines.
  rewrite (merge_loop_no_continuation (all_pipes_no_continuation Hpipes)).
  cbn [flush_current app]. rewrite Hvalid. split; [reflexivity|].
  split; [exact Hpipes | discriminate].
Qed.


(** X11 -- when the first line starts and ends with a pipe, what
    [_fix_invalid_table] returns is a valid table for [_is_valid_table], and
    [_process_table_block] returns it as it is: a table repaired in this
    style is not repaired again. *)
Theorem repaired_table_is_valid (lines : list str) :
  startswith PIPE (strip (hd [] lines)) = true ->
  endswith PIPE (strip (hd [] lines)) = true ->
  exists out,
    _fix_invalid_table lines = Ok out /\
    _is_valid_table out = true /\
    _process_table_block out = Ok out.
Proof.
  intros Hs He.
  destruct (fix_invalid_table_valid lines Hs He) as [out [E [Hv [Hp _]]]].
  exists out. auto.
Qed.

Lemma repaired_table_is_valid_witness :
  exists out,
    _fix_invalid_table (map of_string ["| a | b |"; "| 1 | 2 | 3 |"]%string) = Ok out /\
    _is_valid_table out = true /\
    _process_table_block out = Ok out.
Proof.
  apply repaired_table_is_valid; reflexivity.
Defined.

End O1_pro_round_5_valid.

(* ================================================================== *)
(** * Claude37_round_5: no exception, and blocks of one row *)
(* ================================================================== *)

Module Claude37_round_5_single.
Import Py Text Claude37_round_5_spec PyFacts Lines Claude37_round_5.
Import Claude37_round_5_idem.

(** ** No exception *)

Lemma fix_table_block_returns merged :
  existsb (contains PIPE) merged = true -> returns (fix_table_block merged).
Proof.
  intros H. unfold fix_table_block.
  pose proof (filter_nonempty _ _ H) as Hne.
  destruct merged as [|first rest]; [discriminate|].
  cbn [getitem nth_error bind].
  destruct (filter (contains PIPE) (first :: rest)) as [|p ps]; [congruence|].
  cbn [map truthy py_max bind getitem nth_error]. eexists. reflexivity.
Qed.

Lemma process_table_block_returns blk : returns (process_table_block blk).
Proof.
  unfold process_table_block.
  destruct (length (merge_continuation_lines blk) <? 2); [eexists; reflexivity|].
  destruct (existsb (contains PIPE) (merge_continuation_lines blk)) eqn:E;
    [|eexists; reflexivity].
  cbn [negb orb].
  destruct (is_valid_table (merge_continuation_lines blk)); [eexists; reflexivity|].
  now apply fix_table_block_returns.
Qed.

Lemma scan_block_returns lines :
  forall output tb it, returns (scan lines output tb it).
Proof.
  induction lines as [|l lines IH]; intros output tb it; cbn [scan].
  - destruct (truthy tb); [|eexists; reflexivity].
    destruct (process_table_block_returns tb) as [f ->]. eexists. reflexivity.
  - destruct (contains PIPE l); [apply IH|].
    destruct (it && truthy (strip l)); [apply IH|].
    destruct it; [|apply IH].
    destruct (process_table_block_returns tb) as [f ->]. cbn [bind]. apply IH.
Qed.

Lemma filter_none {A} (p : A -> bool) l : existsb p l = false -> filter p l = [].
Proof.
  induction l as [|x l IH]; cbn [existsb filter]; [reflexivity|].
  destruct (p x); [discriminate | exact IH].
Qed.

(** X12 -- [fix_invalid_markdown_tables] raises no exception: it returns a
    text on every input.  [fix_table_block] on its own does raise, an
    [IndexError] on lines of which none has a pipe; the test before the call
    in [process_table_block] is what keeps such lines away from it. *)
Theorem guarded_fix_never_raises (markdown_text : str) :
  (exists out, fix_invalid_markdown_tables markdown_text = Ok out) /\
  (forall merged, existsb (contains PIPE) merged = false ->
                  fix_table_block merged = Raise IndexError).
Proof.
  split.
  - unfold fix_invalid_markdown_tables, fix_lines.
    destruct (scan_block_returns (splitlines markdown_text) [] [] false) as [out ->].
    eexists. reflexivity.
  - intros merged H. unfold fix_table_block.
    destruct merged as [|first rest]; [reflexivity|].
    cbn [getitem nth_error bind]. rewrite (filter_none _ _ H). reflexivity.
Qed.

(** ** A block with one line that has a pipe *)

Lemma merge_loop_continuations run :
  Forall (fun x => continues x = true) run ->
  Forall (fun x => contains PIPE x = false) run ->
  forall merged c, exists c', merge_loop run merged (Some c) = merged ++ [c'].
Proof.
  induction run as [|x run IH]; intros Hc Hp merged c; cbn [merge_loop].
  - exists c. reflexivity.
  - inversion Hc as [|? ? Hx Hc']; subst. inversion Hp as [|? ? Hx' Hp']; subst.
    unfold continues in Hx. rewrite Hx' in *. cbn [orb] in Hx. rewrite Hx.
    apply IH; assumption.
Qed.

(** The continuation lines go into the one row, and one row is no table. *)
Lemma process_one_row l run :
  contains PIPE l = true ->
  Forall (fun x => continues x = true) run ->
  Forall (fun x => contains PIPE x = false) run ->
  process_table_block (l :: run) = Ok (l :: run).
Proof.
  intros Hl Hc Hp. unfold process_table_block, merge_continuation_lines.
  cbn [merge_loop]. rewrite Hl. cbn [flush_current].
  destruct (merge_loop_continuations Hc Hp [] (rstrip l)) as [c ->]. reflexivity.
Qed.

Lemma one_pipe_line_rest (l : str) run :
  contains PIPE l = true ->
  (length (filter (contains PIPE) (l :: run)) <=? 1) = true ->
  Forall (fun x => contains PIPE x = false) run.
Proof.
  intros Hl H. cbn [filter] in H. rewrite Hl in H. cbn [length] in H.
  apply Nat.leb_le in H.
  assert (filter (contains PIPE) run = []) as E
      by (destruct (filter (contains PIPE) run); [reflexivity | cbn in H; lia]).
  apply Forall_forall. intros x Hx. destruct (contains PIPE x) eqn:Ex; [|reflexivity].
  assert (In x (filter (contains PIPE) run)) as Hin by (apply filter_In; now split).
  rewrite E in Hin. destruct Hin.
Qed.

Lemma process_valid_block b :
  is_valid_table (merge_continuation_lines b) = true -> process_table_block b = Ok b.
Proof.
  intros H. unfold process_table_block. rewrite H. now destruct (_ || _).
Qed.

Lemma fix_lines_kept_blocks n :
  forall lines,
    length lines <= n ->
    Forall (fun b => (length (filter (contains PIPE) b) <=? 1) ||
                     is_valid_table (merge_continuation_lines b) = true)
           (table_blocks lines) ->
    fix_lines lines = Ok lines.
Proof.
  induction n as [|n IH]; intros lines Hlen Hblocks.
  - destruct lines; [reflexivity | cbn in Hlen; lia].
  - destruct lines as [|l rest]; [reflexivity|]. cbn [length] in Hlen.
    destruct (contains PIPE l) eqn:Hp.
    + rewrite table_blocks_block in Hblocks by assumption.
      inversion Hblocks as [|? ? Hone Hothers]; subst.
      rewrite fix_lines_block by assumption.
      assert (process_table_block (l :: takewhile continues rest) =
              Ok (l :: takewhile continues rest)) as ->.
      { apply orb_true_iff in Hone. destruct Hone as [Hone|Hvalid].
        - apply process_one_row;
            [assumption | apply takewhile_continues | now apply (one_pipe_line_rest l)].
        - now apply process_valid_block. }
      cbn [bind]. rewrite IH;
        [|pose proof (Claude37_round_5_twice.length_dropwhile continues rest); lia
         |assumption].
      cbn [bind app]. now rewrite takewhile_dropwhile.
    + rewrite table_blocks_plain in Hblocks by assumption.
      rewrite fix_lines_plain by assumption.
      rewrite IH; [reflexivity | lia | assumption].
Qed.

(** X13 -- verbatim preservation with wrapped cells: a text of which every
    block (a line with a pipe and the lines, not blank, that follow it) has
    at most one line with a pipe, or is a valid table once its continuation
    lines are merged into their rows, is returned line by line as it is:
    the continuation lines stay where they are written. *)
Theorem kept_blocks_verbatim (lines : list str) :
  Forall (fun b => (length (filter (contains PIPE) b) <=? 1) ||
                   is_valid_table (merge_continuation_lines b) = true)
         (table_blocks lines) ->
  fix_lines lines = Ok lines.
Proof. intros H. now apply (@fix_lines_kept_blocks (length lines)). Qed.

Lemma kept_blocks_verbatim_witness :
  fix_lines (map of_string ["| a | b |"; "|---|---|"; "| 1 | 2"; "wrapped"; "";
                            "either | or"; "goes on here"]%string) =
  Ok (map of_string ["| a | b |"; "|---|---|"; "| 1 | 2"; "wrapped"; "";
                     "either | or"; "goes on here"]%string).
Proof.
  apply kept_blocks_verbatim. apply Forall_forall, forallb_forall.
  vm_compute. reflexivity.
Defined.

End Claude37_round_5_single.

(* ================================================================== *)
(** * Claude37_round_3: no exception, a stray pipe, and the row parser *)
(* ================================================================== *)

Module Claude37_round_3_rows.
Import Py Text PyFacts Lines Claude37_round_3.

(** ** No exception *)

Lemma fix_invalid_table_returns lines : returns (fix_invalid_table lines).
Proof.
  unfold fix_invalid_table. destruct lines as [|first rest]; [eexists; reflexivity|].
  cbn [truthy negb getitem nth_error bind map py_max]. eexists. reflexivity.
Qed.

Lemma flush_returns result_lines table_block :
  returns (flush_table_block result_lines table_block).
Proof.
  unfold flush_table_block.
  destruct (negb (truthy table_block)); [eexists; reflexivity|].
  destruct (length (filter (contains PIPE) table_block) <? 2); [eexists; reflexivity|].
  destruct (is_valid_table _); [eexists; reflexivity|].
  destruct (fix_invalid_table_returns (merge_continuation_lines table_block)) as [f ->].
  eexists. reflexivity.
Qed.

Lemma scan_flush_returns lines :
  forall result_lines tb inside, returns (scan lines result_lines tb inside).
Proof.
  induction lines as [|l lines IH]; intros result_lines tb inside; cbn [scan].
  - destruct inside; [|eexists; reflexivity].
    destruct (flush_returns result_lines tb) as [st ->]. eexists. reflexivity.
  - destruct (contains PIPE l).
    + destruct (negb inside); apply IH.
    + destruct (inside && truthy (strip l)); [apply IH|].
      destruct inside; [|apply IH].
      destruct (flush_returns result_lines tb) as [st ->]. cbn [bind]. apply IH.
Qed.

(** X14 -- neither [fix_invalid_table] nor [fix_invalid_markdown_tables]
    raises an exception: each returns on every input. *)
Theorem fix_invalid_table_never_raises (markdown_text : str) (lines : list str) :
  (exists out, fix_invalid_markdown_tables markdown_text = Ok out) /\
  (exists fixed, fix_invalid_table lines = Ok fixed).
Proof.
  split; [|apply fix_invalid_table_returns].
  unfold fix_invalid_markdown_tables.
  destruct (scan_flush_returns (splitlines markdown_text) [] [] false) as [out ->].
  eexists. reflexivity.
Qed.

(** ** A stray pipe *)

Lemma flush_few_pipes result_lines tb :
  length (filter (contains PIPE) tb) <= 1 ->
  flush_table_block result_lines tb = Ok (result_lines ++ tb, tb).
Proof.
  intros H. unfold flush_table_block. destruct tb as [|t tb]; [now rewrite app_nil_r|].
  cbn [truthy negb].
  destruct (Nat.ltb_spec (length (filter (contains PIPE) (t :: tb))) 2); [reflexivity | lia].
Qed.

Lemma count_snoc (tb : list str) l :
  length (filter (contains PIPE) (tb ++ [l])) =
  length (filter (contains PIPE) tb) + (if contains PIPE l then 1 else 0).
Proof.
  rewrite filter_app, length_app. cbn [filter]. now destruct (contains PIPE l).
Qed.

Lemma scan_few_pipes lines :
  forall result_lines tb (inside : bool),
    (if inside then length (filter (contains PIPE) tb) else 0) +
    length (filter (contains PIPE) lines) <= 1 ->
    scan lines result_lines tb inside =
    Ok (result_lines ++ (if inside then tb else []) ++ lines).
Proof.
  induction lines as [|l lines IH]; intros result_lines tb inside Hcount; cbn [scan].
  - rewrite app_nil_r. destruct inside; [|now rewrite app_nil_r].
    rewrite flush_few_pipes by lia. reflexivity.
  - assert (length (filter (contains PIPE) (l :: lines)) =
            (if contains PIPE l then 1 else 0) + length (filter (contains PIPE) lines))
      as Hl by (cbn [filter]; now destruct (contains PIPE l)).
    rewrite Hl in Hcount. clear Hl.
    destruct (contains PIPE l) eqn:Hl.
    + destruct inside; cbn [negb].
      * rewrite (IH result_lines (tb ++ [l]) true).
        -- now rewrite <- !app_assoc.
        -- rewrite count_snoc, Hl. lia.
      * rewrite (IH result_lines [l] true); [reflexivity|].
        change [l] with ([] ++ [l]). rewrite count_snoc, Hl. cbn [filter length]. lia.
    + destruct inside; cbn [andb].
      * destruct (truthy (strip l)).
        -- rewrite (IH result_lines (tb ++ [l]) true).
           ++ now rewrite <- !app_assoc.
           ++ rewrite count_snoc, Hl. lia.
        -- rewrite flush_few_pipes by lia. cbn [bind fst snd].
           rewrite (IH _ tb false); [|lia]. now rewrite <- !app_assoc.
      * rewrite (IH (result_lines ++ [l]) tb false); [|exact Hcount].
        now rewrite <- !app_assoc.
Qed.

(** X15 -- a text with at most one line that has a pipe is returned line
    by line as it is: one row is no table, whatever follows it. *)
Theorem stray_pipe_kept (markdown_text : str) :
  length (filter (contains PIPE) (splitlines markdown_text)) <= 1 ->
  fix_invalid_markdown_tables markdown_text = Ok (join [LF] (splitlines markdown_text)).
Proof.
  intros H. unfold fix_invalid_markdown_tables.
  rewrite scan_few_pipes by exact H. reflexivity.
Qed.

Lemma stray_pipe_kept_witness :
  fix_invalid_markdown_tables
    (join [LF] (map of_string ["either | or"; "goes on"; ""; "the end"]%string)) =
  Ok (join [LF] (map of_string ["either | or"; "goes on"; ""; "the end"]%string)).
Proof.
  apply (@stray_pipe_kept
           (join [LF] (map of_string ["either | or"; "goes on"; ""; "the end"]%string))).
  vm_compute. lia.
Defined.

(** ** The row parser *)

Lemma strip_decompose s :
  exists l r, s = l ++ strip s ++ r /\
              forallb isspace l = true /\ forallb isspace r = true.
Proof.
  destruct (rstrip_suffix_spaces s) as [w [E Hw]].
  exists (takewhile isspace (rstrip s)), w. split; [|split; [apply takewhile_all | exact Hw]].
  unfold strip, lstrip. rewrite app_assoc, takewhile_dropwhile. exact E.
Qed.

Lemma strip_spaces_left l p : forallb isspace l = true -> strip (l ++ p) = strip p.
Proof.
  intros Hl. destruct (strip_decompose p) as [l' [r' [E [Hl' Hr']]]].
  rewrite E at 1. rewrite app_assoc.
  apply O1_pro_round_5_cells.strip_spaces_around;
    [apply strip_is_trimmed | now rewrite forallb_app, Hl, Hl' | exact Hr'].
Qed.

Lemma strip_spaces_right p r : forallb isspace r = true -> strip (p ++ r) = strip p.
Proof.
  intros Hr. destruct (strip_decompose p) as [l' [r' [E [Hl' Hr']]]].
  rewrite E at 1. rewrite <- !app_assoc.
  apply O1_pro_round_5_cells.strip_spaces_around;
    [apply strip_is_trimmed | exact Hl' | now rewrite forallb_app, Hr', Hr].
Qed.

Lemma split_prefix sep l t :
  contains sep l = false ->
  split sep (l ++ t) = (l ++ hd [] (split sep t)) :: tl (split sep t).
Proof.
  induction l as [|c l IH]; intros H.
  - cbn [app]. pose proof (Grok3_round_5_prose.split_not_nil sep t).
    now destruct (split sep t).
  - unfold contains in H. cbn [existsb] in H. apply orb_false_iff in H.
    destruct H as [Hc Hl]. cbn [app split]. rewrite N.eqb_sym, Hc, (IH Hl). reflexivity.
Qed.

Lemma split_snoc_sep sep a : split sep (a ++ [sep]) = split sep a ++ [[]].
Proof.
  induction a as [|c a IH]; cbn [app split].
  - now rewrite N.eqb_refl.
  - rewrite IH. destruct (N.eqb c sep); [reflexivity|].
    pose proof (Grok3_round_5_prose.split_not_nil sep a).
    now destruct (split sep a).
Qed.

Lemma split_suffix sep t r :
  contains sep r = false ->
  split sep (t ++ r) =
  removelast (split sep t) ++ [last (split sep t) [] ++ r].
Proof.
  intros Hr. induction t as [|c t IH]; cbn [app split].
  - now apply Claude37_round_5_rows.split_no_sep.
  - rewrite IH. pose proof (Grok3_round_5_prose.split_not_nil sep t) as Hne.
    destruct (split sep t) as [|p ps]; [congruence|].
    destruct (N.eqb c sep); [reflexivity|].
    destruct ps as [|q ps]; reflexivity.
Qed.

Lemma map_removelast {A B} (f : A -> B) l : removelast (map f l) = map f (removelast l).
Proof.
  induction l as [|x l IH]; [reflexivity|]. destruct l as [|y l]; [reflexivity|].
  cbn [map removelast] in *. now rewrite IH.
Qed.

Lemma map_tl {A B} (f : A -> B) l : tl (map f l) = map f (tl l).
Proof. now destruct l. Qed.

(** The cells of a line are those of the stripped line. *)
Lemma split_strip_cells line :
  map strip (split PIPE line) = map strip (split PIPE (strip line)).
Proof.
  destruct (strip_decompose line) as [l [r [E [Hl Hr]]]].
  rewrite E at 1.
  rewrite split_prefix by now apply O1_pro_round_5_cells.spaces_no_pipe.
  rewrite split_suffix by now apply O1_pro_round_5_cells.spaces_no_pipe.
  pose proof (Grok3_round_5_prose.split_not_nil PIPE (strip line)) as Hne.
  destruct (exists_last Hne) as [P [q EP]]. rewrite EP.
  rewrite removelast_last, last_last.
  destruct P as [|p ps]; cbn [app hd tl map].
  - now rewrite strip_spaces_left, strip_spaces_right.
  - rewrite strip_spaces_left by assumption. f_equal.
    rewrite !map_app. cbn [map]. now rewrite strip_spaces_right.
Qed.

Lemma endswith_last_pipe c s :
  endswith c s = true -> exists s0, s = s0 ++ [c].
Proof.
  unfold endswith. intros H. destruct (rev s) as [|x t] eqn:E; [discriminate|].
  cbn [startswith] in H. apply N.eqb_eq in H. subst x.
  exists (rev t). rewrite <- (rev_involutive s), E. reflexivity.
Qed.

(** X16 -- [parse_table_row] splits the line as it is and decides on the
    stripped line which ends to drop; [O1_pro_round_5._parse_row] strips
    first.  The two give the same cells on every line but one that is a
    lone pipe: there [parse_table_row] gives no cell at all, and the round 5
    parser one empty cell. *)
Theorem parse_table_row_agrees (line : str) :
  parse_table_row line =
  (if (length (strip line) =? 1) && startswith PIPE (strip line) then []
   else O1_pro_round_5._parse_row line) /\
  O1_pro_round_5._parse_row line <> [].
Proof.
  split.
  2:{ pose proof (O1_pro_round_5_repair.parse_row_nonempty line) as H.
      intros E. rewrite E in H. cbn in H. lia. }
  unfold parse_table_row, O1_pro_round_5._parse_row.
  set (s := strip line).
  assert (map strip
            ((if endswith PIPE s then @removelast str else fun x => x)
               ((if startswith PIPE s then @tl str else fun x => x) (split PIPE line))) =
          map strip
            ((if endswith PIPE s then @removelast str else fun x => x)
               ((if startswith PIPE s then @tl str else fun x => x) (split PIPE s))))
    as Hcells.
  { destruct (endswith PIPE s), (startswith PIPE s);
      rewrite <- ?map_removelast, <- ?map_tl; unfold s; now rewrite split_strip_cells. }
  destruct (startswith PIPE s) eqn:Hs, (endswith PIPE s) eqn:He;
    cbv iota beta in Hcells |- *; rewrite ?andb_true_r, ?andb_false_r.
  - (* | ... | *)
    rewrite Hcells. destruct s as [|x s']; [discriminate|].
    cbn [startswith] in Hs. apply N.eqb_eq in Hs. subst x. cbn [length tl split].
    rewrite N.eqb_refl. cbn [tl]. destruct s' as [|y s'].
    + reflexivity.
    + cbn [length Nat.eqb].
      rewrite (@endswith_cons PIPE PIPE (y :: s')) in He by discriminate.
      destruct (endswith_last_pipe _ _ He) as [s0 ->].
      now rewrite split_snoc_sep, !Claude37_round_5_rows.removelast_snoc.
  - (* | ... *)
    rewrite Hcells. destruct s as [|x s']; [discriminate|].
    cbn [startswith] in Hs. apply N.eqb_eq in Hs. subst x. cbn [length tl split].
    rewrite N.eqb_refl. cbn [tl]. destruct s' as [|y s']; [discriminate|]. reflexivity.
  - (* ... | *)
    rewrite Hcells. destruct (endswith_last_pipe _ _ He) as [s0 ->].
    now rewrite split_snoc_sep, !Claude37_round_5_rows.removelast_snoc.
  - exact Hcells.
Qed.

End Claude37_round_3_rows.

(* ================================================================== *)
(** * Grok3_round_1: a rebuilt table read again *)
(* ================================================================== *)

Module Grok3_round_1_rebuilt.
Import Py Text Claude37_round_5_spec PyFacts Lines Grok3_round_1.

Lemma split_row_good row : Forall good_cell (split_row row).
Proof.
  unfold split_row. apply Forall_forall. intros c Hc. apply in_map_iff in Hc.
  destruct Hc as [p [<- Hp]]. eapply Claude37_round_5_rows.strip_piece_good. exact Hp.
Qed.

Lemma split_row_nonempty row : 1 <= length (split_row row).
Proof.
  unfold split_row. rewrite length_map.
  pose proof (Grok3_round_5_prose.split_not_nil PIPE row).
  destruct (split PIPE row); [congruence | cbn; lia].
Qed.

Lemma pad_width cells n : length cells <= n -> length (pad cells n) = n.
Proof.
  intros H. unfold pad. destruct (Nat.ltb_spec (length cells) n).
  - rewrite length_app, repeat_length. lia.
  - lia.
Qed.

Lemma pad_good cells n : Forall good_cell cells -> Forall good_cell (pad cells n).
Proof.
  intros H. unfold pad. destruct (length cells <? n); [|exact H].
  apply Forall_app. split; [exact H|]. apply Forall_forall. intros c Hc.
  apply repeat_spec in Hc. subst c. apply Claude37_round_5_rows.good_cell_nil.
Qed.

Lemma pad_same cells : pad cells (length cells) = cells.
Proof. unfold pad. now rewrite Nat.ltb_irrefl. Qed.

Lemma pipe_row_has_pipe cells : contains PIPE (pipe_row cells) = true.
Proof. reflexivity. Qed.

(** A rebuilt row is read with an empty cell before and after its cells. *)
Lemma split_row_pipe_row cells :
  cells <> [] -> Forall good_cell cells ->
  split_row (pipe_row cells) = [] :: cells ++ [[]].
Proof.
  intros Hne Hgood. unfold split_row, pipe_row.
  change ([PIPE; SPACE] ++ join [SPACE; PIPE; SPACE] cells ++ [SPACE; PIPE])
    with (PIPE :: SPACE :: join Claude37_round_5.cell_sep cells ++ [SPACE; PIPE]).
  replace (SPACE :: join Claude37_round_5.cell_sep cells ++ [SPACE; PIPE])
    with ((SPACE :: join Claude37_round_5.cell_sep cells ++ [SPACE]) ++ [PIPE])
    by (cbn [app]; now rewrite <- app_assoc).
  cbn [split]. rewrite N.eqb_refl.
  rewrite Claude37_round_3_rows.split_snoc_sep.
  rewrite (Claude37_round_5_rows.split_padded_join Hne Hgood).
  cbn [map]. rewrite map_app, map_map. cbn [map]. rewrite strip_nil. f_equal. f_equal.
  rewrite <- (map_id cells) at 2. apply map_ext_in. intros c Hc.
  apply Claude37_round_5_rows.strip_padded.
  exact (proj1 (proj1 (Forall_forall _ _) Hgood c Hc)).
Qed.

Lemma fold_max_same n l :
  Forall (fun x => x = n) l -> fold_left Nat.max l n = n.
Proof.
  induction 1 as [|x l Hx _ IH]; cbn [fold_left]; [reflexivity|].
  subst x. now rewrite Nat.max_id.
Qed.

Lemma fix_block_rows first rest :
  3 <= length (filter (contains PIPE) (first :: rest)) ->
  let n := fold_left Nat.max (map (@length str) (map split_row rest))
                     (length (split_row first)) in
  fix_block (first :: rest) =
  Ok (map pipe_row (pad (split_row first) n :: repeat dashes3 n ::
                    map (fun l => pad (split_row l) n) rest)).
Proof.
  intros H n. unfold fix_block.
  destruct (Nat.ltb_spec (length (filter (contains PIPE) (first :: rest))) 3); [lia|].
  cbn [map py_max bind getitem nth_error tl]. fold n. now rewrite map_map.
Qed.

(** The second pass over rows that are read two cells wider. *)
Lemma fix_block_again n r0 (rs : list (list str)) :
  2 <= length rs ->
  Forall (fun r => length r = n /\ split_row (pipe_row r) = [] :: r ++ [[]]) (r0 :: rs) ->
  fix_block (map pipe_row (r0 :: rs)) =
  Ok (map pipe_row (([] :: r0 ++ [[]]) :: repeat dashes3 (n + 2) ::
                    map (fun r => [] :: r ++ [[]]) rs)).
Proof.
  intros Hlen Hread. cbn [map].
  assert (forall r, In r (r0 :: rs) -> split_row (pipe_row r) = [] :: r ++ [[]]) as Hsplit.
  { intros r Hr. exact (proj2 (proj1 (Forall_forall _ _) Hread r Hr)). }
  assert (forall r, In r (r0 :: rs) -> length ([] :: r ++ [[]]) = n + 2) as Hwide.
  { intros r Hr. cbn [length]. rewrite length_app.
    rewrite (proj1 (proj1 (Forall_forall _ _) Hread r Hr)). cbn [length]. lia. }
  rewrite fix_block_rows.
  2:{ change (pipe_row r0 :: map pipe_row rs) with (map pipe_row (r0 :: rs)).
      rewrite Grok3_round_5_prose.filter_pipes_all.
      - rewrite length_map. cbn [length]. lia.
      - apply Forall_forall. intros l Hl. apply in_map_iff in Hl.
        destruct Hl as [r [<- _]]. apply pipe_row_has_pipe. }
  cbv zeta.
  assert (fold_left Nat.max (map (@length str) (map split_row (map pipe_row rs)))
                    (length (split_row (pipe_row r0))) = n + 2) as ->.
  { rewrite (Hsplit r0 (or_introl eq_refl)), (Hwide r0 (or_introl eq_refl)).
    apply fold_max_same. apply Forall_forall. intros x Hx.
    rewrite !map_map in Hx. apply in_map_iff in Hx. destruct Hx as [r [<- Hr]].
    rewrite (Hsplit r (or_intror Hr)). apply Hwide. now right. }
  assert (forall r, In r (r0 :: rs) ->
            pad (split_row (pipe_row r)) (n + 2) = [] :: r ++ [[]]) as Hpad.
  { intros r Hr. rewrite (Hsplit r Hr), <- (Hwide r Hr). apply pad_same. }
  rewrite (Hpad r0 (or_introl eq_refl)). cbn [map]. do 3 f_equal.
  rewrite !map_map. apply map_ext_in. intros r Hr. f_equal. apply Hpad. now right.
Qed.

(** X17 -- a block with three or more lines that have a pipe is always
    rebuilt, with one line more: a header, a separator and the other lines,
    each of [n] cells between a leading and a trailing pipe.  Reading such a
    row again gives an empty cell before and after its cells, so the rebuilt
    block, rebuilt once more, has [n + 2] columns and a second separator:
    the repair is not idempotent on any table. *)
Theorem rebuilt_block_widens (block : list str) :
  3 <= length (filter (contains PIPE) block) ->
  exists n rows,
    1 <= n /\
    fix_block block = Ok (map pipe_row rows) /\
    length rows = S (length block) /\
    Forall (fun r => length r = n /\ split_row (pipe_row r) = [] :: r ++ [[]]) rows /\
    fix_block (map pipe_row rows) =
    Ok (map pipe_row (([] :: hd [] rows ++ [[]]) :: repeat dashes3 (n + 2) ::
                      map (fun r => [] :: r ++ [[]]) (tl rows))).
Proof.
  intros H. destruct block as [|first rest]; [cbn in H; lia|].
  pose proof (fix_block_rows first rest H) as E. cbv zeta in E.
  set (n := fold_left Nat.max (map (@length str) (map split_row rest))
                      (length (split_row first))) in *.
  destruct (Grok3_round_5_prose.fold_max_bounds
              (map (@length str) (map split_row rest)) (length (split_row first)))
    as [Hfirst Hrest]. fold n in Hfirst, Hrest.
  assert (1 <= n) as Hn by (pose proof (split_row_nonempty first); lia).
  set (rows := pad (split_row first) n :: repeat dashes3 n ::
               map (fun l => pad (split_row l) n) rest) in *.
  assert (Forall (fun r => length r = n /\ Forall good_cell r) rows) as Hrows.
  { constructor; [split; [now apply pad_width | apply pad_good, split_row_good]|].
    constructor; [split; [apply repeat_length | apply O1_pro_round_5_valid.separator_good]|].
    apply Forall_forall. intros r Hr. apply in_map_iff in Hr. destruct Hr as [l [<- Hl]].
    split; [|apply pad_good, split_row_good].
    apply pad_width, Hrest. now apply in_map, in_map. }
  assert (Forall (fun r => length r = n /\ split_row (pipe_row r) = [] :: r ++ [[]]) rows)
    as Hread.
  { eapply Forall_impl; [|exact Hrows]. intros r [Hlen Hg]. split; [exact Hlen|].
    apply split_row_pipe_row; [|exact Hg]. intros ->. cbn in Hlen. lia. }
  exists n, rows. split; [exact Hn|]. split; [exact E|].
  split; [unfold rows; cbn [length]; now rewrite length_map|]. split; [exact Hread|].
  unfold rows at 2 3. cbn [hd tl]. apply (fix_block_again (n := n)); [|exact Hread].
  cbn [length]. rewrite length_map.
  pose proof (filter_length_le (contains PIPE) (first :: rest)) as Hle.
  cbn [length] in Hle. lia.
Qed.

Lemma rebuilt_block_widens_witness :
  exists n rows,
    1 <= n /\
    fix_block (map of_string ["| a | b |"; "| --- | --- |"; "| 1 | 2 |"]%string) =
    Ok (map pipe_row rows) /\
    length rows = 4 /\
    Forall (fun r => length r = n /\ split_row (pipe_row r) = [] :: r ++ [[]]) rows /\
    fix_block (map pipe_row rows) =
    Ok (map pipe_row (([] :: hd [] rows ++ [[]]) :: repeat dashes3 (n + 2) ::
                      map (fun r => [] :: r ++ [[]]) (tl rows))).
Proof.
  apply (@rebuilt_block_widens
           (map of_string ["| a | b |"; "| --- | --- |"; "| 1 | 2 |"]%string)).
  vm_compute. lia.
Defined.

End Grok3_round_1_rebuilt.

(* ================================================================== *)
(** * Claude37_round_1: the blocks of a text *)
(* ================================================================== *)

Module Claude37_round_1_blocks.
Import Py Text PyFacts Lines Claude37_round_1 Claude37_round_1_total.

(** ** A text without a pipe or without a hyphen *)

Lemma re_split_blank_chars s :
  forall skip b c, In b (re_split_blank skip s) -> In c b -> In c s.
Proof.
  induction s as [|x s IH]; intros skip b c Hb Hc; cbn [re_split_blank] in Hb.
  - destruct Hb as [<-|[]]. destruct Hc.
  - destruct skip as [|k].
    + destruct (blank_match (x :: s)) as [m|].
      * destruct Hb as [<-|Hb]; [destruct Hc|]. right. eapply IH; eassumption.
      * apply in_cons_first in Hb. destruct Hb as [->|[[l' [-> Hl']]|Hb]].
        -- destruct Hc as [<-|[]]. now left.
        -- destruct Hc as [<-|Hc]; [now left|]. right. eapply IH; eassumption.
        -- right. eapply IH; eassumption.
    + right. eapply IH; eassumption.
Qed.

Lemma looks_like_table_chars block :
  looks_like_table block = true ->
  contains PIPE block = true /\ contains DASH block = true.
Proof.
  unfold looks_like_table. intros H. apply andb_true_iff in H. destruct H as [Hp Hd].
  split; [exact Hp|]. apply existsb_exists in Hd. destruct Hd as [l [Hl Hdash]].
  apply filter_In in Hl. destruct Hl as [Hl _]. unfold search_dashes in Hdash.
  apply contains_true_iff in Hdash. apply contains_true_iff.
  exact (proj1 (Claude37_round_5_rows.split_pieces_chars _ _ _ _ Hl Hdash)).
Qed.

Lemma plain_blocks_loop blocks :
  Forall (fun b => looks_like_table b = false) blocks ->
  forall acc,
    for_loop (fun fixed_blocks block =>
                if looks_like_table block then
                  fixed_block <- fix_table block ;;
                  Ok (fixed_blocks ++ [fixed_block])
                else Ok (fixed_blocks ++ [block]))
             blocks acc = Ok (acc ++ blocks).
Proof.
  induction 1 as [|b blocks Hb _ IH]; intros acc; cbn [for_loop].
  - now rewrite app_nil_r.
  - rewrite Hb. cbn [bind]. rewrite IH. now rewrite <- app_assoc.
Qed.

(** X18 -- a text in which no pipe or no hyphen occurs has no block that
    looks like a table: its blocks come back as they are, joined by one
    empty line (whatever white space stood between them). *)
Theorem text_without_table_kept (markdown_text : str) :
  contains PIPE markdown_text && contains DASH markdown_text = false ->
  fix_invalid_markdown_tables markdown_text =
  Ok (join [LF; LF] (re_split_blank 0 markdown_text)).
Proof.
  intros H. unfold fix_invalid_markdown_tables.
  rewrite plain_blocks_loop; [reflexivity|].
  apply Forall_forall. intros b Hb.
  destruct (looks_like_table b) eqn:E; [|reflexivity].
  destruct (looks_like_table_chars _ E) as [Hp Hd].
  apply contains_true_iff in Hp, Hd.
  assert (contains PIPE markdown_text = true) as Hp'
      by (apply contains_true_iff; eapply re_split_blank_chars; eassumption).
  assert (contains DASH markdown_text = true) as Hd'
      by (apply contains_true_iff; eapply re_split_blank_chars; eassumption).
  rewrite Hp', Hd' in H. discriminate.
Qed.

Lemma text_without_table_kept_witness :
  fix_invalid_markdown_tables
    (join [LF] (map of_string ["a | b"; "  "; ""; "the end"]%string)) =
  Ok (join [LF; LF] (map of_string ["a | b"; "the end"]%string)).
Proof.
  apply (@text_without_table_kept
           (join [LF] (map of_string ["a | b"; "  "; ""; "the end"]%string))).
  vm_compute. reflexivity.
Defined.

End Claude37_round_1_blocks.

(* ================================================================== *)
(** * O1_pro_round_5: the blocks of a document, and repairing twice *)
(* ================================================================== *)

Module O1_pro_round_5_document.
Import Py Text Claude37_round_5_spec PyFacts Lines O1_pro_round_5.
Import O1_pro_round_5_repair O1_pro_round_5_text O1_pro_round_5_valid.

(** ** The loop, block by block *)

Lemma o1_scan_out lines :
  forall a out tb it,
    scan lines (a ++ out) tb it = (r <- scan lines out tb it ;; Ok (a ++ r)).
Proof.
  induction lines as [|l lines IH]; intros a out tb it; cbn [scan].
  - destruct (truthy tb); [|reflexivity].
    destruct (_process_table_block tb); cbn [bind]; [|reflexivity].
    now rewrite app_assoc.
  - destruct (contains PIPE l); [apply IH|].
    destruct it.
    + destruct (_process_table_block tb); cbn [bind]; [|reflexivity].
      rewrite <- IH. now rewrite !app_assoc.
    + rewrite <- IH. now rewrite app_assoc.
Qed.

Lemma o1_fix_plain l rest :
  contains PIPE l = false ->
  scan (l :: rest) [] [] false = (r <- scan rest [] [] false ;; Ok (l :: r)).
Proof.
  intros H. cbn [scan]. rewrite H. cbn [app].
  change [l] with ([l] ++ []). now rewrite o1_scan_out.
Qed.

Lemma o1_scan_run run :
  Forall (fun l => contains PIPE l = true) run ->
  forall rest out tb,
    scan (run ++ rest) out tb true = scan rest out (tb ++ run) true.
Proof.
  induction 1 as [|l run Hl _ IH]; intros rest out tb; cbn [app scan].
  - now rewrite app_nil_r.
  - rewrite Hl, IH. now rewrite <- app_assoc.
Qed.

Lemma takewhile_pipes rest :
  Forall (fun l => contains PIPE l = true) (takewhile (contains PIPE) rest).
Proof.
  apply Forall_forall. intros x Hx.
  exact (proj1 (forallb_forall _ _) (takewhile_all (contains PIPE) rest) x Hx).
Qed.

(** A line with a pipe opens a block: the run of lines with a pipe. *)
Lemma o1_fix_block l rest :
  contains PIPE l = true ->
  scan (l :: rest) [] [] false =
  (f <- _process_table_block (l :: takewhile (contains PIPE) rest) ;;
   match dropwhile (contains PIPE) rest with
   | [] => Ok f
   | d :: rest' => r <- scan rest' [] [] false ;; Ok (f ++ d :: r)
   end).
Proof.
  intros Hl. cbn [scan]. rewrite Hl. cbn [app].
  rewrite <- (takewhile_dropwhile (contains PIPE) rest) at 1.
  rewrite (o1_scan_run (takewhile_pipes rest)). cbn [app].
  destruct (dropwhile (contains PIPE) rest) as [|d rest'] eqn:Ed; cbn [scan truthy].
  - destruct (_process_table_block _); reflexivity.
  - rewrite (dropwhile_head _ _ Ed).
    destruct (_process_table_block _) as [f|]; cbn [bind app]; [|reflexivity].
    rewrite <- (app_nil_r (f ++ [d])), o1_scan_out.
    destruct (scan rest' [] [] false); cbn [bind]; [|reflexivity].
    now rewrite <- app_assoc.
Qed.

Lemma span_pipes_run run rest :
  Forall (fun x => contains PIPE x = true) run ->
  match rest with [] => True | d :: _ => contains PIPE d = false end ->
  takewhile (contains PIPE) (run ++ rest) = run /\
  dropwhile (contains PIPE) (run ++ rest) = rest.
Proof.
  intros Hrun Hend.
  assert (forallb (contains PIPE) run = true) as Hb.
  { apply forallb_forall. rewrite Forall_forall in Hrun. auto. }
  destruct rest as [|d rest].
  - rewrite app_nil_r. split; [now apply takewhile_all_id | now apply dropwhile_all].
  - split; [now apply takewhile_app_stop | now apply dropwhile_app_stop].
Qed.

(** The lines after a line without a pipe are repaired on their own. *)
Lemma o1_scan_split pre q rest :
  contains PIPE q = false ->
  forall out tb (it : bool),
    (it = false -> tb = []) ->
    scan (pre ++ q :: rest) out tb it =
    (a <- scan (pre ++ [q]) out tb it ;;
     r <- scan rest [] [] false ;; Ok (a ++ r)).
Proof.
  intros Hq. induction pre as [|p pre IH]; intros out tb it Hst; cbn [app scan].
  - rewrite Hq. destruct it.
    + destruct (_process_table_block tb) as [f|]; cbn [bind scan truthy]; [|reflexivity].
      rewrite <- (app_nil_r ((out ++ f) ++ [q])) at 1. now rewrite o1_scan_out.
    + rewrite (Hst eq_refl). cbn [scan truthy bind].
      rewrite <- (app_nil_r (out ++ [q])) at 1. now rewrite o1_scan_out.
  - destruct (contains PIPE p); [apply IH; discriminate|].
    destruct it.
    + destruct (_process_table_block tb) as [f|]; cbn [bind]; [|reflexivity].
      now apply IH.
    + apply IH. intros _. now apply Hst.
Qed.

(** X19 -- verbatim preservation: a maximal run [blk] of lines with a pipe
    (the line before it and the line after it, if any, have none) that is a
    valid table is emitted as it is, between what the lines before it and
    the lines after it become. *)
Theorem o1_valid_block_verbatim (pre blk post : list str) :
  blk <> [] ->
  Forall (fun l => contains PIPE l = true) blk ->
  contains PIPE (last pre []) = false ->
  contains PIPE (hd [] post) = false ->
  _is_valid_table (_merge_continuation_lines blk) = true ->
  exists out_pre out_post,
    scan pre [] [] false = Ok out_pre /\ scan post [] [] false = Ok out_post /\
    scan (pre ++ blk ++ post) [] [] false = Ok (out_pre ++ blk ++ out_post) /\
    forall text, splitlines text = pre ++ blk ++ post ->
                 fix_invalid_markdown_tables text =
                 Ok (join [LF] (out_pre ++ blk ++ out_post)).
Proof.
  intros Hne Hpipe Hpre Hpost Hvalid.
  assert (_process_table_block blk = Ok blk) as Hproc
      by (unfold _process_table_block; now rewrite Hvalid).
  destruct (scan_returns pre [] [] false) as [out_pre Epre].
  destruct (scan_returns post [] [] false) as [out_post Epost].
  exists out_pre, out_post.
  assert (scan (blk ++ post) [] [] false = Ok (blk ++ out_post)) as Hblk.
  { destruct blk as [|b blk']; [congruence|]. inversion Hpipe as [|? ? Hb Hrest]; subst.
    cbn [app]. rewrite o1_fix_block by assumption.
    assert (match post with [] => True | d :: _ => contains PIPE d = false end) as Hend
        by (destruct post; [exact I | exact Hpost]).
    destruct (@span_pipes_run blk' post Hrest Hend) as [-> ->].
    rewrite Hproc. cbn [bind]. destruct post as [|d post'].
    - cbn in Epost. injection Epost as <-. now rewrite !app_nil_r.
    - cbn [hd] in Hpost. rewrite o1_fix_plain in Epost by assumption.
      destruct (scan post' [] [] false) as [r|]; cbn [bind] in Epost |- *;
        [|discriminate].
      injection Epost as <-. reflexivity. }
  assert (scan (pre ++ blk ++ post) [] [] false = Ok (out_pre ++ blk ++ out_post)) as Hall.
  { destruct pre as [|p pre']; [cbn in Epre; injection Epre as <-; exact Hblk|].
    destruct (@exists_last _ (p :: pre') ltac:(discriminate)) as [pre0 [q Eq]].
    rewrite Eq in *. rewrite last_last in Hpre. rewrite <- app_assoc. cbn [app].
    rewrite o1_scan_split by (assumption || reflexivity).
    rewrite Epre. cbn [bind]. rewrite Hblk. reflexivity. }
  repeat split; try assumption.
  intros text Etext. unfold fix_invalid_markdown_tables. now rewrite Etext, Hall.
Qed.

Lemma o1_valid_block_verbatim_witness :
  let pre := map of_string ["Title"; ""]%string in
  let blk := map of_string ["| a | b |"; "|---|---|"; "| 1 | 2 |"]%string in
  let post := map of_string [""; "x|y"; "1|2|3"]%string in
  exists out_pre out_post,
    scan pre [] [] false = Ok out_pre /\ scan post [] [] false = Ok out_post /\
    scan (pre ++ blk ++ post) [] [] false = Ok (out_pre ++ blk ++ out_post) /\
    forall text, splitlines text = pre ++ blk ++ post ->
                 fix_invalid_markdown_tables text =
                 Ok (join [LF] (out_pre ++ blk ++ out_post)).
Proof.
  apply (@o1_valid_block_verbatim
           (map of_string ["Title"; ""]%string)
           (map of_string ["| a | b |"; "|---|---|"; "| 1 | 2 |"]%string)
           (map of_string [""; "x|y"; "1|2|3"]%string)).
  - discriminate.
  - repeat constructor.
  - reflexivity.
  - reflexivity.
  - vm_compute. reflexivity.
Defined.

(** ** No line break comes in *)

Lemma parse_row_no_linebreak line :
  no_linebreak line = true ->
  Forall (fun c => no_linebreak c = true) (_parse_row line).
Proof.
  intros H. destruct (contains PIPE line) eqn:Hp.
  - rewrite <- (Round_5_parsers.claude_o1_parse_row _ Hp).
    now apply Claude37_round_5_repaired.no_linebreak_parse_row.
  - unfold _parse_row.
    assert (startswith PIPE (strip line) = false) as ->.
    { destruct (startswith PIPE (strip line)) eqn:E; [|reflexivity].
      rewrite (starts_with_pipe_has_pipe _ E) in Hp. discriminate. }
    assert (contains PIPE (strip line) = false) as Hs
        by now rewrite Grok3_round_5_prose.strip_pipe.
    assert (endswith PIPE (strip line) = false) as ->.
    { destruct (endswith PIPE (strip line)) eqn:E; [|reflexivity].
      destruct (Claude37_round_3_rows.endswith_last_pipe _ _ E) as [s0 E0].
      rewrite E0, contains_app in Hs. cbn in Hs. now rewrite orb_true_r in Hs. }
    rewrite Claude37_round_5_rows.split_no_sep by assumption.
    cbn [map]. constructor; [|constructor]. rewrite strip_idem.
    eapply Claude37_round_5_repaired.no_linebreak_incl; [|exact H].
    intros c. apply Claude37_round_5_rows.strip_incl.
Qed.

Lemma rebuild_row_no_linebreak cells style :
  Forall (fun c => no_linebreak c = true) cells ->
  no_linebreak (_rebuild_row cells style) = true.
Proof.
  intros H. unfold _rebuild_row.
  assert (no_linebreak (join cell_sep cells) = true) as Hj
      by now apply Claude37_round_5_repaired.no_linebreak_join.
  destruct (fst style), (snd style);
    rewrite ?Claude37_round_5_repaired.no_linebreak_app, ?Hj; reflexivity.
Qed.

Lemma normalize_row_no_linebreak r m :
  length r <= m -> Forall (fun c => no_linebreak c = true) r ->
  Forall (fun c => no_linebreak c = true) (_normalize_row r m).
Proof.
  intros Hlen Hr. unfold _normalize_row.
  destruct (Nat.ltb_spec (length r) m).
  - apply Forall_app. split; [exact Hr|]. apply Forall_forall. intros c Hc.
    apply repeat_spec in Hc. now subst c.
  - destruct (Nat.ltb_spec m (length r)); [lia | exact Hr].
Qed.

Lemma fix_invalid_table_no_linebreak lines out :
  Forall (fun l => no_linebreak l = true) lines ->
  _fix_invalid_table lines = Ok out ->
  Forall (fun l => no_linebreak l = true) out.
Proof.
  intros Hnl E. destruct (existsb (contains PIPE) lines) eqn:Hex.
  - destruct (fix_invalid_table_rows lines Hex) as [m [data [_ [Hm [Hlen [E' [_ Hd]]]]]]].
    cbv zeta in E', Hlen, Hd. rewrite E' in E. injection E as <-.
    set (rows := map _parse_row (filter (contains PIPE) lines)) in *.
    assert (forall p, In p rows -> Forall (fun c => no_linebreak c = true) p) as Hrows.
    { intros p Hp. apply in_map_iff in Hp. destruct Hp as [l [<- Hl]].
      apply filter_In in Hl. apply parse_row_no_linebreak.
      exact (proj1 (Forall_forall _ _) Hnl l (proj1 Hl)). }
    assert (Forall (fun c => no_linebreak c = true) (repeat dashes3 m)) as Hsep.
    { apply Forall_forall. intros c Hc. apply repeat_spec in Hc. now subst c. }
    assert (Forall (fun c => no_linebreak c = true) (_normalize_row (hd [] rows) m))
      as Hhead.
    { destruct rows as [|r0 rows'] eqn:Er; cbn [hd].
      - apply normalize_row_no_linebreak; [cbn; lia | constructor].
      - apply normalize_row_no_linebreak; [apply Hlen | apply Hrows]; now left. }
    constructor; [now apply rebuild_row_no_linebreak|].
    constructor; [now apply rebuild_row_no_linebreak|].
    apply Forall_forall. intros l Hl. apply in_map_iff in Hl.
    destruct Hl as [r [<- Hr]]. apply rebuild_row_no_linebreak.
    destruct (proj1 (Forall_forall _ _) Hd r Hr) as [->|[_ [p [Hp ->]]]];
      [exact Hsep|].
    assert (In p rows) as Hp' by (destruct rows; [destruct Hp | now right]).
    apply normalize_row_no_linebreak; [now apply Hlen | now apply Hrows].
  - unfold _fix_invalid_table in E.
    rewrite (Claude37_round_5_single.filter_none _ _ Hex) in E. cbn in E.
    injection E as <-. exact Hnl.
Qed.

(** ** A block, twice *)

Lemma o1_process_twice l run :
  contains PIPE l = true ->
  Forall (fun x => contains PIPE x = true) run ->
  startswith PIPE (strip l) && endswith PIPE (strip l) = true ->
  Forall (fun x => no_linebreak x = true) (l :: run) ->
  exists f1 ft,
    _process_table_block (l :: run) = Ok (f1 :: ft) /\
    _process_table_block (f1 :: ft) = Ok (f1 :: ft) /\
    Forall (fun x => contains PIPE x = true) (f1 :: ft) /\
    Forall (fun x => no_linebreak x = true) (f1 :: ft).
Proof.
  intros Hl Hrun Hboth Hnl. apply andb_true_iff in Hboth. destruct Hboth as [Hs He].
  assert (Forall (fun x => contains PIPE x = true) (l :: run)) as Hpipes
      by now constructor.
  unfold _process_table_block at 1. unfold _merge_continuation_lines.
  rewrite (merge_loop_no_continuation (all_pipes_no_continuation Hpipes)).
  cbn [flush_current app].
  destruct (_is_valid_table (l :: run)) eqn:V.
  - exists l, run. split; [reflexivity|]. split; [|split; assumption].
    unfold _process_table_block, _merge_continuation_lines.
    rewrite (merge_loop_no_continuation (all_pipes_no_continuation Hpipes)).
    cbn [flush_current app]. now rewrite V.
  - destruct (fix_invalid_table_valid (l :: run) Hs He)
      as [out [E [_ [Hagain [Hp Hne]]]]].
    destruct out as [|f1 ft]; [congruence|].
    exists f1, ft. split; [exact E|]. split; [exact Hagain|]. split; [exact Hp|].
    exact (fix_invalid_table_no_linebreak Hnl E).
Qed.

Lemma pipe_line_nonempty (l : str) : contains PIPE l = true -> l <> [].
Proof. intros H ->. discriminate. Qed.

(** The lines of the result are a fixed point of the repair. *)
Lemma o1_fix_twice n :
  forall lines,
    length lines <= n ->
    forallb (fun l => negb (contains PIPE l) ||
                      (startswith PIPE (strip l) && endswith PIPE (strip l)))
            lines = true ->
    Forall (fun l => no_linebreak l = true) lines ->
    exists out,
      scan lines [] [] false = Ok out /\ scan out [] [] false = Ok out /\
      Forall (fun l => no_linebreak l = true) out /\
      (lines <> [] -> out <> []) /\
      (last lines [LF] <> [] -> last out [LF] <> []).
Proof.
  induction n as [|n IH]; intros lines Hlen Hboth Hnl.
  - destruct lines; [|cbn in Hlen; lia].
    exists []. repeat split; auto; constructor.
  - destruct lines as [|l rest].
    { exists []. repeat split; auto; constructor. }
    cbn [length] in Hlen. inversion Hnl as [|? ? Hl Hrest]; subst.
    cbn [forallb] in Hboth. apply andb_true_iff in Hboth. destruct Hboth as [Hbl Hbrest].
    destruct (contains PIPE l) eqn:Hp.
    + (* a block *)
      cbn [negb orb] in Hbl.
      pose proof (takewhile_dropwhile (contains PIPE) rest) as Hsplit.
      assert (Forall (fun x => no_linebreak x = true)
                     (takewhile (contains PIPE) rest ++ dropwhile (contains PIPE) rest))
        as Hnl2 by now rewrite Hsplit.
      apply Forall_app in Hnl2. destruct Hnl2 as [Hnlrun Hnlrest].
      destruct (@o1_process_twice l (takewhile (contains PIPE) rest) Hp
                  (takewhile_pipes rest) Hbl (Forall_cons _ Hl Hnlrun))
        as [f1 [ft [Ef [Eagain [Hfp Hnlf]]]]].
      inversion Hfp as [|? ? Hf1 Hft]; subst.
      rewrite o1_fix_block, Ef by assumption. cbn [bind].
      destruct (dropwhile (contains PIPE) rest) as [|d rest'] eqn:Ed.
      * exists (f1 :: ft). split; [reflexivity|]. split.
        { rewrite o1_fix_block by assumption.
          destruct (@span_pipes_run ft [] Hft I) as [Et Ed']. rewrite app_nil_r in Et, Ed'.
          rewrite Et, Ed', Eagain. reflexivity. }
        split; [assumption|]. split; [discriminate|].
        intros _. apply pipe_line_nonempty.
        apply (proj1 (Forall_forall _ _) Hfp).
        apply Claude37_round_5_twice.last_in. discriminate.
      * pose proof (dropwhile_head _ _ Ed) as Hd.
        assert (forallb (fun l => negb (contains PIPE l) ||
                                  (startswith PIPE (strip l) && endswith PIPE (strip l)))
                        rest' = true) as Hbrest'.
        { rewrite <- Hsplit, forallb_app in Hbrest.
          cbn [forallb] in Hbrest. apply andb_true_iff in Hbrest.
          destruct Hbrest as [_ Hb]. apply andb_true_iff in Hb. tauto. }
        inversion Hnlrest as [|? ? Hnld Hnlrest']; subst.
        destruct (IH rest') as [out' [E' [Eout' [Hnl' [Hne' Hlast']]]]];
          [|assumption | assumption |].
        { pose proof (Claude37_round_5_twice.length_dropwhile (contains PIPE) rest) as Hle.
          rewrite Ed in Hle. cbn [length] in Hle. lia. }
        rewrite E'. cbn [bind]. exists ((f1 :: ft) ++ d :: out').
        split; [reflexivity|]. split.
        { cbn [app]. rewrite o1_fix_block by assumption.
          destruct (@span_pipes_run ft (d :: out') Hft Hd) as [-> ->].
          rewrite Eagain. cbn [bind]. rewrite Eout'. reflexivity. }
        split; [apply Forall_app; split; [assumption | now constructor]|].
        split; [discriminate|].
        intros Hlast. rewrite Claude37_round_5_twice.last_app_r by discriminate.
        rewrite <- Hsplit in Hlast.
        change (l :: takewhile (contains PIPE) rest ++ d :: rest')
          with ((l :: takewhile (contains PIPE) rest) ++ d :: rest') in Hlast.
        rewrite Claude37_round_5_twice.last_app_r in Hlast by discriminate.
        destruct rest' as [|r rest'].
        -- cbn in E'. injection E' as <-. exact Hlast.
        -- specialize (Hne' ltac:(discriminate)).
           change (d :: out') with ([d] ++ out').
           rewrite Claude37_round_5_twice.last_app_r by assumption.
           apply Hlast'. change (d :: r :: rest') with ([d] ++ r :: rest') in Hlast.
           rewrite Claude37_round_5_twice.last_app_r in Hlast by discriminate.
           exact Hlast.
    + (* a line outside a table *)
      destruct (IH rest) as [out' [E' [Eout' [Hnl' [Hne' Hlast']]]]];
        [lia | assumption | assumption |].
      exists (l :: out').
      split; [rewrite o1_fix_plain, E' by assumption; reflexivity|].
      split; [rewrite o1_fix_plain, Eout' by assumption; reflexivity|].
      split; [constructor; assumption|].
      split; [discriminate|].
      intros Hlast. destruct rest as [|r rest].
      * cbn in E'. injection E' as <-. exact Hlast.
      * specialize (Hne' ltac:(discriminate)).
        change (l :: out') with ([l] ++ out').
        rewrite Claude37_round_5_twice.last_app_r by assumption.
        apply Hlast'. change (l :: r :: rest) with ([l] ++ r :: rest) in Hlast.
        rewrite Claude37_round_5_twice.last_app_r in Hlast by discriminate. exact Hlast.
Qed.

(** X20 -- repairing twice is repairing once on the texts whose last line
    is not empty and in which every line with a pipe starts and ends with
    one: a block is then kept or rebuilt into a valid table, and a valid
    table is kept. *)
Theorem o1_repair_twice (x : str) :
  forallb (fun l => negb (contains PIPE l) ||
                    (startswith PIPE (strip l) && endswith PIPE (strip l)))
          (splitlines x) = true ->
  last (splitlines x) [LF] <> [] ->
  exists y, fix_invalid_markdown_tables x = Ok y /\
            fix_invalid_markdown_tables y = Ok y.
Proof.
  intros Hboth Hlast.
  destruct (@o1_fix_twice (length (splitlines x)) (splitlines x) (Nat.le_refl _)
              Hboth (splitlines_no_linebreak x))
    as [out [E [Eout [Hnl [_ Hl]]]]].
  exists (join [LF] out). unfold fix_invalid_markdown_tables.
  rewrite E. cbn [bind]. split; [reflexivity|].
  rewrite splitlines_join by auto. rewrite Eout. reflexivity.
Qed.

Lemma o1_repair_twice_witness :
  let x := join [LF] (map of_string
             ["Intro"; "| a | b |"; "| 1 | 2 | 3 |"; "more"; ""; "| x |"]%string)
           ++ [LF] in
  exists y, fix_invalid_markdown_tables x = Ok y /\
            fix_invalid_markdown_tables y = Ok y.
Proof.
  apply (@o1_repair_twice
           (join [LF] (map of_string
              ["Intro"; "| a | b |"; "| 1 | 2 | 3 |"; "more"; ""; "| x |"]%string)
            ++ [LF])).
  - vm_compute. reflexivity.
  - vm_compute. discriminate.
Defined.

End O1_pro_round_5_document.

(* ================================================================== *)
(** * Claude37_round_1: the table with its separator in the second line *)
(* ================================================================== *)

Module Claude37_round_1_rows.
Import Py Text PyFacts Lines Claude37_round_1 Claude37_round_1_total.

(** ** The padding loops *)

Lemma pad_loop_value bound fuel :
  forall cells : list str,
    bound - length cells <= fuel ->
    while_loop fuel (fun cells : list str => length cells <? bound)
               (fun cells => Ok (cells ++ [[]])) cells =
    Ok (cells ++ repeat [] (bound - length cells)).
Proof.
  induction fuel as [|fuel IH]; intros cells Hf; cbn [while_loop].
  - destruct (Nat.ltb_spec (length cells) bound); [lia|].
    replace (bound - length cells) with 0 by lia. now rewrite app_nil_r.
  - destruct (Nat.ltb_spec (length cells) bound) as [Hlt|Hge].
    + cbn [bind]. rewrite IH by (rewrite length_app; cbn [length]; lia).
      rewrite length_app. cbn [length]. rewrite <- app_assoc. f_equal. f_equal.
      replace (bound - length cells) with (S (bound - (length cells + 1))) by lia.
      reflexivity.
    + replace (bound - length cells) with 0 by lia. now rewrite app_nil_r.
Qed.

Lemma pad_cells_value cells max_columns :
  pad_cells cells max_columns =
  Ok (cells ++ repeat [] (max_columns + 1 - length cells)).
Proof. apply pad_loop_value. lia. Qed.

Lemma map_const_repeat {A B} (b : B) (l : list A) :
  map (fun _ => b) l = repeat b (length l).
Proof. induction l as [|x l IH]; [reflexivity|]. cbn. now rewrite IH. Qed.

Lemma split_length sep s : 1 <= length (split sep s).
Proof.
  pose proof (Grok3_round_5_prose.split_not_nil sep s).
  destruct (split sep s); [congruence | cbn; lia].
Qed.

(** One line of the normalising loop. *)
Lemma normalize_line_value (is_sep : bool) max_columns line :
  cell_count line <= max_columns ->
  normalize_line is_sep max_columns line =
  Ok (if is_sep then bar_row (repeat dashes3 max_columns)
      else bar_row (tl (split PIPE line) ++
                    repeat [] (max_columns - cell_count line))).
Proof.
  unfold cell_count. intros Hc. unfold normalize_line.
  rewrite pad_cells_value. cbn [bind].
  pose proof (split_length PIPE line) as Hlen.
  rewrite firstn_all2 by (rewrite length_app, repeat_length; lia).
  assert (tl (split PIPE line ++ repeat [] (max_columns + 1 - length (split PIPE line))) =
          tl (split PIPE line) ++ repeat [] (max_columns - (length (split PIPE line) - 1)))
    as ->.
  { destruct (split PIPE line) as [|c cs]; [cbn in Hlen; lia|]. cbn [tl app length].
    f_equal. f_equal. lia. }
  destruct is_sep; [|reflexivity].
  rewrite map_const_repeat, length_app, repeat_length. do 3 f_equal.
  destruct (split PIPE line) as [|c cs]; [cbn in Hlen; lia|]. cbn [tl length] in *. lia.
Qed.

Lemma fold_max_count lines :
  forall a, a <= fold_left (fun m line => Nat.max m (cell_count line)) lines a /\
            forall l, In l lines ->
                      cell_count l <=
                      fold_left (fun m line => Nat.max m (cell_count line)) lines a.
Proof.
  induction lines as [|x lines IH]; intros a; cbn [fold_left].
  - split; [lia | intros l []].
  - destruct (IH (Nat.max a (cell_count x))) as [H1 H2]. split; [lia|].
    intros l [<-|Hl]; [lia | now apply H2].
Qed.

Lemma normalize_lines_value seps max_columns (pairs : list (nat * str)) :
  (forall il, In il pairs -> cell_count (snd il) <= max_columns) ->
  normalize_lines seps max_columns pairs =
  Ok (map (fun il : nat * str =>
             if mem (fst il) seps then bar_row (repeat dashes3 max_columns)
             else bar_row (tl (split PIPE (snd il)) ++
                           repeat [] (max_columns - cell_count (snd il))))
          pairs).
Proof.
  induction pairs as [|[i line] pairs IH]; intros H; cbn [normalize_lines map];
    [reflexivity|].
  rewrite normalize_line_value by (apply (H (i, line)); now left). cbn [bind].
  rewrite IH by (intros il Hil; apply H; now right). reflexivity.
Qed.

(** ** Reading the rows again *)

Lemma split_join_sep sep (ls : list str) :
  ls <> [] -> Forall (fun l => contains sep l = false) ls ->
  split sep (join [sep] ls) = ls.
Proof.
  induction ls as [|l ls IH]; intros Hne Hall; [congruence|].
  inversion Hall as [|? ? Hl Hls]; subst. destruct ls as [|l' ls].
  - cbn [join]. now apply Claude37_round_5_rows.split_no_sep.
  - rewrite join_cons by discriminate. cbn [app].
    rewrite Claude37_round_5_rows.split_app_sep by assumption.
    f_equal. apply IH; [discriminate | assumption].
Qed.

Lemma cell_count_bar_row cells :
  Forall (fun c => contains PIPE c = false) cells ->
  cell_count (bar_row cells) = Nat.max 2 (length cells + 1).
Proof.
  intros H. unfold cell_count, bar_row. cbn [app split]. rewrite N.eqb_refl.
  rewrite Claude37_round_3_rows.split_snoc_sep. cbn [length]. rewrite length_app.
  destruct cells as [|c cells]; [reflexivity|].
  rewrite split_join_sep by (discriminate || assumption). cbn [length]. lia.
Qed.

Lemma bar_row_nonblank cells : truthy (strip (bar_row cells)) = true.
Proof.
  apply truthy_true. intros E.
  assert (contains PIPE (strip (bar_row cells)) = true) as H
      by (rewrite Grok3_round_5_prose.strip_pipe; reflexivity).
  rewrite E in H. discriminate.
Qed.

Lemma bar_row_no_lf cells :
  Forall (fun c => contains LF c = false) cells -> contains LF (bar_row cells) = false.
Proof.
  intros H. unfold bar_row. rewrite !contains_app.
  assert (contains LF (join [PIPE] cells) = false) as ->; [|reflexivity].
  induction H as [|c cells Hc _ IH]; [reflexivity|].
  destruct cells as [|c' cells]; [exact Hc|].
  rewrite join_cons by discriminate. now rewrite !contains_app, Hc, IH.
Qed.

Lemma nonblank_lines_no_lf text l :
  In l (nonblank_lines text) -> contains LF l = false.
Proof.
  unfold nonblank_lines. intros H. apply filter_In in H. destruct H as [H _].
  apply contains_false_iff. intros Hin.
  now destruct (Claude37_round_5_rows.split_pieces_chars _ _ _ _ H Hin).
Qed.

Lemma repeat_forall {A} (P : A -> Prop) x n : P x -> Forall P (repeat x n).
Proof.
  intros H. apply Forall_forall. intros y Hy. apply repeat_spec in Hy. now subst.
Qed.

(** The cells of a normalised row hold no pipe, and no line feed when the
    line holds none. *)
Lemma row_cells_clean line k :
  Forall (fun c => contains PIPE c = false) (tl (split PIPE line) ++ repeat [] k) /\
  (contains LF line = false ->
   Forall (fun c => contains LF c = false) (tl (split PIPE line) ++ repeat [] k)).
Proof.
  assert (forall c, In c (tl (split PIPE line)) -> In c (split PIPE line)) as Htl
      by (intros c; destruct (split PIPE line); [intros [] | now right]).
  split; [|intros Hlf]; apply Forall_app; (split; [|now apply repeat_forall]);
    apply Forall_forall; intros c Hc; apply Htl in Hc; apply contains_false_iff;
    intros Hin; destruct (Claude37_round_5_rows.split_pieces_chars _ _ _ _ Hc Hin)
      as [Hl Hne]; [congruence|].
  apply contains_false_iff in Hlf. contradiction.
Qed.

Lemma nonblank_lines_join (ls : list str) :
  ls <> [] ->
  Forall (fun l => contains LF l = false /\ truthy (strip l) = true) ls ->
  nonblank_lines (join [LF] ls) = ls.
Proof.
  intros Hne H. unfold nonblank_lines. rewrite split_join_sep.
  - apply Claude37_round_5_repaired.filter_all.
    eapply Forall_impl; [|exact H]. now intros l [_ Hl].
  - exact Hne.
  - eapply Forall_impl; [|exact H]. now intros l [Hl _].
Qed.

(** ** The rebuilt table is valid *)

Lemma separator_line_chars m :
  forallb (fun c => existsb (N.eqb c) [PIPE; COLON; DASH; SPACE])
          (bar_row (repeat dashes3 m)) = true.
Proof.
  unfold bar_row. rewrite !forallb_app. cbn [forallb andb].
  assert (forallb (fun c => existsb (N.eqb c) [PIPE; COLON; DASH; SPACE])
                  (join [PIPE] (repeat dashes3 m)) = true) as ->; [|reflexivity].
  induction m as [|m IH]; [reflexivity|]. cbn [repeat].
  destruct m as [|m]; [reflexivity|].
  rewrite join_cons by discriminate. rewrite !forallb_app, IH. reflexivity.
Qed.

Lemma is_table_valid_rows m r0 (rest : list (list str)) :
  Forall (fun r => length r = m /\
                   Forall (fun c => contains PIPE c = false) r /\
                   Forall (fun c => contains LF c = false) r)
         (r0 :: repeat dashes3 m :: rest) ->
  is_table_valid (join [LF] (map bar_row (r0 :: repeat dashes3 m :: rest))) = Ok true.
Proof.
  intros Hrows.
  assert (forall r, In r (r0 :: repeat dashes3 m :: rest) ->
                    cell_count (bar_row r) = Nat.max 2 (m + 1)) as Hcount.
  { intros r Hr. destruct (proj1 (Forall_forall _ _) Hrows r Hr) as [Hlen [Hp _]].
    now rewrite cell_count_bar_row, Hlen. }
  unfold is_table_valid. rewrite nonblank_lines_join.
  2:{ discriminate. }
  2:{ apply Forall_forall. intros l Hl. apply in_map_iff in Hl.
      destruct Hl as [r [<- Hr]].
      destruct (proj1 (Forall_forall _ _) Hrows r Hr) as [_ [_ Hlf]].
      split; [now apply bar_row_no_lf | apply bar_row_nonblank]. }
  cbn [map length Nat.ltb Nat.leb getitem nth_error bind].
  rewrite separator_line_chars. cbn [negb].
  rewrite (Hcount r0) by now left.
  rewrite (Hcount (repeat dashes3 m)) by (right; now left).
  rewrite Nat.eqb_refl. cbn [negb skipn]. f_equal.
  apply forallb_forall. intros l Hl. apply in_map_iff in Hl. destruct Hl as [r [<- Hr]].
  apply Nat.eqb_eq, Hcount. now right; right.
Qed.

Lemma dashes_clean m :
  length (repeat dashes3 m) = m /\
  Forall (fun c => contains PIPE c = false) (repeat dashes3 m) /\
  Forall (fun c => contains LF c = false) (repeat dashes3 m).
Proof.
  split; [apply repeat_length|]. split; now apply repeat_forall.
Qed.

(** X21 -- [fix_table] on a table whose second line is its only separator
    line (the lines that are not blank counted): every line comes back
    between two bars, the separator as [max_columns] cells ["---"], any other
    line as the text after its first pipe, with one more bar for each column
    it lacks.  So the text before the first pipe of a line is dropped, and a
    line that ends with a pipe gets an empty cell more. *)
Theorem fix_table_normalises (table_text : str) :
  let lines := nonblank_lines table_text in
  let max_columns := fold_left (fun m line => Nat.max m (cell_count line)) lines 0 in
  separator_indices_from 1 lines = [1] ->
  fix_table table_text =
  Ok (join [LF]
        (map (fun il : nat * str =>
                if fst il =? 1 then bar_row (repeat dashes3 max_columns)
                else bar_row (tl (split PIPE (snd il)) ++
                              repeat [] (max_columns - cell_count (snd il))))
             (enumerate lines))).
Proof.
  intros lines m Hseps. unfold fix_table. fold lines. rewrite Hseps.
  cbn [truthy negb length Nat.ltb Nat.leb bind]. fold m.
  assert (1 < length lines) as Hlen.
  { apply (@separator_index_bound 1 lines 1). rewrite Hseps. now left. }
  rewrite normalize_lines_value.
  2:{ intros [i l] Hil. cbn [snd]. apply (proj2 (fold_max_count lines 0)).
      apply in_enumerate in Hil. eapply nth_error_In. exact Hil. }
  cbn [bind].
  assert (map (fun il : nat * str =>
                 if mem (fst il) [1] then bar_row (repeat dashes3 m)
                 else bar_row (tl (split PIPE (snd il)) ++
                               repeat [] (m - cell_count (snd il))))
              (enumerate lines) =
          map (fun il : nat * str =>
                 if fst il =? 1 then bar_row (repeat dashes3 m)
                 else bar_row (tl (split PIPE (snd il)) ++
                               repeat [] (m - cell_count (snd il))))
              (enumerate lines)) as ->.
  { apply map_ext. intros [i l]. unfold mem. cbn [fst existsb]. now rewrite orb_false_r. }
  assert (map (fun il : nat * str =>
                 if fst il =? 1 then bar_row (repeat dashes3 m)
                 else bar_row (tl (split PIPE (snd il)) ++
                               repeat [] (m - cell_count (snd il))))
              (enumerate lines) =
          map bar_row
              (map (fun il : nat * str =>
                      if fst il =? 1 then repeat dashes3 m
                      else tl (split PIPE (snd il)) ++
                           repeat [] (m - cell_count (snd il)))
                   (enumerate lines))) as Erows.
  { rewrite map_map. apply map_ext. intros [i l]. cbn [fst]. now destruct (i =? 1). }
  rewrite Erows.
  assert (Forall (fun r => length r = m /\
                           Forall (fun c => contains PIPE c = false) r /\
                           Forall (fun c => contains LF c = false) r)
                 (map (fun il : nat * str =>
                         if fst il =? 1 then repeat dashes3 m
                         else tl (split PIPE (snd il)) ++
                              repeat [] (m - cell_count (snd il)))
                      (enumerate lines))) as Hrows.
  { apply Forall_forall. intros r Hr. apply in_map_iff in Hr.
    destruct Hr as [[i l] [<- Hil]]. cbn [fst snd].
    destruct (i =? 1); [apply dashes_clean|].
    apply in_enumerate in Hil. apply nth_error_In in Hil.
    pose proof (proj2 (fold_max_count lines 0) l Hil) as Hc. fold m in Hc.
    destruct (row_cells_clean l (m - cell_count l)) as [Hp Hlf].
    split; [|split; [exact Hp | apply Hlf; now apply (nonblank_lines_no_lf table_text)]].
    rewrite length_app, repeat_length. unfold cell_count in *.
    pose proof (split_length PIPE l).
    destruct (split PIPE l); cbn [tl length] in *; lia. }
  set (rows := map (fun il : nat * str =>
                      if fst il =? 1 then repeat dashes3 m
                      else tl (split PIPE (snd il)) ++
                           repeat [] (m - cell_count (snd il)))
                   (enumerate lines)) in *.
  assert (exists r0 rest, rows = r0 :: repeat dashes3 m :: rest) as [r0 [rest Er]].
  { unfold rows. clear - Hlen. destruct lines as [|l0 [|l1 rest]]; try (cbn in Hlen; lia).
    unfold enumerate. cbn [length seq combine map fst Nat.eqb].
    eexists. eexists. reflexivity. }
  rewrite Er in Hrows |- *. rewrite is_table_valid_rows by exact Hrows. reflexivity.
Qed.

Lemma fix_table_normalises_witness :
  fix_table (join [LF] (map of_string ["a|b"; "---|---"; "1|2|3"]%string)) =
  Ok (join [LF] (map of_string ["|b||"; "|---|---|"; "|2|3|"]%string)).
Proof.
  apply (@fix_table_normalises
           (join [LF] (map of_string ["a|b"; "---|---"; "1|2|3"]%string))).
  vm_compute. reflexivity.
Defined.

End Claude37_round_1_rows.

(* ================================================================== *)
(** * O3_mini_high_round_5: the lines outside the tables, and Grok3_round_5 *)
(* ================================================================== *)

Module O3_mini_high_round_5_blocks.
Import Py Text PyFacts Lines O3_mini_high_round_5.

Lemma o3_merge_all_pipes lines :
  Forall (fun l => contains PIPE l = true) lines ->
  forall merged current,
    merge_loop lines merged current = flush_current merged current ++ map rstrip lines.
Proof.
  induction lines as [|l lines IH]; intros Hall merged current; cbn [merge_loop map].
  - now rewrite app_nil_r.
  - inversion Hall as [|? ? Hl Hls]; subst. rewrite Hl, (IH Hls).
    cbn [flush_current]. now rewrite <- app_assoc.
Qed.

Lemma o3_merge_pipes lines :
  Forall (fun l => contains PIPE l = true) lines ->
  merge_continuation_lines lines = map rstrip lines /\
  Grok3_round_5.merge_continuation_lines lines = map rstrip lines.
Proof.
  intros H. split.
  - unfold merge_continuation_lines. now rewrite o3_merge_all_pipes.
  - unfold Grok3_round_5.merge_continuation_lines.
    now rewrite Grok3_round_5_prose.merge_loop_all_pipes.
Qed.

Lemma rstrip_pipes (lines : list str) :
  Forall (fun l => contains PIPE l = true) lines ->
  Forall (fun l => contains PIPE l = true) (map rstrip lines).
Proof.
  intros H. apply Forall_forall. intros l Hl. apply in_map_iff in Hl.
  destruct Hl as [l' [<- Hl']]. rewrite rstrip_no_pipe_iff.
  exact (proj1 (Forall_forall _ _) H l' Hl').
Qed.

Lemma o3_data_lines_width (after_each : bool) m style (rows : list (list str)) :
  (forall r, length r = m -> contains PIPE (rebuild_row r (fst style) (snd style)) = true) ->
  Forall (fun r => length r = m) rows ->
  Forall (fun l => contains PIPE l = true)
         (data_lines after_each (rebuild_row (repeat dashes3 m) (fst style) (snd style))
                     style rows).
Proof.
  intros Hw Hrows. unfold data_lines. apply Forall_forall. intros l Hl.
  apply in_flat_map in Hl. destruct Hl as [r [Hr Hl]].
  assert (length r = m) as Hlen.
  { destruct rows as [|r0 rows]; [destruct Hr|]. cbn [tl] in Hr.
    inversion Hrows as [|? ? _ Hrest]; subst.
    exact (proj1 (Forall_forall _ _) Hrest r Hr). }
  destruct (is_separator_row r); [destruct Hl|]. destruct after_each.
  - destruct Hl as [<-|[<-|[]]]; [now apply Hw | apply Hw, repeat_length].
  - destruct Hl as [<-|[]]. now apply Hw.
Qed.

(** Every line of a rebuilt block has a pipe. *)
Lemma o3_fix_table_block_pipes merged :
  merged <> [] -> Forall (fun l => contains PIPE l = true) merged ->
  exists fixed, fix_table_block merged = Ok fixed /\ fixed <> [] /\
                Forall (fun l => contains PIPE l = true) fixed.
Proof.
  intros Hne Hall. destruct merged as [|first rest]; [congruence|].
  unfold fix_table_block. rewrite (Grok3_round_5_prose.filter_pipes_all Hall).
  cbn [getitem nth_error bind map truthy py_max].
  set (m := fold_left Nat.max (map (@length str) (map parse_row rest))
                      (length (parse_row first))).
  cbn [getitem nth_error bind].
  set (style := get_table_style first).
  eexists. split; [reflexivity|]. split; [discriminate|].
  destruct (Grok3_round_5_prose.fold_max_bounds
              (map (@length str) (map parse_row rest)) (length (parse_row first)))
    as [Hfirst Hrest].
  fold m in Hfirst, Hrest.
  assert (Forall (fun r => length r = m)
                 (normalize_row (parse_row first) m ::
                  map (fun r => normalize_row r m) (map parse_row rest))) as Hrows.
  { constructor; [now apply Grok3_round_5_prose.normalize_row_width|].
    apply Forall_forall. intros r Hr. apply in_map_iff in Hr.
    destruct Hr as [p [<- Hp]]. apply Grok3_round_5_prose.normalize_row_width, Hrest.
    now apply in_map. }
  assert (fst style = true \/ snd style = true \/ 2 <= m) as Hstyle.
  { subst style. unfold get_table_style. cbn [fst snd].
    destruct (startswith PIPE (strip first)) eqn:Es; [now left|].
    destruct (endswith PIPE (strip first)) eqn:Ee; [now right; left|].
    right; right. inversion Hall as [|? ? Hf _]; subst.
    pose proof (Grok3_round_5_prose.parse_row_inner_pipe _ Hf Es Ee) as H2.
    change (Grok3_round_5.parse_row first) with (parse_row first) in H2. lia. }
  assert (forall r, length r = m ->
                    contains PIPE (rebuild_row r (fst style) (snd style)) = true) as Hw.
  { intros r Hr. apply (@Grok3_round_5_prose.rebuild_row_pipe r style). now rewrite Hr. }
  constructor; [apply Hw; now inversion Hrows|].
  constructor; [apply Hw, repeat_length|].
  now apply o3_data_lines_width.
Qed.

Lemma o3_process_pipes blk :
  Forall (fun l => contains PIPE l = true) blk ->
  exists fixed, process_table_block blk = Ok fixed /\
                truthy fixed = truthy blk /\
                Forall (fun l => contains PIPE l = true) fixed.
Proof.
  intros Hall. unfold process_table_block.
  rewrite (proj1 (o3_merge_pipes Hall)).
  destruct (Nat.ltb_spec (length (map rstrip blk)) 2) as [Hlt|Hge];
    [exists blk; now repeat split|].
  cbn [orb].
  destruct (negb (existsb (contains PIPE) (map rstrip blk)));
    [exists blk; now repeat split|].
  destruct (is_valid_table (map rstrip blk)); [exists blk; now repeat split|].
  destruct (@o3_fix_table_block_pipes (map rstrip blk)) as [fixed [E [Hne Hf]]].
  - intros E. rewrite E in Hge. cbn in Hge. lia.
  - now apply rstrip_pipes.
  - exists fixed. split; [exact E|]. split; [|exact Hf].
    destruct fixed; [congruence|]. destruct blk; [cbn in Hge; lia | reflexivity].
Qed.

(** The loop is the loop that the three classes share. *)
Lemma o3_scan_by lines :
  forall out tb it,
    scan lines out tb it = Block_loop.scan_by process_table_block lines out tb it.
Proof.
  induction lines as [|l lines IH]; intros out tb it;
    cbn [scan Block_loop.scan_by]; [reflexivity|].
  destruct (contains PIPE l); [apply IH|]. destruct it; [|apply IH].
  destruct (process_table_block tb); cbn [bind]; [apply IH | reflexivity].
Qed.

(** X22 -- [fix_invalid_markdown_tables] raises no exception, though
    [fix_table_block] has no test for lines without a pipe, and it leaves
    the lines without a pipe alone.  The text it returns is the lines [out]
    joined by line feeds, and every line [l] without a pipe is in [out]
    where it was: [out] is what the lines before [l] become, then [l], then
    what the lines after [l] become.  Lines that all have a pipe become
    lines that all have a pipe, and some lines become some. *)
Theorem o3_plain_lines_kept (lines : list str) :
  exists out,
    scan lines [] [] false = Ok out /\
    (forall markdown_text,
        splitlines markdown_text = lines ->
        fix_invalid_markdown_tables markdown_text = Ok (join [LF] out)) /\
    (forall pre l post,
        lines = pre ++ l :: post -> contains PIPE l = false ->
        exists a b, scan pre [] [] false = Ok a /\ scan post [] [] false = Ok b /\
                    out = a ++ l :: b) /\
    (Forall (fun l => contains PIPE l = true) lines ->
     Forall (fun l => contains PIPE l = true) out /\ (lines <> [] -> out <> [])).
Proof.
  destruct (@Block_loop_facts.scan_by_plain_lines process_table_block
              o3_process_pipes lines) as [out [E [Hsplit Hpipes]]].
  exists out. rewrite !o3_scan_by.
  split; [exact E|]. split; [|split; [|exact Hpipes]].
  - intros text <-. unfold fix_invalid_markdown_tables.
    now rewrite o3_scan_by, E.
  - intros pre l post Hl Hp. destruct (Hsplit pre l post Hl Hp) as [a [b H]].
    exists a, b. now rewrite !o3_scan_by.
Qed.

(** ** The same block in Grok3_round_5 *)

Lemma count_enumerate {A} (p : A -> bool) (l : list A) :
  forall k,
    length (filter (fun ir : nat * A => p (snd ir)) (combine (seq k (length l)) l)) =
    length (filter p l).
Proof.
  induction l as [|x l IH]; intros k; [reflexivity|].
  cbn [length seq combine filter snd]. destruct (p x); cbn [length]; now rewrite IH.
Qed.

Lemma count_map {A} (f : A -> bool) (l : list A) :
  length (filter (fun b : bool => b) (map f l)) = length (filter f l).
Proof.
  induction l as [|x l IH]; [reflexivity|]. cbn [map filter].
  destruct (f x); cbn [length]; now rewrite IH.
Qed.

Lemma count_ext {A} (f g : A -> bool) (l : list A) :
  (forall x, In x l -> f x = g x) -> length (filter f l) = length (filter g l).
Proof. intros H. now rewrite (filter_ext_in _ _ _ H). Qed.

(** The separator rows that the loop over [range(1, len(sep_flags), 2)]
    counts are among those flagged. *)
Lemma odd_flags_count (flags : list bool) :
  length (filter (fun i => nth i flags false) (odd_range (length flags))) <=
  length (filter (fun b : bool => b) flags).
Proof.
  rewrite <- O1_pro_round_5_layout.filter_odd_seq, O1_pro_round_5_layout.filter_swap.
  etransitivity; [apply filter_length_le|].
  pose proof (O1_pro_round_5_layout.enumerate_filter_from
                (fun (_ : nat) (b : bool) => b) false flags 0) as E.
  cbv beta in E.
  assert (filter (fun i => nth i flags false) (seq 0 (length flags)) =
          filter (fun i => nth (i - 0) flags false) (seq 0 (length flags))) as ->
      by (apply filter_ext; intros i; now rewrite Nat.sub_0_r).
  rewrite <- E, length_map.
  now rewrite (count_enumerate (fun b : bool => b) flags 0).
Qed.

Lemma o3_separator_row r :
  r <> [] -> is_separator_row r = Grok3_round_5.is_separator_row r.
Proof. destruct r; [congruence | reflexivity]. Qed.

Lemma rstrip_idem s : rstrip (rstrip s) = rstrip s.
Proof.
  destruct (rstrip_suffix_spaces s) as [w [E Hw]].
  rewrite E at 2. now rewrite Claude37_round_5_rows.rstrip_app_spaces.
Qed.

Lemma parse_row_rstrip l : parse_row (rstrip l) = parse_row l.
Proof. unfold parse_row, strip. now rewrite rstrip_idem. Qed.

Lemma parse_row_not_nil l : parse_row l <> [].
Proof.
  pose proof (Grok3_round_5_prose.parse_row_one l) as H.
  change (Grok3_round_5.parse_row l) with (parse_row l) in H.
  intros E. rewrite E in H. cbn in H. lia.
Qed.

Lemma o3_valid_table lines :
  is_valid_table lines = Grok3_round_5.is_valid_table lines.
Proof.
  unfold is_valid_table, Grok3_round_5.is_valid_table.
  destruct (length lines <? 2); [reflexivity|].
  change (map Grok3_round_5.parse_row) with (map parse_row).
  destruct (filter (contains PIPE) lines) as [|l0 [|l1 ls]]; try reflexivity.
  cbn [map]. now rewrite (o3_separator_row (parse_row_not_nil l1)).
Qed.

Lemma normalize_row_separator r m :
  length r <= m ->
  Grok3_round_5.is_separator_row (normalize_row r m) = Grok3_round_5.is_separator_row r.
Proof.
  intros H. unfold normalize_row.
  destruct (Nat.ltb_spec (length r) m).
  - apply O1_pro_round_5_repair.normalize_row_keeps_separator.
  - destruct (Nat.ltb_spec m (length r)); [lia | reflexivity].
Qed.

(** The rows after the separator, when no separator is put after each. *)
Lemma standard_rows_same style (rows : list (list str)) :
  Forall (fun r : list str => r <> []) rows ->
  map (fun r => Grok3_round_5.rebuild_row r style)
      (flat_map (fun rf : list str * bool => if snd rf then [] else [fst rf])
                (combine rows (map Grok3_round_5.is_separator_row rows))) =
  flat_map (fun r => if is_separator_row r then []
                     else [rebuild_row r (fst style) (snd style)]) rows.
Proof.
  intros Hrows.
  induction Hrows as [|r rows Hr _ IH]; [reflexivity|].
  cbn [map combine flat_map fst snd]. rewrite (o3_separator_row Hr).
  destruct (Grok3_round_5.is_separator_row r); cbn [app map]; now rewrite IH.
Qed.

(** X23 -- on a block of lines with a pipe of which at most one is a
    separator row, [process_table_block] returns what
    [Grok3_round_5.process_table_block] returns: the two classes merge, test
    and rebuild such a block in the same way, and they differ only in how
    they come to take a block for one with a separator after each row. *)
Theorem o3_grok3_same_block (blk : list str) :
  Forall (fun l => contains PIPE l = true) blk ->
  length (filter (fun l => is_separator_row (parse_row l)) blk) <= 1 ->
  process_table_block blk = Grok3_round_5.process_table_block blk.
Proof.
  intros Hall Hcount. unfold process_table_block, Grok3_round_5.process_table_block.
  destruct (o3_merge_pipes Hall) as [-> ->].
  destruct (Nat.ltb_spec (length (map rstrip blk)) 2) as [Hlt|Hge]; [reflexivity|].
  cbn [orb]. destruct (negb (existsb (contains PIPE) (map rstrip blk))); [reflexivity|].
  rewrite o3_valid_table.
  destruct (Grok3_round_5.is_valid_table (map rstrip blk)); [reflexivity|].
  pose proof (rstrip_pipes Hall) as Hpipes.
  assert (forall l, In l (map rstrip blk) ->
                    exists l', In l' blk /\ parse_row l = parse_row l') as Horigin.
  { intros l Hl. apply in_map_iff in Hl. destruct Hl as [l' [<- Hl']].
    exists l'. split; [exact Hl' | apply parse_row_rstrip]. }
  assert (length (filter (fun l => is_separator_row (parse_row l)) (map rstrip blk)) <= 1)
    as Hcount'.
  { etransitivity; [|exact Hcount]. apply Nat.eq_le_incl.
    rewrite <- (count_map _ (map rstrip blk)), map_map, count_map.
    apply count_ext. intros l _. now rewrite parse_row_rstrip. }
  clear Hcount Horigin Hall.
  destruct (map rstrip blk) as [|first rest]; [cbn in Hge; lia|]. clear Hge.
  unfold fix_table_block, Grok3_round_5.fix_table_block.
  rewrite (Grok3_round_5_prose.filter_pipes_all Hpipes).
  change (map Grok3_round_5.parse_row) with (map parse_row).
  cbn [getitem nth_error bind map truthy negb py_max].
  set (m := fold_left Nat.max (map (@length str) (map parse_row rest))
                      (length (parse_row first))).
  destruct (Grok3_round_5_prose.fold_max_bounds
              (map (@length str) (map parse_row rest)) (length (parse_row first)))
    as [Hfirst Hrest].
  fold m in Hfirst, Hrest.
  change (Grok3_round_5.normalize_row (parse_row first) m ::
          map (fun r => Grok3_round_5.normalize_row r m) (map parse_row rest))
    with (map (fun l => normalize_row l m) (map parse_row (first :: rest))).
  change (Grok3_round_5.is_separator_row (Grok3_round_5.normalize_row (parse_row first) m) ::
          map Grok3_round_5.is_separator_row
              (map (fun r => Grok3_round_5.normalize_row r m) (map parse_row rest)))
    with (map Grok3_round_5.is_separator_row
              (map (fun l => normalize_row l m) (map parse_row (first :: rest)))).
  change (normalize_row (parse_row first) m ::
          map (fun r => normalize_row r m) (map parse_row rest))
    with (map (fun l => normalize_row l m) (map parse_row (first :: rest))).
  set (norm := map (fun l => normalize_row l m) (map parse_row (first :: rest))).
  assert (1 <= m) as Hm
      by (pose proof (Grok3_round_5_prose.parse_row_one first) as H1;
          change (Grok3_round_5.parse_row first) with (parse_row first) in H1; lia).
  assert (forall l, In l (first :: rest) -> length (parse_row l) <= m) as Hbound.
  { intros l [<-|Hl]; [exact Hfirst|]. apply Hrest. now apply in_map, in_map. }
  assert (Forall (fun r : list str => r <> []) norm) as Hne.
  { apply Forall_forall. intros r Hr. unfold norm in Hr. rewrite map_map in Hr.
    apply in_map_iff in Hr. destruct Hr as [l [<- Hl]].
    pose proof (Grok3_round_5_prose.normalize_row_width _ (Hbound l Hl)) as Hw.
    change (Grok3_round_5.normalize_row (parse_row l) m)
      with (normalize_row (parse_row l) m) in Hw.
    intros E. rewrite E in Hw. cbn in Hw. lia. }
  (* at most one separator row among the normalised rows *)
  assert (length (filter Grok3_round_5.is_separator_row norm) <= 1) as Hseps.
  { etransitivity; [|exact Hcount']. apply Nat.eq_le_incl.
    unfold norm. rewrite map_map.
    rewrite <- (count_map Grok3_round_5.is_separator_row), map_map, count_map.
    apply count_ext. intros l Hl. rewrite normalize_row_separator by now apply Hbound.
    symmetry. apply o3_separator_row, parse_row_not_nil. }
  (* so both classes take the block for a standard one *)
  pose proof (odd_flags_count (map Grok3_round_5.is_separator_row norm)) as Ho.
  rewrite count_map in Ho.
  assert ((1 <? length (filter (fun i => nth i (map Grok3_round_5.is_separator_row norm) false)
                               (odd_range (length (map Grok3_round_5.is_separator_row norm))))) =
          false) as -> by (apply Nat.ltb_ge; lia).
  rewrite andb_false_r.
  assert (detect_table_pattern norm = false) as ->.
  { unfold detect_table_pattern, enumerate. rewrite length_map.
    rewrite (count_enumerate is_separator_row norm 0).
    rewrite (count_ext is_separator_row Grok3_round_5.is_separator_row norm).
    - destruct (Nat.leb_spec 2 (length (filter Grok3_round_5.is_separator_row norm)));
        [lia | reflexivity].
    - intros r Hr. apply o3_separator_row.
      exact (proj1 (Forall_forall _ _) Hne r Hr). }
  unfold Grok3_round_5.data_rows, data_lines.
  destruct norm as [|header rows] eqn:En; [discriminate|].
  cbn [getitem nth_error bind tl map]. do 3 f_equal.
  inversion Hne as [|? ? _ Hrows]; subst.
  symmetry. exact (standard_rows_same (get_table_style first) Hrows).
Qed.

Lemma o3_grok3_same_block_witness :
  process_table_block (map of_string ["a|b"; "---|---"; "1|2|3"; "4|5"]%string) =
  Grok3_round_5.process_table_block
    (map of_string ["a|b"; "---|---"; "1|2|3"; "4|5"]%string).
Proof.
  apply o3_grok3_same_block.
  - repeat constructor.
  - vm_compute. lia.
Defined.

End O3_mini_high_round_5_blocks.

(* ================================================================== *)
(** * O3_mini_high_round_1: every block is rebuilt, once *)
(* ================================================================== *)

Module O3_mini_high_round_1_twice.
Import Py Text Claude37_round_5_spec PyFacts Lines O3_mini_high_round_1.
Import O3_mini_high_round_1_spec.

(** ** Rows *)

Lemma row_cells_o1 line : row_cells line = O1_pro_round_5._parse_row line.
Proof. exact (Round_5_parsers.grok3_o1_parse_row line). Qed.

Lemma pipe_row_o1 r : pipe_row r = O1_pro_round_5._rebuild_row r (true, true).
Proof.
  unfold pipe_row, O1_pro_round_5._rebuild_row. cbn [fst snd].
  now rewrite app_assoc.
Qed.

Lemma row_cells_pipe_row r :
  r <> [] -> Forall good_cell r -> row_cells (pipe_row r) = r.
Proof.
  intros Hne Hg. rewrite row_cells_o1, pipe_row_o1.
  now apply O1_pro_round_5_valid.parse_rebuild_both.
Qed.

Lemma row_cells_good line : Forall good_cell (row_cells line).
Proof. rewrite row_cells_o1. apply O1_pro_round_5_valid.parse_row_cells_good. Qed.

Lemma row_cells_length line : 1 <= length (row_cells line).
Proof. rewrite row_cells_o1. apply O1_pro_round_5_repair.parse_row_nonempty. Qed.

Lemma row_cells_no_linebreak line :
  no_linebreak line = true -> Forall (fun c => no_linebreak c = true) (row_cells line).
Proof.
  rewrite row_cells_o1. apply O1_pro_round_5_document.parse_row_no_linebreak.
Qed.

Lemma pipe_row_pipe r : contains PIPE (pipe_row r) = true.
Proof. reflexivity. Qed.

Lemma pipe_row_rstrip r : rstrip (pipe_row r) = pipe_row r.
Proof.
  unfold pipe_row. rewrite !app_assoc.
  change ((([PIPE; SPACE] ++ join [SPACE; PIPE; SPACE] r) ++ [SPACE; PIPE]))
    with (([PIPE; SPACE] ++ join [SPACE; PIPE; SPACE] r) ++ [SPACE] ++ [PIPE]).
  rewrite app_assoc. apply Claude37_round_5_rows.rstrip_ends_pipe.
Qed.

Lemma pipe_row_no_linebreak r :
  Forall (fun c => no_linebreak c = true) r -> no_linebreak (pipe_row r) = true.
Proof.
  intros H. rewrite pipe_row_o1.
  now apply O1_pro_round_5_document.rebuild_row_no_linebreak.
Qed.

Lemma fit_width r m : length r <= m -> length (fit r m) = m.
Proof.
  intros H. unfold fit. destruct (Nat.ltb_spec (length r) m).
  - rewrite length_app, repeat_length. lia.
  - destruct (Nat.ltb_spec m (length r)); lia.
Qed.

Lemma fit_same r : fit r (length r) = r.
Proof. unfold fit. now rewrite Nat.ltb_irrefl. Qed.

Lemma fit_forall (P : str -> Prop) r m :
  P [] -> length r <= m -> Forall P r -> Forall P (fit r m).
Proof.
  intros Hnil Hlen Hr. unfold fit. destruct (Nat.ltb_spec (length r) m).
  - apply Forall_app. split; [exact Hr|]. apply Forall_forall. intros c Hc.
    apply repeat_spec in Hc. now subst c.
  - destruct (Nat.ltb_spec m (length r)); [lia | exact Hr].
Qed.

Lemma dashes_divider m : is_divider_row (repeat dashes3 m) = true.
Proof.
  unfold is_divider_row. apply forallb_forall. intros c Hc.
  apply filter_In in Hc. destruct Hc as [Hc _]. apply repeat_spec in Hc. now subst c.
Qed.

(** ** Merging *)

Lemma merge_loop_grows block :
  forall merged, merged <> [] -> merge_loop block merged <> [].
Proof.
  induction block as [|l block IH]; intros merged Hne; cbn [merge_loop]; [exact Hne|].
  destruct (contains PIPE l); [apply IH; now destruct merged|].
  destruct (truthy merged && truthy (strip l)); [|now apply IH].
  apply IH. unfold append_to_last. now destruct (removelast merged).
Qed.

Lemma merge_block_first l run :
  contains PIPE l = true -> merge_block (l :: run) <> [].
Proof.
  intros H. unfold merge_block. cbn [merge_loop]. rewrite H.
  apply merge_loop_grows. discriminate.
Qed.

Lemma merge_loop_rows lines :
  Forall (fun l => contains PIPE l = true) lines ->
  forall merged, merge_loop lines merged = merged ++ map rstrip lines.
Proof.
  induction 1 as [|l lines Hl _ IH]; intros merged; cbn [merge_loop map].
  - now rewrite app_nil_r.
  - rewrite Hl, IH. now rewrite <- app_assoc.
Qed.

Lemma merge_loop_no_linebreak block :
  Forall (fun l => no_linebreak l = true) block ->
  forall merged,
    Forall (fun l => no_linebreak l = true) merged ->
    Forall (fun l => no_linebreak l = true) (merge_loop block merged).
Proof.
  induction 1 as [|l block Hl _ IH]; intros merged Hm; cbn [merge_loop]; [exact Hm|].
  assert (no_linebreak (rstrip l) = true) as Hr
      by (eapply Claude37_round_5_repaired.no_linebreak_incl; [|exact Hl];
          intros c; apply Claude37_round_5_rows.rstrip_incl).
  assert (no_linebreak (strip l) = true) as Hs
      by (eapply Claude37_round_5_repaired.no_linebreak_incl; [|exact Hl];
          intros c; apply Claude37_round_5_rows.strip_incl).
  destruct (contains PIPE l).
  { apply IH. apply Forall_app. split; [exact Hm | now constructor]. }
  destruct (truthy merged && truthy (strip l)) eqn:E; [|now apply IH].
  apply IH. unfold append_to_last.
  apply andb_true_iff in E. destruct E as [E _]. apply truthy_true in E.
  destruct (exists_last E) as [m' [x ->]].
  rewrite removelast_last, last_last. apply Forall_app in Hm. destruct Hm as [Hm' Hx].
  apply Forall_app. split; [exact Hm'|]. constructor; [|constructor].
  inversion Hx as [|? ? Hx1 _]; subst.
  rewrite !Claude37_round_5_repaired.no_linebreak_app. now rewrite Hx1, Hs.
Qed.

(** ** A block *)

Lemma in_skipn {A} (x : A) n l : In x (skipn n l) -> In x l.
Proof.
  revert l. induction n as [|n IH]; intros l H; [exact H|].
  destruct l as [|y l]; [destruct H|]. right. now apply IH.
Qed.

(** What a block becomes: a header, a divider row and rows that are no
    divider rows, of as many cells each. *)
Lemma process_rows block :
  merge_block block <> [] ->
  exists m hdr second data,
    1 <= m /\
    process_table_block block = Ok (map pipe_row (hdr :: second :: data)) /\
    Forall (fun r => length r = m /\ Forall good_cell r) (hdr :: second :: data) /\
    is_divider_row second = true /\
    Forall (fun r => is_divider_row r = false) data /\
    (Forall (fun l => no_linebreak l = true) block ->
     Forall (fun r => Forall (fun c => no_linebreak c = true) r)
            (hdr :: second :: data)).
Proof.
  intros Hne. unfold process_table_block.
  set (merged := merge_block block) in *.
  destruct merged as [|l0 ls] eqn:Em; [congruence|].
  cbn [map truthy py_max bind].
  set (m := fold_left Nat.max (map (@length str) (map row_cells ls))
                      (length (row_cells l0))).
  destruct (Grok3_round_5_prose.fold_max_bounds
              (map (@length str) (map row_cells ls)) (length (row_cells l0)))
    as [Hfirst Hrest].
  fold m in Hfirst, Hrest.
  assert (1 <= m) as Hm by (pose proof (row_cells_length l0); lia).
  set (fixed := fit (row_cells l0) m :: map (fun r => fit r m) (map row_cells ls)).
  assert (forall r, In r fixed ->
                    exists l, In l (l0 :: ls) /\ r = fit (row_cells l) m /\
                              length (row_cells l) <= m) as Horigin.
  { intros r [<-|Hr]; [exists l0; split; [now left | split; [reflexivity | exact Hfirst]]|].
    rewrite map_map in Hr. apply in_map_iff in Hr. destruct Hr as [l [<- Hl]].
    exists l. split; [now right|]. split; [reflexivity|].
    apply Hrest. now apply in_map, in_map. }
  assert (forall r, In r fixed -> length r = m /\ Forall good_cell r) as Hfixed.
  { intros r Hr. destruct (Horigin r Hr) as [l [_ [-> Hlen]]].
    split; [now apply fit_width|].
    apply fit_forall; [apply Claude37_round_5_rows.good_cell_nil | exact Hlen
                      | apply row_cells_good]. }
  assert (Forall (fun l => no_linebreak l = true) block ->
          forall r, In r fixed -> Forall (fun c => no_linebreak c = true) r) as Hnl.
  { intros Hb r Hr. destruct (Horigin r Hr) as [l [Hl [-> Hlen]]].
    apply fit_forall; [reflexivity | exact Hlen|].
    apply row_cells_no_linebreak.
    assert (Forall (fun l => no_linebreak l = true) (l0 :: ls)) as Hmerged.
    { rewrite <- Em. unfold merged, merge_block.
      apply merge_loop_no_linebreak; [exact Hb | constructor]. }
    exact (proj1 (Forall_forall _ _) Hmerged l Hl). }
  set (keep := (1 <? length fixed) && is_divider_row (nth 1 fixed [])).
  set (second := if keep then nth 1 fixed [] else repeat dashes3 m).
  set (data := filter (fun r => negb (is_divider_row r))
                      (skipn (if keep then 2 else 1) fixed)).
  exists m, (fit (row_cells l0) m), second, data.
  split; [exact Hm|]. split; [reflexivity|].
  assert (is_divider_row second = true /\
          (length second = m /\ Forall good_cell second) /\
          (Forall (fun l => no_linebreak l = true) block ->
           Forall (fun c => no_linebreak c = true) second)) as [Hdiv [Hsec Hsecnl]].
  { unfold second. destruct keep eqn:Ek.
    - unfold keep in Ek. apply andb_true_iff in Ek. destruct Ek as [Hlen Hd].
      apply Nat.ltb_lt in Hlen.
      assert (In (nth 1 fixed []) fixed) as Hin by now apply nth_In.
      split; [exact Hd|]. split; [now apply Hfixed|]. intros Hb. now apply Hnl.
    - split; [apply dashes_divider|]. split.
      + split; [apply repeat_length | apply O1_pro_round_5_valid.separator_good].
      + intros _. apply Forall_forall. intros c Hc. apply repeat_spec in Hc. now subst c. }
  assert (forall r, In r data -> In r fixed /\ is_divider_row r = false) as Hdata.
  { intros r Hr. unfold data in Hr. apply filter_In in Hr. destruct Hr as [Hr Hd].
    split; [now apply in_skipn in Hr | now apply negb_true_iff in Hd]. }
  split; [|split; [exact Hdiv|split]].
  - constructor; [apply Hfixed; now left|]. constructor; [exact Hsec|].
    apply Forall_forall. intros r Hr. apply Hfixed. now apply Hdata.
  - apply Forall_forall. intros r Hr. now apply Hdata.
  - intros Hb. constructor; [apply (Hnl Hb); now left|].
    constructor; [now apply Hsecnl|].
    apply Forall_forall. intros r Hr. apply (Hnl Hb). now apply Hdata.
Qed.

(** Such rows come back as they are. *)
Lemma process_again m hdr second (data : list (list str)) :
  1 <= m ->
  Forall (fun r => length r = m /\ Forall good_cell r) (hdr :: second :: data) ->
  is_divider_row second = true ->
  Forall (fun r => is_divider_row r = false) data ->
  process_table_block (map pipe_row (hdr :: second :: data)) =
  Ok (map pipe_row (hdr :: second :: data)).
Proof.
  intros Hm Hrows Hdiv Hdata.
  set (rows := hdr :: second :: data) in *.
  assert (forall r, In r rows -> r <> [] /\ Forall good_cell r /\ length r = m) as Hr.
  { intros r Hin. destruct (proj1 (Forall_forall _ _) Hrows r Hin) as [Hlen Hg].
    split; [|split; assumption]. intros ->. cbn in Hlen. lia. }
  unfold process_table_block.
  assert (merge_block (map pipe_row rows) = map pipe_row rows) as ->.
  { unfold merge_block. rewrite merge_loop_rows.
    - cbn [app]. rewrite map_map. apply map_ext. intros r. apply pipe_row_rstrip.
    - apply Forall_forall. intros l Hl. apply in_map_iff in Hl.
      destruct Hl as [r [<- _]]. apply pipe_row_pipe. }
  assert (map row_cells (map pipe_row rows) = rows) as ->.
  { rewrite map_map. rewrite <- (map_id rows) at 2. apply map_ext_in.
    intros r Hin. destruct (Hr r Hin) as [Hne [Hg _]]. now apply row_cells_pipe_row. }
  unfold rows at 1 2. cbn [truthy map py_max bind].
  assert (fold_left Nat.max (length second :: map (@length str) data) (length hdr) = m) as ->.
  { change (length second :: map (@length str) data)
      with (map (@length str) (second :: data)).
    rewrite (proj2 (proj2 (Hr hdr (or_introl eq_refl)))).
    apply Grok3_round_1_rebuilt.fold_max_same. apply Forall_forall. intros x Hx.
    apply in_map_iff in Hx. destruct Hx as [r [<- Hin]].
    apply (Hr r). now right. }
  assert (map (fun r => fit r m) rows = rows) as ->.
  { rewrite <- (map_id rows) at 2. apply map_ext_in. intros r Hin.
    destruct (Hr r Hin) as [_ [_ <-]]. apply fit_same. }
  unfold rows. cbn [length nth Nat.ltb Nat.leb andb]. rewrite Hdiv. cbn [skipn].
  do 4 f_equal. apply Claude37_round_5_repaired.filter_all.
  eapply Forall_impl; [|exact Hdata]. intros r Hd. now rewrite Hd.
Qed.

Lemma pipe_rows_block (rows : list (list str)) :
  Forall (fun l => contains PIPE l = true) (map pipe_row rows) /\
  (Forall (fun r => Forall (fun c => no_linebreak c = true) r) rows ->
   Forall (fun l => no_linebreak l = true) (map pipe_row rows)).
Proof.
  split.
  - apply Forall_forall. intros l Hl. apply in_map_iff in Hl.
    destruct Hl as [r [<- _]]. apply pipe_row_pipe.
  - intros H. apply Forall_forall. intros l Hl. apply in_map_iff in Hl.
    destruct Hl as [r [<- Hr]]. apply pipe_row_no_linebreak.
    exact (proj1 (Forall_forall _ _) H r Hr).
Qed.

(** A block is rebuilt into rows that the rebuilding keeps. *)
Lemma block_twice l run :
  contains PIPE l = true ->
  Forall (fun x => no_linebreak x = true) (l :: run) ->
  exists f1 ft,
    process_table_block (l :: run) = Ok (f1 :: ft) /\
    process_table_block (f1 :: ft) = Ok (f1 :: ft) /\
    Forall (fun x => contains PIPE x = true) (f1 :: ft) /\
    Forall (fun x => no_linebreak x = true) (f1 :: ft).
Proof.
  intros Hl Hnl.
  destruct (process_rows (l :: run) (@merge_block_first l run Hl))
    as [m [hdr [second [data [Hm [E [Hrows [Hdiv [Hdata Hcells]]]]]]]]].
  exists (pipe_row hdr), (map pipe_row (second :: data)).
  split; [exact E|].
  split; [exact (@process_again m hdr second data Hm Hrows Hdiv Hdata)|].
  destruct (pipe_rows_block (hdr :: second :: data)) as [Hp Hn].
  split; [exact Hp | exact (Hn (Hcells Hnl))].
Qed.

(** ** The loop, block by block *)

Lemma scan_prefix_out lines :
  forall a out block,
    scan lines (a ++ out) block = (r <- scan lines out block ;; Ok (a ++ r)).
Proof.
  induction lines as [|l lines IH]; intros a out block; cbn [scan].
  - destruct (truthy block); [|reflexivity].
    destruct (process_table_block block); cbn [bind]; [|reflexivity].
    now rewrite app_assoc.
  - destruct (truthy block).
    + destruct (contains PIPE l || (truthy (strip l) && negb (contains PIPE l)));
        [apply IH|].
      destruct (process_table_block block); cbn [bind]; [|reflexivity].
      rewrite <- IH. now rewrite !app_assoc.
    + destruct (contains PIPE l); [apply IH|].
      rewrite <- IH. now rewrite app_assoc.
Qed.

Lemma scan_plain_line l rest :
  contains PIPE l = false ->
  scan (l :: rest) [] [] = (r <- scan rest [] [] ;; Ok (l :: r)).
Proof.
  intros H. cbn [scan truthy]. rewrite H. cbn [app].
  change [l] with ([l] ++ []). now rewrite scan_prefix_out.
Qed.

Lemma scan_block_run run :
  Forall (fun l => continues l = true) run ->
  forall rest out block,
    block <> [] -> scan (run ++ rest) out block = scan rest out (block ++ run).
Proof.
  induction 1 as [|l run Hl _ IH]; intros rest out block Hne; cbn [app scan].
  - now rewrite app_nil_r.
  - destruct block as [|b block]; [congruence|]. cbn [truthy].
    unfold continues in Hl. rewrite Hl.
    rewrite IH by (destruct block; discriminate).
    now rewrite <- app_assoc.
Qed.

Lemma block_run_continues rest :
  Forall (fun l => continues l = true) (takewhile continues rest).
Proof.
  apply Forall_forall. intros x Hx.
  exact (proj1 (forallb_forall _ _) (takewhile_all continues rest) x Hx).
Qed.

(** A line with a pipe opens a block, which goes on until a blank line. *)
Lemma scan_block l rest :
  contains PIPE l = true ->
  scan (l :: rest) [] [] =
  (f <- process_table_block (l :: takewhile continues rest) ;;
   match dropwhile continues rest with
   | [] => Ok f
   | d :: rest' => r <- scan rest' [] [] ;; Ok (f ++ d :: r)
   end).
Proof.
  intros Hl. cbn [scan truthy]. rewrite Hl.
  rewrite <- (takewhile_dropwhile continues rest) at 1.
  rewrite (scan_block_run (block_run_continues rest)) by discriminate. cbn [app].
  destruct (dropwhile continues rest) as [|d rest'] eqn:Ed; cbn [scan truthy].
  - destruct (process_table_block _); reflexivity.
  - pose proof (dropwhile_head _ _ Ed) as Hd. unfold continues in Hd. rewrite Hd.
    destruct (process_table_block _) as [f|]; cbn [bind app]; [|reflexivity].
    rewrite <- (app_nil_r (f ++ [d])), scan_prefix_out.
    destruct (scan rest' [] []); cbn [bind]; [|reflexivity].
    now rewrite <- app_assoc.
Qed.

Lemma pipe_line_continues l : contains PIPE l = true -> continues l = true.
Proof. intros H. unfold continues. now rewrite H. Qed.

Lemma span_block_run run rest :
  Forall (fun x => contains PIPE x = true) run ->
  match rest with [] => True | d :: _ => continues d = false end ->
  takewhile continues (run ++ rest) = run /\
  dropwhile continues (run ++ rest) = rest.
Proof.
  intros Hrun Hend.
  assert (forallb continues run = true) as Hb.
  { apply forallb_forall. rewrite Forall_forall in Hrun. intros x Hx.
    apply pipe_line_continues. auto. }
  destruct rest as [|d rest].
  - rewrite app_nil_r. split; [now apply takewhile_all_id | now apply dropwhile_all].
  - split; [now apply takewhile_app_stop | now apply dropwhile_app_stop].
Qed.

(** The lines of the result are a fixed point of the repair. *)
Lemma lines_repaired_twice n :
  forall lines,
    length lines <= n ->
    Forall (fun l => no_linebreak l = true) lines ->
    exists out,
      scan lines [] [] = Ok out /\ scan out [] [] = Ok out /\
      Forall (fun l => no_linebreak l = true) out /\
      (lines <> [] -> out <> []) /\
      (last lines [LF] <> [] -> last out [LF] <> []).
Proof.
  induction n as [|n IH]; intros lines Hlen Hnl.
  - destruct lines; [|cbn in Hlen; lia].
    exists []. repeat split; auto; constructor.
  - destruct lines as [|l rest].
    { exists []. repeat split; auto; constructor. }
    cbn [length] in Hlen. inversion Hnl as [|? ? Hl Hrest]; subst.
    destruct (contains PIPE l) eqn:Hp.
    + (* a block *)
      pose proof (takewhile_dropwhile continues rest) as Hsplit.
      assert (Forall (fun x => no_linebreak x = true)
                     (takewhile continues rest ++ dropwhile continues rest))
        as Hnl2 by now rewrite Hsplit.
      apply Forall_app in Hnl2. destruct Hnl2 as [Hnlrun Hnlrest].
      destruct (@block_twice l (takewhile continues rest) Hp (Forall_cons _ Hl Hnlrun))
        as [f1 [ft [Ef [Eagain [Hfp Hnlf]]]]].
      inversion Hfp as [|? ? Hf1 Hft]; subst.
      rewrite scan_block, Ef by assumption. cbn [bind].
      destruct (dropwhile continues rest) as [|d rest'] eqn:Ed.
      * exists (f1 :: ft). split; [reflexivity|]. split.
        { rewrite scan_block by assumption.
          destruct (@span_block_run ft [] Hft I) as [Et Ed']. rewrite app_nil_r in Et, Ed'.
          rewrite Et, Ed', Eagain. reflexivity. }
        split; [assumption|]. split; [discriminate|].
        intros _. apply O1_pro_round_5_document.pipe_line_nonempty.
        apply (proj1 (Forall_forall _ _) Hfp).
        apply Claude37_round_5_twice.last_in. discriminate.
      * pose proof (dropwhile_head _ _ Ed) as Hd.
        inversion Hnlrest as [|? ? Hnld Hnlrest']; subst.
        destruct (IH rest') as [out' [E' [Eout' [Hnl' [Hne' Hlast']]]]];
          [|assumption |].
        { pose proof (Claude37_round_5_twice.length_dropwhile continues rest) as Hle.
          rewrite Ed in Hle. cbn [length] in Hle. lia. }
        rewrite E'. cbn [bind]. exists ((f1 :: ft) ++ d :: out').
        split; [reflexivity|]. split.
        { cbn [app]. rewrite scan_block by assumption.
          destruct (@span_block_run ft (d :: out') Hft Hd) as [-> ->].
          rewrite Eagain. cbn [bind]. rewrite Eout'. reflexivity. }
        split; [apply Forall_app; split; [assumption | now constructor]|].
        split; [discriminate|].
        intros Hlast. rewrite Claude37_round_5_twice.last_app_r by discriminate.
        rewrite <- Hsplit in Hlast.
        change (l :: takewhile continues rest ++ d :: rest')
          with ((l :: takewhile continues rest) ++ d :: rest') in Hlast.
        rewrite Claude37_round_5_twice.last_app_r in Hlast by discriminate.
        destruct rest' as [|r rest'].
        -- cbn in E'. injection E' as <-. exact Hlast.
        -- specialize (Hne' ltac:(discriminate)).
           change (d :: out') with ([d] ++ out').
           rewrite Claude37_round_5_twice.last_app_r by assumption.
           apply Hlast'. change (d :: r :: rest') with ([d] ++ r :: rest') in Hlast.
           rewrite Claude37_round_5_twice.last_app_r in Hlast by discriminate.
           exact Hlast.
    + (* a line outside a table *)
      destruct (IH rest) as [out' [E' [Eout' [Hnl' [Hne' Hlast']]]]];
        [lia | assumption |].
      exists (l :: out').
      split; [rewrite scan_plain_line, E' by assumption; reflexivity|].
      split; [rewrite scan_plain_line, Eout' by assumption; reflexivity|].
      split; [constructor; assumption|].
      split; [discriminate|].
      intros Hlast. destruct rest as [|r rest].
      * cbn in E'. injection E' as <-. exact Hlast.
      * specialize (Hne' ltac:(discriminate)).
        change (l :: out') with ([l] ++ out').
        rewrite Claude37_round_5_twice.last_app_r by assumption.
        apply Hlast'. change (l :: r :: rest) with ([l] ++ r :: rest) in Hlast.
        rewrite Claude37_round_5_twice.last_app_r in Hlast by discriminate. exact Hlast.
Qed.

(** ** Continuation lines *)

Lemma rstrip_app_trimmed a t : trimmed t -> t <> [] -> rstrip (a ++ t) = a ++ t.
Proof.
  intros Ht Hne. destruct (exists_last Hne) as [t' [y ->]].
  assert (isspace y = false) as Hy.
  { destruct (t' ++ [y]) as [|x u] eqn:E; [now destruct t'|].
    destruct Ht as [_ Ht]. rewrite <- E, last_snoc in Ht. exact Ht. }
  rewrite app_assoc. now apply rstrip_snoc_keep.
Qed.

Lemma merge_loop_joined a :
  forall merged l c b,
    contains PIPE l = true -> contains PIPE c = false -> strip c <> [] ->
    merge_loop (a ++ l :: c :: b) merged =
    merge_loop (a ++ (rstrip l ++ [SPACE] ++ strip c) :: b) merged.
Proof.
  induction a as [|x a IH]; intros merged l c b Hl Hc Hs; cbn [app merge_loop].
  - rewrite Hl, Hc.
    assert (contains PIPE (rstrip l ++ SPACE :: strip c) = true) as ->
        by now rewrite contains_app, rstrip_no_pipe_iff, Hl.
    assert (truthy (merged ++ [rstrip l]) && truthy (strip c) = true) as ->.
    { destruct merged, (strip c); [congruence | reflexivity | congruence | reflexivity]. }
    unfold append_to_last. rewrite removelast_last, last_last.
    change (rstrip l ++ SPACE :: strip c) with (rstrip l ++ [SPACE] ++ strip c).
    rewrite (app_assoc (rstrip l)).
    rewrite (rstrip_app_trimmed (rstrip l ++ [SPACE]) (strip_is_trimmed c) Hs).
    now rewrite <- app_assoc.
  - destruct (contains PIPE x); [now apply IH|].
    destruct (truthy merged && truthy (strip x)); now apply IH.
Qed.

Lemma process_joined a l c b :
  contains PIPE l = true -> contains PIPE c = false -> strip c <> [] ->
  process_table_block (a ++ l :: c :: b) =
  process_table_block (a ++ (rstrip l ++ [SPACE] ++ strip c) :: b).
Proof.
  intros Hl Hc Hs. unfold process_table_block, merge_block.
  now rewrite (@merge_loop_joined a [] l c b Hl Hc Hs).
Qed.

Lemma scan_joined_block l c :
  contains PIPE l = true -> contains PIPE c = false -> strip c <> [] ->
  forall rest out a b,
    scan rest out (a ++ l :: c :: b) =
    scan rest out (a ++ (rstrip l ++ [SPACE] ++ strip c) :: b).
Proof.
  intros Hl Hc Hs. induction rest as [|x rest IH]; intros out a b; cbn [scan].
  - assert (truthy (a ++ l :: c :: b) = true) as -> by now destruct a.
    assert (truthy (a ++ (rstrip l ++ [SPACE] ++ strip c) :: b) = true) as ->
        by now destruct a.
    now rewrite (@process_joined a l c b Hl Hc Hs).
  - assert (truthy (a ++ l :: c :: b) = true) as -> by now destruct a.
    assert (truthy (a ++ (rstrip l ++ [SPACE] ++ strip c) :: b) = true) as ->
        by now destruct a.
    rewrite (@process_joined a l c b Hl Hc Hs).
    destruct (contains PIPE x || (truthy (strip x) && negb (contains PIPE x)));
      [|reflexivity].
    rewrite <- !app_assoc. cbn [app]. apply IH.
Qed.

Lemma scan_joined l c :
  contains PIPE l = true -> contains PIPE c = false -> strip c <> [] ->
  forall pre rest out block,
    scan (pre ++ l :: c :: rest) out block =
    scan (pre ++ (rstrip l ++ [SPACE] ++ strip c) :: rest) out block.
Proof.
  intros Hl Hc Hs.
  assert (contains PIPE (rstrip l ++ [SPACE] ++ strip c) = true) as Hj
      by now rewrite contains_app, rstrip_no_pipe_iff, Hl.
  assert (truthy (strip c) = true) as Ht
      by (destruct (strip c); [congruence | reflexivity]).
  induction pre as [|x pre IH]; intros rest out block.
  - rewrite !app_nil_l. cbn [scan]. rewrite Hl, Hj, Hc, Ht. cbn [orb andb negb].
    destruct block as [|b0 block]; cbn [truthy].
    + exact (@scan_joined_block l c Hl Hc Hs rest out [] []).
    + assert (truthy ((b0 :: block) ++ [l]) = true) as -> by reflexivity.
      rewrite <- app_assoc. cbn [app].
      exact (@scan_joined_block l c Hl Hc Hs rest out (b0 :: block) []).
  - rewrite <- !app_comm_cons. cbn [scan]. destruct (truthy block).
    + destruct (contains PIPE x || (truthy (strip x) && negb (contains PIPE x)));
        [apply IH|].
      destruct (process_table_block block); cbn [bind]; [apply IH | reflexivity].
    + destruct (contains PIPE x); apply IH.
Qed.

(** ** No error *)

Lemma process_total block : exists out, process_table_block block = Ok out.
Proof.
  unfold process_table_block.
  destruct (map row_cells (merge_block block)); cbn [truthy py_max bind];
    eexists; reflexivity.
Qed.

Lemma scan_total lines :
  forall out block, exists r, scan lines out block = Ok r.
Proof.
  induction lines as [|l lines IH]; intros out block; cbn [scan].
  - destruct (truthy block); [|eexists; reflexivity].
    destruct (process_total block) as [f ->]. cbn [bind]. eexists; reflexivity.
  - destruct (truthy block).
    + destruct (contains PIPE l || (truthy (strip l) && negb (contains PIPE l)));
        [apply IH|].
      destruct (process_total block) as [f ->]. cbn [bind]. apply IH.
    + destruct (contains PIPE l); apply IH.
Qed.

Lemma scan_leading pre :
  Forall (fun l => contains PIPE l = false) pre ->
  forall rest, scan (pre ++ rest) [] [] = (r <- scan rest [] [] ;; Ok (pre ++ r)).
Proof.
  induction 1 as [|l pre Hl _ IH]; intros rest; cbn [app].
  - destruct (scan rest [] []); reflexivity.
  - rewrite scan_plain_line by assumption. rewrite IH.
    destruct (scan rest [] []); reflexivity.
Qed.

(** ** The rebuilt block, cell by cell *)

Lemma fit_pads r m : length r <= m -> fit r m = r ++ repeat [] (m - length r).
Proof.
  intros H. unfold fit.
  destruct (Nat.ltb_spec (length r) m) as [Hlt|Hge]; [reflexivity|].
  destruct (Nat.ltb_spec m (length r)) as [Hlt|_]; [lia|].
  replace (m - length r) with 0 by lia. cbn [repeat]. now rewrite app_nil_r.
Qed.

Lemma blanks_no_cell k :
  filter (fun c : str => truthy (strip c)) (repeat [] k) = [].
Proof. induction k as [|k IH]; [reflexivity | exact IH]. Qed.

(** Empty cells at the end of a row do not change what [is_divider_row]
    says of it. *)
Lemma is_divider_row_blanks r k :
  is_divider_row (r ++ repeat [] k) = is_divider_row r.
Proof.
  unfold is_divider_row. now rewrite filter_app, blanks_no_cell, app_nil_r.
Qed.

Lemma filter_map_same {A} (p : A -> bool) (f : A -> A) l :
  (forall a, p (f a) = p a) -> filter p (map f l) = map f (filter p l).
Proof.
  intros H. induction l as [|a l IH]; [reflexivity|].
  cbn [map filter]. rewrite H. destruct (p a); cbn [map]; now rewrite IH.
Qed.

Lemma skipn_map_rows {A B} (f : A -> B) n l : skipn n (map f l) = map f (skipn n l).
Proof.
  revert l. induction n as [|n IH]; intros l; [reflexivity|].
  destruct l as [|a l]; [reflexivity|]. cbn [map skipn]. apply IH.
Qed.

(** X24 -- a block, which begins with a line with a pipe, is rebuilt into
    a table of lines [| c1 | ... | cm |] with as many cells each, [m] being
    the largest number of cells of a merged row.  Its rows are the merged
    rows padded with empty cells: the first row; then the second row if that
    is a divider row, and a row of [---] if it is none or there is none; then
    the rows after these that are no divider rows, in order.
    [process_table_block] returns such a table as it is. *)
Theorem block_becomes_table (l : str) (run : list str) :
  contains PIPE l = true ->
  let rows := map row_cells (merge_block (l :: run)) in
  exists m,
    let pad_row := fun r : list str => r ++ repeat [] (m - length r) in
    let keep := (1 <? length rows) && is_divider_row (nth 1 rows []) in
    let second := if keep then pad_row (nth 1 rows []) else repeat dashes3 m in
    let data := map pad_row (filter (fun r => negb (is_divider_row r))
                                    (skipn (if keep then 2 else 1) rows)) in
    let table := pad_row (hd [] rows) :: second :: data in
    py_max (map (@length str) rows) = Ok m /\ 1 <= m /\
    process_table_block (l :: run) = Ok (map pipe_row table) /\
    Forall (fun r => length r = m) table /\
    is_divider_row second = true /\
    Forall (fun r => is_divider_row r = false) data /\
    process_table_block (map pipe_row table) = Ok (map pipe_row table).
Proof.
  intros Hl. cbv zeta.
  pose proof (@merge_block_first l run Hl) as Hne.
  set (merged := merge_block (l :: run)) in *.
  destruct merged as [|l0 ls] eqn:Em; [congruence|]. clear Hne.
  set (rows := map row_cells (l0 :: ls)).
  assert (rows = row_cells l0 :: map row_cells ls) as Erows by reflexivity.
  set (m := fold_left Nat.max (map (@length str) (map row_cells ls))
                      (length (row_cells l0))).
  destruct (Grok3_round_5_prose.fold_max_bounds
              (map (@length str) (map row_cells ls)) (length (row_cells l0)))
    as [Hfirst Hrest]. fold m in Hfirst, Hrest.
  assert (forall r, In r rows -> length r <= m /\ Forall good_cell r) as Hrows.
  { intros r Hr. rewrite Erows in Hr. destruct Hr as [<-|Hr].
    - split; [exact Hfirst | apply row_cells_good].
    - split; [apply Hrest; now apply in_map|].
      apply in_map_iff in Hr. destruct Hr as [x [<- _]]. apply row_cells_good. }
  assert (1 <= m) as Hm by (pose proof (row_cells_length l0); lia).
  set (pad_row := fun r : list str => r ++ repeat [] (m - length r)).
  assert (forall r, In r rows -> fit r m = pad_row r) as Hfit
      by (intros r Hr; apply fit_pads; now apply Hrows).
  assert (map (fun r => fit r m) rows = map pad_row rows) as Efixed
      by now apply map_ext_in.
  assert (forall r, is_divider_row (pad_row r) = is_divider_row r) as Hdiv
      by (intros r; apply is_divider_row_blanks).
  assert (forall r, In r rows -> length (pad_row r) = m /\ Forall good_cell (pad_row r))
    as Hpad.
  { intros r Hr. destruct (Hrows r Hr) as [Hlen Hg]. split.
    - unfold pad_row. rewrite length_app, repeat_length. lia.
    - apply Forall_app. split; [exact Hg|]. apply Forall_forall. intros c Hc.
      apply repeat_spec in Hc. subst c. apply Claude37_round_5_rows.good_cell_nil. }
  set (keep := (1 <? length rows) && is_divider_row (nth 1 rows [])).
  assert ((1 <? length (map pad_row rows)) &&
          is_divider_row (nth 1 (map pad_row rows) []) = keep) as Ekeep.
  { unfold keep. rewrite length_map.
    destruct (Nat.ltb_spec 1 (length rows)) as [Hlt|Hge]; [|reflexivity].
    cbn [andb]. rewrite (nth_indep _ [] (pad_row []) ) by now rewrite length_map.
    now rewrite map_nth, Hdiv. }
  assert (keep = true -> nth 1 (map pad_row rows) [] = pad_row (nth 1 rows []) /\
                         In (nth 1 rows []) rows) as Hnth.
  { intros Hk. unfold keep in Hk. apply andb_true_iff in Hk. destruct Hk as [Hlt _].
    apply Nat.ltb_lt in Hlt. split; [|now apply nth_In].
    rewrite (nth_indep _ [] (pad_row [])) by now rewrite length_map.
    apply map_nth. }
  set (second := if keep then pad_row (nth 1 rows []) else repeat dashes3 m).
  set (data := map pad_row (filter (fun r => negb (is_divider_row r))
                                   (skipn (if keep then 2 else 1) rows))).
  assert (process_table_block (l :: run) =
          Ok (map pipe_row (pad_row (hd [] rows) :: second :: data))) as E.
  { unfold process_table_block. cbv zeta. fold merged. rewrite Em. fold rows.
    replace (truthy rows) with true by reflexivity.
    replace (py_max (map (@length str) rows)) with (Ok m) by reflexivity.
    cbn [bind]. rewrite Efixed, Ekeep.
    assert (forall (fx : list (list str)) sec dat,
               fx <> [] ->
               match fx with [] => [] | header :: _ => header :: sec :: dat end =
               hd [] fx :: sec :: dat) as Hmatch
        by (intros [|x fx] sec dat H; [congruence | reflexivity]).
    rewrite Hmatch by (rewrite Erows; discriminate).
    f_equal. f_equal.
    assert (hd [] (map pad_row rows) = pad_row (hd [] rows)) as -> by reflexivity.
    f_equal. f_equal.
    - unfold second. destruct keep eqn:Ek; [|reflexivity]. now apply Hnth.
    - unfold data. rewrite skipn_map_rows.
      apply filter_map_same. intros r. now rewrite Hdiv. }
  assert (is_divider_row second = true /\
          length second = m /\ Forall good_cell second) as [Hsd [Hsl Hsg]].
  { unfold second. destruct keep eqn:Ek.
    - destruct (Hnth eq_refl) as [_ Hin]. destruct (Hpad _ Hin) as [H1 H2].
      split; [|split; assumption]. rewrite Hdiv.
      unfold keep in Ek. now apply andb_true_iff in Ek.
    - split; [apply dashes_divider|].
      split; [apply repeat_length | apply O1_pro_round_5_valid.separator_good]. }
  assert (forall r, In r data ->
                    is_divider_row r = false /\ length r = m /\ Forall good_cell r)
    as Hdata.
  { intros r Hr. unfold data in Hr. apply in_map_iff in Hr.
    destruct Hr as [r0 [<- Hr0]]. apply filter_In in Hr0. destruct Hr0 as [Hin Hnd].
    apply in_skipn in Hin. destruct (Hpad r0 Hin) as [H1 H2].
    split; [|split; assumption]. rewrite Hdiv. now apply negb_true_iff. }
  assert (In (hd [] rows) rows) as Hhd by (rewrite Erows; now left).
  destruct (Hpad _ Hhd) as [Hhl Hhg].
  exists m. split; [rewrite Erows; reflexivity|]. split; [exact Hm|].
  split; [exact E|]. split; [|split; [exact Hsd|split]].
  - constructor; [exact Hhl|]. constructor; [exact Hsl|].
    apply Forall_forall. intros r Hr. now apply Hdata.
  - apply Forall_forall. intros r Hr. now apply Hdata.
  - apply process_again with (m := m); [exact Hm| |exact Hsd|].
    + constructor; [now split|]. constructor; [now split|].
      apply Forall_forall. intros r Hr. destruct (Hdata r Hr) as [_ H]. exact H.
    + apply Forall_forall. intros r Hr. now apply Hdata.
Qed.

Lemma block_becomes_table_witness :
  let l := of_string "a|b" in
  let run := map of_string ["more text"; "---|---"; "1|2|3"; ":--|"; "---"]%string in
  let rows := map row_cells (merge_block (l :: run)) in
  exists m,
    let pad_row := fun r : list str => r ++ repeat [] (m - length r) in
    let keep := (1 <? length rows) && is_divider_row (nth 1 rows []) in
    let second := if keep then pad_row (nth 1 rows []) else repeat dashes3 m in
    let data := map pad_row (filter (fun r => negb (is_divider_row r))
                                    (skipn (if keep then 2 else 1) rows)) in
    let table := pad_row (hd [] rows) :: second :: data in
    py_max (map (@length str) rows) = Ok m /\ 1 <= m /\
    process_table_block (l :: run) = Ok (map pipe_row table) /\
    Forall (fun r => length r = m) table /\
    is_divider_row second = true /\
    Forall (fun r => is_divider_row r = false) data /\
    process_table_block (map pipe_row table) = Ok (map pipe_row table).
Proof.
  apply (@block_becomes_table
           (of_string "a|b")
           (map of_string ["more text"; "---|---"; "1|2|3"; ":--|"; "---"]%string)).
  reflexivity.
Defined.

(** X25 -- a line without a pipe that is not blank and comes right after
    a line with a pipe is read as the end of that line: the text gives what
    it gives with the two lines written as one, [l.rstrip() + ' ' +
    c.strip()].  So a paragraph that follows a table without a blank line
    becomes part of the last cell of the row above it. *)
Theorem continuation_line_joined (pre rest : list str) (l c : str) (x y : str) :
  contains PIPE l = true -> contains PIPE c = false -> strip c <> [] ->
  splitlines x = pre ++ l :: c :: rest ->
  splitlines y = pre ++ (rstrip l ++ [SPACE] ++ strip c) :: rest ->
  fix_invalid_markdown_tables x = fix_invalid_markdown_tables y.
Proof.
  intros Hl Hc Hs Ex Ey. unfold fix_invalid_markdown_tables.
  rewrite Ex, Ey. now rewrite (@scan_joined l c Hl Hc Hs pre rest [] []).
Qed.

Lemma continuation_line_joined_witness :
  fix_invalid_markdown_tables
    (join [LF] (map of_string ["Intro"; "a | b  "; "  and more"; "1 | 2"; ""; "end"]%string)) =
  fix_invalid_markdown_tables
    (join [LF] (map of_string ["Intro"; "a | b and more"; "1 | 2"; ""; "end"]%string)).
Proof.
  apply (@continuation_line_joined
           [of_string "Intro"] (map of_string ["1 | 2"; ""; "end"]%string)
           (of_string "a | b  ") (of_string "  and more")).
  - reflexivity.
  - reflexivity.
  - discriminate.
  - vm_compute. reflexivity.
  - vm_compute. reflexivity.
Defined.

(** X26 -- repairing twice is repairing once on every text whose last
    line is not empty: a block ends at a blank line or at the end of the
    text, it becomes rows with a pipe that the next repair gathers again
    and keeps, and the lines outside the blocks are kept. *)
Theorem repaired_text_is_kept (x : str) :
  last (splitlines x) [LF] <> [] ->
  exists y, fix_invalid_markdown_tables x = Ok y /\
            fix_invalid_markdown_tables y = Ok y.
Proof.
  intros Hlast.
  destruct (@lines_repaired_twice (length (splitlines x)) (splitlines x) (Nat.le_refl _)
              (splitlines_no_linebreak x))
    as [out [E [Eout [Hnl [_ Hl]]]]].
  exists (join [LF] out). unfold fix_invalid_markdown_tables.
  rewrite E. cbn [bind]. split; [reflexivity|].
  rewrite splitlines_join by auto. rewrite Eout. reflexivity.
Qed.

Lemma repaired_text_is_kept_witness :
  let x := join [LF] (map of_string
             ["intro"; "a|b"; "more text"; "1|2|3"; ""; "end"; "x|---"]%string)
           ++ [LF] in
  exists y, fix_invalid_markdown_tables x = Ok y /\
            fix_invalid_markdown_tables y = Ok y.
Proof.
  apply (@repaired_text_is_kept
           (join [LF] (map of_string
              ["intro"; "a|b"; "more text"; "1|2|3"; ""; "end"; "x|---"]%string)
            ++ [LF])).
  vm_compute. discriminate.
Defined.

(** X27 -- no text makes [fix_invalid_markdown_tables] raise, and the
    lines before the first line with a pipe are in the result as they are:
    the lines of the result are these lines and then what the other lines
    become on their own. *)
Theorem leading_lines_kept (pre rest : list str) :
  Forall (fun l => contains PIPE l = false) pre ->
  exists out,
    scan rest [] [] = Ok out /\
    forall text, splitlines text = pre ++ rest ->
                 fix_invalid_markdown_tables text = Ok (join [LF] (pre ++ out)).
Proof.
  intros Hpre. destruct (scan_total rest [] []) as [out E]. exists out.
  split; [exact E|]. intros text Et. unfold fix_invalid_markdown_tables.
  rewrite Et, (scan_leading Hpre), E. reflexivity.
Qed.

Lemma leading_lines_kept_witness :
  let pre := map of_string ["Title"; ""; "Some - text"]%string in
  let rest := map of_string ["a|b"; "1|2"]%string in
  exists out,
    scan rest [] [] = Ok out /\
    forall text, splitlines text = pre ++ rest ->
                 fix_invalid_markdown_tables text = Ok (join [LF] (pre ++ out)).
Proof.
  apply (@leading_lines_kept
           (map of_string ["Title"; ""; "Some - text"]%string)
           (map of_string ["a|b"; "1|2"]%string)).
  repeat constructor.
Defined.

End O3_mini_high_round_1_twice.

(* ================================================================== *)
(** * Claude37_round_5: a rebuilt table, read again *)
(* ================================================================== *)

Module Claude37_round_5_styles.
Import Py PyFacts Lines SepPattern Claude37_round_5 Text Claude37_round_5_spec.
Import Claude37_round_5_idem Claude37_round_5_rows Claude37_round_5_repaired.
Import Claude37_round_5_twice.

(** ** One row in a pipe style *)

Lemma rebuild_row_o1 r style :
  r <> [] -> rebuild_row r style = O1_pro_round_5._rebuild_row r style.
Proof. intros H. destruct r; [congruence | reflexivity]. Qed.

Lemma rebuilt_row_pipe r (style : bool * bool) :
  r <> [] -> fst style = true \/ snd style = true \/ 2 <= length r ->
  contains PIPE (rebuild_row r style) = true.
Proof.
  intros Hne H. rewrite rebuild_row_o1 by assumption.
  now apply O1_pro_round_5_text.o1_rebuild_row_pipe.
Qed.

Lemma starts_ok_first (style : bool * bool) r :
  starts_ok style r = true -> fst style = false -> hd [] r <> [].
Proof.
  unfold starts_ok. intros H E. rewrite E in H. cbn [orb] in H. now apply truthy_true.
Qed.

Lemma ends_ok_last (style : bool * bool) r :
  ends_ok style r = true -> snd style = false -> last r [] <> [].
Proof.
  unfold ends_ok. intros H E. rewrite E in H. cbn [orb] in H. now apply truthy_true.
Qed.

(** A row whose ends can be read again parses to its cells. *)
Lemma rebuilt_row_parses r (style : bool * bool) :
  r <> [] -> Forall good_cell r ->
  fst style = true \/ snd style = true \/ 2 <= length r ->
  starts_ok style r = true -> ends_ok style r = true ->
  parse_row (rebuild_row r style) = r.
Proof.
  intros Hne Hg Hp Hs He.
  rewrite Round_5_parsers.claude_o1_parse_row by now apply rebuilt_row_pipe.
  rewrite rebuild_row_o1 by assumption.
  apply O1_pro_round_5_cells.parse_rebuild_cells; try assumption.
  - now apply starts_ok_first.
  - now apply ends_ok_last.
Qed.

(** Such a row ends with a pipe or with the last character of a cell. *)
Lemma rebuilt_row_rstrip r (style : bool * bool) :
  r <> [] -> Forall good_cell r -> ends_ok style r = true ->
  rstrip (rebuild_row r style) = rebuild_row r style.
Proof.
  intros Hne Hg He. rewrite rebuild_row_o1 by assumption.
  unfold O1_pro_round_5._rebuild_row. destruct (snd style) eqn:Et.
  - unfold O1_pro_round_5.tail_pipe.
    change [SPACE; PIPE] with ([SPACE] ++ [PIPE]). rewrite app_assoc.
    apply rstrip_ends_pipe.
  - pose proof (@ends_ok_last style r He Et) as Hlast.
    destruct (exists_last Hlast) as [c [y Ec]].
    destruct (@O1_pro_round_5_cells.join_last_char O1_pro_round_5.cell_sep r c y Hne Ec)
      as [t Et'].
    assert (good_cell (c ++ [y])) as Hgy.
    { rewrite <- Ec. rewrite Forall_forall in Hg. apply Hg. now apply last_in. }
    destruct (O1_pro_round_5_cells.good_cell_last _ _ Hgy) as [Hy _].
    rewrite Et'. destruct (fst style).
    + rewrite app_assoc. now apply rstrip_snoc_keep.
    + now apply rstrip_snoc_keep.
Qed.

Lemma rebuilt_row_no_linebreak r (style : bool * bool) :
  Forall clean_cell r -> no_linebreak (rebuild_row r style) = true.
Proof.
  intros Hall. unfold rebuild_row. destruct (negb (truthy r)); [reflexivity|].
  assert (no_linebreak (join cell_sep r) = true) as Hj.
  { apply no_linebreak_join; [reflexivity|].
    eapply Forall_impl; [|exact Hall]. now intros c [_ Hc]. }
  destruct (fst style), (snd style); rewrite ?no_linebreak_app, ?Hj; reflexivity.
Qed.

(** The style of a rebuilt row is the style it was written in. *)
Lemma rebuilt_row_style r (style : bool * bool) :
  r <> [] -> Forall good_cell r ->
  starts_ok style r = true -> ends_ok style r = true ->
  detect_table_style (rebuild_row r style) = style.
Proof.
  intros Hne Hg Hs He. rewrite rebuild_row_o1 by assumption.
  destruct style as [lead trail]. cbn [fst snd] in *.
  unfold detect_table_style, O1_pro_round_5._rebuild_row. cbn [fst snd].
  assert (lead = false ->
          exists x t, join O1_pro_round_5.cell_sep r = x :: t /\
                      isspace x = false /\ x <> PIPE) as Hx.
  { intros E. pose proof (starts_ok_first (lead, trail) r Hs E) as Hfirst.
    destruct r as [|[|x c] r]; [congruence | now elim Hfirst |].
    destruct (O1_pro_round_5_cells.join_first_char O1_pro_round_5.cell_sep x c r)
      as [t Et].
    inversion Hg as [|? ? Hg0 _]; subst.
    destruct (O1_pro_round_5_cells.good_cell_first Hg0). exists x, t. auto. }
  assert (trail = false ->
          exists t y, join O1_pro_round_5.cell_sep r = t ++ [y] /\
                      isspace y = false /\ y <> PIPE) as Hy.
  { intros E. pose proof (ends_ok_last (lead, trail) r He E) as Hlast.
    destruct (exists_last Hlast) as [c [y Ec]].
    destruct (@O1_pro_round_5_cells.join_last_char O1_pro_round_5.cell_sep r c y Hne Ec)
      as [t Et].
    assert (good_cell (c ++ [y])) as Hgy.
    { rewrite <- Ec. rewrite Forall_forall in Hg. apply Hg. now apply last_in. }
    destruct (O1_pro_round_5_cells.good_cell_last _ _ Hgy). exists t, y. auto. }
  unfold O1_pro_round_5.lead_pipe, O1_pro_round_5.tail_pipe.
  set (j := join O1_pro_round_5.cell_sep r) in *.
  destruct lead, trail.
  - replace (([PIPE; SPACE] ++ j) ++ [SPACE; PIPE])
      with (PIPE :: (SPACE :: j ++ [SPACE]) ++ [PIPE])
      by (cbn [app]; rewrite <- app_assoc; reflexivity).
    rewrite strip_both_pipes. cbn [startswith].
    change (PIPE :: (SPACE :: j ++ [SPACE]) ++ [PIPE])
      with ((PIPE :: SPACE :: j ++ [SPACE]) ++ [PIPE]).
    now rewrite endswith_snoc_pipe.
  - destruct (Hy eq_refl) as [t [y [Ej [Hsy Hpy]]]]. rewrite Ej.
    assert (strip ([PIPE; SPACE] ++ t ++ [y]) = [PIPE; SPACE] ++ t ++ [y]) as ->.
    { apply strip_trimmed.
      change ([PIPE; SPACE] ++ t ++ [y]) with (PIPE :: (SPACE :: t) ++ [y]).
      cbn [trimmed]. split; [reflexivity|].
      change (PIPE :: (SPACE :: t) ++ [y]) with ((PIPE :: SPACE :: t) ++ [y]).
      now rewrite last_snoc. }
    cbn [app startswith].
    change (PIPE :: SPACE :: t ++ [y]) with ((PIPE :: SPACE :: t) ++ [y]).
    rewrite O1_pro_round_5_cells.endswith_last.
    now rewrite (O1_pro_round_5_cells.neq_eqb_false Hpy).
  - destruct (Hx eq_refl) as [x [t [Ej [Hsx Hpx]]]]. rewrite Ej.
    assert (strip ((x :: t) ++ [SPACE; PIPE]) = (x :: t) ++ [SPACE; PIPE]) as ->.
    { apply strip_trimmed. cbn [app trimmed]. split; [assumption|].
      change (x :: t ++ [SPACE; PIPE]) with ((x :: t) ++ [SPACE] ++ [PIPE]).
      rewrite app_assoc. now rewrite last_snoc. }
    cbn [app startswith]. rewrite (O1_pro_round_5_cells.neq_eqb_false Hpx).
    change (x :: t ++ [SPACE; PIPE]) with ((x :: t) ++ [SPACE] ++ [PIPE]).
    rewrite app_assoc. now rewrite endswith_snoc_pipe.
  - destruct (Hx eq_refl) as [x [t [Ej [Hsx Hpx]]]].
    destruct (Hy eq_refl) as [t' [y [Ej' [Hsy Hpy]]]].
    assert (strip j = j) as ->.
    { apply strip_trimmed. rewrite Ej. cbn [trimmed]. split; [assumption|].
      rewrite <- Ej, Ej'. now rewrite last_snoc. }
    rewrite Ej at 1. cbn [startswith].
    rewrite (O1_pro_round_5_cells.neq_eqb_false Hpx).
    rewrite Ej', O1_pro_round_5_cells.endswith_last.
    now rewrite (O1_pro_round_5_cells.neq_eqb_false Hpy).
Qed.

(** ** A row that loses its empty last cell *)

Lemma join_snoc (sep : str) (l : list str) x :
  l <> [] -> join sep (l ++ [x]) = join sep l ++ sep ++ x.
Proof.
  induction l as [|a l IH]; intros Hne; [congruence|].
  destruct l as [|b l]; [reflexivity|].
  change ((a :: b :: l) ++ [x]) with (a :: (b :: l) ++ [x]).
  rewrite join_cons by discriminate. rewrite IH by discriminate.
  rewrite (join_cons sep a (ls := b :: l)) by discriminate.
  now rewrite <- !app_assoc.
Qed.

Lemma rebuilt_row_trailing r0 (style : bool * bool) :
  r0 <> [] -> snd style = false ->
  rstrip (rebuild_row (r0 ++ [[]]) style) = rebuild_row r0 (fst style, true).
Proof.
  intros Hne Et. unfold rebuild_row.
  assert (truthy (r0 ++ [[]]) = true) as -> by now destruct r0.
  assert (truthy r0 = true) as -> by now destruct r0.
  cbn [negb fst snd]. rewrite Et, join_snoc by assumption.
  rewrite app_nil_r. unfold cell_sep, tail_pipe.
  set (j := join [SPACE; PIPE; SPACE] r0).
  set (pre := if fst style then lead_pipe ++ j else j).
  assert ((if fst style then lead_pipe ++ j ++ [SPACE; PIPE; SPACE]
           else j ++ [SPACE; PIPE; SPACE]) = (pre ++ [SPACE; PIPE]) ++ [SPACE]) as ->.
  { unfold pre. destruct (fst style); rewrite <- !app_assoc; reflexivity. }
  rewrite rstrip_app_spaces by reflexivity.
  change [SPACE; PIPE] with ([SPACE] ++ [PIPE]). rewrite app_assoc.
  apply rstrip_ends_pipe.
Qed.

Lemma no_cell_in_blanks k :
  filter (fun c : str => truthy (strip c)) (repeat [] k) = [].
Proof. induction k as [|k IH]; [reflexivity | exact IH]. Qed.

Lemma is_separator_row_blanks r k :
  r <> [] -> is_separator_row (r ++ repeat [] k) = is_separator_row r.
Proof.
  intros Hne. unfold is_separator_row.
  destruct r as [|c r]; [congruence|]. cbn [app truthy negb].
  change (c :: r ++ repeat [] k) with ((c :: r) ++ repeat [] k).
  now rewrite filter_app, no_cell_in_blanks, app_nil_r.
Qed.

Lemma normalize_row_full r : normalize_row r (length r) = r.
Proof. unfold normalize_row. now rewrite Nat.ltb_irrefl. Qed.

Lemma normalize_row_blanks r m :
  length r <= m -> normalize_row r m = r ++ repeat [] (m - length r).
Proof.
  intros H. unfold normalize_row.
  destruct (Nat.ltb_spec (length r) m) as [Hlt|Hge]; [reflexivity|].
  destruct (Nat.ltb_spec m (length r)) as [Hlt|_]; [lia|].
  replace (m - length r) with 0 by lia. cbn [repeat]. now rewrite app_nil_r.
Qed.

(** What a rebuilt row is read as when the block is merged and parsed
    again: the row itself, or the row without its empty last cell, which
    [normalize_row] gives back. *)
Lemma reparse_row (style : bool * bool) m r :
  1 <= m -> clean_row m r ->
  fst style = true \/ snd style = true \/ 2 <= m ->
  starts_ok style r = true ->
  ends_ok style r = true \/ is_separator_row r = false ->
  exists r',
    parse_row (rstrip (rebuild_row r style)) = r' /\ r' <> [] /\
    length r' <= m /\ normalize_row r' m = r /\
    is_separator_row r' = is_separator_row r /\
    contains PIPE (rstrip (rebuild_row r style)) = true /\
    (ends_ok style r = true ->
     r' = r /\ rstrip (rebuild_row r style) = rebuild_row r style).
Proof.
  intros Hm [Hlen Hclean] Hp Hs He.
  assert (r <> []) as Hne by (intros ->; cbn in Hlen; lia).
  assert (Forall good_cell r) as Hg
      by (eapply Forall_impl; [|exact Hclean]; now intros c [Hc _]).
  destruct (ends_ok style r) eqn:Ee.
  - exists r.
    rewrite (@rebuilt_row_rstrip r style Hne Hg Ee).
    assert (fst style = true \/ snd style = true \/ 2 <= length r) as Hp'
        by (rewrite Hlen; exact Hp).
    split; [now apply rebuilt_row_parses|]. split; [exact Hne|].
    split; [lia|]. split; [rewrite <- Hlen; apply normalize_row_full|].
    split; [reflexivity|]. split; [now apply rebuilt_row_pipe|]. auto.
  - destruct He as [He|Hsep]; [discriminate|].
    unfold ends_ok in Ee. apply orb_false_iff in Ee. destruct Ee as [Et Elast].
    apply truthy_false in Elast.
    destruct (exists_last Hne) as [r0 [x Er]]. subst r.
    rewrite last_last in Elast. subst x.
    assert (r0 <> []) as Hne0.
    { intros ->. cbn in Hsep. discriminate. }
    rewrite length_app in Hlen. cbn [length] in Hlen.
    apply Forall_app in Hg. destruct Hg as [Hg0 _].
    exists r0. rewrite (@rebuilt_row_trailing r0 style Hne0 Et).
    assert (starts_ok (fst style, true) r0 = true) as Hs0.
    { unfold starts_ok in *. cbn [fst]. destruct r0; [congruence | exact Hs]. }
    split; [apply rebuilt_row_parses; auto|]. split; [exact Hne0|].
    split; [lia|]. split.
    { rewrite normalize_row_blanks by lia.
      replace (m - length r0) with 1 by lia. reflexivity. }
    split.
    { symmetry. exact (@is_separator_row_blanks r0 1 Hne0). }
    split; [apply rebuilt_row_pipe; auto | discriminate].
Qed.

(** ** The rebuilt table *)

Lemma map_flat_map_rows {A B C} (f : B -> C) (h : B -> list B) (n : A -> B) l :
  map f (flat_map h (map n l)) = flat_map (fun r => map f (h (n r))) l.
Proof.
  induction l as [|a l IH]; [reflexivity|].
  cbn [map flat_map]. now rewrite map_app, IH.
Qed.

Lemma parsed_rows_cons first rest :
  contains PIPE first = true ->
  parsed_rows (first :: rest) = parse_row first :: parsed_rows rest.
Proof. intros H. unfold parsed_rows. cbn [filter]. now rewrite H. Qed.

Lemma max_cols_cons first rest :
  contains PIPE first = true ->
  max_cols (first :: rest) =
  fold_left Nat.max (map (@length str) (parsed_rows rest)) (length (parse_row first)).
Proof. intros H. unfold max_cols. now rewrite parsed_rows_cons. Qed.

(** The lines that [fix_table_block] writes, as rows of cells. *)
Lemma fix_table_block_shape first rest :
  contains PIPE first = true ->
  Forall (fun l => no_linebreak l = true) (first :: rest) ->
  let merged := first :: rest in
  let style := detect_table_style first in
  let m := max_cols merged in
  let s := repeat dashes3 m in
  fix_table_block merged =
  Ok (map (fun r => rebuild_row r style)
          (rebuilt_header merged :: s ::
           flat_map (fun d => if detect_separator_pattern (parsed_rows merged)
                              then [d; s] else [d])
                    (rebuilt_data merged))) /\
  1 <= m /\ (fst style = true \/ snd style = true \/ 2 <= m) /\
  clean_row m (rebuilt_header merged) /\
  Forall (clean_row m) (rebuilt_data merged) /\
  Forall (fun d => is_separator_row d = false) (rebuilt_data merged).
Proof.
  intros Hp Hnl. cbv zeta.
  unfold rebuilt_header, rebuilt_data.
  rewrite (@max_cols_cons first rest Hp), (@parsed_rows_cons first rest Hp). cbn [hd tl].
  set (ps := parsed_rows rest).
  set (m := fold_left Nat.max (map (@length str) ps) (length (parse_row first))).
  destruct (fold_left_max_ge (map (@length str) ps) (length (parse_row first)))
    as [Hm0 Hmx]. fold m in Hm0, Hmx.
  inversion Hnl as [|? ? Hnl0 Hnlrest]; subst.
  assert (forall r, In r ps ->
                    1 <= length r /\ length r <= m /\ Forall clean_cell r) as Hps.
  { intros r Hr. unfold ps, parsed_rows in Hr. apply in_map_iff in Hr.
    destruct Hr as [l [<- Hl]]. apply filter_In in Hl. destruct Hl as [Hin Hpl].
    split; [now apply parse_row_length|]. split.
    - apply Hmx. apply in_map. unfold ps, parsed_rows. apply in_map.
      apply filter_In. auto.
    - apply clean_parse_row. rewrite Forall_forall in Hnlrest. auto. }
  pose proof (parse_row_length first Hp) as Hlen0.
  split; [|split; [lia|split; [|split; [|split]]]].
  - unfold fix_table_block. cbn [getitem nth_error bind].
    change (map parse_row (filter (contains PIPE) (first :: rest)))
      with (parsed_rows (first :: rest)).
    rewrite (@parsed_rows_cons first rest Hp). fold ps.
    cbn [truthy py_max map bind getitem nth_error]. fold m.
    unfold data_lines. cbn [tl map]. do 3 f_equal.
    rewrite (@Claude37_round_3_separator.flat_map_flagged _ _ is_separator_row
               (fun r =>
                  if detect_separator_pattern (parse_row first :: ps)
                  then [rebuild_row (normalize_row r m) (detect_table_style first);
                        rebuild_row (repeat dashes3 m) (detect_table_style first)]
                  else [rebuild_row (normalize_row r m) (detect_table_style first)])
               (fun r =>
                  if detect_separator_pattern (parse_row first :: ps)
                  then [rebuild_row (normalize_row r m) (detect_table_style first);
                        rebuild_row (repeat dashes3 m) (detect_table_style first)]
                  else [rebuild_row (normalize_row r m) (detect_table_style first)])
               ps) by reflexivity.
    rewrite map_flat_map_rows. apply flat_map_ext. intros r.
    destruct (detect_separator_pattern (parse_row first :: ps)); reflexivity.
  - unfold detect_table_style. cbn [fst snd].
    destruct (startswith PIPE (strip first)) eqn:Es; [now left|].
    destruct (endswith PIPE (strip first)) eqn:Ee; [right; now left|].
    right. right.
    pose proof (O1_pro_round_5_text.o1_parse_row_inner_pipe first Hp Es Ee) as H2.
    rewrite <- (Round_5_parsers.claude_o1_parse_row first Hp) in H2. lia.
  - apply clean_normalize; [exact Hm0 | now apply clean_parse_row].
  - apply Forall_forall. intros d Hd. apply in_map_iff in Hd.
    destruct Hd as [r [<- Hr]]. apply filter_In in Hr. destruct Hr as [Hr _].
    destruct (Hps r Hr) as [_ [Hle Hc]]. now apply clean_normalize.
  - apply Forall_forall. intros d Hd. apply in_map_iff in Hd.
    destruct Hd as [r [<- Hr]]. apply filter_In in Hr. destruct Hr as [Hr Hsep].
    destruct (Hps r Hr) as [H1 [Hle _]]. apply negb_true_iff in Hsep.
    rewrite normalize_row_blanks by assumption.
    rewrite is_separator_row_blanks; [exact Hsep|].
    intros ->. cbn in H1. lia.
Qed.

(** ** The layout, found again *)

Lemma separator_indices_cons (x : list str) l i :
  map fst (filter (fun ir : nat * list str => is_separator_row (snd ir))
                  (combine (seq i (length (x :: l))) (x :: l))) =
  (if is_separator_row x then [i] else []) ++
  map fst (filter (fun ir : nat * list str => is_separator_row (snd ir))
                  (combine (seq (S i) (length l)) l)).
Proof.
  cbn [length seq combine filter snd]. now destruct (is_separator_row x).
Qed.

Lemma separator_indices_none (data : list (list str)) :
  Forall (fun d => is_separator_row d = false) data ->
  forall i,
    map fst (filter (fun ir : nat * list str => is_separator_row (snd ir))
                    (combine (seq i (length data)) data)) = [].
Proof.
  induction 1 as [|d data Hd _ IH]; intros i; [reflexivity|].
  rewrite separator_indices_cons, Hd. apply IH.
Qed.

Lemma separator_indices_each (s : list str) (data : list (list str)) :
  is_separator_row s = true ->
  Forall (fun d => is_separator_row d = false) data ->
  forall i, Nat.even i = true ->
    let idx :=
      map fst (filter (fun ir : nat * list str => is_separator_row (snd ir))
                      (combine (seq i (length (flat_map (fun d => [d; s]) data)))
                               (flat_map (fun d => [d; s]) data))) in
    length idx = length data /\ filter Nat.odd idx = idx.
Proof.
  intros Hs. induction 1 as [|d data Hd _ IH]; intros i Hi; cbv zeta.
  - split; reflexivity.
  - cbn [flat_map app]. rewrite separator_indices_cons, Hd. cbn [app].
    rewrite separator_indices_cons, Hs. cbn [app length filter].
    assert (Nat.odd (S i) = true) as -> by (rewrite Nat.odd_succ; exact Hi).
    destruct (IH (S (S i))) as [Hlen Hodd]; [now rewrite Nat.even_succ_succ|].
    cbv zeta in Hlen, Hodd. rewrite Hlen, Hodd. split; reflexivity.
Qed.

Lemma length_each {A} (s : A) (data : list A) :
  length (flat_map (fun d => [d; s]) data) = 2 * length data.
Proof. induction data as [|d data IH]; [reflexivity|]. cbn [flat_map app length]. lia. Qed.

(** The layout of a table that was written with a separator row after the
    header and, in the layout with a separator after each row, after each
    data row. *)
Lemma detect_again (h s : list str) (data : list (list str)) (rep : bool) :
  is_separator_row s = true ->
  Forall (fun d => is_separator_row d = false) data ->
  data <> [] ->
  rep = true \/ is_separator_row h = false \/ 5 <= length data ->
  detect_separator_pattern
    (h :: s :: flat_map (fun d => if rep then [d; s] else [d]) data) = rep.
Proof.
  intros Hs Hdata Hne Hcase.
  assert (1 <= length data) as Hk by (destruct data; [congruence | cbn; lia]).
  unfold detect_separator_pattern, enumerate.
  rewrite separator_indices_cons, separator_indices_cons, Hs.
  destruct rep.
  - destruct (@separator_indices_each s data Hs Hdata 2 eq_refl) as [Hlen Hodd].
    cbv zeta in Hlen, Hodd.
    set (idx := map fst (filter (fun ir : nat * list str => is_separator_row (snd ir))
                                (combine (seq 2 (length (flat_map (fun d => [d; s]) data)))
                                         (flat_map (fun d => [d; s]) data)))) in *.
    cbn [length]. rewrite length_each.
    destruct (Nat.ltb_spec (S (S (2 * length data))) 3) as [Hlt|_]; [lia|].
    assert (filter Nat.odd ((if is_separator_row h then [0] else []) ++ [1] ++ idx) =
            1 :: idx) as ->.
    { destruct (is_separator_row h); cbn [app filter Nat.odd Nat.even negb];
        now rewrite Hodd. }
    rewrite length_app. cbn [app length]. rewrite Hlen.
    destruct (Nat.leb_spec (length (if is_separator_row h then [0] else []) +
                            S (length data)) 1) as [Hle|_]; [lia|].
    apply Nat.leb_le.
    assert ((S (S (2 * length data)) - 1) / 2 = length data) as ->.
    { replace (S (S (2 * length data)) - 1) with (1 + length data * 2) by lia.
      rewrite Nat.div_add by lia. reflexivity. }
    lia.
  - assert (flat_map (fun d : list str => [d]) data = data) as ->.
    { clear. induction data as [|d data IH]; [reflexivity|].
      cbn [flat_map app]. now rewrite IH. }
    rewrite (separator_indices_none Hdata). cbn [length].
    destruct (Nat.ltb_spec (S (S (length data))) 3) as [Hlt|_]; [lia|].
    destruct Hcase as [Hc|[Hc|Hc]]; [discriminate | now rewrite Hc |].
    destruct (is_separator_row h); [|reflexivity].
    cbn [app length Nat.leb filter Nat.odd Nat.even negb].
    apply Nat.leb_gt.
    assert (3 <= (S (S (length data)) - 1) / 2); [|lia].
    replace (S (S (length data)) - 1) with ((length data - 5) + 3 * 2) by lia.
    rewrite Nat.div_add by lia. lia.
Qed.

(** ** The rebuilt table, processed again *)

Lemma fold_max_reached l m :
  (forall x, In x l -> x <= m) -> In m l -> fold_left Nat.max l 0 = m.
Proof.
  intros Hle Hin.
  destruct (fold_left_max_ge l 0) as [_ Hge].
  assert (forall a, a <= m -> fold_left Nat.max l a <= m) as Hup.
  { clear Hin Hge. induction l as [|y l IH]; intros a Ha; cbn [fold_left]; [exact Ha|].
    apply IH; [intros x Hx; apply Hle; now right|].
    pose proof (Hle y (or_introl eq_refl)). lia. }
  pose proof (Hge m Hin). pose proof (Hup 0 ltac:(lia)). lia.
Qed.

Lemma map_each {A B} (f : A -> B) (s : A) (rep : bool) (data : list A) :
  map f (flat_map (fun d => if rep then [d; s] else [d]) data) =
  flat_map (fun d => if rep then [d; f s] else [d]) (map f data).
Proof.
  induction data as [|d data IH]; [reflexivity|].
  cbn [flat_map map]. rewrite map_app, IH. now destruct rep.
Qed.

Lemma filter_each (s : list str) (rep : bool) (data : list (list str)) :
  is_separator_row s = true ->
  Forall (fun d => is_separator_row d = false) data ->
  filter (fun r => negb (is_separator_row r))
         (flat_map (fun d => if rep then [d; s] else [d]) data) = data.
Proof.
  intros Hs. induction 1 as [|d data Hd _ IH]; [reflexivity|].
  cbn [flat_map]. rewrite filter_app, IH.
  destruct rep; cbn [filter]; rewrite Hd, ?Hs; reflexivity.
Qed.

Lemma rstrip_no_linebreak l : no_linebreak l = true -> no_linebreak (rstrip l) = true.
Proof. intros H. eapply no_linebreak_incl; [apply rstrip_incl | exact H]. Qed.

Lemma starts_ok_dashes (style : bool * bool) m :
  1 <= m -> starts_ok style (repeat dashes3 m) = true /\
            ends_ok style (repeat dashes3 m) = true.
Proof.
  intros Hm. destruct m as [|m]; [lia|]. unfold starts_ok, ends_ok.
  split; [cbn [repeat hd]; now rewrite orb_true_r|].
  assert (last (repeat dashes3 (S m)) [] = dashes3) as ->.
  { assert (In (last (repeat dashes3 (S m)) []) (repeat dashes3 (S m))) as Hin
        by (apply last_in; discriminate).
    now apply repeat_spec in Hin. }
  now rewrite orb_true_r.
Qed.

(** A table that was written by the repair and is read again as it was
    written is returned as it is. *)
Lemma rebuilt_table_again (style : bool * bool) m h (data : list (list str))
    (rep : bool) :
  1 <= m -> fst style = true \/ snd style = true \/ 2 <= m ->
  clean_row m h -> Forall (clean_row m) data ->
  Forall (fun d => is_separator_row d = false) data ->
  forallb (starts_ok style) (h :: data) = true ->
  ends_ok style h = true ->
  forallb (ends_ok style) data = true \/ rep = true \/
  is_separator_row h = false \/ 5 <= length data ->
  let s := repeat dashes3 m in
  let rows := h :: s :: flat_map (fun d => if rep then [d; s] else [d]) data in
  let lines := map (fun r => rebuild_row r style) rows in
  process_table_block lines = Ok lines /\
  Forall (fun l => contains PIPE l = true) lines /\
  Forall (fun l => no_linebreak l = true) lines.
Proof.
  intros Hm Hp Hh Hdata Hnonsep Hstarts Hend Hcase s rows lines.
  cbn [forallb] in Hstarts. apply andb_true_iff in Hstarts.
  destruct Hstarts as [Hsh Hsd]. rewrite forallb_forall in Hsd.
  rewrite Forall_forall in Hdata, Hnonsep.
  destruct (starts_ok_dashes style Hm) as [Hss Hse]. fold s in Hss, Hse.
  pose proof (clean_separator m) as Hs. fold s in Hs.
  pose proof (separator_row_dashes Hm) as Hsep. fold s in Hsep.
  (* every row of the table *)
  assert (forall r, In r rows ->
                    clean_row m r /\ starts_ok style r = true /\
                    (ends_ok style r = true \/ is_separator_row r = false)) as Hrows.
  { intros r [<-|[<-|Hr]]; [auto | auto |].
    apply in_flat_map in Hr. destruct Hr as [d [Hd Hr]].
    assert (r = d \/ r = s) as [->| ->]
        by (destruct rep; cbn in Hr; intuition congruence); auto. }
  set (rp := fun r => parse_row (rstrip (rebuild_row r style))).
  assert (forall r, In r rows ->
                    rp r <> [] /\ length (rp r) <= m /\ normalize_row (rp r) m = r /\
                    is_separator_row (rp r) = is_separator_row r /\
                    contains PIPE (rstrip (rebuild_row r style)) = true /\
                    (ends_ok style r = true ->
                     rp r = r /\ rstrip (rebuild_row r style) = rebuild_row r style))
    as Hrp.
  { intros r Hr. destruct (Hrows r Hr) as [Hc [Hst He]].
    destruct (@reparse_row style m r Hm Hc Hp Hst He) as [r' [<- H]]. exact H. }
  assert (forall r, In r rows -> r <> []) as Hne.
  { intros r Hr. destruct (Hrows r Hr) as [[Hlen _] _]. intros ->. cbn in Hlen. lia. }
  assert (Forall (fun l => contains PIPE l = true) lines) as Hpipes.
  { apply Forall_forall. intros l Hl. apply in_map_iff in Hl.
    destruct Hl as [r [<- Hr]]. destruct (Hrows r Hr) as [[Hlen _] _].
    apply rebuilt_row_pipe; [now apply Hne | now rewrite Hlen]. }
  assert (Forall (fun l => no_linebreak l = true) lines) as Hnl.
  { apply Forall_forall. intros l Hl. apply in_map_iff in Hl.
    destruct Hl as [r [<- Hr]]. destruct (Hrows r Hr) as [[_ Hc] _].
    now apply rebuilt_row_no_linebreak. }
  split; [|split; assumption].
  unfold process_table_block. rewrite (merge_pipes Hpipes).
  destruct ((length (map rstrip lines) <? 2) ||
            negb (existsb (contains PIPE) (map rstrip lines))); [reflexivity|].
  destruct (forallb (ends_ok style) data) eqn:Eall.
  - (* every row is read as it was written: the table is valid *)
    assert (forall r, In r rows ->
                      rp r = r /\ rstrip (rebuild_row r style) = rebuild_row r style)
      as Hsame.
    { intros r Hr. apply (Hrp r Hr).
      destruct Hr as [<-|[<-|Hr]]; [assumption | assumption |].
      apply in_flat_map in Hr. destruct Hr as [d [Hd Hr]].
      rewrite forallb_forall in Eall.
      assert (r = d \/ r = s) as [->| ->]
          by (destruct rep; cbn in Hr; intuition congruence); auto. }
    assert (map rstrip lines = lines) as ->.
    { unfold lines. rewrite map_map. apply map_ext_in. intros r Hr.
      now apply Hsame. }
    assert (map parse_row lines = rows) as Hparse.
    { unfold lines. rewrite map_map. rewrite <- (map_id rows) at 2.
      apply map_ext_in. intros r Hr. destruct (Hsame r Hr) as [E1 E2].
      unfold rp in E1. now rewrite E2 in E1. }
    assert (is_valid_table lines = true) as ->; [|reflexivity].
    unfold is_valid_table. rewrite (filter_all _ Hpipes), Hparse.
    change (length lines <? 2) with false. cbv iota.
    unfold rows at 1. rewrite Hsep. cbn [negb].
    apply forallb_forall. intros r Hr. destruct (Hrows r Hr) as [[Hlen _] _].
    destruct Hh as [Hlh _]. apply Nat.eqb_eq. fold rows in Hr. lia.
  - (* a data row lost an empty last cell: the repair writes the same table *)
    destruct (is_valid_table (map rstrip lines)); [reflexivity|].
    assert (data <> []) as Hdne by (intros ->; discriminate).
    destruct Hcase as [Hc|Hcase]; [discriminate|].
    destruct (Hrp h (or_introl eq_refl)) as [_ [_ [_ [Hhsep [_ Hhsame]]]]].
    destruct (Hhsame Hend) as [Eh Ehline].
    destruct (Hrp s (or_intror (or_introl eq_refl))) as [_ [_ [_ [_ [_ Hssame]]]]].
    destruct (Hssame Hse) as [Es _].
    assert (forall d, In d data -> In d rows) as Hin.
    { intros d Hd. right. right. apply in_flat_map. exists d. split; [assumption|].
      destruct rep; now left. }
    set (merged := map rstrip lines).
    assert (merged = rebuild_row h style ::
                     map (fun r => rstrip (rebuild_row r style)) (tl rows)) as Em.
    { unfold merged, lines, rows. cbn [map tl]. rewrite Ehline, !map_map.
      reflexivity. }
    assert (contains PIPE (rebuild_row h style) = true) as Hph.
    { rewrite <- Ehline. apply (Hrp h). now left. }
    assert (Forall (fun l => no_linebreak l = true) merged) as Hmnl.
    { unfold merged. apply Forall_forall. intros l Hl. apply in_map_iff in Hl.
      destruct Hl as [l' [<- Hl']]. apply rstrip_no_linebreak.
      rewrite Forall_forall in Hnl. now apply Hnl. }
    assert (parsed_rows merged = map rp rows) as Eparsed.
    { unfold parsed_rows, merged. rewrite filter_all.
      - unfold lines. now rewrite !map_map.
      - apply Forall_forall. intros l Hl. unfold lines in Hl.
        rewrite map_map in Hl. apply in_map_iff in Hl.
        destruct Hl as [r [<- Hr]]. now apply (Hrp r). }
    assert (map rp rows =
            h :: s :: flat_map (fun d => if rep then [d; s] else [d]) (map rp data))
      as Erows.
    { unfold rows. cbn [map]. rewrite Eh, Es, map_each, Es. reflexivity. }
    assert (Forall (fun d => is_separator_row d = false) (map rp data)) as Hnonsep'.
    { apply Forall_forall. intros d' Hd'. apply in_map_iff in Hd'.
      destruct Hd' as [d [<- Hd]].
      destruct (Hrp d (Hin d Hd)) as [_ [_ [_ [E _]]]]. rewrite E. now apply Hnonsep. }
    assert (max_cols merged = m) as Emax.
    { unfold max_cols. rewrite Eparsed. apply fold_max_reached.
      - intros x Hx. apply in_map_iff in Hx. destruct Hx as [r' [<- Hr']].
        apply in_map_iff in Hr'. destruct Hr' as [r [<- Hr]]. now apply (Hrp r).
      - apply in_map_iff. exists s. split; [apply repeat_length|].
        rewrite Erows. right. now left. }
    assert (rebuilt_header merged = h) as Eheader.
    { unfold rebuilt_header. rewrite Emax, Eparsed, Erows. cbn [hd].
      destruct Hh as [Hlh _]. rewrite <- Hlh. apply normalize_row_full. }
    assert (rebuilt_data merged = data) as Edata.
    { unfold rebuilt_data. rewrite Emax, Eparsed, Erows. cbn [tl filter].
      rewrite Hsep. cbn [negb]. rewrite (@filter_each s rep (map rp data) Hsep Hnonsep').
      rewrite map_map. rewrite <- (map_id data) at 2. apply map_ext_in.
      intros d Hd. now apply (Hrp d (Hin d Hd)). }
    assert (detect_separator_pattern (parsed_rows merged) = rep) as Erep.
    { rewrite Eparsed, Erows. apply detect_again; try assumption.
      - destruct data; [congruence | discriminate].
      - rewrite length_map. tauto. }
    rewrite Em in Hmnl.
    destruct (@fix_table_block_shape (rebuild_row h style)
                (map (fun r => rstrip (rebuild_row r style)) (tl rows)) Hph Hmnl)
      as [E _].
    cbv zeta in E. rewrite <- Em in E.
    rewrite Eheader, Edata, Erep, Emax in E. fold s in E.
    assert (Forall good_cell h) as Hgh.
    { destruct Hh as [_ Hc]. eapply Forall_impl; [|exact Hc]. now intros c [Hg _]. }
    rewrite (@rebuilt_row_style h style (Hne h (or_introl eq_refl)) Hgh Hsh Hend) in E.
    exact E.
Qed.

(** ** A block, twice *)

Lemma flush_current_prefix (a merged : list str) current :
  flush_current (a ++ merged) current = a ++ flush_current merged current.
Proof. destruct current; cbn [flush_current]; [now rewrite app_assoc | reflexivity]. Qed.

Lemma merge_loop_prefix lines :
  forall (a merged : list str) current,
    merge_loop lines (a ++ merged) current = a ++ merge_loop lines merged current.
Proof.
  induction lines as [|l lines IH]; intros a merged current; cbn [merge_loop].
  - apply flush_current_prefix.
  - destruct (contains PIPE l); [rewrite flush_current_prefix; apply IH|].
    destruct (truthy (strip l)).
    + destruct current; apply IH.
    + rewrite flush_current_prefix. apply IH.
Qed.

(** The first merged line of a block is its first line, with the lines that
    continue it: it has a pipe. *)
Lemma merge_loop_head lines :
  forall c, contains PIPE c = true ->
            exists first rest,
              merge_loop lines [] (Some c) = first :: rest /\
              contains PIPE first = true.
Proof.
  induction lines as [|l lines IH]; intros c Hc; cbn [merge_loop flush_current app].
  - exists c, []. auto.
  - destruct (contains PIPE l).
    + change [c] with ([c] ++ []). rewrite merge_loop_prefix.
      eexists. eexists. split; [reflexivity | exact Hc].
    + destruct (truthy (strip l)).
      * apply IH. now rewrite contains_app, Hc.
      * change [c] with ([c] ++ []). rewrite merge_loop_prefix.
        eexists. eexists. split; [reflexivity | exact Hc].
Qed.

Lemma merge_head l run :
  contains PIPE l = true ->
  exists first rest,
    merge_continuation_lines (l :: run) = first :: rest /\
    contains PIPE first = true.
Proof.
  intros Hl. unfold merge_continuation_lines. cbn [merge_loop flush_current].
  rewrite Hl. apply merge_loop_head. now rewrite rstrip_no_pipe_iff.
Qed.

(** What a block becomes is a block again, and is kept when processed
    again. *)
Lemma process_block_twice l run :
  contains PIPE l = true ->
  Forall (fun x => continues x = true) run ->
  Forall (fun x => no_linebreak x = true) (l :: run) ->
  block_ok (l :: run) = true ->
  exists f1 ft,
    process_table_block (l :: run) = Ok (f1 :: ft) /\
    process_table_block (f1 :: ft) = Ok (f1 :: ft) /\
    contains PIPE f1 = true /\
    Forall (fun x => continues x = true) ft /\
    Forall (fun x => no_linebreak x = true) (f1 :: ft).
Proof.
  intros Hl Hrun Hnl Hok.
  assert (forall out, process_table_block (l :: run) = Ok (l :: run) ->
                      out = l :: run ->
                      exists f1 ft,
                        Ok out = Ok (f1 :: ft) /\
                        process_table_block (f1 :: ft) = Ok (f1 :: ft) /\
                        contains PIPE f1 = true /\
                        Forall (fun x => continues x = true) ft /\
                        Forall (fun x => no_linebreak x = true) (f1 :: ft)) as Hsame.
  { intros out E ->. exists l, run. auto. }
  unfold process_table_block in *.
  set (merged := merge_continuation_lines (l :: run)) in *.
  destruct ((length merged <? 2) || negb (existsb (contains PIPE) merged)) eqn:G1;
    [now apply Hsame|].
  destruct (is_valid_table merged) eqn:V; [now apply Hsame|].
  clear Hsame. unfold block_ok, needs_repair in Hok. fold merged in Hok.
  rewrite G1, V in Hok. cbn [negb andb orb] in Hok.
  destruct (@merge_head l run Hl) as [first [rest [Em Hfirst]]]. fold merged in Em.
  assert (Forall (fun x => no_linebreak x = true) (first :: rest)) as Hmnl.
  { rewrite <- Em. unfold merged. now apply no_linebreak_merge. }
  destruct (@fix_table_block_shape first rest Hfirst Hmnl)
    as [E [Hm [Hp [Hh [Hdata Hnonsep]]]]].
  cbv zeta in E, Hm, Hp, Hh, Hdata, Hnonsep. rewrite <- Em in *.
  assert (hd [] merged = first) as Ehd by now rewrite Em.
  unfold rebuilt_stable in Hok. rewrite Ehd in Hok.
  apply andb_true_iff in Hok. destruct Hok as [Hok Hcase].
  apply andb_true_iff in Hok. destruct Hok as [Hstarts Hend].
  assert (forallb (ends_ok (detect_table_style first)) (rebuilt_data merged) = true \/
          detect_separator_pattern (parsed_rows merged) = true \/
          is_separator_row (rebuilt_header merged) = false \/
          5 <= length (rebuilt_data merged)) as Hcase'.
  { apply orb_true_iff in Hcase. destruct Hcase as [Hcase|H5];
      [|right; right; right; now apply Nat.leb_le].
    apply orb_true_iff in Hcase. destruct Hcase as [Hcase|Hh'];
      [|right; right; left; now apply negb_true_iff].
    apply orb_true_iff in Hcase. tauto. }
  destruct (@rebuilt_table_again (detect_table_style first) (max_cols merged)
              (rebuilt_header merged) (rebuilt_data merged)
              (detect_separator_pattern (parsed_rows merged))
              Hm Hp Hh Hdata Hnonsep Hstarts Hend Hcase')
    as [Hagain [Hpipes Hnlout]].
  cbv zeta in Hagain, Hpipes, Hnlout. rewrite E. cbn [map] in *.
  eexists. eexists. split; [reflexivity|]. split; [exact Hagain|].
  inversion Hpipes as [|? ? Hp1 Hpt]; subst.
  split; [exact Hp1|]. split; [|exact Hnlout].
  eapply Forall_impl; [|exact Hpt]. intros x Hx. now apply pipe_continues.
Qed.

(** The lines of the result are a fixed point of the repair. *)
Lemma fix_lines_twice n :
  forall lines,
    length lines <= n ->
    Forall (fun b => block_ok b = true) (table_blocks lines) ->
    Forall (fun l => no_linebreak l = true) lines ->
    exists out,
      fix_lines lines = Ok out /\ fix_lines out = Ok out /\
      Forall (fun l => no_linebreak l = true) out /\
      (lines <> [] -> out <> []) /\
      (last lines [LF] <> [] -> last out [LF] <> []).
Proof.
  induction n as [|n IH]; intros lines Hlen Hblocks Hnl.
  - destruct lines; [|cbn in Hlen; lia].
    exists []. repeat split; auto; constructor.
  - destruct lines as [|l rest].
    { exists []. repeat split; auto; constructor. }
    cbn [length] in Hlen. inversion Hnl as [|? ? Hl Hrest]; subst.
    destruct (contains PIPE l) eqn:Hp.
    + (* a block *)
      rewrite table_blocks_block in Hblocks by assumption.
      inversion Hblocks as [|? ? Hok Hothers]; subst.
      pose proof (takewhile_dropwhile continues rest) as Hsplit.
      assert (Forall (fun x => no_linebreak x = true)
                     (takewhile continues rest ++ dropwhile continues rest)) as Hnl2
          by now rewrite Hsplit.
      apply Forall_app in Hnl2. destruct Hnl2 as [Hnlrun Hnlrest].
      destruct (@process_block_twice l (takewhile continues rest) Hp
                  (takewhile_continues rest) (Forall_cons _ Hl Hnlrun) Hok)
        as [f1 [ft [Ef [Eagain [Hf1 [Hft Hnlf]]]]]].
      destruct (IH (dropwhile continues rest)) as [out' [E' [Eout' [Hnl' [Hne' Hlast']]]]];
        [pose proof (length_dropwhile continues rest); lia | assumption | assumption |].
      pose proof (@block_end_fix _ _ (dropwhile_block_end rest) E') as Hend.
      exists ((f1 :: ft) ++ out').
      split; [rewrite fix_lines_block, Ef, E' by assumption; reflexivity|].
      split.
      { cbn [app]. rewrite fix_lines_block by assumption.
        destruct (@span_block_end ft out' Hft Hend) as [-> ->].
        rewrite Eagain, Eout'. reflexivity. }
      split; [apply Forall_app; auto|].
      split; [discriminate|].
      intros Hlast. destruct out' as [|o out'].
      * rewrite app_nil_r.
        assert (Forall (fun x => continues x = true) (f1 :: ft)) as Hc
            by (constructor; [now apply pipe_continues | assumption]).
        rewrite Forall_forall in Hc. apply continues_nonempty, Hc, last_in.
        discriminate.
      * rewrite last_app_r by discriminate. apply Hlast'.
        destruct (dropwhile continues rest) as [|d rest'] eqn:Ed.
        { unfold fix_lines in E'. cbn in E'. discriminate. }
        rewrite <- Hsplit in Hlast.
        change (l :: takewhile continues rest ++ d :: rest')
          with ((l :: takewhile continues rest) ++ d :: rest') in Hlast.
        rewrite last_app_r in Hlast by discriminate. exact Hlast.
    + (* a line outside a table *)
      rewrite table_blocks_plain in Hblocks by assumption.
      destruct (IH rest) as [out' [E' [Eout' [Hnl' [Hne' Hlast']]]]];
        [lia | assumption | assumption |].
      exists (l :: out').
      split; [rewrite fix_lines_plain, E' by assumption; reflexivity|].
      split; [rewrite fix_lines_plain, Eout' by assumption; reflexivity|].
      split; [constructor; assumption|].
      split; [discriminate|].
      intros Hlast. destruct rest as [|r rest].
      * unfold fix_lines in E'. cbn in E'. inversion E'; subst. exact Hlast.
      * specialize (Hne' ltac:(discriminate)).
        change (l :: out') with ([l] ++ out'). rewrite last_app_r by assumption.
        apply Hlast'. change (l :: r :: rest) with ([l] ++ r :: rest) in Hlast.
        rewrite last_app_r in Hlast by discriminate. exact Hlast.
Qed.

(** C2, as the code has it -- repairing twice is repairing once on the
    texts whose last line is not empty, or that are one empty line, and in
    which every block that is rebuilt becomes a table that is read again as
    it was written: in the pipe style of the block's first row, no rebuilt
    row starts with an empty cell that no leading pipe protects, the header
    does not end with an empty cell that no trailing pipe protects, and if a
    data row ends with such a cell the layout is found again. *)
Theorem repair_twice (x : str) :
  Forall (fun b => block_ok b = true) (table_blocks (splitlines x)) ->
  splitlines x = [[]] \/ last (splitlines x) [LF] <> [] ->
  exists y, fix_invalid_markdown_tables x = Ok y /\
            fix_invalid_markdown_tables y = Ok y.
Proof.
  intros Hblocks [Hone|Hlast].
  - exists []. unfold fix_invalid_markdown_tables. rewrite Hone. split; reflexivity.
  - destruct (@fix_lines_twice (length (splitlines x)) (splitlines x) (Nat.le_refl _)
                Hblocks (splitlines_no_linebreak x))
      as [out [E [Eout [Hnl [_ Hl]]]]].
    exists (join [LF] out). unfold fix_invalid_markdown_tables.
    rewrite E. cbn [bind]. split; [reflexivity|].
    rewrite splitlines_join by auto. rewrite Eout. reflexivity.
Qed.

Lemma repair_twice_witness :
  let x := join [LF] (map of_string
             ["Intro"; ""; "a|b|c"; "1|2"; "more"; ""; "x | y |"; "1 | 2 | 3 |"; "";
              "| p | q |"; "| 1 | 2 | 3 |"]%string)
           ++ [LF] in
  exists y, fix_invalid_markdown_tables x = Ok y /\
            fix_invalid_markdown_tables y = Ok y.
Proof.
  apply (@repair_twice
           (join [LF] (map of_string
              ["Intro"; ""; "a|b|c"; "1|2"; "more"; ""; "x | y |"; "1 | 2 | 3 |"; "";
               "| p | q |"; "| 1 | 2 | 3 |"]%string)
            ++ [LF])).
  - apply Forall_forall, forallb_forall. vm_compute. reflexivity.
  - right. vm_compute. discriminate.
Defined.

End Claude37_round_5_styles.
